(* ===== verification/_CoqProject ===== *)
-Q . S2P
Prelude.v
Bytes.v
Sha256.v
Json.v
JsonParse.v
JsonFacts.v
Crypto.v
Transaction.v
Utxo.v
TxValidation.v
Signing.v
Processing.v
Batch.v
Sample.v
LedgerTheorems.v
Mempool.v
MempoolFacts.v
MempoolSelect.v
MempoolTheorems.v
Merkle.v
Block.v
Consensus.v
ChainState.v
ChainFacts.v
Mining.v
Blockchain.v
BlockchainFacts.v
SampleChain.v
ChainTheorems.v
NodeTheorems.v
Wallet.v
WalletTheorems.v
Codec.v
CodecFacts.v
Database.v
Storage.v
RowFacts.v
StorageFacts.v
RecoverFacts.v
DurableFacts.v
StorageTheorems.v
NetConfig.v
Messages.v
Protocol.v
ProtocolFacts.v
FrameFacts.v
ConfigFacts.v
Effects.v
Peer.v
PeerFacts.v
PeerManager.v
PeerManagerFacts.v
NodeState.v
Sync.v
Node.v
NodeInv.v
NodeSteps.v
SyncFacts.v
NodeFacts.v
NodeLife.v
NodeRun.v
SampleNode.v
NetTheorems.v
Services.v
Explorer.v
ExplorerService.v
ExplorerFacts.v
ExplorerTheorems.v
ApiConfig.v
MiningService.v
MiningTheorems.v
WsManager.v
WsManagerFacts.v
Limits.v
AppDb.v
WalletService.v
WalletServiceFacts.v
WalletServiceTheorems.v
Auth.v
ApiTheorems.v
