(* ===== verification/Prelude.v ===== *)
(** * PyChain: a verification development

    PyChain is a small proof-of-work blockchain in Python: signed transactions
    over unspent outputs, a memory pool, mining, a validated chain with an
    optional SQLite store, a wallet, a peer-to-peer node, and an HTTP API with
    its services.  This library translates them to executable definitions and
    proves what makes them correct.

    ** The program and the files that model it

    - [crypto/]: [Bytes] (text, bytes, hexadecimal, UTF-8), [Sha256] (the digest,
      computed), [Json] ([json.dumps] as the program calls it), [Crypto] (hashes,
      keys, signatures, addresses).
    - [transaction/]: [Transaction] (inputs, outputs, canonical bytes, [txid],
      [sign_input]), [Utxo] ([UTXOSet]), [TxValidation] ([validation.py] and the
      declarative rule [valid_tx]), [Signing], [Processing] and [Batch]
      ([apply_transactions] and the declarative [batch_ok]), [Mempool] with
      [MempoolFacts] and [MempoolSelect].
    - [blockchain/], [consensus/], [mining/]: [Merkle], [Block] (with
      [genesis.py]), [Consensus] ([difficulty.py], [pow.py]), [ChainState] (the
      coinbase and [apply_block_transactions]), [ChainFacts] ([validation.py], the
      relation [chain] and its ledger), [Mining] ([block_template.py],
      [miner.py]), [Blockchain] (the class of [blockchain.py], one definition per
      method) and [BlockchainFacts] (its invariant [bc_inv]).
    - [wallet/]: [Wallet] ([coin_selection.py], [transaction_builder.py] and what
      a built transaction pays), [AppDb] (also the key store of [keystore.py]),
      [WalletService] ([service.py]) with [WalletServiceFacts].
    - [storage/]: [JsonParse] ([json.loads] as the program uses it) with
      [JsonFacts]; [Codec] ([codec.py]) with [CodecFacts]; [Database] (the tables,
      their constraints, transactions, statements that fail); [Storage] (the rows of
      [block_store.py] and [chainstate_store.py] and the class of
      [chain_store.py]) with [RowFacts], [StorageFacts], [RecoverFacts] and
      [DurableFacts].  [sqlite_store] is the instance of [ChainStore].
    - [network/]: [NetConfig] ([config.py]) with [ConfigFacts]; [Messages]
      ([messages.py]); [Protocol] ([protocol.py]) with [ProtocolFacts] and
      [FrameFacts]; [Effects] (the monad of the methods that change an object and
      may raise, and a Hoare triple for it); [Peer] ([TokenBucket],
      [PeerConnection]) with [PeerFacts]; [PeerManager] with [PeerManagerFacts];
      [NodeState] (the state of a node and of its [World]: the clock, random
      numbers and fresh tokens), [Sync] ([sync.py]) with [SyncFacts]; [Node]
      ([node.py]).  [NodeInv] is the invariant, [NodeSteps] and [NodeFacts] show
      that the handlers keep it and what they leave alone, and [NodeLife] and
      [NodeRun] follow the tasks around them.
    - [api/services/]: [Services] (what the services share: errors of the node,
      parameters in text, the view [Served] of the node they are served by),
      [Explorer] (the index of a chain in [explorer_service.py]) with
      [ExplorerFacts], [ExplorerService] (its queries),
      [MiningService] ([mining_service.py]).
    - [api/config.py] is [ApiConfig]; [api/websocket/manager.py] is [WsManager]
      with [WsManagerFacts]; [api/middleware/] is [Limits].
    - [appdb/] is [AppDb]; [auth/] and [api/routes/auth.py] are [Auth].
    - [Sample], [SampleChain] and [SampleNode] hold a toy signature scheme and
      concrete transactions, blocks and a node; the witnesses evaluate them.

    A block flows through the parts as in the code: [create_mempool_block_template]
    asks the pool for a selection ([select_transactions]), replays it for its fees
    ([apply_transactions]) and adds a coinbase; [mine_block] searches a nonce;
    [add_block] validates the header and body, applies the block to a copy of the
    ledger ([apply_block_transactions]), revalidates the pool, and commits.  From a
    peer, a block is a frame that a reader takes from its socket ([read_prefix],
    [read_body]), an event in the node's queue ([put_event]), and a call of
    [receive_blocks] by the dispatcher ([dispatch]), which ends in [add_block].
    From the API, it is a job of [MiningService], whose worker asks the node for a
    template and submits what its thread found; a payment is a [Send] of
    [WalletService], which asks the node for the outputs of an address, records
    the transaction it signed, and submits it.

    ** What the theorems show

    - [LedgerTheorems]: a transaction is accepted exactly under [valid_tx]; a
      batch exactly under [batch_ok], and its effect on value and outputs.
    - [MempoolTheorems]: the pool's invariant under every operation, what
      removal keeps, and that selections apply in order, are maximal and
      terminate.
    - [ChainTheorems]: chain validation is the relation [chain]; the ledger of a
      valid chain is determined by its transactions, never spends twice and
      issues at most the subsidies; commitment of the Merkle root, proof of
      work, the nonce search.
    - [NodeTheorems]: reachable objects are consistent; what [add_block] does in
      memory and on any store; operations happen entirely or not at all; a block
      mined on a candidate from the pool is refused only for a timestamp in the
      far future or a repeated hash; queries answer from the validated chain.
    - [WalletTheorems]: coin selection is exact and minimal; what the builder
      signs is valid and pays what was asked.
    - [StorageTheorems]: the codec is a bijection between well-formed values and
      canonical bytes, and decoding arbitrary bytes yields only such values; a
      write of the store is atomic whatever statement fails; loading accepts
      exactly the files of a valid chain; a blockchain on a database can be
      opened again after any calls and faults.
    - [NetTheorems]: frames and items carry what was sent; bytes of a peer raise
      only the errors the reader handles; the policy on addresses; an accepted
      configuration is normal.  Every node reachable by any interleaving of its
      tasks is within its limits and accounts for all it holds; no message of a
      peer stops it; a call is queued or refused; a stopped node holds nothing;
      the pages of a snapshot and the rate of a token bucket are exact.
    - [ExplorerTheorems]: the index of a chain is its ledger (balances, unspent
      outputs, the history of an address, the two ends of a payment); a query
      answers from one chain although its node moves between its awaits; the
      pages of a snapshot are exact.
    - [MiningTheorems]: whatever requests, workers, threads and cancellations
      interleave, at most one job mines, the counters agree with the jobs, a
      cancelled job stays cancelled; a job that is accepted was mined on a
      template of the node and is a block the node added.
    - [WalletServiceTheorems]: the balances of a wallet add up; what [_send]
      prepares the node would accept; a key of a user is submitted with at most
      one transaction whatever fails or is repeated; an account is made with its
      wallet or not at all.
    - [Limits]: a quota admits a request exactly when fewer than its bound were
      admitted in the window; a body is passed on exactly when it is within the
      limit, whatever its framing claims.
    - [Auth]: the attempts of an address in a window are bounded; a form token is
      accepted exactly when it is bound to the session; a session opens what
      [read_session] then accepts, until it is logged out or expires.
    - [ApiTheorems]: a configuration that is constructed satisfies the stated
      policy; the reservations of a websocket manager are those of its handlers
      and within their bounds under every interleaving; what a broadcast leaves
      in the queues, and the one message that makes it raise.

    ** How the program is read

    - Values have their annotated types, so the [isinstance] and [type(x) is int]
      guards of the code disappear and its range guards stay.  Integers are
      unbounded as in Python; the interpreter's limits on the digits of an integer
      and on recursion are not modelled.
    - A [str] is a list of code points below 256 ([String.string]).
    - Fallible code returns [result], with the exception class; [try]/[except]
      is [try_except] with the classes the code lists.
    - The code never shares a mutable object between components without
      [deepcopy] or [copy]; values are therefore immutable here and a method that
      mutates its object returns the new one.
    - The clock is an argument.  Packages are classes with the laws that their
      documentation states: [ecdsa] is [EcdsaLib] and [EcdsaLaws], [cryptography]'s
      Fernet is [FernetLib], argon2 is [PasswordLib], [jwt] is [JwtLib] and
      [JwtLaws].  The persistent store is the class [ChainStore].  SHA-256 is
      computed; statements that need collision resistance have the alternative
      [sha256_collision].
    - Durations and times of the network are rationals ([Q]): the code adds,
      compares and multiplies floats, and the rounding of floats is not modelled.
    - An [async] method is cut at its awaits.  What runs between two awaits is
      one definition; what another task can do meanwhile is another step of the
      relation ([node_step] for a node, and the step relation of each service), so
      its runs are all interleavings.  Sockets, timeouts and cancellation decide
      which step is next.  [world_ok] states what the code relies on from
      [secrets]: tokens have the shape the protocol asks for.
    - A service sees its node through commands: an await of [Node.query] or
      [Node.submit] answers what the dispatcher answers at that moment, after any
      steps of the node, or the error of a node that is busy or closed.
    - Any SQL statement may fail: [Database] and [AppDb] take the outcome of each
      from the state, and a failed [COMMIT] may or may not have reached the disk.
    - Loops are structural; those that need fuel get it from their input.
      [merkle_loop] gets one unit per leaf (a level is at most half as long as the
      one before, and [merkle_root_defined] shows that more changes nothing).
      [select_loop] gets one unit per pool entry (every round selects one, and
      [selection_greedy] shows that the loop has stopped by itself).  The parser of
      [JsonParse] gets the length of the text, which it never exhausts, and
      [str_replace] the length of its text.  [fetch_blocks] gets one unit per block
      that it needs, since every round appends at least one or raises.

    ** What is not modelled

    Key generation and randomness, file handling, logging, the reading of
    environment variables, the routes and response models that FastAPI and
    pydantic call around the services (the routes of authentication are), the
    registration of handlers and error pages in [api/app.py], the command-line
    programs ([mine.py], [run_api.py], [network/__main__.py]) and the web
    client. *)

From Stdlib Require Export ZArith Lia.
From stdpp Require Export prelude strings gmap list sorting.

Open Scope Z_scope.

(** ** Python exceptions and fallible computations *)

(** The exception classes the modelled code raises or catches.  [UnicodeError],
    [json.JSONDecodeError] and [binascii.Error] are subclasses of [ValueError]
    that nothing distinguishes from it.  [SqliteError] is [sqlite3.Error],
    [SqliteCorrupt] one with the code [SQLITE_CORRUPT] or [SQLITE_NOTADB], and
    [SqliteIntegrity] its subclass [sqlite3.IntegrityError].  [APIError] keeps
    the status and the code of an answer and drops its message.
    [BeyondLatin1] is not a Python exception: it marks input text with a code
    point above 255, which the strings of this development do not have; no
    handler catches it. *)
Inductive exn :=
  | AttributeError
  | IndexError
  | KeyError
  | TypeError
  | ValueError
  | OverflowError
  | RuntimeError
  | RecursionError
  | ZeroDivisionError
  | MalformedPointError
  | InsufficientBalanceError
  | TransactionWorkLimitError
  | StorageError
  | StorageCorruptionError
  | StorageVersionError
  | StorageConflictError
  | StorageClosedError
  | StorageCommitUncertainError
  | StorageConfigurationError
  | NetworkError
  | ProtocolError
  | PolicyLimitError
  | PeerDisconnectedError
  | NodeClosedError
  | NodeBusyError
  | QueueFull
  | OSError
  | TimeoutError
  | IncompleteReadError
  | SqliteError
  | SqliteCorrupt
  | SqliteIntegrity
  | APIError (status : Z) (code : string)
  | KeyStoreError
  | TokenError
  | InvalidToken
  | DuplicateAccountError
  | BeyondLatin1.

#[export] Instance exn_eq_dec : EqDecision exn.
Proof. solve_decision. Defined.

(** [isinstance(e, StorageError)]: [storage/errors.py] declares the other
    storage exceptions as its subclasses. *)
Definition is_storage_error (e : exn) : bool :=
  match e with
  | StorageError | StorageCorruptionError | StorageVersionError | StorageConflictError
  | StorageClosedError | StorageCommitUncertainError | StorageConfigurationError => true
  | _ => false
  end.

(** [isinstance(e, NetworkError)]: the subclasses of [network/errors.py]. *)
Definition is_network_error (e : exn) : bool :=
  match e with
  | NetworkError | ProtocolError | PolicyLimitError | PeerDisconnectedError
  | NodeClosedError | NodeBusyError => true
  | _ => false
  end.

(** A Python call either returns or raises. *)
Inductive result (A : Type) :=
  | Ok (a : A)
  | Raise (e : exn).
Arguments Ok {A} a.
Arguments Raise {A} e.

#[export] Instance result_eq_dec `{EqDecision A} : EqDecision (result A).
Proof. solve_decision. Defined.

#[export] Instance Ok_inj {A} : Inj (=) (=) (@Ok A).
Proof. by intros ?? [= ->]. Qed.

#[export] Instance result_ret : MRet result := @Ok.
#[export] Instance result_bind : MBind result := λ A B f m,
  match m with Ok a => f a | Raise e => Raise e end.
#[export] Instance result_fmap : FMap result := λ A B f m,
  match m with Ok a => Ok (f a) | Raise e => Raise e end.

(** [if b: raise e] *)
Definition raise_if (b : bool) (e : exn) : result unit :=
  if b then Raise e else Ok tt.

(** [try: m; except <caught>: return h] *)
Definition try_except {A} (m : result A) (caught : list exn) (h : A) : result A :=
  match m with
  | Ok a => Ok a
  | Raise e => if bool_decide (e ∈ caught) then Ok h else Raise e
  end.

(** [try: m; except <caught>: raise e'] *)
Definition reraise_as {A} (m : result A) (caught : list exn) (e' : exn) : result A :=
  match m with
  | Ok a => Ok a
  | Raise e => if bool_decide (e ∈ caught) then Raise e' else Raise e
  end.

(** [[f(x) for x in l]] where [f] may raise: the first exception wins. *)
Fixpoint map_result {A B} (f : A → result B) (l : list A) : result (list B) :=
  match l with
  | [] => Ok []
  | x :: l => y ← f x; ys ← map_result f l; Ok (y :: ys)
  end.

(** Rewriting with these keeps large handlers folded. *)
Lemma Ok_bind {A B} (a : A) (f : A → result B) : Ok a ≫= f = f a.
Proof. done. Qed.
Lemma raise_if_false {B} e (f : unit → result B) : raise_if false e ≫= f = f tt.
Proof. done. Qed.
Lemma raise_if_true {B} e (f : unit → result B) : raise_if true e ≫= f = Raise e.
Proof. done. Qed.

Lemma bind_Ok {A B} (m : result A) (f : A → result B) b :
  m ≫= f = Ok b ↔ ∃ a, m = Ok a ∧ f a = Ok b.
Proof. destruct m; cbn; split; [eauto|by intros (? & [= ->] & ?)|done|by intros (? & ? & ?)]. Qed.

Lemma bind_Raise {A B} (m : result A) (f : A → result B) e :
  m ≫= f = Raise e ↔ m = Raise e ∨ ∃ a, m = Ok a ∧ f a = Raise e.
Proof.
  destruct m as [a|x]; cbn; split.
  - intros H. right. by exists a.
  - intros [H|(a' & H & Hf)]; congruence.
  - intros [= ->]. by left.
  - intros [H|(a' & H & Hf)]; congruence.
Qed.

Lemma fmap_Ok {A B} (f : A → B) (m : result A) b : f <$> m = Ok b ↔ ∃ a, m = Ok a ∧ f a = b.
Proof. destruct m; cbn; split; [intros [= <-]; eauto|by intros (? & [= ->] & <-)|done|by intros (? & ? & ?)]. Qed.

Lemma fmap_Raise {A B} (f : A → B) (m : result A) e : f <$> m = Raise e ↔ m = Raise e.
Proof. destruct m; cbn; split; congruence. Qed.

Lemma raise_if_Raise b e e' : raise_if b e = Raise e' ↔ b = true ∧ e = e'.
Proof. destruct b; cbn; split; [by intros [= <-]|by intros [_ <-]|done|by intros [? _]]. Qed.

Lemma raise_if_Ok b e u : raise_if b e = Ok u ↔ b = false.
Proof. by destruct b, u. Qed.

Lemma reraise_as_Ok {A} (m : result A) c e a : reraise_as m c e = Ok a ↔ m = Ok a.
Proof. destruct m as [x|x]; cbn; [done|]. by case_bool_decide. Qed.

Lemma map_result_Ok {A B} (f : A → result B) l ys :
  map_result f l = Ok ys ↔ Forall2 (λ x y, f x = Ok y) l ys.
Proof.
  revert ys. induction l as [|x l IH]; intros ys; cbn.
  - split; [intros [= <-]; constructor|by inversion 1].
  - split.
    + intros (y & Hy & (ys' & Hys%IH & [= <-])%bind_Ok)%bind_Ok. by constructor.
    + inversion 1 as [|?? ?? Hx Hl]; subst. rewrite Hx; cbn. by rewrite (proj2 (IH _) Hl).
Qed.

(** ** Automation *)

(** Invert the monadic equations, boolean guards and option equations of the
    context, one constructor at a time. *)
Ltac inv_result :=
  repeat match goal with
  | H : (_ ≫= _) = Ok _ |- _ => apply bind_Ok in H as (? & ? & ?)
  | H : raise_if _ _ = Ok _ |- _ => apply raise_if_Ok in H
  | H : reraise_as _ _ _ = Ok _ |- _ => apply reraise_as_Ok in H
  | H : Ok _ = Ok _ |- _ => injection H as H; try subst
  | H : Some _ = Some _ |- _ => injection H as H; try subst
  | H : Raise _ = Ok _ |- _ => discriminate H
  | H : Ok _ = Raise _ |- _ => discriminate H
  | H : None = Some _ |- _ => discriminate H
  | H : Some _ = None |- _ => discriminate H
  end.

(** Turn boolean tests into propositions. *)
Ltac to_prop :=
  repeat match goal with
  | H : _ && _ = true |- _ => apply andb_true_iff in H as [? ?]
  | H : _ || _ = false |- _ => apply orb_false_iff in H as [? ?]
  | H : negb _ = true |- _ => apply negb_true_iff in H
  | H : negb _ = false |- _ => apply negb_false_iff in H
  | H : (_ <? _)%Z = true |- _ => apply Z.ltb_lt in H
  | H : (_ <? _)%Z = false |- _ => apply Z.ltb_ge in H
  | H : (_ <=? _)%Z = true |- _ => apply Z.leb_le in H
  | H : (_ <=? _)%Z = false |- _ => apply Z.leb_gt in H
  | H : (_ =? _)%Z = true |- _ => apply Z.eqb_eq in H
  | H : (_ =? _)%Z = false |- _ => apply Z.eqb_neq in H
  | H : (_ <? _)%N = true |- _ => apply N.ltb_lt in H
  | H : (_ <? _)%N = false |- _ => apply N.ltb_ge in H
  | H : (_ <=? _)%N = true |- _ => apply N.leb_le in H
  | H : (_ <=? _)%N = false |- _ => apply N.leb_gt in H
  | H : (_ =? _)%N = true |- _ => apply N.eqb_eq in H
  | H : (_ =? _)%nat = true |- _ => apply Nat.eqb_eq in H
  | H : (_ =? _)%nat = false |- _ => apply Nat.eqb_neq in H
  | H : (_ <=? _)%nat = true |- _ => apply Nat.leb_le in H
  | H : (_ <? _)%nat = true |- _ => apply Nat.ltb_lt in H
  | H : bool_decide _ = true |- _ => apply bool_decide_eq_true in H
  | H : bool_decide _ = false |- _ => apply bool_decide_eq_false in H
  | H : forallb _ _ = true |- _ => rewrite forallb_forall in H
  end.

(** Case analysis on the scrutinee of a [match]/[if] of a hypothesis. *)
Ltac destruct_match_in H :=
  match type of H with
  | context [match ?x with _ => _ end] =>
      lazymatch x with
      | context [match _ with _ => _ end] => fail
      | _ => let E := fresh "E" in destruct x eqn:E
      end
  end.
Tactic Notation "case_match_in" hyp(H) := destruct_match_in H; try discriminate H.

Create HintDb pychain.

(** ** Sums over lists of integers *)

Fixpoint sumZ_with {A} (f : A → Z) (l : list A) : Z :=
  match l with [] => 0 | x :: l => f x + sumZ_with f l end.

Section sumZ.
Context {A : Type}.
Implicit Types (f g : A → Z) (l : list A).

Lemma sumZ_with_app f l1 l2 : sumZ_with f (l1 ++ l2) = sumZ_with f l1 + sumZ_with f l2.
Proof. induction l1; cbn; lia. Qed.

Lemma sumZ_with_nonneg f l : Forall (λ x, 0 <= f x) l → 0 <= sumZ_with f l.
Proof. induction 1; cbn; lia. Qed.

Lemma sumZ_with_ext f g l : (∀ x, x ∈ l → f x = g x) → sumZ_with f l = sumZ_with g l.
Proof.
  induction l as [|x l IH]; intros Hfg; cbn; [done|].
  rewrite IH by set_solver. rewrite Hfg; set_solver.
Qed.

#[export] Instance sumZ_with_proper f : Proper ((≡ₚ) ==> (=)) (sumZ_with f).
Proof. induction 1; cbn; lia. Qed.

(** Adding up fewer non-negative terms gives less. *)
Lemma sumZ_with_submseteq f l k :
  (∀ x, x ∈ k → 0 <= f x) → l ⊆+ k → sumZ_with f l <= sumZ_with f k.
Proof.
  intros Hf [k' Hk]%submseteq_Permutation. rewrite Hk, sumZ_with_app.
  enough (0 <= sumZ_with f k') by lia. apply sumZ_with_nonneg, Forall_forall.
  intros x Hx. apply Hf. rewrite Hk. set_solver.
Qed.
End sumZ.

Lemma sumZ_with_fmap {A B} (g : A → B) (f : B → Z) l :
  sumZ_with f (g <$> l) = sumZ_with (f ∘ g) l.
Proof. induction l; cbn; [done|]. by f_equal. Qed.

#[export] Hint Resolve sumZ_with_nonneg : pychain.

(** ** Lists without repetitions, decided *)

(** [len(set(l)) == len(l)] *)
Definition all_distinct `{EqDecision A} (l : list A) : bool := bool_decide (NoDup l).

Lemma all_distinct_true `{EqDecision A} (l : list A) : all_distinct l = true ↔ NoDup l.
Proof. apply bool_decide_eq_true. Qed.

Lemma NoDup_sub {A} (l k : list A) : l ⊆+ k → NoDup k → NoDup l.
Proof.
  intros [k' Hk']%submseteq_Permutation Hnd. rewrite Hk' in Hnd.
  by apply NoDup_app in Hnd as (? & _ & _).
Qed.

Lemma NoDup_fst_inj {A B} (l : list (A * B)) p q :
  NoDup l.*1 → p ∈ l → q ∈ l → p.1 = q.1 → p = q.
Proof.
  intros Hnd [i Hi]%list_elem_of_lookup [j Hj]%list_elem_of_lookup Hk.
  assert (i = j) as <-; [|congruence].
  eapply (NoDup_lookup _ _ _ p.1 Hnd); rewrite list_lookup_fmap; [by rewrite Hi|rewrite Hj; cbn; congruence].
Qed.

Lemma alter_some `{Countable K} {A} (f : A → A) (m : gmap K A) i x : m !! i = Some x → alter f i m = <[i := f x]> m.
Proof.
  intros Hl. apply map_eq. intros j. rewrite lookup_alter, lookup_insert. case_decide; [subst; by rewrite Hl|done].
Qed.
