(* ===== verification/Bytes.v ===== *)
(** * Python strings and bytes

    [str] values are Stdlib strings, one [ascii] per code point, so the model
    covers the code points 0 to 255; [bytes] values are lists of bytes.  The
    file holds the string and bytes methods the program uses: slicing,
    [str.encode], [bytes.hex], [bytes.fromhex], [int(s, 16)], [str.strip] and the
    test for 64 lowercase hexadecimal digits that three modules of the program
    repeat. *)

From Stdlib Require Import Strings.Byte Strings.Ascii.
From Stdlib Require Strings.String.
From S2P Require Import Prelude.

Abbreviation bytes := (list byte).
Abbreviation list_byte_of_string := String.list_byte_of_string.

#[export] Instance byte_eq_dec : EqDecision byte := Byte.byte_eq_dec.

(** ** Slices and lengths *)

(** [s[:n]] *)
Fixpoint str_take (n : nat) (s : string) : string :=
  match n, s with
  | S n, String c s => String c (str_take n s)
  | _, _ => EmptyString
  end.

(** [s[n:]] *)
Fixpoint str_drop (n : nat) (s : string) : string :=
  match n, s with
  | O, _ => s
  | S n, String _ s => str_drop n s
  | S _, EmptyString => EmptyString
  end.

(** [len(s)] *)
Definition str_len (s : string) : nat := String.length s.

(** [all(p(c) for c in s)] *)
Fixpoint str_forall (p : ascii → bool) (s : string) : bool :=
  match s with
  | EmptyString => true
  | String c s => p c && str_forall p s
  end.

Lemma str_app_nil t : EmptyString +:+ t = t.
Proof. done. Qed.
Lemma str_app_cons c s t : String c s +:+ t = String c (s +:+ t).
Proof. done. Qed.

Lemma str_len_app s t : str_len (s +:+ t) = (str_len s + str_len t)%nat.
Proof. unfold str_len. induction s as [|c s IH]; simpl; [done|]. by rewrite IH. Qed.

Lemma str_take_drop n s : str_take n s +:+ str_drop n s = s.
Proof. revert s. induction n as [|n IH]; intros [|c s]; simpl; [done..|]. by rewrite str_app_cons, IH. Qed.

Lemma str_prefix_drop p a : String.prefix p a = true → a = p +:+ str_drop (str_len p) a.
Proof.
  revert a. induction p as [|c p IH]; intros a; [by intros _; rewrite str_app_nil|].
  destruct a as [|c' a]; [done|]. simpl. destruct (Ascii.ascii_dec c c') as [<-|]; [|done].
  intros Hp. by rewrite str_app_cons, <- (IH a Hp).
Qed.

Lemma length_list_byte_of_string s : length (list_byte_of_string s) = str_len s.
Proof.
  unfold list_byte_of_string. rewrite length_map.
  induction s as [|c s IH]; cbn; [done|]. unfold str_len in *. by rewrite IH.
Qed.

Lemma str_len_take n s : str_len (str_take n s) = (n `min` str_len s)%nat.
Proof. unfold str_len. revert s. induction n; intros [|c s]; cbn; auto. Qed.

Lemma str_take_app s t : str_take (str_len s) (s +:+ t) = s.
Proof. unfold str_len. induction s as [|c s IH]; simpl; [by destruct t|]. by rewrite IH. Qed.

Lemma str_drop_app s t : str_drop (str_len s) (s +:+ t) = t.
Proof. by induction s. Qed.

Lemma str_forall_app p s t : str_forall p (s +:+ t) = str_forall p s && str_forall p t.
Proof. induction s as [|c s IH]; simpl; [done|]. rewrite IH. by destruct (p c). Qed.

Lemma str_forall_take p n s : str_forall p s = true → str_forall p (str_take n s) = true.
Proof.
  revert s. induction n; intros [|c s]; cbn; [done..|].
  intros [-> ?]%andb_true_iff. cbn; auto.
Qed.

(** ** Encodings *)

Definition code (c : ascii) : N := N_of_ascii c.

(** [s.encode()]: UTF-8, two bytes for the code points 128 to 255. *)
Fixpoint utf8_encode (s : string) : bytes :=
  match s with
  | EmptyString => []
  | String c s =>
      if (code c <? 128)%N then byte_of_ascii c :: utf8_encode s
      else byte_of_ascii (ascii_of_N (192 + code c / 64))
           :: byte_of_ascii (ascii_of_N (128 + code c mod 64)) :: utf8_encode s
  end.

Definition hex_digit (n : N) : ascii :=
  ascii_of_N (if (n <? 10)%N then 48 + n else 87 + n)%N.

(** [b.hex()] *)
Fixpoint bytes_hex (b : bytes) : string :=
  match b with
  | [] => EmptyString
  | x :: b =>
      String (hex_digit (Byte.to_N x / 16))
        (String (hex_digit (Byte.to_N x mod 16)) (bytes_hex b))
  end.

(** The value of a hexadecimal digit of either case. *)
Definition hex_value (c : ascii) : option N :=
  let n := code c in
  (if (48 <=? n) && (n <=? 57) then Some (n - 48)
   else if (97 <=? n) && (n <=? 102) then Some (n - 87)
   else if (65 <=? n) && (n <=? 70) then Some (n - 55)
   else None)%N.

(** ASCII white space, as [bytes.fromhex] skips it between bytes. *)
Definition is_ascii_space (c : ascii) : bool :=
  let n := code c in ((n =? 32) || ((9 <=? n) && (n <=? 13)))%N.

(** [bytes.fromhex(s)] *)
Fixpoint bytes_fromhex (s : string) : result bytes :=
  match s with
  | EmptyString => Ok []
  | String c s1 =>
      if is_ascii_space c then bytes_fromhex s1
      else match s1 with
           | EmptyString => Raise ValueError
           | String d s2 =>
               match hex_value c, hex_value d with
               | Some h, Some l =>
                   match Byte.of_N (16 * h + l) with
                   | Some x => rest ← bytes_fromhex s2; Ok (x :: rest)
                   | None => Raise ValueError
                   end
               | _, _ => Raise ValueError
               end
           end
  end.

(** [c in "0123456789abcdef"] *)
Definition is_lower_hex (c : ascii) : bool :=
  let n := code c in (((48 <=? n) && (n <=? 57)) || ((97 <=? n) && (n <=? 102)))%N.

(** [int(s, 16)] of a string of hexadecimal digits. *)
Definition int_of_hex (s : string) : Z :=
  (fix go (acc : Z) (s : string) : Z :=
     match s with
     | EmptyString => acc
     | String c s => go (16 * acc + Z.of_N (default 0%N (hex_value c))) s
     end) 0 s.

(** The 64-digit test of [blockchain/validation.py], [consensus/pow.py] and
    [storage/chainstate_store.py]. *)
Definition is_hash (value : string) : bool :=
  (str_len value =? 64)%nat && str_forall is_lower_hex value.

(** ** Lemmas *)

(** Facts about one byte, checked on all 256 of them. *)
Lemma byte_hex_facts (x : byte) :
  let h := hex_digit (Byte.to_N x / 16) in
  let l := hex_digit (Byte.to_N x mod 16) in
  (is_lower_hex h = true ∧ is_lower_hex l = true) ∧ is_ascii_space h = false ∧
  ∃ h2 l2, hex_value h = Some h2 ∧ hex_value l = Some l2 ∧ Byte.of_N (16 * h2 + l2) = Some x.
Proof. destruct x; vm_compute; repeat split; do 2 eexists; repeat split. Qed.

Lemma str_len_bytes_hex b : str_len (bytes_hex b) = (2 * length b)%nat.
Proof. unfold str_len. induction b; cbn; lia. Qed.

Lemma bytes_hex_lower b : str_forall is_lower_hex (bytes_hex b) = true.
Proof.
  induction b as [|x b IH]; [done|].
  destruct (byte_hex_facts x) as [[Hh Hl] _].
  cbn [bytes_hex str_forall]. by rewrite Hh, Hl, IH.
Qed.

Lemma bytes_fromhex_hex b : bytes_fromhex (bytes_hex b) = Ok b.
Proof.
  induction b as [|x b IH]; [done|].
  destruct (byte_hex_facts x) as (_ & Hs & h & l & Hh & Hl & Hx).
  cbn [bytes_hex bytes_fromhex]. rewrite Hs, Hh, Hl, Hx, IH. done.
Qed.

Lemma bytes_fromhex_cons2 c d s :
  bytes_fromhex (String c (String d s)) =
  if is_ascii_space c then bytes_fromhex (String d s)
  else match hex_value c, hex_value d with
       | Some h, Some l =>
           match Byte.of_N (16 * h + l) with
           | Some x => rest ← bytes_fromhex s; Ok (x :: rest)
           | None => Raise ValueError
           end
       | _, _ => Raise ValueError
       end.
Proof. done. Qed.

Lemma bytes_fromhex_raises s e : bytes_fromhex s = Raise e → e = ValueError.
Proof.
  induction s as [s IH] using (well_founded_induction (well_founded_ltof _ str_len)).
  destruct s as [|c [|d s]]; [done|cbn; by case_match; cbn; intros; simplify_eq|].
  rewrite bytes_fromhex_cons2. case_match.
  { apply IH. unfold ltof, str_len. cbn. lia. }
  do 3 (case_match; [|by intros [= <-]]). intros [Hs|(? & _ & Hs)]%bind_Raise; [|done].
  revert Hs. apply IH. unfold ltof, str_len. cbn. lia.
Qed.

Lemma bytes_hex_inj : Inj (=) (=) bytes_hex.
Proof. intros a b H. apply (f_equal bytes_fromhex) in H. rewrite !bytes_fromhex_hex in H. by injection H. Qed.

Lemma is_hash_bytes_hex b : length b = 32%nat → is_hash (bytes_hex b) = true.
Proof.
  intros Hb. unfold is_hash. rewrite str_len_bytes_hex, Hb, bytes_hex_lower. done.
Qed.

(** Conversely, a 64-digit lower-case text is the hexadecimal form of 32 bytes. *)
Lemma lower_hex_digit c : is_lower_hex c = true → ∃ n, c = hex_digit n ∧ (n < 16)%N.
Proof.
  unfold is_lower_hex, hex_digit, code. intros H. rewrite <- (ascii_N_embedding c).
  apply orb_true_iff in H as [H|H]; to_prop.
  - exists (N_of_ascii c - 48)%N. split; [|lia].
    rewrite (proj2 (N.ltb_lt _ _)) by lia. f_equal. lia.
  - exists (N_of_ascii c - 87)%N. split; [|lia].
    rewrite (proj2 (N.ltb_ge _ _)) by lia. f_equal. lia.
Qed.

Lemma byte_of_digits h l :
  (h < 16)%N → (l < 16)%N → ∃ x, bytes_hex [x] = String (hex_digit h) (String (hex_digit l) EmptyString).
Proof.
  intros Hh Hl. destruct (Byte.of_N (16 * h + l)) as [x|] eqn:Hx.
  - apply Byte.to_of_N in Hx. exists x. cbn [bytes_hex]. rewrite Hx.
    assert (((16 * h + l) / 16)%N = h) as -> by (symmetry; apply (N.div_unique _ _ _ l); lia).
    assert (((16 * h + l) mod 16)%N = l) as -> by (symmetry; apply (N.mod_unique _ _ h); lia).
    done.
  - apply Byte.of_N_None_iff in Hx. lia.
Qed.

Lemma lower_hex_is_bytes_hex n : ∀ s,
  str_len s = (2 * n)%nat → str_forall is_lower_hex s = true → ∃ b, s = bytes_hex b ∧ length b = n.
Proof.
  induction n as [|n IH]; intros [|c [|d s]] Hlen Hs; cbn in Hlen; try lia.
  - by exists [].
  - cbn in Hs. to_prop. destruct (lower_hex_digit c) as (h & -> & ?); [done|].
    destruct (lower_hex_digit d) as (l & -> & ?); [done|].
    destruct (byte_of_digits h l) as [x Hx]; [done..|].
    destruct (IH s) as (b & -> & <-); [unfold str_len in *; lia|done|].
    exists (x :: b). split; [|done]. cbn [bytes_hex] in *. by injection Hx as -> ->.
Qed.

Lemma is_hash_is_bytes_hex h : is_hash h = true → ∃ b, h = bytes_hex b ∧ length b = 32%nat.
Proof.
  unfold is_hash. intros H. to_prop. by apply (lower_hex_is_bytes_hex 32).
Qed.

Lemma hex_value_bound c n : hex_value c = Some n → (n < 16)%N.
Proof. unfold hex_value. intros H. repeat case_match; simplify_eq; to_prop; lia. Qed.

Lemma int_of_hex_bound s : 0 <= int_of_hex s < 16 ^ Z.of_nat (str_len s).
Proof.
  unfold int_of_hex.
  assert (∀ k s acc, 0 <= acc < 16 ^ k → 0 <= k →
    0 <= (fix go (acc : Z) (s : string) : Z :=
       match s with
       | EmptyString => acc
       | String c s => go (16 * acc + Z.of_N (default 0%N (hex_value c))) s
       end) acc s < 16 ^ (k + Z.of_nat (str_len s))) as Hgo.
  { clear s. intros k s. revert k. induction s as [|c s IH]; intros k acc Hacc Hk; cbn.
    - by rewrite Z.add_0_r.
    - replace (k + _) with ((k + 1) + Z.of_nat (str_len s)) by (unfold str_len; lia).
      apply IH; [|lia]. rewrite Z.pow_add_r by lia.
      assert (0 <= Z.of_N (default 0%N (hex_value c)) < 16)
        by (destruct (hex_value c) eqn:E; [apply hex_value_bound in E|]; cbn; lia).
      lia. }
  apply (Hgo 0 s 0); lia.
Qed.

#[export] Hint Resolve is_hash_bytes_hex bytes_hex_lower : pychain.

(** ** White space *)

(** [c.isspace()] for code points below 256. *)
Definition is_space (c : ascii) : bool :=
  (let n := code c in
   ((9 <=? n) && (n <=? 13)) || ((28 <=? n) && (n <=? 32)) || (n =? 133) || (n =? 160))%N.

(** [s.lstrip(...)] and [s.rstrip(...)]: a character at the end goes when only
    such characters follow. *)
Fixpoint lstrip (p : ascii → bool) (s : string) : string :=
  match s with
  | String c s' => if p c then lstrip p s' else s
  | EmptyString => EmptyString
  end.

Fixpoint rstrip (p : ascii → bool) (s : string) : string :=
  match s with
  | EmptyString => EmptyString
  | String c s =>
      let t := rstrip p s in
      if p c && bool_decide (t = EmptyString) then EmptyString else String c t
  end.

(** Text without such characters is left alone. *)
Lemma rstrip_plain p s : str_forall (λ c, negb (p c)) s = true → rstrip p s = s.
Proof.
  induction s as [|c s IH]; [done|]. cbn [str_forall rstrip]. intros [Hc%negb_true_iff Hs]%andb_true_iff. by rewrite IH, Hc.
Qed.

Lemma lstrip_plain p s : str_forall (λ c, negb (p c)) s = true → lstrip p s = s.
Proof. destruct s as [|c s]; [done|]. cbn [str_forall lstrip]. intros [Hc%negb_true_iff _]%andb_true_iff. by rewrite Hc. Qed.
