(* ===== verification/Sha256.v ===== *)
(** * SHA-256

    [hashlib.sha256], the hash of the Python standard library the program
    builds every identifier on, written out as FIPS 180-4 defines it: 32-bit
    words are [N] values masked after each addition and left shift.  It
    computes, so the constants the program commits to can be checked. *)

From Stdlib Require Import Strings.Byte.
From S2P Require Import Prelude Bytes.

(** ** 32-bit words *)

Definition mask32 : N := 0xffffffff.
Definition add32 (a b : N) : N := N.land (a + b) mask32.
Definition rotr (n x : N) : N :=
  N.lor (N.shiftr x n) (N.land (N.shiftl x (32 - n)) mask32).

Definition Ch (x y z : N) : N := N.lxor (N.land x y) (N.land (N.lxor x mask32) z).
Definition Maj (x y z : N) : N := N.lxor (N.lxor (N.land x y) (N.land x z)) (N.land y z).
Definition big_sigma0 (x : N) : N := N.lxor (N.lxor (rotr 2 x) (rotr 13 x)) (rotr 22 x).
Definition big_sigma1 (x : N) : N := N.lxor (N.lxor (rotr 6 x) (rotr 11 x)) (rotr 25 x).
Definition small_sigma0 (x : N) : N :=
  N.lxor (N.lxor (rotr 7 x) (rotr 18 x)) (N.shiftr x 3).
Definition small_sigma1 (x : N) : N :=
  N.lxor (N.lxor (rotr 17 x) (rotr 19 x)) (N.shiftr x 10).

(** The standard takes its constants from the first 32 bits of the fractional
    parts of the cube roots of the first 64 primes, and of the square roots of
    the first eight; they are computed here from that definition. *)
Definition is_prime (n : N) : bool :=
  forallb (λ d, negb (N.modulo n (N.of_nat d) =? 0)%N) (seq 2 (Nat.sqrt (N.to_nat n) - 1)).

Definition first_primes : list N := Eval vm_compute in filter is_prime (N.of_nat <$> seq 2 310).

(** The integer cube root, one binary digit at a time. *)
Fixpoint cube_root (bits : nat) (root n : N) : N :=
  match bits with
  | O => root
  | S bits =>
      let next := (root + N.shiftl 1 (N.of_nat bits))%N in
      cube_root bits (if (next * next * next <=? n)%N then next else root) n
  end.

Definition root_bits3 (p : N) : N := N.land (cube_root 36 0 (N.shiftl p 96)) mask32.
Definition root_bits2 (p : N) : N := N.land (N.sqrt (N.shiftl p 64)) mask32.

Definition round_constants : list N := Eval vm_compute in map root_bits3 first_primes.

(** ** Compression *)

(** The eight working variables. *)
Record sha_state := ShaState { sa : N; sb : N; sc : N; sd : N; se : N; sf : N; sg : N; sh : N }.

Definition initial_words : list N := Eval vm_compute in map root_bits2 (firstn 8 first_primes).

Definition initial_state : sha_state :=
  let h i := nth i initial_words 0%N in ShaState (h 0%nat) (h 1%nat) (h 2%nat) (h 3%nat) (h 4%nat) (h 5%nat) (h 6%nat) (h 7%nat).

(** The next word of the message schedule, from a window of the last 16. *)
Definition schedule_next (w : list N) : N :=
  add32 (add32 (small_sigma1 (nth 14 w 0%N)) (nth 9 w 0%N))
        (add32 (small_sigma0 (nth 1 w 0%N)) (nth 0 w 0%N)).

Definition sha_round (k wt : N) (s : sha_state) : sha_state :=
  let t1 := add32 (add32 (add32 (sh s) (big_sigma1 (se s))) (Ch (se s) (sf s) (sg s)))
                  (add32 k wt) in
  let t2 := add32 (big_sigma0 (sa s)) (Maj (sa s) (sb s) (sc s)) in
  ShaState (add32 t1 t2) (sa s) (sb s) (sc s) (add32 (sd s) t1) (se s) (sf s) (sg s).

Fixpoint sha_rounds (ks : list N) (w : list N) (s : sha_state) : sha_state :=
  match ks with
  | [] => s
  | k :: ks => sha_rounds ks (tl w ++ [schedule_next w]) (sha_round k (nth 0 w 0%N) s)
  end.

Definition compress (s : sha_state) (w : list N) : sha_state :=
  let r := sha_rounds round_constants w s in
  ShaState (add32 (sa s) (sa r)) (add32 (sb s) (sb r)) (add32 (sc s) (sc r)) (add32 (sd s) (sd r))
           (add32 (se s) (se r)) (add32 (sf s) (sf r)) (add32 (sg s) (sg r)) (add32 (sh s) (sh r)).

(** ** Message padding *)

Definition byte_of_low (n : N) : byte :=
  match Byte.of_N (N.land n 255) with Some b => b | None => x00 end.

(** Big-endian bytes of a 32-bit and of a 64-bit integer. *)
Definition be32 (n : N) : bytes :=
  [byte_of_low (N.shiftr n 24); byte_of_low (N.shiftr n 16); byte_of_low (N.shiftr n 8); byte_of_low n].
Definition be64 (n : N) : bytes := be32 (N.shiftr n 32) ++ be32 (N.land n mask32).

Definition sha_pad (m : bytes) : bytes :=
  let l := N.of_nat (length m) in
  m ++ x80 :: repeat x00 (N.to_nat ((119 - l mod 64) mod 64)) ++ be64 (8 * l).

Fixpoint be_words (b : bytes) : list N :=
  match b with
  | b0 :: b1 :: b2 :: b3 :: b =>
      (((Byte.to_N b0 * 256 + Byte.to_N b1) * 256 + Byte.to_N b2) * 256 + Byte.to_N b3)%N :: be_words b
  | _ => []
  end.

(** One compression per 16 words; [fuel] bounds the number of blocks. *)
Fixpoint sha_blocks (fuel : nat) (ws : list N) (s : sha_state) : sha_state :=
  match fuel, ws with
  | S fuel, _ :: _ => sha_blocks fuel (drop 16 ws) (compress s (take 16 ws))
  | _, _ => s
  end.

(** [hashlib.sha256(m).digest()] *)
Definition sha256_digest (m : bytes) : bytes :=
  let ws := be_words (sha_pad m) in
  let s := sha_blocks (length ws) ws initial_state in
  be32 (sa s) ++ be32 (sb s) ++ be32 (sc s) ++ be32 (sd s)
  ++ be32 (se s) ++ be32 (sf s) ++ be32 (sg s) ++ be32 (sh s).

Lemma length_sha256_digest m : length (sha256_digest m) = 32%nat.
Proof. done. Qed.

(** The FIPS 180-4 test vectors for the empty message, for ["abc"] and for a
    message of two blocks. *)
Example sha256_empty :
  bytes_hex (sha256_digest [])
  = "e3b0c44298fc1c149afbf4c8996fb92427ae41e4649b934ca495991b7852b855".
Proof. by vm_compute. Qed.

Example sha256_abc :
  bytes_hex (sha256_digest (list_byte_of_string "abc"))
  = "ba7816bf8f01cfea414140de5dae2223b00361a396177a9cb410ff61f20015ad".
Proof. by vm_compute. Qed.

Example sha256_two_blocks :
  bytes_hex (sha256_digest
    (list_byte_of_string "abcdbcdecdefdefgefghfghighijhijkijkljklmklmnlmnomnopnopq"))
  = "248d6a61d20638b8e5c026930c3e6039a33ce45964ff2167f6ecedd419db06c1".
Proof. by vm_compute. Qed.

#[global] Opaque sha256_digest.
#[export] Hint Resolve length_sha256_digest : pychain.
