(* ===== verification/Json.v ===== *)
(** * JSON values and [json.dumps]

    The Python values the program serialises, and
    [json.dumps(data, sort_keys=True, separators=(",", ":"))] on them: compact
    separators, object members sorted by key, and strings escaped to ASCII. *)

From Stdlib Require Import Strings.Ascii.
From Stdlib Require Import DecimalString.
From Stdlib Require DecimalZ.
From S2P Require Import Prelude Bytes.

#[warnings="-register-all"]
(** A dict keeps its insertion order. *)
Inductive json :=
  | JNull
  | JBool (b : bool)
  | JInt (z : Z)
  | JStr (s : string)
  | JList (l : list json)
  | JObj (members : list (string * json)).

(** ** Printing *)

(** [str(z)] *)
Definition str_of_int (z : Z) : string := NilZero.string_of_int (Z.to_int z).

(** The escape of one character under [ensure_ascii=True]. *)
Definition escape_char (c : ascii) : string :=
  let n := code c in
  (if n =? 34 then "\" +:+ String c EmptyString
   else if n =? 92 then "\\"
   else if n =? 10 then "\n"
   else if n =? 13 then "\r"
   else if n =? 9 then "\t"
   else if n =? 12 then "\f"
   else if n =? 8 then "\b"
   else if (32 <=? n) && (n <=? 126) then String c EmptyString
   else "\u00" +:+ String (hex_digit (n / 16)) (String (hex_digit (n mod 16)) EmptyString))%N.

Fixpoint escape (s : string) : string :=
  match s with
  | EmptyString => EmptyString
  | String c s => escape_char c +:+ escape s
  end.

Definition quote_char : string := String (ascii_of_N 34) EmptyString.
Definition quote (s : string) : string := quote_char +:+ escape s +:+ quote_char.

(** [",".join(l)] *)
Fixpoint comma_join (l : list string) : string :=
  match l with
  | [] => EmptyString
  | [x] => x
  | x :: l => x +:+ "," +:+ comma_join l
  end.

(** The key order of [sort_keys=True]. *)
Definition key_le {A} (p q : string * A) : Prop := String.le p.1 q.1.
#[export] Instance key_le_dec {A} : RelDecision (@key_le A).
Proof. intros p q. unfold key_le. apply _. Defined.
#[export] Instance key_le_total {A} : Total (@key_le A).
Proof. intros p q. apply String.le_total. Qed.
#[export] Instance key_le_trans {A} : Transitive (@key_le A).
Proof. intros p q r. unfold key_le. apply String.le_po. Qed.

Definition sort_members {A} (l : list (string * A)) : list (string * A) := merge_sort key_le l.

Fixpoint dumps (data : json) : string :=
  match data with
  | JNull => "null"
  | JBool b => if b then "true" else "false"
  | JInt z => str_of_int z
  | JStr s => quote s
  | JList l => "[" +:+ comma_join (map dumps l) +:+ "]"
  | JObj members =>
      "{" +:+ comma_join (map (λ p, quote p.1 +:+ ":" +:+ p.2)
                            (sort_members (map (λ p, (p.1, dumps p.2)) members))) +:+ "}"
  end.

Example dumps_sorted_compact :
  dumps (JObj [("b", JInt (-10)); ("a", JList [JNull; JStr ("x" +:+ quote_char); JBool true])])
  = "{" +:+ quote "a" +:+ ":[null," +:+ quote ("x" +:+ quote_char) +:+ ",true],"
    +:+ quote "b" +:+ ":-10}".
Proof. by vm_compute. Qed.

(** ** Length of the printed form *)

Lemma str_len_escape s : (str_len s <= str_len (escape s))%nat.
Proof.
  induction s as [|c s IH]; [done|]. cbn [escape]. rewrite str_len_app.
  enough (1 <= str_len (escape_char c))%nat by (unfold str_len in *; cbn; lia).
  unfold escape_char. repeat case_match; rewrite ?str_len_app; unfold str_len; cbn -[hex_digit]; lia.
Qed.

Lemma str_len_quote s : (str_len s + 2 <= str_len (quote s))%nat.
Proof. unfold quote. rewrite !str_len_app. pose proof (str_len_escape s). cbn. lia. Qed.

Lemma str_len_str_of_int z : (1 <= str_len (str_of_int z))%nat.
Proof.
  unfold str_of_int, NilZero.string_of_int, NilZero.string_of_uint.
  repeat case_match; cbn; lia.
Qed.

Lemma length_sort_members {A} (l : list (string * A)) : length (sort_members l) = length l.
Proof. apply Permutation_length, merge_sort_Permutation. Qed.

Lemma str_len_comma_join_exact l :
  Z.of_nat (str_len (comma_join l))
  = sumZ_with (λ s, Z.of_nat (str_len s)) l + Z.max 0 (Z.of_nat (length l) - 1).
Proof.
  induction l as [|x l IH]; [done|]. destruct l as [|y l]; [cbn [comma_join sumZ_with length]; lia|].
  change (comma_join (x :: y :: l)) with (x +:+ "," +:+ comma_join (y :: l)).
  rewrite !str_len_app. cbn [sumZ_with length] in IH |- *. change (str_len ",") with 1%nat. lia.
Qed.

(** The exact length of a printed dict and list, from the lengths of the parts. *)
Definition member_len (p : string * json) : Z :=
  Z.of_nat (str_len (quote p.1)) + 1 + Z.of_nat (str_len (dumps p.2)).

Lemma str_len_dumps_obj_exact members :
  Z.of_nat (str_len (dumps (JObj members)))
  = 2 + sumZ_with member_len members + Z.max 0 (Z.of_nat (length members) - 1).
Proof.
  cbn [dumps]. rewrite !str_len_app, !Nat2Z.inj_add, str_len_comma_join_exact.
  change (str_len "{") with 1%nat. change (str_len "}") with 1%nat.
  rewrite length_map, length_sort_members, length_map. unfold sort_members.
  repeat match goal with |- context [map ?f ?l] => change (map f l) with (f <$> l) end.
  rewrite sumZ_with_fmap, (merge_sort_Permutation key_le), sumZ_with_fmap.
  enough (sumZ_with _ members = sumZ_with member_len members) as -> by lia.
  apply sumZ_with_ext. intros [k v] _. unfold member_len. cbn [compose fst snd].
  rewrite !str_len_app. change (str_len ":") with 1%nat. lia.
Qed.

Lemma str_len_dumps_list_exact l :
  Z.of_nat (str_len (dumps (JList l)))
  = 2 + sumZ_with (λ j, Z.of_nat (str_len (dumps j))) l + Z.max 0 (Z.of_nat (length l) - 1).
Proof.
  cbn [dumps]. rewrite !str_len_app, !Nat2Z.inj_add, str_len_comma_join_exact, length_map.
  change (str_len "[") with 1%nat. change (str_len "]") with 1%nat.
  change (map dumps l) with (dumps <$> l). rewrite sumZ_with_fmap. unfold compose. lia.
Qed.

(** Lower-case hexadecimal text needs no escape. *)
Lemma escape_lower_hex s : str_forall is_lower_hex s = true → escape s = s.
Proof.
  induction s as [|c s IH]; [done|]. cbn [str_forall escape]. intros H. to_prop.
  rewrite IH by done. unfold escape_char.
  assert ((code c =? 34)%N = false ∧ (code c =? 92)%N = false ∧ (code c =? 10)%N = false ∧
    (code c =? 13)%N = false ∧ (code c =? 9)%N = false ∧ (code c =? 12)%N = false ∧
    (code c =? 8)%N = false ∧ ((32 <=? code c) && (code c <=? 126))%N = true)
    as (-> & -> & -> & -> & -> & -> & -> & ->).
  { unfold is_lower_hex in *. rewrite !N.eqb_neq, andb_true_iff, !N.leb_le.
    apply orb_true_iff in H. rewrite !andb_true_iff, !N.leb_le in H. lia. }
  by rewrite str_app_cons, str_app_nil.
Qed.

Lemma str_len_quote_lower_hex s : str_forall is_lower_hex s = true → str_len (quote s) = (str_len s + 2)%nat.
Proof. intros H. unfold quote. rewrite (escape_lower_hex s H), !str_len_app. cbn. lia. Qed.

Lemma str_len_comma_join l : sumZ_with (λ s, Z.of_nat (str_len s)) l <= Z.of_nat (str_len (comma_join l)).
Proof.
  induction l as [|x l IH]; [done|]. destruct l as [|y l]; [cbn [sumZ_with comma_join]; lia|].
  change (comma_join (x :: y :: l)) with (x +:+ "," +:+ comma_join (y :: l)).
  rewrite !str_len_app. cbn [sumZ_with] in IH |- *. lia.
Qed.

(** A dict prints at least its keys, their punctuation and its values. *)
Lemma str_len_dumps_obj members :
  2 + sumZ_with (λ p, Z.of_nat (str_len p.1) + 3 + Z.of_nat (str_len (dumps p.2))) members
  <= Z.of_nat (str_len (dumps (JObj members))).
Proof.
  cbn [dumps]. rewrite !str_len_app. cbn [str_len String.length].
  match goal with |- context [comma_join ?l] => pose proof (str_len_comma_join l) as Hj end.
  match type of Hj with (?s <= _) => enough
    (sumZ_with (λ p, Z.of_nat (str_len p.1) + 3 + Z.of_nat (str_len (dumps p.2))) members <= s)
    by (unfold str_len in *; lia) end.
  clear Hj. unfold sort_members.
  repeat match goal with |- context [map ?f ?l] => change (map f l) with (f <$> l) end.
  rewrite sumZ_with_fmap, (merge_sort_Permutation key_le). rewrite sumZ_with_fmap.
  induction members as [|[k v] members IH]; cbn [sumZ_with]; [lia|].
  cbn [compose fst snd] in *. rewrite !str_len_app.
  pose proof (str_len_quote k). unfold str_len in *. cbn. lia.
Qed.
