(* ===== verification/JsonParse.v ===== *)
(** * [bytes.decode] and [json.loads]

    The inverse of [Json]: strict UTF-8 decoding, and the JSON grammar of
    CPython's scanner with the hooks the program passes ([object_pairs_hook],
    and [parse_float]/[parse_constant] hooks that always raise). *)

From Stdlib Require Import Strings.Ascii Strings.Byte DecimalString.
From Stdlib Require DecimalZ DecimalFacts.
From S2P Require Import Prelude Bytes Json.

(** ** [b.decode("utf-8")] *)

Definition continuation (b : byte) : bool := let n := Byte.to_N b in ((128 <=? n) && (n <=? 191))%N.

(** The six bits of a continuation byte. *)
Definition low6 (b : byte) : N := (Byte.to_N b - 128)%N.

Definition code_point3 (a b c : byte) : N := (4096 * (Byte.to_N a - 224) + 64 * low6 b + low6 c)%N.
Definition code_point4 (a b c d : byte) : N :=
  (262144 * (Byte.to_N a - 240) + 4096 * low6 b + 64 * low6 c + low6 d)%N.

(** The code points of strict UTF-8: shortest forms, no surrogates, at most
    U+10FFFF. *)
Fixpoint utf8_codes (s : bytes) : result (list N) :=
  match s with
  | [] => Ok []
  | a :: s1 =>
      let n := Byte.to_N a in
      if (n <? 128)%N then cons n <$> utf8_codes s1
      else match s1 with
           | [] => Raise ValueError
           | b :: s2 =>
               if negb (continuation b) then Raise ValueError
               else if ((194 <=? n) && (n <=? 223))%N then cons (64 * (n - 192) + low6 b)%N <$> utf8_codes s2
               else match s2 with
                    | [] => Raise ValueError
                    | c :: s3 =>
                        let n3 := code_point3 a b c in
                        if negb (continuation c) then Raise ValueError
                        else if ((224 <=? n) && (n <=? 239))%N then
                          if ((n3 <? 2048) || ((55296 <=? n3) && (n3 <=? 57343)))%N then Raise ValueError
                          else cons n3 <$> utf8_codes s3
                        else match s3 with
                             | [] => Raise ValueError
                             | d :: s4 =>
                                 let n4 := code_point4 a b c d in
                                 if negb (continuation d) || negb ((240 <=? n) && (n <=? 244))%N
                                    || (n4 <? 65536)%N || (1114111 <? n4)%N
                                 then Raise ValueError else cons n4 <$> utf8_codes s4
                             end
                    end
           end
  end.

Fixpoint narrow (l : list N) : result string :=
  match l with
  | [] => Ok EmptyString
  | n :: l => _ ← raise_if (256 <=? n)%N BeyondLatin1; String (ascii_of_N n) <$> narrow l
  end.

Definition utf8_decode (s : bytes) : result string := l ← utf8_codes s; narrow l.

(** ** [json.loads] *)

Definition is_json_space (c : ascii) : bool :=
  let n := code c in ((n =? 32) || (n =? 9) || (n =? 10) || (n =? 13))%N.

Fixpoint skip_space (s : string) : string :=
  match s with
  | String c s' => if is_json_space c then skip_space s' else s
  | EmptyString => EmptyString
  end.

(** The character an escape sequence of two characters stands for. *)
Definition simple_escape (c : ascii) : option ascii :=
  (let n := code c in
   if (n =? 34) || (n =? 92) || (n =? 47) then Some c
   else if n =? 98 then Some (ascii_of_N 8)
   else if n =? 102 then Some (ascii_of_N 12)
   else if n =? 110 then Some (ascii_of_N 10)
   else if n =? 114 then Some (ascii_of_N 13)
   else if n =? 116 then Some (ascii_of_N 9)
   else None)%N.

(** The value of the four digits of [\uXXXX]. *)
Definition hex4 (a b c d : ascii) : option N :=
  match hex_value a, hex_value b, hex_value c, hex_value d with
  | Some a, Some b, Some c, Some d => Some (4096 * a + 256 * b + 16 * c + d)%N
  | _, _, _, _ => None
  end.

Definition push (c : ascii) (r : result (string * string)) : result (string * string) :=
  '(t, rest) ← r; Ok (String c t, rest).

(** The string whose opening quote has been read, and the text after it. *)
Fixpoint scan_string (s : string) : result (string * string) :=
  match s with
  | EmptyString => Raise ValueError
  | String c s1 =>
      if (code c =? 34)%N then Ok (EmptyString, s1)
      else if (code c =? 92)%N then
        match s1 with
        | EmptyString => Raise ValueError
        | String e s2 =>
            match simple_escape e with
            | Some d => push d (scan_string s2)
            | None =>
                if negb (code e =? 117)%N then Raise ValueError
                else match s2 with
                     | String x1 (String x2 (String x3 (String x4 s3))) =>
                         match hex4 x1 x2 x3 x4 with
                         | None => Raise ValueError
                         | Some n =>
                             _ ← raise_if (256 <=? n)%N BeyondLatin1;
                             push (ascii_of_N n) (scan_string s3)
                         end
                     | _ => Raise ValueError
                     end
            end
        end
      else if (code c <? 32)%N then Raise ValueError
      else push c (scan_string s1)
  end.

Definition is_digit (c : ascii) : bool := let n := code c in ((48 <=? n) && (n <=? 57))%N.

Fixpoint span_digits (s : string) : string * string :=
  match s with
  | String c s' => if is_digit c then let '(d, r) := span_digits s' in (String c d, r) else (EmptyString, s)
  | EmptyString => (EmptyString, EmptyString)
  end.

(** [int(s)] of a string of decimal digits with an optional sign. *)
Definition int_of_decimal (s : string) : Z :=
  match NilZero.int_of_string s with Some d => Z.of_int d | None => 0 end.

Definition starts_with_digit (s : string) : bool :=
  match s with String c _ => is_digit c | EmptyString => false end.

(** A fraction or an exponent follows: the number is a float. *)
Definition is_float_tail (s : string) : bool :=
  match s with
  | String c s' =>
      let n := code c in
      if (n =? 46)%N then starts_with_digit s'
      else if ((n =? 101) || (n =? 69))%N then
        match s' with
        | String d s'' =>
            is_digit d || (((code d =? 43) || (code d =? 45))%N && starts_with_digit s'')
        | EmptyString => false
        end
      else false
  | EmptyString => false
  end.

(** An optional minus sign, then [0] or digits that do not start with [0]; and
    the text after it. *)
Definition scan_int (s : string) : option (string * string) :=
  let '(sign, s1) :=
    match s with
    | String c s' => if (code c =? 45)%N then ("-", s') else (EmptyString, s)
    | EmptyString => (EmptyString, s)
    end in
  match s1 with
  | String c s2 =>
      if (code c =? 48)%N then Some (sign +:+ "0", s2)
      else if is_digit c then let '(d, r) := span_digits s1 in Some (sign +:+ d, r)
      else None
  | EmptyString => None
  end.

Section loads.
(** [object_pairs_hook] and the exception of the number hooks. *)
Variable on_object : list (string * json) → result json.
Variable on_number : exn.

Definition scan_number (s : string) : result (json * string) :=
  match scan_int s with
  | None => Raise (if String.prefix "-Infinity" s then on_number else ValueError)
  | Some (t, r) => _ ← raise_if (is_float_tail r) on_number; Ok (JInt (int_of_decimal t), r)
  end.

(** The elements of an array and the members of an object, up to the closing
    bracket; [once] reads one value. *)
Fixpoint scan_elements (once : string → result (json * string)) (fuel : nat) (s : string) :
    result (list json * string) :=
  match fuel with
  | O => Raise RecursionError
  | S fuel =>
      '(j, r) ← once s;
      match skip_space r with
      | String d r =>
          if (code d =? 93)%N then Ok ([j], r)
          else if (code d =? 44)%N then '(l, r) ← scan_elements once fuel (skip_space r); Ok (j :: l, r)
          else Raise ValueError
      | EmptyString => Raise ValueError
      end
  end.

Fixpoint scan_members (once : string → result (json * string)) (fuel : nat) (s : string) :
    result (list (string * json) * string) :=
  match fuel with
  | O => Raise RecursionError
  | S fuel =>
      match s with
      | String c s1 =>
          if negb (code c =? 34)%N then Raise ValueError else
          '(k, r) ← scan_string s1;
          match skip_space r with
          | String d r =>
              if negb (code d =? 58)%N then Raise ValueError else
              '(j, r) ← once (skip_space r);
              match skip_space r with
              | String d r =>
                  if (code d =? 125)%N then Ok ([(k, j)], r)
                  else if (code d =? 44)%N then
                    '(l, r) ← scan_members once fuel (skip_space r); Ok ((k, j) :: l, r)
                  else Raise ValueError
              | EmptyString => Raise ValueError
              end
          | EmptyString => Raise ValueError
          end
      | EmptyString => Raise ValueError
      end
  end.

(** One value at the start of the text.  Every call reads a character, so
    fuel beyond the length of the text is never used. *)
Fixpoint scan_once (fuel : nat) (s : string) : result (json * string) :=
  match fuel with
  | O => Raise RecursionError
  | S fuel =>
      match s with
      | EmptyString => Raise ValueError
      | String c s1 =>
          let n := code c in
          if (n =? 34)%N then '(t, r) ← scan_string s1; Ok (JStr t, r)
          else if (n =? 123)%N then
            match skip_space s1 with
            | String d r =>
                if (code d =? 125)%N then j ← on_object []; Ok (j, r)
                else '(l, r) ← scan_members (scan_once fuel) fuel (String d r); j ← on_object l; Ok (j, r)
            | EmptyString => Raise ValueError
            end
          else if (n =? 91)%N then
            match skip_space s1 with
            | String d r =>
                if (code d =? 93)%N then Ok (JList [], r)
                else '(l, r) ← scan_elements (scan_once fuel) fuel (String d r); Ok (JList l, r)
            | EmptyString => Raise ValueError
            end
          else if String.prefix "null" s then Ok (JNull, str_drop 4 s)
          else if String.prefix "true" s then Ok (JBool true, str_drop 4 s)
          else if String.prefix "false" s then Ok (JBool false, str_drop 5 s)
          else if String.prefix "NaN" s || String.prefix "Infinity" s then Raise on_number
          else scan_number s
      end
  end.

Definition loads (s : string) : result json :=
  let s := skip_space s in
  '(j, r) ← scan_once (str_len s + 1) s;
  _ ← raise_if (negb (bool_decide (skip_space r = EmptyString))) ValueError;
  Ok j.
End loads.

Example loads_example :
  loads (λ l, Ok (JObj l)) ProtocolError ("{" +:+ quote "a" +:+ ": [1, -20,true] ," +:+ quote "b" +:+ ":null}")
  = Ok (JObj [("a", JList [JInt 1; JInt (-20); JBool true]); ("b", JNull)]).
Proof. vm_compute. reflexivity. Qed.
