(* ===== verification/JsonFacts.v ===== *)
(** * [json.loads] inverts [json.dumps]

    Parsing the printed form of a value gives the value back with the members
    of its dicts sorted; parsing any text terminates within its fuel. *)

From Stdlib Require Import Strings.Ascii DecimalString.
From Stdlib Require DecimalZ DecimalFacts.
From S2P Require Import Prelude Bytes Json JsonParse.

(** ** Strings *)

Lemma str_app_assoc (a b c : string) : (a +:+ b) +:+ c = a +:+ b +:+ c.
Proof. induction a as [|x a IH]; [done|]. rewrite !str_app_cons. by rewrite IH. Qed.

Lemma str_app_nil_r (a : string) : a +:+ EmptyString = a.
Proof. induction a as [|x a IH]; [done|]. by rewrite str_app_cons, IH. Qed.

Lemma scan_escape_char c t : scan_string (escape_char c +:+ t) = push c (scan_string t).
Proof. destruct c as [[] [] [] [] [] [] [] []]; reflexivity. Qed.

Lemma scan_string_escape s rest :
  scan_string (escape s +:+ quote_char +:+ rest) = Ok (s, rest).
Proof.
  induction s as [|c s IH]; [done|]. cbn [escape]. by rewrite str_app_assoc, scan_escape_char, IH.
Qed.

Definition ascii_text (s : string) : bool := str_forall (λ c, code c <? 128)%N s.

Lemma ascii_text_escape s : ascii_text (escape s) = true.
Proof.
  induction s as [|c s IH]; [done|]. unfold ascii_text in *. cbn [escape]. rewrite str_forall_app, IH.
  by destruct c as [[] [] [] [] [] [] [] []].
Qed.

(** ** Numbers *)

(** What follows a value in compact JSON. *)
Definition delimited (rest : string) : Prop :=
  match rest with
  | EmptyString => True
  | String c _ => (code c = 44 ∨ code c = 93 ∨ code c = 125)%N
  end.

Lemma delimited_number rest : delimited rest → starts_with_digit rest = false ∧ is_float_tail rest = false.
Proof.
  destruct rest as [|c r]; [done|]. cbn. unfold is_digit.
  by intros [->|[->| ->]].
Qed.

Lemma span_digits_uint d rest :
  starts_with_digit rest = false →
  span_digits (NilEmpty.string_of_uint d +:+ rest) = (NilEmpty.string_of_uint d, rest).
Proof.
  intros Hr. induction d as [|d IH|d IH|d IH|d IH|d IH|d IH|d IH|d IH|d IH|d IH];
    cbn [NilEmpty.string_of_uint]; rewrite ?str_app_cons; try (cbn [span_digits]; rewrite IH; reflexivity).
  rewrite str_app_nil. destruct rest as [|c r]; [done|]. cbn in *. by rewrite Hr.
Qed.

(** A normal decimal is zero or does not start with zero. *)
Lemma scan_digits_norm (u : Decimal.uint) rest :
  Decimal.unorm u = u → starts_with_digit rest = false → ∀ sign,
  match NilZero.string_of_uint u +:+ rest with
  | String c s2 =>
      if (code c =? 48)%N then Some (sign +:+ "0", s2)
      else if is_digit c then let '(d, r) := span_digits (NilZero.string_of_uint u +:+ rest) in Some (sign +:+ d, r)
      else None
  | EmptyString => None
  end = Some (sign +:+ NilZero.string_of_uint u, rest).
Proof.
  intros Hu Hr sign. destruct u as [|u|u|u|u|u|u|u|u|u|u]; [done| |..];
    unfold NilZero.string_of_uint;
    try (rewrite span_digits_uint by done; cbn [NilEmpty.string_of_uint];
         rewrite str_app_cons; reflexivity).
  rewrite DecimalFacts.unorm_D0 in Hu. destruct (Decimal.nzhead u) eqn:Hz;
    try (exfalso; unfold Decimal.unorm in Hu; by rewrite Hz in Hu).
  - unfold Decimal.unorm in Hu. rewrite Hz in Hu. injection Hu as <-. done.
  - exfalso. by apply (DecimalFacts.nzhead_nonzero u u0).
Qed.

Lemma norm_to_int z : Decimal.norm (Z.to_int z) = Z.to_int z.
Proof. by rewrite <- DecimalZ.to_of, DecimalZ.of_to. Qed.

Lemma int_of_str_of_int z : int_of_decimal (str_of_int z) = z.
Proof.
  unfold int_of_decimal, str_of_int. pose proof (norm_to_int z) as Hn.
  rewrite NilZero.isi; [by apply DecimalZ.of_to|intros H; rewrite H in Hn; discriminate Hn..].
Qed.

Lemma scan_int_print z rest :
  starts_with_digit rest = false → scan_int (str_of_int z +:+ rest) = Some (str_of_int z, rest).
Proof.
  intros Hr. unfold str_of_int. pose proof (norm_to_int z) as Hn.
  destruct (Z.to_int z) as [d|d]; cbn [Decimal.norm] in Hn.
  - injection Hn as Hd. cbn [NilZero.string_of_int]. unfold scan_int.
    pose proof (scan_digits_norm d rest Hd Hr EmptyString) as Hs.
    destruct (NilZero.string_of_uint d +:+ rest) as [|c s] eqn:Heq; [done|].
    destruct (code c =? 45)%N eqn:Hc; [|by rewrite Hs, str_app_nil].
    exfalso. apply N.eqb_eq in Hc. unfold is_digit in Hs. rewrite Hc in Hs. done.
  - assert (Decimal.unorm d = d) as Hd.
    { unfold Decimal.unorm. destruct (Decimal.nzhead d); try discriminate; by injection Hn. }
    cbn [NilZero.string_of_int]. rewrite str_app_cons. unfold scan_int. cbn [code].
    change ((code "-" =? 45)%N) with true. cbn [fst snd].
    by rewrite (scan_digits_norm d rest Hd Hr "-"), str_app_cons, str_app_nil.
Qed.

(** ** Values *)

(** Dicts have distinct keys. *)
Fixpoint keys_distinct (j : json) : bool :=
  match j with
  | JList l => forallb keys_distinct l
  | JObj m => all_distinct (map fst m) && forallb (λ p, keys_distinct p.2) m
  | _ => true
  end.

(** The value with the members of its dicts sorted. *)
Fixpoint canon (j : json) : json :=
  match j with
  | JList l => JList (map canon l)
  | JObj m => JObj (sort_members (map (λ p, (p.1, canon p.2)) m))
  | _ => j
  end.

(** Induction under lists and dicts. *)
Definition json_nested_ind (P : json → Prop)
    (Hnull : P JNull) (Hbool : ∀ b, P (JBool b)) (Hint : ∀ z, P (JInt z)) (Hstr : ∀ s, P (JStr s))
    (Hlist : ∀ l, Forall P l → P (JList l)) (Hobj : ∀ m, Forall (λ p, P p.2) m → P (JObj m)) :
    ∀ j, P j.
Proof.
  fix go 1. intros [|b|z|s|l|m]; [done|apply Hbool|apply Hint|apply Hstr|apply Hlist|apply Hobj].
  - induction l as [|x l IH]; constructor; [apply go|exact IH].
  - induction m as [|p m IH]; constructor; [apply go|exact IH].
Defined.

(** With distinct keys the sorted order is unique. *)
Lemma sort_members_unique {A} (l m : list (string * A)) :
  StronglySorted key_le l → l ≡ₚ m → NoDup m.*1 → sort_members m = l.
Proof.
  intros Hs Hp Hnd. apply (StronglySorted_unique_strong key_le); [|apply StronglySorted_merge_sort; apply _|done|].
  - intros x y Hx Hy Hxy Hyx. unfold sort_members in Hx. rewrite (merge_sort_Permutation key_le) in Hx.
    rewrite Hp in Hy. eapply NoDup_fst_inj; [exact Hnd|done|done|]. by apply (anti_symm String.le).
  - unfold sort_members. by rewrite (merge_sort_Permutation key_le), Hp.
Qed.

Lemma sort_members_map {A B} (f : A → B) (m : list (string * A)) :
  NoDup m.*1 → sort_members (map (λ p, (p.1, f p.2)) m) = map (λ p, (p.1, f p.2)) (sort_members m).
Proof.
  intros Hnd. set (g := λ p : string * A, (p.1, f p.2)). change (map g ?l) with (g <$> l).
  apply sort_members_unique.
  - pose proof (StronglySorted_merge_sort key_le m) as Hs. unfold sort_members.
    induction Hs as [|p l _ IH Hp]; cbn; constructor; [done|].
    apply Forall_map. eapply Forall_impl; [exact Hp|]. done.
  - unfold sort_members. by rewrite (merge_sort_Permutation key_le).
  - by rewrite <- list_fmap_compose.
Qed.

Lemma sort_members_idemp {A} (m : list (string * A)) :
  NoDup m.*1 → sort_members (sort_members m) = sort_members m.
Proof.
  intros Hnd. apply sort_members_unique; [apply StronglySorted_merge_sort; apply _|done|].
  unfold sort_members. by rewrite (merge_sort_Permutation key_le).
Qed.

(** ** Parsing what was printed *)

(** The first character of a printed value. *)
Definition value_start (c : ascii) : bool :=
  let n := code c in negb (is_json_space c) && negb (n =? 93)%N && negb (n =? 125)%N.

Lemma value_start_digits u : ∃ c t, NilZero.string_of_uint u = String c t ∧ value_start c = true.
Proof. destruct u; by eexists _, _. Qed.

Lemma value_start_print j : ∃ c t, dumps j = String c t ∧ value_start c = true.
Proof.
  destruct j as [|b|z|s|l|m]; cbn [dumps].
  - by eexists _, _.
  - destruct b; by eexists _, _.
  - unfold str_of_int. destruct (Z.to_int z) as [d|d]; cbn [NilZero.string_of_int].
    + apply value_start_digits.
    + by eexists _, _.
  - unfold quote, quote_char. rewrite str_app_cons. by eexists _, _.
  - rewrite str_app_cons. by eexists _, _.
  - rewrite str_app_cons. by eexists _, _.
Qed.

Lemma skip_space_start c t : value_start c = true → skip_space (String c t) = String c t.
Proof. unfold value_start. intros H. cbn. by destruct (is_json_space c). Qed.

Lemma skip_space_print j rest : skip_space (dumps j +:+ rest) = dumps j +:+ rest.
Proof. destruct (value_start_print j) as (c & t & -> & Hc). rewrite str_app_cons. by apply skip_space_start. Qed.

Lemma str_app_comma s : "," +:+ s = String "," s.
Proof. done. Qed.

Lemma delimited_next rest :
  delimited (String "," rest) ∧ delimited ("]" +:+ rest) ∧ delimited ("}" +:+ rest).
Proof. split_and!; [by left|by right; left|by right; right]. Qed.

(** [once] reads the printed form of [j]. *)
Definition reads (once : string → result (json * string)) (j : json) : Prop :=
  ∀ rest, delimited rest → once (dumps j +:+ rest) = Ok (canon j, rest).

Lemma scan_elements_print once l : Forall (reads once) l → l ≠ [] → ∀ fuel rest,
  (length l <= fuel)%nat →
  scan_elements once fuel (comma_join (map dumps l) +:+ "]" +:+ rest) = Ok (map canon l, rest).
Proof.
  induction 1 as [|j l Hj Hl IH]; [done|]. intros _ fuel rest Hf. destruct fuel as [|fuel]; [cbn in Hf; lia|].
  destruct l as [|j' l]; cbn [map comma_join scan_elements].
  - rewrite Hj; [reflexivity|apply delimited_next].
  - rewrite !str_app_assoc, !str_app_comma, Hj; [|apply delimited_next]. cbn [mbind result_bind].
    assert (∀ t, skip_space (comma_join (map dumps (j' :: l)) +:+ t) = comma_join (map dumps (j' :: l)) +:+ t)
      as Hskip.
    { intros t. destruct l; cbn [map comma_join]; rewrite ?str_app_assoc; apply skip_space_print. }
    cbn [skip_space]. change (is_json_space ",") with false. cbv iota.
    change ((code "," =? 93)%N) with false. change ((code "," =? 44)%N) with true. cbv iota.
    cbn [map] in Hskip, IH. rewrite Hskip, IH; [reflexivity|done|cbn in *; lia].
Qed.

Definition print_member (p : string * json) : string := quote p.1 +:+ ":" +:+ dumps p.2.

Lemma print_member_app p s :
  print_member p +:+ s = String (ascii_of_N 34) (escape p.1 +:+ quote_char +:+ ":" +:+ dumps p.2 +:+ s).
Proof. unfold print_member, quote. by rewrite !str_app_assoc. Qed.

Lemma scan_members_print once (m : list (string * json)) :
  Forall (λ p, reads once p.2) m → m ≠ [] → ∀ fuel rest,
  (length m <= fuel)%nat →
  scan_members once fuel (comma_join (map print_member m) +:+ "}" +:+ rest)
  = Ok (map (λ p, (p.1, canon p.2)) m, rest).
Proof.
  induction 1 as [|p m Hp Hm IH]; [done|]. intros _ fuel rest Hf. destruct fuel as [|fuel]; [cbn in Hf; lia|].
  assert (∀ s, scan_members once (S fuel) (print_member p +:+ s) =
    '(j, r) ← once (dumps p.2 +:+ s);
    match skip_space r with
    | String d r =>
        if (code d =? 125)%N then Ok ([(p.1, j)], r)
        else if (code d =? 44)%N then
          '(l, r) ← scan_members once fuel (skip_space r); Ok ((p.1, j) :: l, r)
        else Raise ValueError
    | EmptyString => Raise ValueError
    end) as Hstep.
  { intros s. rewrite print_member_app. cbn [scan_members].
    change (negb (code (ascii_of_N 34) =? 34)%N) with false. cbv iota.
    rewrite scan_string_escape. cbn [mbind result_bind].
    change (":" +:+ ?t) with (String ":" t). cbn [skip_space]. change (is_json_space ":") with false. cbv iota.
    change (negb (code ":" =? 58)%N) with false. cbv iota. by rewrite skip_space_print. }
  destruct m as [|p' m]; cbn [map comma_join].
  - rewrite Hstep, Hp; [reflexivity|apply delimited_next].
  - rewrite !str_app_assoc, Hstep, !str_app_comma, Hp; [|apply delimited_next]. cbn [mbind result_bind].
    assert (∀ t, skip_space (comma_join (map print_member (p' :: m)) +:+ t)
                 = comma_join (map print_member (p' :: m)) +:+ t) as Hskip.
    { intros t. destruct m; cbn [map comma_join]; rewrite ?str_app_assoc, print_member_app; reflexivity. }
    cbn [skip_space]. change (is_json_space ",") with false. cbv iota.
    change ((code "," =? 125)%N) with false. change ((code "," =? 44)%N) with true. cbv iota.
    cbn [map] in Hskip, IH. rewrite Hskip, IH; [reflexivity|done|cbn in *; lia].
Qed.

Lemma comma_join_bounds l x :
  x ∈ l → (str_len x <= str_len (comma_join l))%nat ∧ (length l <= str_len (comma_join l) + 1)%nat.
Proof.
  intros Hx. pose proof (str_len_comma_join_exact l) as Hl.
  assert (0 <= sumZ_with (λ s, Z.of_nat (str_len s)) l) by (apply sumZ_with_nonneg, Forall_forall; lia).
  apply list_elem_of_split in Hx as (l1 & l2 & ->). rewrite sumZ_with_app in *. cbn [sumZ_with] in *.
  assert (0 <= sumZ_with (λ s, Z.of_nat (str_len s)) l1) by (apply sumZ_with_nonneg, Forall_forall; lia).
  assert (0 <= sumZ_with (λ s, Z.of_nat (str_len s)) l2) by (apply sumZ_with_nonneg, Forall_forall; lia).
  rewrite length_app in *. cbn [length] in *. lia.
Qed.

Lemma dumps_obj m : NoDup m.*1 →
  dumps (JObj m) = "{" +:+ comma_join (map print_member (sort_members m)) +:+ "}".
Proof. intros Hnd. cbn [dumps]. rewrite sort_members_map, map_map by done. done. Qed.

Lemma keys_distinct_obj m : keys_distinct (JObj m) = true ↔ NoDup m.*1 ∧ Forall (λ p, keys_distinct p.2 = true) m.
Proof.
  cbn [keys_distinct]. rewrite andb_true_iff, all_distinct_true. apply and_iff_compat_l.
  induction m as [|p m IH]; cbn [forallb]; [by split; [constructor|]|].
  by rewrite andb_true_iff, IH, Forall_cons.
Qed.

Lemma keys_distinct_list l : keys_distinct (JList l) = true ↔ Forall (λ j, keys_distinct j = true) l.
Proof.
  cbn [keys_distinct]. induction l as [|j l IH]; cbn [forallb]; [by split; [constructor|]|].
  by rewrite andb_true_iff, IH, Forall_cons.
Qed.

Section roundtrip.
Context (on_object : list (string * json) → result json) (on_number : exn).
Hypothesis on_object_Ok : ∀ m, NoDup m.*1 → on_object m = Ok (JObj m).

Local Abbreviation once := (scan_once on_object on_number).

Lemma once_number z fuel rest : delimited rest →
  once (S fuel) (str_of_int z +:+ rest) = Ok (JInt z, rest).
Proof.
  intros Hr. destruct (delimited_number _ Hr) as [Hd Hf].
  assert (once (S fuel) (str_of_int z +:+ rest) = scan_number on_number (str_of_int z +:+ rest)) as ->.
  { unfold str_of_int. destruct (Z.to_int z) as [d|d]; cbn [NilZero.string_of_int].
    - destruct d; reflexivity.
    - reflexivity. }
  unfold scan_number. rewrite scan_int_print by done. rewrite Hf. cbn. by rewrite int_of_str_of_int.
Qed.

Lemma scan_once_print j : keys_distinct j = true → ∀ fuel,
  (str_len (dumps j) <= fuel)%nat → reads (once fuel) j.
Proof.
  induction j as [|b|z|s|l IH|m IH] using json_nested_ind; intros Hk fuel Hf rest Hr;
    (destruct fuel as [|fuel]; [exfalso; revert Hf|]).
  1: { cbn. lia. }
  1: by destruct rest.
  1: { destruct b; cbn; lia. }
  1: by destruct b, rest.
  1: { cbn [dumps]. pose proof (str_len_str_of_int z). lia. }
  1: by apply once_number.
  1: { cbn [dumps]. pose proof (str_len_quote s). lia. }
  1: { cbn [dumps canon]. unfold quote. rewrite !str_app_assoc. cbn [scan_once].
       change (quote_char +:+ ?t) with (String (ascii_of_N 34) t) at 1. cbv beta iota zeta.
       change ((code (ascii_of_N 34) =? 34)%N) with true. cbv iota.
       by rewrite scan_string_escape. }
  1: { cbn [dumps]. rewrite !str_len_app. cbn. lia. }
  - cbn [dumps canon] in *. rewrite !str_app_assoc. rewrite !str_len_app in Hf.
    change (str_len "[") with 1%nat in Hf. change (str_len "]") with 1%nat in Hf.
    apply keys_distinct_list in Hk.
    change ("[" +:+ ?t) with (String "[" t). cbn [scan_once].
    change ((code "[" =? 34)%N) with false. change ((code "[" =? 123)%N) with false.
    change ((code "[" =? 91)%N) with true. cbv beta iota zeta.
    destruct l as [|j l]; [reflexivity|].
    assert (Forall (reads (once fuel)) (j :: l)) as Hall.
    { apply Forall_forall. intros x Hx. eapply Forall_forall in IH, Hk; [|exact Hx..].
      apply IH; [done|]. destruct (comma_join_bounds (map dumps (j :: l)) (dumps x)); [|lia].
      by apply (list_elem_of_fmap_2 dumps). }
    pose proof (scan_elements_print (once fuel) (j :: l) Hall ltac:(done) fuel rest) as Hs.
    destruct (comma_join_bounds (map dumps (j :: l)) (dumps j)) as [_ Hlen]; [by left|].
    rewrite length_map in Hlen.
    assert (∃ c t, comma_join (map dumps (j :: l)) +:+ "]" +:+ rest = String c t ∧ value_start c = true)
      as (c & t & Heq & Hc).
    { destruct (value_start_print j) as (c & t & Hj & Hc). exists c.
      cbn [map]. rewrite Hj. destruct l; cbn [map comma_join]; rewrite ?str_app_assoc, str_app_cons; by eexists. }
    rewrite Heq in *. rewrite skip_space_start by done. unfold value_start in Hc.
    destruct (code c =? 93)%N; [by rewrite !andb_false_r in Hc|]. rewrite Hs by lia. done.
  - apply keys_distinct_obj in Hk as [Hnd _]. rewrite dumps_obj, !str_len_app by done. cbn. lia.
  - apply keys_distinct_obj in Hk as [Hnd Hk].
    pose proof (merge_sort_Permutation key_le m) as Hperm. fold (sort_members m) in Hperm.
    cbn [canon]. rewrite dumps_obj in * by done. rewrite sort_members_map by done.
    assert (on_object (map (λ p, (p.1, canon p.2)) (sort_members m))
            = Ok (JObj (map (λ p, (p.1, canon p.2)) (sort_members m)))) as Ho.
    { apply on_object_Ok. change (map ?f (sort_members m)) with (f <$> sort_members m).
      rewrite <- list_fmap_compose. unfold compose. cbn [fst].
      change (NoDup (sort_members m).*1). by rewrite Hperm. }
    assert (Forall (λ p, reads (once fuel) p.2) (sort_members m)) as Hall.
    { apply Forall_forall. intros p Hp.
      assert (str_len (print_member p) <= str_len (comma_join (map print_member (sort_members m))))%nat as Hl
        by (by apply comma_join_bounds, (list_elem_of_fmap_2 print_member)).
      rewrite !str_len_app in Hf. unfold print_member in Hl at 1. rewrite !str_len_app in Hl.
      change (str_len "{") with 1%nat in Hf. change (str_len "}") with 1%nat in Hf.
      rewrite Hperm in Hp. eapply Forall_forall in IH, Hk; [|exact Hp..]. apply IH; [done|lia]. }
    clear IH Hk Hperm. rewrite !str_app_assoc. change ("{" +:+ ?t) with (String "{" t). cbn [scan_once].
    change ((code "{" =? 34)%N) with false. change ((code "{" =? 123)%N) with true. cbv beta iota zeta.
    destruct (sort_members m) as [|p l]; [cbn in *; by rewrite Ho|].
    pose proof (scan_members_print (once fuel) (p :: l) Hall ltac:(done) fuel rest) as Hs.
    assert (length (p :: l) <= fuel)%nat as Hlen.
    { destruct (comma_join_bounds (map print_member (p :: l)) (print_member p)) as [_ H]; [by left|].
      rewrite length_map in H. rewrite !str_len_app in Hf.
      change (str_len "{") with 1%nat in Hf. change (str_len "}") with 1%nat in Hf. lia. }
    assert (∃ t, comma_join (map print_member (p :: l)) +:+ "}" +:+ rest = String (ascii_of_N 34) t) as [t Heq]
      by (destruct l; cbn [map comma_join]; rewrite ?str_app_assoc, print_member_app; by eexists).
    rewrite Heq in *. cbn [skip_space]. change (is_json_space (ascii_of_N 34)) with false. cbv iota.
    change ((code (ascii_of_N 34) =? 125)%N) with false. cbv iota.
    rewrite Hs by done. cbn [mbind result_bind]. by rewrite Ho.
Qed.

Lemma loads_dumps j : keys_distinct j = true → loads on_object on_number (dumps j) = Ok (canon j).
Proof.
  intros Hk. unfold loads.
  assert (skip_space (dumps j) = dumps j) as -> by (pose proof (skip_space_print j EmptyString) as H;
    by rewrite str_app_nil_r in H).
  pose proof (scan_once_print j Hk (str_len (dumps j) + 1) ltac:(lia) EmptyString I) as H.
  rewrite str_app_nil_r in H. by rewrite H.
Qed.
End roundtrip.

(** ** ASCII text and bytes *)

Lemma ascii_text_comma_join l : Forall (λ s, ascii_text s = true) l → ascii_text (comma_join l) = true.
Proof.
  unfold ascii_text. induction 1 as [|s l Hs Hl IH]; [done|]. destruct l as [|s' l]; [done|].
  change (comma_join (s :: s' :: l)) with (s +:+ "," +:+ comma_join (s' :: l)).
  by rewrite !str_forall_app, Hs, IH.
Qed.

Lemma ascii_text_int z : ascii_text (str_of_int z) = true.
Proof.
  assert (∀ d, ascii_text (NilEmpty.string_of_uint d) = true) as He by (by induction d).
  assert (∀ d, ascii_text (NilZero.string_of_uint d) = true) as Hz by (intros []; [done|apply He..]).
  unfold str_of_int. destruct (Z.to_int z); cbn [NilZero.string_of_int]; apply Hz.
Qed.

Lemma ascii_text_quote s : ascii_text (quote s) = true.
Proof. unfold quote, ascii_text. rewrite !str_forall_app. fold (ascii_text (escape s)). by rewrite ascii_text_escape. Qed.

Lemma ascii_text_dumps j : ascii_text (dumps j) = true.
Proof.
  induction j as [|b|z|s|l IH|m IH] using json_nested_ind; cbn [dumps];
    [done|by destruct b|apply ascii_text_int|apply ascii_text_quote|..];
    unfold ascii_text; rewrite !str_forall_app; cbn [str_forall];
    match goal with |- context [str_forall _ (comma_join ?l)] => fold (ascii_text (comma_join l)) end;
    rewrite ascii_text_comma_join; try done.
  - by apply Forall_map.
  - apply Forall_map. unfold sort_members. rewrite (merge_sort_Permutation key_le).
    apply Forall_map. eapply Forall_impl; [exact IH|]. intros [k v] Hv. cbn [fst snd] in *.
    unfold ascii_text in *. rewrite !str_forall_app. fold (ascii_text (quote k)). by rewrite ascii_text_quote, Hv.
Qed.

Lemma utf8_decode_ascii s : ascii_text s = true → utf8_decode (list_byte_of_string s) = Ok s.
Proof.
  unfold utf8_decode, ascii_text. induction s as [|c s IH]; [done|]. cbn [str_forall]. intros [Hc Hs]%andb_true_iff.
  specialize (IH Hs). change (list_byte_of_string (String c s)) with (byte_of_ascii c :: list_byte_of_string s).
  cbn [utf8_codes].
  assert (Byte.to_N (byte_of_ascii c) = code c) as -> by (by destruct c as [[] [] [] [] [] [] [] []]).
  rewrite Hc. destruct (utf8_codes (list_byte_of_string s)) as [l|e]; [|done]. cbn in *.
  apply N.ltb_lt in Hc. assert ((256 <=? code c)%N = false) as -> by (apply N.leb_gt; lia). cbn.
  rewrite IH. cbn. unfold code. by rewrite ascii_N_embedding.
Qed.

(** ** The sorted value *)

Lemma canon_keys (m : list (string * json)) : (map (λ p, (p.1, canon p.2)) m).*1 = m.*1.
Proof. induction m as [|p m IH]; [done|]. cbn in *. by rewrite IH. Qed.

Lemma Forall_mp {A} (P Q : A → Prop) l : Forall (λ x, P x → Q x) l → Forall P l → Forall Q l.
Proof. rewrite !Forall_forall. auto. Qed.

Lemma keys_distinct_canon j : keys_distinct j = true → keys_distinct (canon j) = true.
Proof.
  induction j as [| | | |l IH|m IH] using json_nested_ind; try done; cbn [canon]; intros Hk.
  - apply keys_distinct_list in Hk. apply keys_distinct_list, Forall_map.
    exact (Forall_mp (λ j, keys_distinct j = true) (λ j, keys_distinct (canon j) = true) l IH Hk).
  - apply keys_distinct_obj in Hk as [Hnd Hk]. apply keys_distinct_obj. unfold sort_members.
    rewrite (merge_sort_Permutation key_le), canon_keys. split; [done|]. apply Forall_map.
    exact (Forall_mp (λ p, keys_distinct p.2 = true) (λ p, keys_distinct (canon p.2) = true) m IH Hk).
Qed.

(** Sorting does not change the printed form. *)
Lemma dumps_canon j : keys_distinct j = true → dumps (canon j) = dumps j.
Proof.
  induction j as [| | | |l IH|m IH] using json_nested_ind; try done; cbn [canon]; intros Hk.
  - apply keys_distinct_list in Hk. cbn [dumps]. rewrite map_map. do 3 f_equal.
    apply map_ext_in. intros x Hx%list_elem_of_In. eapply Forall_forall in IH, Hk; [|exact Hx..]. auto.
  - apply keys_distinct_obj in Hk as [Hnd Hk].
    assert (NoDup (map (λ p, (p.1, canon p.2)) m).*1) as Hnd' by (by rewrite canon_keys).
    rewrite dumps_obj, sort_members_idemp by (done || unfold sort_members; by rewrite (merge_sort_Permutation key_le)).
    rewrite dumps_obj, sort_members_map, map_map by done. do 3 f_equal.
    apply map_ext_in. intros p Hp%list_elem_of_In. unfold sort_members in Hp.
    rewrite (merge_sort_Permutation key_le) in Hp. eapply Forall_forall in IH, Hk; [|exact Hp..].
    unfold print_member. cbn. by rewrite IH.
Qed.

(** ** Parsing always ends *)

Lemma str_len_skip_space s : (str_len (skip_space s) <= str_len s)%nat.
Proof. induction s as [|c s IH]; [done|]. cbn [skip_space]. destruct (is_json_space c); unfold str_len in *; cbn; lia. Qed.

Section errors.
Context (on_object : list (string * json) → result json) (on_number : exn) (Q : exn → Prop).
Hypothesis (HV : Q ValueError) (HB : Q BeyondLatin1) (HN : Q on_number).
Hypothesis HO : ∀ m e, on_object m = Raise e → Q e.

(** The outcome of a scanner on a text: a shorter rest, or an expected error. *)
Definition scanned {A} (s : string) (r : result (A * string)) : Prop :=
  match r with Ok (_, rest) => (str_len rest < str_len s)%nat | Raise e => Q e end.

Lemma scan_string_scanned s : scanned s (scan_string s).
Proof.
  remember (str_len s) as n eqn:Hn. revert s Hn.
  induction (lt_wf n) as [n _ IH]. intros [|c s] ->; [exact HV|]. cbn [scan_string].
  assert (∀ d t, (str_len t < str_len (String c s))%nat → scanned (String c s) (push d (scan_string t))) as Hpush.
  { intros d t Ht. specialize (IH _ Ht t eq_refl). unfold push, scanned in *.
    destruct (scan_string t) as [[u r]|e]; cbn [mbind result_bind]; [lia|done]. }
  destruct (code c =? 34)%N; [unfold scanned, str_len; cbn; lia|].
  destruct (code c =? 92)%N.
  - destruct s as [|e s]; [exact HV|]. destruct (simple_escape e); [apply Hpush; unfold str_len; cbn; lia|].
    destruct (negb _); [exact HV|]. destruct s as [|x1 [|x2 [|x3 [|x4 s]]]]; try exact HV.
    destruct (hex4 _ _ _ _); [|exact HV]. destruct (256 <=? n)%N; [exact HB|].
    apply Hpush. unfold str_len; cbn; lia.
  - destruct (code c <? 32)%N; [exact HV|]. apply Hpush. unfold str_len; cbn; lia.
Qed.

Lemma scanned_bind {A B} s t (r : result (A * string)) (k : A → string → result (B * string)) :
  scanned t r → (str_len t <= str_len s)%nat →
  (∀ a u, (str_len u < str_len t)%nat → scanned s (k a u)) →
  scanned s ('(a, u) ← r; k a u).
Proof. intros Hr Hts Hk. destruct r as [[a u]|e]; [by apply Hk|exact Hr]. Qed.

Lemma str_len_drop n s : str_len (str_drop n s) = (str_len s - n)%nat.
Proof. revert s. induction n as [|n IH]; intros [|c s]; cbn; [done..|]. apply IH. Qed.

Lemma span_digits_len s : (str_len (span_digits s).2 <= str_len s)%nat.
Proof.
  induction s as [|c s IH]; [done|]. cbn [span_digits]. destruct (is_digit c); [|done].
  destruct (span_digits s) as [d r]. unfold str_len in *. cbn in *. lia.
Qed.

Lemma scan_number_scanned s : scanned s (scan_number on_number s).
Proof.
  unfold scan_number. destruct (scan_int s) as [[t r]|] eqn:Hs; [|by destruct (String.prefix _ _)].
  destruct (is_float_tail r); [exact HN|]. cbn [raise_if mbind result_bind scanned].
  unfold scan_int in Hs.
  assert (∀ sg s1, match s1 with
      | String c s2 => if (code c =? 48)%N then Some (sg +:+ "0", s2)
          else if is_digit c then let '(d, r) := span_digits s1 in Some (sg +:+ d, r) else None
      | EmptyString => None end = Some (t, r) → (str_len r < str_len s1)%nat) as H.
  { intros sg [|c s1]; [done|]. destruct (code c =? 48)%N; [intros [= _ <-]; unfold str_len; cbn; lia|].
    cbn [span_digits]. destruct (is_digit c); [|done]. pose proof (span_digits_len s1) as Hl.
    destruct (span_digits s1) as [d u]. intros [= _ <-]. unfold str_len in *. cbn in *. lia. }
  destruct s as [|c s]; [done|]. destruct (code c =? 45)%N; [apply H in Hs; unfold str_len in *; cbn in *; lia|].
  by apply (H EmptyString (String c s)) in Hs.
Qed.

Lemma scan_elements_scanned once fuel : ∀ s,
  (∀ t, (str_len t <= str_len s)%nat → scanned t (once t)) → (str_len s < fuel)%nat →
  scanned s (scan_elements once fuel s).
Proof.
  induction fuel as [|fuel IH]; intros s Ho Hf; [lia|]. cbn [scan_elements].
  apply (scanned_bind _ s); [by apply Ho|done|]. intros j r Hr. pose proof (str_len_skip_space r) as Hsk.
  destruct (skip_space r) as [|d u]; [exact HV|]. cbn [str_len String.length] in *.
  destruct (_ =? 93)%N; [unfold scanned, str_len in *; cbn in *; lia|].
  destruct (_ =? 44)%N; [|exact HV]. pose proof (str_len_skip_space u).
  eapply (scanned_bind _ (skip_space u)); [apply IH|..].
  - intros t Ht. apply Ho. unfold str_len in *. cbn in *. lia.
  - unfold str_len in *. cbn in *. lia.
  - unfold str_len in *. cbn in *. lia.
  - intros l v Hv. unfold scanned, str_len in *. cbn in *. lia.
Qed.

Lemma scan_members_scanned once fuel : ∀ s,
  (∀ t, (str_len t <= str_len s)%nat → scanned t (once t)) → (str_len s < fuel)%nat →
  scanned s (scan_members once fuel s).
Proof.
  induction fuel as [|fuel IH]; intros s Ho Hf; [lia|]. cbn [scan_members].
  destruct s as [|c s]; [exact HV|]. destruct (negb _); [exact HV|].
  apply (scanned_bind _ s); [apply scan_string_scanned|unfold str_len; cbn; lia|]. intros k r Hr.
  pose proof (str_len_skip_space r) as Hsk. destruct (skip_space r) as [|d u]; [exact HV|].
  destruct (negb _); [exact HV|]. pose proof (str_len_skip_space u).
  eapply (scanned_bind _ (skip_space u)); [apply Ho|..]; [unfold str_len in *; cbn in *; lia..|].
  intros j v Hv. pose proof (str_len_skip_space v). destruct (skip_space v) as [|d' w]; [exact HV|].
  destruct (_ =? 125)%N; [unfold scanned, str_len in *; cbn in *; lia|].
  destruct (_ =? 44)%N; [|exact HV]. pose proof (str_len_skip_space w).
  eapply (scanned_bind _ (skip_space w)); [apply IH|..].
  - intros t Ht. apply Ho. unfold str_len in *. cbn in *. lia.
  - unfold str_len in *. cbn in *. lia.
  - unfold str_len in *. cbn in *. lia.
  - intros l x Hx. unfold scanned, str_len in *. cbn in *. lia.
Qed.

Lemma scan_once_scanned fuel : ∀ s, (str_len s < fuel)%nat → scanned s (scan_once on_object on_number fuel s).
Proof.
  induction fuel as [|fuel IH]; intros s Hf; [lia|]. cbn [scan_once]. destruct s as [|c s]; [exact HV|].
  pose proof (str_len_skip_space s) as Hsk. cbv zeta.
  assert (∀ n, scanned (String c s) (Ok (JNull, str_drop (S n) (String c s)) : result (json * string))) as Hdrop.
  { intros n. unfold scanned. rewrite str_len_drop. unfold str_len. cbn. lia. }
  assert (∀ t d u, skip_space s = String d u → (str_len t <= str_len (String d u))%nat →
    scanned t (scan_once on_object on_number fuel t)) as Honce.
  { intros t d u Hs Ht. apply IH. rewrite Hs in Hsk. unfold str_len in *. cbn in *. lia. }
  destruct (_ =? 34)%N.
  { apply (scanned_bind _ s); [apply scan_string_scanned|unfold str_len; cbn; lia|].
    intros k r Hr. unfold scanned, str_len in *. cbn in *. lia. }
  destruct (_ =? 123)%N.
  { destruct (skip_space s) as [|d u] eqn:Hs; [exact HV|]. destruct (_ =? 125)%N.
    - destruct (on_object []) as [j|e] eqn:Ho; [|by eapply HO]. unfold scanned, str_len in *. cbn in *. lia.
    - apply (scanned_bind _ (String d u)); [apply scan_members_scanned|..].
      + intros t Ht. by eapply Honce.
      + unfold str_len in *. cbn in *. lia.
      + unfold str_len in *. cbn in *. lia.
      + intros l r Hr. destruct (on_object l) as [j|e] eqn:Ho; [|by eapply HO].
        unfold scanned, str_len in *. cbn in *. lia. }
  destruct (_ =? 91)%N.
  { destruct (skip_space s) as [|d u] eqn:Hs; [exact HV|]. destruct (_ =? 93)%N.
    - unfold scanned, str_len in *. cbn in *. lia.
    - apply (scanned_bind _ (String d u)); [apply scan_elements_scanned|..].
      + intros t Ht. by eapply Honce.
      + unfold str_len in *. cbn in *. lia.
      + unfold str_len in *. cbn in *. lia.
      + intros l r Hr. unfold scanned, str_len in *. cbn in *. lia. }
  destruct (String.prefix "null" _); [apply Hdrop|]. destruct (String.prefix "true" _); [apply Hdrop|].
  destruct (String.prefix "false" _); [apply Hdrop|]. destruct (_ || _); [exact HN|].
  apply scan_number_scanned.
Qed.

(** Parsing never runs out of fuel: it returns a value or raises one of the
    exceptions of the scanner and the hooks. *)
Lemma loads_ends s :
  match loads on_object on_number s with Ok _ => True | Raise e => Q e end.
Proof.
  unfold loads. pose proof (scan_once_scanned (str_len (skip_space s) + 1) (skip_space s) ltac:(lia)) as H.
  destruct (scan_once _ _ _ _) as [[j r]|e]; [|exact H]. cbn [mbind result_bind].
  destruct (negb _); [exact HV|done].
Qed.
End errors.

Lemma utf8_decode_raises s e : utf8_decode s = Raise e → e = ValueError ∨ e = BeyondLatin1.
Proof.
  unfold utf8_decode. intros [H|(l & _ & H)]%bind_Raise.
  - left. revert e H. remember (length s) as n eqn:Hn. revert s Hn.
    induction (lt_wf n) as [n _ IH]. intros [|a s] -> e; [done|]. cbn [utf8_codes].
    assert (∀ t m, (length t < length (a :: s))%nat → cons m <$> utf8_codes t = Raise e → e = ValueError) as Ht.
    { intros t m Hl Hr%fmap_Raise. by eapply IH. }
    repeat case_match; subst; try congruence; apply Ht; cbn; lia.
  - right. revert e H. induction l as [|n l IH]; intros e; cbn [narrow]; [done|].
    intros [[_ ->]%raise_if_Raise|(? & _ & H%fmap_Raise)]%bind_Raise; [done|by apply IH].
Qed.
