(* ===== verification/Crypto.v ===== *)
(** * crypto/: hashing, keys, signatures and addresses

    [crypto/hash.py] is built on SHA-256 and [json.dumps], which the model
    computes.  The [ecdsa] package is third-party code: the class [EcdsaLib]
    is the interface the program uses, and [EcdsaLaws] the behaviour its
    documentation promises. *)

From Stdlib Require Import Strings.Ascii.
From S2P Require Import Prelude Bytes Sha256 Json.

(** ** crypto/hash.py *)

Definition sha256 (data : bytes) : bytes := sha256_digest data.

Definition sha256_hex (data : bytes) : string := bytes_hex (sha256_digest data).

(** The text is ASCII, so [.encode("utf-8")] maps characters to bytes. *)
Definition serialize (data : json) : bytes := list_byte_of_string (dumps data).

Definition hash_object (data : json) : bytes := sha256 (serialize data).

Lemma is_hash_sha256_hex data : is_hash (sha256_hex data) = true.
Proof. unfold sha256_hex. auto with pychain. Qed.

Lemma str_len_sha256_hex data : str_len (sha256_hex data) = 64%nat.
Proof. unfold sha256_hex. by rewrite str_len_bytes_hex, length_sha256_digest. Qed.

Lemma length_sha256 data : length (sha256 data) = 32%nat.
Proof. apply length_sha256_digest. Qed.

(** Two different inputs with one digest: the event that collision resistance
    makes infeasible, kept explicit in the statements that depend on it. *)
Definition sha256_collision : Prop := ∃ a b, a ≠ b ∧ sha256 a = sha256 b.

Lemma sha256_hex_inj a b : sha256_hex a = sha256_hex b → a = b ∨ sha256_collision.
Proof.
  intros H%bytes_hex_inj. destruct (decide (a = b)) as [|Hne]; [by left|].
  right. by exists a, b.
Qed.

#[global] Opaque sha256_hex sha256.
#[export] Hint Resolve is_hash_sha256_hex : pychain.

(** ** The [ecdsa] package on SECP256k1 *)

Class EcdsaLib := {
  SigningKey : Type;
  VerifyingKey : Type;
  (** [VerifyingKey.from_string]; [None] is [MalformedPointError] *)
  vk_from_string : bytes → option VerifyingKey;
  vk_to_string : VerifyingKey → bytes;
  (** [vk.verify(signature, message)]; [false] is [BadSignatureError] *)
  vk_verify : VerifyingKey → bytes → bytes → bool;
  (** [SigningKey.from_string]; [None] when the scalar is out of range *)
  sk_from_string : bytes → option SigningKey;
  sk_to_string : SigningKey → bytes;
  sk_verifying_key : SigningKey → VerifyingKey;
  sk_sign_deterministic : SigningKey → bytes → bytes;
  (** [sk.curve.baselen]: the bytes of a scalar *)
  sk_baselen : SigningKey → nat
}.

(** What the package documents: keys survive their raw encoding, a key accepts
    the signatures of its private key, and raw signatures have 64 bytes. *)
Class EcdsaLaws (E : EcdsaLib) := {
  vk_roundtrip vk : vk_from_string (vk_to_string vk) = Some vk;
  sk_roundtrip sk : sk_from_string (sk_to_string sk) = Some sk;
  sign_verify sk m :
    vk_verify (sk_verifying_key sk) (sk_sign_deterministic sk m) m = true;
  vk_string_length vk : length (vk_to_string vk) = 64%nat;
  sk_string_length sk : length (sk_to_string sk) = 32%nat;
  signature_length sk m : length (sk_sign_deterministic sk m) = 64%nat;
  baselen_value sk : sk_baselen sk = 32%nat
}.

Section crypto.
Context {E : EcdsaLib}.

(** ** crypto/keys.py *)

Definition get_public_key (private_key : SigningKey) : VerifyingKey :=
  sk_verifying_key private_key.

Definition private_key_to_hex (private_key : SigningKey) : string :=
  bytes_hex (sk_to_string private_key).

Definition private_key_from_hex (value : string) : result SigningKey :=
  _ ← raise_if (negb (str_len value =? 64)%nat || negb (str_forall is_lower_hex value)) ValueError;
  b ← bytes_fromhex value;
  match sk_from_string b with Some sk => Ok sk | None => Raise MalformedPointError end.

Definition public_key_to_hex (public_key : VerifyingKey) : string :=
  bytes_hex (vk_to_string public_key).

Definition public_key_from_hex (public_key_hex : string) : result VerifyingKey :=
  b ← bytes_fromhex public_key_hex;
  match vk_from_string b with Some vk => Ok vk | None => Raise MalformedPointError end.

(** ** crypto/signature.py *)

Definition sign_message (private_key : SigningKey) (message : bytes) : bytes :=
  sk_sign_deterministic private_key message.

Definition verify_signature (public_key : VerifyingKey) (message signature : bytes) : bool :=
  vk_verify public_key signature message.

(** ** crypto/address.py *)

(** The checksum both functions of the module compute. *)
Definition address_checksum (public_key_hash : string) : string :=
  str_take 8 (sha256_hex (utf8_encode public_key_hash)).

Definition public_key_to_address (public_key : VerifyingKey) : string :=
  let public_key_hash := str_take 40 (sha256_hex (vk_to_string public_key)) in
  "PYC_" +:+ public_key_hash +:+ address_checksum public_key_hash.

Definition validate_address (address : string) : bool :=
  if negb (String.prefix "PYC_" address) then false
  else
    let data := str_drop 4 address in
    if negb (str_len data =? 48)%nat then false
    else
      let public_key_hash := str_take 40 data in
      let checksum := str_drop 40 data in
      bool_decide (checksum = address_checksum public_key_hash).
End crypto.

(** ** Lemmas *)

Section crypto_lemmas.
Context {E : EcdsaLib} {EL : EcdsaLaws E}.

Lemma public_key_from_to_hex vk : public_key_from_hex (public_key_to_hex vk) = Ok vk.
Proof.
  unfold public_key_from_hex, public_key_to_hex.
  rewrite bytes_fromhex_hex. cbn. by rewrite vk_roundtrip.
Qed.

Lemma private_key_from_to_hex sk : private_key_from_hex (private_key_to_hex sk) = Ok sk.
Proof.
  unfold private_key_from_hex, private_key_to_hex.
  rewrite str_len_bytes_hex, sk_string_length, bytes_hex_lower. cbn.
  rewrite bytes_fromhex_hex. cbn. by rewrite sk_roundtrip.
Qed.

Lemma public_key_to_hex_nonempty vk : public_key_to_hex vk ≠ EmptyString.
Proof.
  intros H. apply (f_equal str_len) in H. unfold public_key_to_hex in H.
  rewrite str_len_bytes_hex, vk_string_length in H. discriminate H.
Qed.
End crypto_lemmas.

Lemma str_len_address_checksum h : str_len (address_checksum h) = 8%nat.
Proof. unfold address_checksum. by rewrite str_len_take, str_len_sha256_hex. Qed.

Lemma validate_address_of_checksum h :
  str_len h = 40%nat → validate_address ("PYC_" +:+ h +:+ address_checksum h) = true.
Proof.
  intros Hh. unfold validate_address.
  assert (String.prefix "PYC_" ("PYC_" +:+ h +:+ address_checksum h) = true) as ->
    by (rewrite !str_app_cons, str_app_nil; by destruct (h +:+ _)).
  cbn [negb]. change (str_drop 4 ("PYC_" +:+ h +:+ address_checksum h)) with (h +:+ address_checksum h).
  rewrite str_len_app, Hh, str_len_address_checksum. cbn [Nat.add Nat.eqb negb].
  rewrite <- Hh, str_drop_app, str_take_app. by apply bool_decide_eq_true.
Qed.

Lemma validate_public_key_to_address {E : EcdsaLib} vk :
  validate_address (public_key_to_address vk) = true.
Proof.
  apply validate_address_of_checksum. by rewrite str_len_take, str_len_sha256_hex.
Qed.

#[export] Hint Resolve validate_public_key_to_address : pychain.
