(* ===== verification/Transaction.v ===== *)
(** * transaction/: inputs, outputs and transactions

    [tx_input.py], [tx_output.py] and [transaction.py].  The dataclasses are
    records at their annotated types; [sign_input] mutates its transaction, so
    here it returns the updated one. *)

From S2P Require Import Prelude Bytes Sha256 Json Crypto.

(** ** Data *)

Record TxInput := MkTxInput {
  previous_tx_id : string;
  output_index : Z;
  public_key : string;
  signature : string
}.

Record TxOutput := MkTxOutput {
  amount : Z;
  recipient_address : string
}.

Record Transaction := MkTransaction {
  inputs : list TxInput;
  outputs : list TxOutput;
  tx_timestamp : Z;
  tx_version : Z
}.

#[export] Instance TxInput_eq_dec : EqDecision TxInput.
Proof. solve_decision. Defined.
#[export] Instance TxOutput_eq_dec : EqDecision TxOutput.
Proof. solve_decision. Defined.
#[export] Instance Transaction_eq_dec : EqDecision Transaction.
Proof. solve_decision. Defined.

Abbreviation Outpoint := (string * Z)%type.

(** [(tx_input.previous_tx_id, tx_input.output_index)] *)
Definition outpoint (i : TxInput) : Outpoint := (previous_tx_id i, output_index i).

(** ** Serialised forms *)

Definition tx_input_to_dict (i : TxInput) (include_signature : bool) : json :=
  let data := [("previous_tx_id", JStr (previous_tx_id i));
               ("output_index", JInt (output_index i));
               ("public_key", JStr (public_key i))] in
  JObj (if include_signature then data ++ [("signature", JStr (signature i))] else data).

Definition outpoint_dict (i : TxInput) : json :=
  JObj [("previous_tx_id", JStr (previous_tx_id i)); ("output_index", JInt (output_index i))].

Definition tx_output_to_dict (o : TxOutput) : json :=
  JObj [("amount", JInt (amount o)); ("recipient_address", JStr (recipient_address o))].

Definition transaction_to_dict (tx : Transaction) (include_signatures : bool) : json :=
  JObj [("version", JInt (tx_version tx));
        ("inputs", JList (map (λ i, tx_input_to_dict i include_signatures) (inputs tx)));
        ("outputs", JList (map tx_output_to_dict (outputs tx)));
        ("timestamp", JInt (tx_timestamp tx))].

(** [input_index < 0 or input_index >= len(self.inputs)] *)
Definition input_out_of_range (tx : Transaction) (input_index : Z) : bool :=
  (input_index <? 0) || (Z.of_nat (length (inputs tx)) <=? input_index).

Definition signing_dict (tx : Transaction) (input_index : Z) : result json :=
  _ ← raise_if (input_out_of_range tx input_index) IndexError;
  match inputs tx !! Z.to_nat input_index with
  | None => Raise IndexError
  | Some i =>
      Ok (JObj [("version", JInt (tx_version tx));
                ("inputs", JList (map outpoint_dict (inputs tx)));
                ("outputs", JList (map tx_output_to_dict (outputs tx)));
                ("timestamp", JInt (tx_timestamp tx));
                ("signing_input_index", JInt input_index);
                ("public_key", JStr (public_key i))])
  end.

Definition signing_bytes (tx : Transaction) (input_index : Z) : result bytes :=
  serialize <$> signing_dict tx input_index.

Definition transaction_bytes (tx : Transaction) : bytes := serialize (transaction_to_dict tx true).

Definition txid (tx : Transaction) : string := sha256_hex (transaction_bytes tx).

(** ** Signing *)

Definition set_public_key (k : string) (i : TxInput) : TxInput :=
  MkTxInput (previous_tx_id i) (output_index i) k (signature i).
Definition set_signature (s : string) (i : TxInput) : TxInput :=
  MkTxInput (previous_tx_id i) (output_index i) (public_key i) s.
Definition set_inputs (tx : Transaction) (l : list TxInput) : Transaction :=
  MkTransaction l (outputs tx) (tx_timestamp tx) (tx_version tx).

(** The public key is written first: the signed message covers it. *)
Definition sign_input {E : EcdsaLib} (tx : Transaction) (input_index : Z)
    (private_key : SigningKey) : result Transaction :=
  _ ← raise_if (input_out_of_range tx input_index) IndexError;
  let n := Z.to_nat input_index in
  let pk := get_public_key private_key in
  let tx1 := set_inputs tx (alter (set_public_key (public_key_to_hex pk)) n (inputs tx)) in
  message ← signing_bytes tx1 input_index;
  let sig := sign_message private_key message in
  Ok (set_inputs tx1 (alter (set_signature (bytes_hex sig)) n (inputs tx1))).

(** ** Lemmas *)

Lemma is_hash_txid tx : is_hash (txid tx) = true.
Proof. apply is_hash_sha256_hex. Qed.

(** A signature covers the version, the timestamp, the outputs, every outpoint,
    the signed position and the public key written there, and nothing else. *)
Definition same_signed_data (tx tx' : Transaction) : Prop :=
  tx_version tx = tx_version tx' ∧ tx_timestamp tx = tx_timestamp tx' ∧
  outputs tx = outputs tx' ∧ map outpoint (inputs tx) = map outpoint (inputs tx').

Lemma map_outpoint_dict l l' :
  map outpoint l = map outpoint l' → map outpoint_dict l = map outpoint_dict l'.
Proof.
  revert l'. induction l as [|i l IH]; intros [|i' l']; try done.
  cbn. intros [= ? ? ?]. f_equal; [|by apply IH]. unfold outpoint_dict. congruence.
Qed.

Lemma signing_bytes_ext tx tx' n i i' :
  same_signed_data tx tx' → inputs tx !! n = Some i → inputs tx' !! n = Some i' →
  public_key i = public_key i' →
  signing_bytes tx (Z.of_nat n) = signing_bytes tx' (Z.of_nat n).
Proof.
  intros (Hv & Ht & Ho & Hin) Hi Hi' Hpk.
  pose proof (f_equal length Hin) as Hlen. rewrite !length_map in Hlen.
  unfold signing_bytes, signing_dict, input_out_of_range.
  rewrite Nat2Z.id, Hi, Hi', Hv, Ht, Ho, Hpk, Hlen, (map_outpoint_dict _ _ Hin). done.
Qed.

Lemma map_alter_outpoint (f : TxInput → TxInput) n (l : list TxInput) :
  (∀ i, outpoint (f i) = outpoint i) → map outpoint (alter f n l) = map outpoint l.
Proof.
  intros Hf. revert n. induction l as [|i l IH]; intros [|n]; cbn; [done..| |].
  - by rewrite Hf.
  - by rewrite IH.
Qed.
