(* ===== verification/Utxo.v ===== *)
(** * transaction/utxo.py: the set of unspent outputs

    [UTXOSet] wraps a dict from outpoints to outputs; no operation depends on
    the dict's order, so it is a finite map.  The methods deep-copy whatever
    enters or leaves the set, which is the value semantics of the model. *)

From S2P Require Import Prelude Bytes Sha256 Json Crypto Transaction.

Abbreviation UTXOSet := (gmap Outpoint TxOutput).

(** ** Operations *)

Definition utxo_add (u : UTXOSet) (tid : string) (idx : Z) (output : TxOutput) : result UTXOSet :=
  match u !! (tid, idx) with
  | Some _ => Raise ValueError
  | None => Ok (<[(tid, idx) := output]> u)
  end.

Definition utxo_get (u : UTXOSet) (tid : string) (idx : Z) : option TxOutput := u !! (tid, idx).

Definition utxo_exists (u : UTXOSet) (tid : string) (idx : Z) : bool :=
  bool_decide (is_Some (u !! (tid, idx))).

Definition utxo_spend (u : UTXOSet) (tid : string) (idx : Z) : result (TxOutput * UTXOSet) :=
  match u !! (tid, idx) with
  | Some output => Ok (output, delete (tid, idx) u)
  | None => Raise KeyError
  end.

Definition get_utxos_for_address (u : UTXOSet) (address : string) : UTXOSet :=
  filter (λ p, recipient_address p.2 = address) u.

Definition get_balance (u : UTXOSet) (address : string) : Z :=
  map_fold (λ _ o s, (if decide (recipient_address o = address) then amount o else 0) + s) 0 u.

(** The items of the dict comprehension over [enumerate(transaction.outputs)]. *)
Definition output_items (tx : Transaction) : list (Outpoint * TxOutput) :=
  imap (λ i o, ((txid tx, Z.of_nat i), o)) (outputs tx).

Definition transaction_outputs (u : UTXOSet) (tx : Transaction) : result (list (Outpoint * TxOutput)) :=
  let outs := output_items tx in
  if existsb (λ p, bool_decide (is_Some (u !! p.1))) outs then Raise ValueError else Ok outs.

(** [self._utxos.update(outputs)] *)
Definition dict_update (u : UTXOSet) (items : list (Outpoint * TxOutput)) : UTXOSet :=
  list_to_map items ∪ u.

Definition add_transaction_outputs (u : UTXOSet) (tx : Transaction) : result UTXOSet :=
  outs ← transaction_outputs u tx; Ok (dict_update u outs).

(** The outpoints a transaction spends. *)
Definition spent_outpoints (tx : Transaction) : list Outpoint := map outpoint (inputs tx).

Definition apply_valid_transaction (u : UTXOSet) (tx : Transaction) : result UTXOSet :=
  let spent := spent_outpoints tx in
  _ ← raise_if (negb (all_distinct spent)) ValueError;
  _ ← raise_if (existsb (λ p, bool_decide (u !! p = None)) spent) KeyError;
  outs ← transaction_outputs u tx;
  Ok (dict_update (foldr delete u spent) outs).

(** The value held by the set: what its balances add up to. *)
Definition utxo_total (u : UTXOSet) : Z := map_fold (λ _ o s, amount o + s) 0 u.

(** ** The items created by a transaction *)

Lemma elem_of_output_items tx k o :
  (k, o) ∈ output_items tx ↔ ∃ n, k = (txid tx, Z.of_nat n) ∧ outputs tx !! n = Some o.
Proof.
  unfold output_items. rewrite list_elem_of_lookup. split.
  - intros (n & Hn). rewrite list_lookup_imap in Hn.
    destruct (outputs tx !! n) eqn:E; simplify_eq/=. eauto.
  - intros (n & -> & Hn). exists n. by rewrite list_lookup_imap, Hn.
Qed.

Lemma output_items_keys_NoDup tx : NoDup (output_items tx).*1.
Proof.
  unfold output_items. apply NoDup_alt. intros i j k Hi Hj.
  rewrite list_lookup_fmap, list_lookup_imap in Hi, Hj.
  destruct (outputs tx !! i), (outputs tx !! j); simplify_eq/=. done.
Qed.

Lemma output_items_amounts tx :
  sumZ_with (λ p, amount p.2) (output_items tx) = sumZ_with amount (outputs tx).
Proof.
  unfold output_items.
  assert (∀ (f : nat → Outpoint) l,
    sumZ_with (λ p, amount p.2) (imap (λ i o, (f i, o)) l) = sumZ_with amount l) as H; [|apply H].
  intros f l. revert f. induction l as [|o l IH]; intros f; cbn; [done|].
  f_equal. apply (IH (f ∘ S)).
Qed.

Definition created_by (tx : Transaction) : UTXOSet := list_to_map (output_items tx).

Lemma lookup_created_by tx k o :
  created_by tx !! k = Some o ↔ ∃ n, k = (txid tx, Z.of_nat n) ∧ outputs tx !! n = Some o.
Proof.
  unfold created_by. rewrite <- elem_of_list_to_map by apply output_items_keys_NoDup.
  apply elem_of_output_items.
Qed.

Lemma created_by_txid tx k : is_Some (created_by tx !! k) → k.1 = txid tx.
Proof. by intros [o (n & -> & _)%lookup_created_by]. Qed.

(** ** Characterisation of the state changes *)

Lemma transaction_outputs_Ok u tx items :
  transaction_outputs u tx = Ok items ↔ items = output_items tx ∧ created_by tx ##ₘ u.
Proof.
  unfold transaction_outputs. destruct (existsb _ _) eqn:E.
  - split; [done|]. intros (-> & Hdisj). apply existsb_exists in E as ([k o] & Hin & Hu).
    apply list_elem_of_In in Hin. to_prop. destruct Hu as [o' Ho'].
    apply elem_of_output_items, lookup_created_by in Hin.
    pose proof (map_disjoint_Some_l _ _ _ _ Hdisj Hin) as Hn. cbn in Ho'. congruence.
  - split; [|by intros [-> _]]. intros [= <-]. split; [done|].
    apply map_disjoint_spec. intros k o o' Hc Hu.
    apply lookup_created_by, elem_of_output_items, list_elem_of_In in Hc.
    assert (existsb (λ p, bool_decide (is_Some (u !! p.1))) (output_items tx) = true) as Ht;
      [|congruence].
    apply existsb_exists. exists (k, o). split; [done|]. apply bool_decide_eq_true. eauto.
Qed.

Lemma add_transaction_outputs_Ok u tx u' :
  add_transaction_outputs u tx = Ok u' ↔ created_by tx ##ₘ u ∧ u' = created_by tx ∪ u.
Proof.
  unfold add_transaction_outputs. rewrite bind_Ok. split.
  - intros (items & [-> ?]%transaction_outputs_Ok & [= <-]). done.
  - intros [? ->]. exists (output_items tx). by rewrite transaction_outputs_Ok.
Qed.

Lemma apply_valid_transaction_Ok u tx u' :
  apply_valid_transaction u tx = Ok u' ↔
    NoDup (spent_outpoints tx) ∧ (∀ k, k ∈ spent_outpoints tx → is_Some (u !! k)) ∧
    created_by tx ##ₘ u ∧ u' = created_by tx ∪ foldr delete u (spent_outpoints tx).
Proof.
  unfold apply_valid_transaction. split.
  - intros (? & Hnd%raise_if_Ok & (? & Hex%raise_if_Ok &
      (? & [-> Hdisj]%transaction_outputs_Ok & [= <-])%bind_Ok)%bind_Ok)%bind_Ok.
    apply negb_false_iff, all_distinct_true in Hnd. split_and!; [done| |done|done].
    intros k Hk. apply not_eq_None_Some. intros Hn.
    assert (existsb (λ p, bool_decide (u !! p = None)) (spent_outpoints tx) = true) as Ht;
      [|congruence].
    apply existsb_exists. exists k. split; [by apply list_elem_of_In|by apply bool_decide_eq_true].
  - intros (Hnd & Hin & Hdisj & ->). apply all_distinct_true in Hnd as ->. cbn.
    destruct (existsb _ _) eqn:E.
    + apply existsb_exists in E as (k & Hk%list_elem_of_In & Hn). to_prop.
      apply Hin in Hk as [o Ho]. congruence.
    + cbn. assert (transaction_outputs u tx = Ok (output_items tx)) as ->
        by (apply transaction_outputs_Ok; done). done.
Qed.

(** The whole effect on one outpoint. *)
Lemma apply_valid_transaction_lookup u tx u' k :
  apply_valid_transaction u tx = Ok u' →
  u' !! k = match created_by tx !! k with
            | Some o => Some o
            | None => if decide (k ∈ spent_outpoints tx) then None else u !! k
            end.
Proof.
  intros (_ & _ & _ & ->)%apply_valid_transaction_Ok.
  destruct (created_by tx !! k) as [o|] eqn:E.
  - by apply lookup_union_Some_l.
  - rewrite lookup_union_r by done. case_decide.
    + by apply lookup_foldr_delete.
    + by apply lookup_foldr_delete_not_elem_of.
Qed.

(** ** Value *)

Section total.
Implicit Types (u v : UTXOSet).

Lemma utxo_total_empty : utxo_total ∅ = 0.
Proof. apply map_fold_empty. Qed.

Lemma utxo_total_insert u k o : u !! k = None → utxo_total (<[k := o]> u) = amount o + utxo_total u.
Proof. intros Hk. unfold utxo_total. rewrite map_fold_insert_L; [done|intros; lia|done]. Qed.

Lemma utxo_total_delete u k o : u !! k = Some o → utxo_total (delete k u) = utxo_total u - amount o.
Proof. intros Hk. unfold utxo_total. rewrite (map_fold_delete_L _ _ k o u); [lia|intros; lia|done]. Qed.

Lemma utxo_total_union u v : u ##ₘ v → utxo_total (u ∪ v) = utxo_total u + utxo_total v.
Proof.
  induction u as [|k o u Hk IH] using map_ind; intros Hd.
  - by rewrite map_empty_union, utxo_total_empty.
  - apply map_disjoint_insert_l in Hd as [Hv Hd].
    rewrite <- insert_union_l, !utxo_total_insert, IH by (auto; by apply lookup_union_None).
    lia.
Qed.

Lemma utxo_total_list_to_map l :
  NoDup l.*1 → utxo_total (list_to_map l) = sumZ_with (λ p, amount p.2) l.
Proof.
  induction l as [|[k o] l IH]; cbn; intros Hnd.
  - apply utxo_total_empty.
  - apply NoDup_cons in Hnd as [Hk Hnd].
    rewrite utxo_total_insert, IH; [done..|]. by apply not_elem_of_list_to_map_1.
Qed.

Lemma utxo_total_created_by tx : utxo_total (created_by tx) = sumZ_with amount (outputs tx).
Proof.
  unfold created_by. by rewrite utxo_total_list_to_map, output_items_amounts
    by apply output_items_keys_NoDup.
Qed.

(** The value of the outputs an outpoint list designates. *)
Definition value_at u (k : Outpoint) : Z := default 0 (amount <$> u !! k).

Lemma utxo_total_delete_all u ks :
  NoDup ks → (∀ k, k ∈ ks → is_Some (u !! k)) →
  utxo_total (foldr delete u ks) = utxo_total u - sumZ_with (value_at u) ks.
Proof.
  induction ks as [|k ks IH]; cbn; intros Hnd Hin; [lia|].
  apply NoDup_cons in Hnd as [Hk Hnd]. destruct (Hin k) as [o Ho]; [set_solver|].
  rewrite (utxo_total_delete _ _ o) by (by rewrite lookup_foldr_delete_not_elem_of).
  rewrite IH by set_solver. unfold value_at at 2. rewrite Ho. cbn. lia.
Qed.

Lemma apply_valid_transaction_total u tx u' :
  apply_valid_transaction u tx = Ok u' →
  utxo_total u' = utxo_total u - sumZ_with (value_at u) (spent_outpoints tx)
                  + sumZ_with amount (outputs tx).
Proof.
  intros (Hnd & Hin & Hdisj & ->)%apply_valid_transaction_Ok.
  rewrite utxo_total_union, utxo_total_delete_all, utxo_total_created_by; [lia|done..|].
  apply map_disjoint_spec. intros k o o' Hc Hd.
  destruct (decide (k ∈ spent_outpoints tx)) as [Hk|Hk].
  - by rewrite lookup_foldr_delete in Hd.
  - rewrite lookup_foldr_delete_not_elem_of in Hd by done.
    pose proof (map_disjoint_Some_l _ _ _ _ Hdisj Hc). congruence.
Qed.

Lemma get_balance_insert u k o a :
  u !! k = None →
  get_balance (<[k := o]> u) a
  = (if decide (recipient_address o = a) then amount o else 0) + get_balance u a.
Proof. intros Hk. unfold get_balance. rewrite map_fold_insert_L; [done|intros; lia|done]. Qed.

(** The balance of an address is the value of its own outputs. *)
Lemma get_balance_filter u a : get_balance u a = utxo_total (get_utxos_for_address u a).
Proof.
  induction u as [|k o u Hk IH] using map_ind.
  - unfold get_utxos_for_address. rewrite map_filter_empty. done.
  - rewrite get_balance_insert by done. unfold get_utxos_for_address. rewrite map_filter_insert.
    cbn. case_decide.
    + rewrite utxo_total_insert, IH; [done|]. apply map_lookup_filter_None. auto.
    + rewrite IH. unfold get_utxos_for_address. by rewrite delete_id.
Qed.
End total.
