(* ===== verification/TxValidation.v ===== *)
(** * transaction/validation.py: validation of a regular transaction

    The executable validator follows the code's loops and early returns; an
    exception raised on malformed hexadecimal or key material travels as a
    [Raise] up to [safe_validated_fee], the code's [except] clause.  [valid_tx]
    is the declarative rule, and [calculate_transaction_fee_spec] the
    refinement between the two. *)

From S2P Require Import Prelude Bytes Sha256 Json Crypto Transaction Utxo.

Definition is_valid_output (output : TxOutput) : bool :=
  (0 <? amount output) && validate_address (recipient_address output).

(** The shape required of an input: no empty string, no negative index. *)
Definition input_well_formed (i : TxInput) : bool :=
  negb (bool_decide (previous_tx_id i = EmptyString)) && (0 <=? output_index i)
  && negb (bool_decide (public_key i = EmptyString))
  && negb (bool_decide (signature i = EmptyString)).

(** The first loop over the inputs: shapes and repeated outpoints. *)
Fixpoint check_inputs (l : list TxInput) (seen_outpoints : gset Outpoint) : bool :=
  match l with
  | [] => true
  | i :: l =>
      if negb (input_well_formed i) then false
      else if bool_decide (outpoint i ∈ seen_outpoints) then false
      else check_inputs l ({[outpoint i]} ∪ seen_outpoints)
  end.

Definition MALFORMED_TRANSACTION_ERRORS : list exn :=
  [AttributeError; IndexError; KeyError; TypeError; ValueError; MalformedPointError].

Section validation.
Context {E : EcdsaLib}.

(** The second loop: ownership and signature of each input.  [None] is the
    early [return None]. *)
Fixpoint sum_inputs (tx : Transaction) (utxo_set : UTXOSet) (input_index : Z)
    (l : list TxInput) (total_input : Z) : result (option Z) :=
  match l with
  | [] => Ok (Some total_input)
  | i :: l =>
      match utxo_get utxo_set (previous_tx_id i) (output_index i) with
      | None => Ok None
      | Some utxo =>
          if negb (is_valid_output utxo) then Ok None else
          vk ← public_key_from_hex (public_key i);
          sig ← bytes_fromhex (signature i);
          if bool_decide (public_key_to_address vk ≠ recipient_address utxo) then Ok None else
          message ← signing_bytes tx input_index;
          if negb (verify_signature vk message sig) then Ok None else
          sum_inputs tx utxo_set (input_index + 1) l (total_input + amount utxo)
      end
  end.

Definition validated_fee (tx : Transaction) (utxo_set : UTXOSet) : result (option Z) :=
  if negb (tx_version tx =? 1) || (tx_timestamp tx <? 0)
     || bool_decide (inputs tx = []) || bool_decide (outputs tx = []) then Ok None
  else if negb (forallb is_valid_output (outputs tx)) then Ok None
  else if negb (check_inputs (inputs tx) ∅) then Ok None
  else
    total ← sum_inputs tx utxo_set 0 (inputs tx) 0;
    match total with
    | None => Ok None
    | Some total_input =>
        let fee := total_input - sumZ_with amount (outputs tx) in
        Ok (if 0 <=? fee then Some fee else None)
    end.

Definition safe_validated_fee (tx : Transaction) (utxo_set : UTXOSet) : result (option Z) :=
  try_except (validated_fee tx utxo_set) MALFORMED_TRANSACTION_ERRORS None.

Definition calculate_transaction_fee (tx : Transaction) (utxo_set : UTXOSet) : result Z :=
  fee ← safe_validated_fee tx utxo_set;
  match fee with None => Raise ValueError | Some fee => Ok fee end.

Definition validate_transaction (tx : Transaction) (utxo_set : UTXOSet) : result bool :=
  fee ← safe_validated_fee tx utxo_set;
  Ok (bool_decide (is_Some fee)).

(** ** The rule *)

(** Input [i], at position [n] of [tx], may spend the output it designates:
    the key hashes to the output's address and signed the transaction. *)
Definition authorised (u : UTXOSet) (tx : Transaction) (n : nat) (i : TxInput) : Prop :=
  ∃ o vk sig message,
    u !! outpoint i = Some o ∧ is_valid_output o = true ∧
    public_key_from_hex (public_key i) = Ok vk ∧ bytes_fromhex (signature i) = Ok sig ∧
    public_key_to_address vk = recipient_address o ∧
    signing_bytes tx (Z.of_nat n) = Ok message ∧ verify_signature vk message sig = true.

Record valid_tx (u : UTXOSet) (tx : Transaction) (fee : Z) : Prop := {
  valid_version : tx_version tx = 1;
  valid_timestamp : 0 <= tx_timestamp tx;
  valid_inputs_nonempty : inputs tx ≠ [];
  valid_outputs_nonempty : outputs tx ≠ [];
  valid_outputs : Forall (λ o, is_valid_output o = true) (outputs tx);
  valid_inputs_shape : Forall (λ i, input_well_formed i = true) (inputs tx);
  valid_inputs_distinct : NoDup (spent_outpoints tx);
  valid_authorised : ∀ n i, inputs tx !! n = Some i → authorised u tx n i;
  valid_fee : fee = sumZ_with (value_at u) (spent_outpoints tx) - sumZ_with amount (outputs tx);
  valid_fee_nonneg : 0 <= fee
}.
End validation.

(** ** The loops meet the rule *)

Lemma check_inputs_spec (l : list TxInput) (seen : gset Outpoint) :
  check_inputs l seen = true ↔
    Forall (λ i, input_well_formed i = true) l ∧ NoDup (map outpoint l) ∧
    (∀ k, k ∈ map outpoint l → k ∉ seen).
Proof.
  revert seen. induction l as [|i l IH]; intros seen; cbn [check_inputs map].
  { split; [intros _; split_and!; [constructor|constructor|set_solver]|done]. }
  rewrite Forall_cons, NoDup_cons.
  destruct (input_well_formed i); cbn [negb]; [|split; [done|by intros ([? _] & _)]].
  case_bool_decide as Hi.
  - split; [done|]. intros (_ & _ & Hk). exfalso. by apply (Hk (outpoint i)); [left|].
  - rewrite IH. split.
    + intros (Hl & Hnd & Hk). split_and!; try done.
      * intros Hin. apply Hk in Hin. apply Hin, elem_of_union. left. by apply elem_of_singleton.
      * intros k [->|Hin]%elem_of_cons; [done|]. apply Hk in Hin. set_solver.
    + intros ([_ Hl] & [Hni Hnd] & Hk). split_and!; try done.
      intros k Hin [->%elem_of_singleton|Hs]%elem_of_union; [done|].
      by apply (Hk k); [right|].
Qed.

Section validation_lemmas.
Context {E : EcdsaLib}.

Lemma value_at_Some u k o : u !! k = Some o → value_at u k = amount o.
Proof. unfold value_at. by intros ->. Qed.

Lemma sum_inputs_spec tx u l : ∀ n acc total,
  sum_inputs tx u (Z.of_nat n) l acc = Ok (Some total) ↔
    (∀ m i, l !! m = Some i → authorised u tx (n + m) i) ∧
    total = acc + sumZ_with (value_at u) (map outpoint l).
Proof.
  induction l as [|i l IH]; intros n acc total; cbn [sum_inputs map sumZ_with].
  { split; [intros [= <-]; split; [done|lia]|]. intros [_ ->]. do 2 f_equal. lia. }
  replace (Z.of_nat n + 1) with (Z.of_nat (S n)) by lia. unfold utxo_get.
  change (previous_tx_id i, output_index i) with (outpoint i). split.
  - destruct (u !! outpoint i) as [o|] eqn:Ho; [|done].
    destruct (is_valid_output o) eqn:Hv; [|done]. cbn [negb].
    intros (vk & Hvk & (sig & Hsig & H)%bind_Ok)%bind_Ok.
    case_bool_decide as Ha; [done|].
    apply bind_Ok in H as (msg & Hmsg & H).
    destruct (verify_signature vk msg sig) eqn:Hver; [|done]. cbn [negb] in H.
    apply IH in H as [Hl ->]. split.
    + intros [|m] j Hj; cbn in Hj.
      * injection Hj as <-. rewrite Nat.add_0_r. by exists o, vk, sig, msg.
      * replace (n + S m)%nat with (S n + m)%nat by lia. by apply Hl.
    + rewrite (value_at_Some _ _ _ Ho). lia.
  - intros [Hl ->]. destruct (Hl 0%nat i) as (o & vk & sig & msg & Ho & Hv & Hvk & Hsig & Ha & Hmsg & Hver);
      [done|].
    rewrite Nat.add_0_r in Hmsg. rewrite Ho, Hv, Hvk, Hsig. cbn.
    rewrite bool_decide_eq_false_2 by naive_solver. rewrite Hmsg. cbn. rewrite Hver. cbn.
    apply IH. split.
    + intros m j Hj. replace (S n + m)%nat with (n + S m)%nat by lia. by apply Hl.
    + rewrite (value_at_Some _ _ _ Ho). lia.
Qed.

Lemma public_key_from_hex_raises s e :
  public_key_from_hex s = Raise e → e = ValueError ∨ e = MalformedPointError.
Proof.
  unfold public_key_from_hex. intros [?%bytes_fromhex_raises|(b & _ & Hb)]%bind_Raise; [by left|].
  destruct (vk_from_string b); [done|]. injection Hb as <-. by right.
Qed.

Lemma signing_bytes_raises tx n e : signing_bytes tx n = Raise e → e = IndexError.
Proof.
  unfold signing_bytes, signing_dict.
  intros [[_ <-]%raise_if_Raise|(x & Hx & H)]%fmap_Raise%bind_Raise; [done|].
  destruct (_ !! _); congruence.
Qed.

Lemma sum_inputs_raises tx u l e : ∀ n acc,
  sum_inputs tx u n l acc = Raise e → e ∈ MALFORMED_TRANSACTION_ERRORS.
Proof.
  unfold MALFORMED_TRANSACTION_ERRORS.
  induction l as [|i l IH]; intros n acc; cbn [sum_inputs]; [done|].
  destruct (utxo_get _ _ _); [|done]. case_match; [done|].
  intros [[->| ->]%public_key_from_hex_raises|(vk & _ & Hr)]%bind_Raise; [set_solver..|].
  apply bind_Raise in Hr as [->%bytes_fromhex_raises|(sig & _ & Hr)]; [set_solver|].
  case_match; [done|]. apply bind_Raise in Hr as [->%signing_bytes_raises|(m & _ & Hr)]; [set_solver|].
  case_match; [done|]. by apply IH in Hr.
Qed.

Lemma validated_fee_raises tx u e :
  validated_fee tx u = Raise e → e ∈ MALFORMED_TRANSACTION_ERRORS.
Proof.
  unfold validated_fee. intros Hr. do 3 (case_match; [done|]).
  apply bind_Raise in Hr as [Hr|(total & _ & Hr)]; [by eapply sum_inputs_raises|by destruct total].
Qed.

(** No malformed transaction escapes the [except] clause. *)
Lemma safe_validated_fee_total tx u : ∃ o, safe_validated_fee tx u = Ok o.
Proof.
  unfold safe_validated_fee, try_except.
  destruct (validated_fee tx u) as [o|e] eqn:He; [by eexists|].
  rewrite bool_decide_eq_true_2 by (by eapply validated_fee_raises). by eexists.
Qed.

Lemma validated_fee_spec tx u fee :
  validated_fee tx u = Ok (Some fee) ↔ valid_tx u tx fee.
Proof.
  unfold validated_fee. split.
  - case_match eqn:Hguard; [done|]. to_prop.
    destruct (forallb _ _) eqn:Hout; [|done]. cbn [negb].
    destruct (check_inputs _ _) eqn:Hin; [|done]. cbn [negb].
    intros (total & Hsum & Hfee)%bind_Ok. destruct total as [total|]; [|done].
    apply (sum_inputs_spec _ _ _ 0) in Hsum as [Hauth ->].
    apply check_inputs_spec in Hin as (Hwf & Hnd & _).
    case_match eqn:Hf; [|done]. injection Hfee as <-. to_prop.
    constructor; try done.
    apply Forall_forall. intros o Ho. by apply Hout, list_elem_of_In.
  - intros []. rewrite valid_version0. cbn [Z.eqb negb orb].
    rewrite (proj2 (Z.ltb_ge _ _)) by done. rewrite !bool_decide_eq_false_2 by done. cbn [orb].
    assert (forallb is_valid_output (outputs tx) = true) as ->.
    { apply forallb_forall. intros o Ho%list_elem_of_In. by eapply Forall_forall in valid_outputs0. }
    assert (check_inputs (inputs tx) ∅ = true) as ->.
    { apply check_inputs_spec. split_and!; [done..|]. intros k _. by apply not_elem_of_empty. }
    cbn [negb].
    assert (sum_inputs tx u 0 (inputs tx) 0
            = Ok (Some (0 + sumZ_with (value_at u) (spent_outpoints tx)))) as ->.
    { by apply (sum_inputs_spec _ _ _ 0). }
    cbn [mbind result_bind]. rewrite Z.add_0_l, <- valid_fee0. by rewrite (proj2 (Z.leb_le _ _)).
Qed.

Lemma safe_validated_fee_spec tx u fee :
  safe_validated_fee tx u = Ok (Some fee) ↔ valid_tx u tx fee.
Proof.
  rewrite <- validated_fee_spec. unfold safe_validated_fee, try_except.
  destruct (validated_fee tx u); [done|]. by case_bool_decide.
Qed.

Lemma calculate_transaction_fee_Ok tx u fee :
  calculate_transaction_fee tx u = Ok fee ↔ valid_tx u tx fee.
Proof.
  rewrite <- safe_validated_fee_spec. unfold calculate_transaction_fee.
  destruct (safe_validated_fee_total tx u) as [[f|] ->]; cbn; [|done].
  split; congruence.
Qed.

Lemma calculate_transaction_fee_raises tx u e :
  calculate_transaction_fee tx u = Raise e → e = ValueError.
Proof.
  unfold calculate_transaction_fee. destruct (safe_validated_fee_total tx u) as [[f|] ->]; cbn; congruence.
Qed.

(** ** What a verdict depends on *)

Lemma valid_tx_spends u tx fee k :
  valid_tx u tx fee → k ∈ spent_outpoints tx → is_Some (u !! k).
Proof.
  intros Hv (i & -> & Hi)%list_elem_of_fmap.
  apply list_elem_of_lookup in Hi as [n Hn].
  destruct (valid_authorised _ _ _ Hv _ _ Hn) as (o & _ & _ & _ & Ho & _). eauto.
Qed.

Lemma valid_tx_output u tx fee k o :
  valid_tx u tx fee → k ∈ spent_outpoints tx → u !! k = Some o → is_valid_output o = true.
Proof.
  intros Hv (i & -> & Hi)%list_elem_of_fmap Ho.
  apply list_elem_of_lookup in Hi as [n Hn].
  destruct (valid_authorised _ _ _ Hv _ _ Hn) as (o' & _ & _ & _ & Ho' & ? & _). congruence.
Qed.

Lemma valid_tx_frame u u' tx fee :
  (∀ k, k ∈ spent_outpoints tx → u' !! k = u !! k) → valid_tx u tx fee → valid_tx u' tx fee.
Proof.
  intros Hk Hv. destruct Hv. constructor; try done.
  - intros n i Hn. destruct (valid_authorised0 n i Hn) as (o & vk & sig & msg & Ho & ?).
    exists o, vk, sig, msg. rewrite Hk; [done|].
    apply list_elem_of_fmap. exists i. split; [done|]. by eapply list_elem_of_lookup_2.
  - rewrite valid_fee0. f_equal. apply sumZ_with_ext. intros k Hin. unfold value_at. by rewrite Hk.
Qed.

Lemma valid_tx_fee_unique u tx fee fee' : valid_tx u tx fee → valid_tx u tx fee' → fee = fee'.
Proof. intros [] []. congruence. Qed.

Lemma valid_tx_total u u' tx fee :
  valid_tx u tx fee → apply_valid_transaction u tx = Ok u' →
  utxo_total u' + fee = utxo_total u.
Proof.
  intros Hv Ha. rewrite (apply_valid_transaction_total _ _ _ Ha), (valid_fee _ _ _ Hv). lia.
Qed.
End validation_lemmas.
