(* ===== verification/Signing.v ===== *)
(** * Signing inputs, one at a time

    [sign_input] writes the public key, then signs a message that covers it.
    The lemmas say what a call changes, that the new signature verifies, and
    that the messages of the other inputs are untouched, so that inputs can be
    signed independently and in any order. *)

From S2P Require Import Prelude Bytes Sha256 Json Crypto Transaction Utxo TxValidation.

Definition signed_as (pk sig : string) (i : TxInput) : TxInput :=
  MkTxInput (previous_tx_id i) (output_index i) pk sig.

Lemma set_signature_public_key pk sig i :
  set_signature sig (set_public_key pk i) = signed_as pk sig i.
Proof. done. Qed.

Section signing.
Context {E : EcdsaLib}.

Lemma sign_input_Ok tx n sk tx' :
  sign_input tx (Z.of_nat n) sk = Ok tx' →
  ∃ i msg, inputs tx !! n = Some i ∧ signing_bytes tx' (Z.of_nat n) = Ok msg ∧
    tx' = set_inputs tx (alter (signed_as (public_key_to_hex (get_public_key sk))
                                 (bytes_hex (sign_message sk msg))) n (inputs tx)).
Proof.
  unfold sign_input. rewrite Nat2Z.id. intros (? & Hr%raise_if_Ok & H)%bind_Ok.
  apply bind_Ok in H as (msg & Hmsg & [= Htx]).
  unfold input_out_of_range in Hr. to_prop.
  destruct (lookup_lt_is_Some_2 (inputs tx) n) as [i Hi]; [lia|].
  exists i, msg. split; [done|].
  assert (tx' = set_inputs tx (alter (signed_as (public_key_to_hex (get_public_key sk))
            (bytes_hex (sign_message sk msg))) n (inputs tx))) as Heq.
  { rewrite <- Htx. cbn. unfold set_inputs. cbn. f_equal.
    by rewrite list_alter_alter_eq. }
  split; [|done]. rewrite <- Hmsg, Heq.
  eapply signing_bytes_ext; cbn; [split_and!; cbn; [done..|]|
    by rewrite list_lookup_alter_eq, Hi|by rewrite list_lookup_alter_eq, Hi|done].
  by rewrite !map_alter_outpoint.
Qed.

Lemma sign_input_frame tx n sk tx' :
  sign_input tx (Z.of_nat n) sk = Ok tx' →
  same_signed_data tx' tx ∧ spent_outpoints tx' = spent_outpoints tx ∧
  ∀ m, m ≠ n → inputs tx' !! m = inputs tx !! m.
Proof.
  intros (i & msg & _ & _ & ->)%sign_input_Ok. cbn. unfold spent_outpoints, same_signed_data. cbn.
  rewrite map_alter_outpoint by done. split_and!; [done..|].
  intros m Hm. by rewrite list_lookup_alter_ne.
Qed.

(** The message of another input does not change. *)
Lemma sign_input_other_message tx n sk tx' m i :
  sign_input tx (Z.of_nat n) sk = Ok tx' → m ≠ n → inputs tx !! m = Some i →
  signing_bytes tx' (Z.of_nat m) = signing_bytes tx (Z.of_nat m).
Proof.
  intros Hs Hm Hi. destruct (sign_input_frame _ _ _ _ Hs) as (Hd & _ & Hl).
  eapply signing_bytes_ext; [done| |exact Hi|done]. by rewrite Hl.
Qed.

(** [sign_input] succeeds exactly in range. *)
Lemma sign_input_total tx n sk i : inputs tx !! n = Some i → ∃ tx', sign_input tx (Z.of_nat n) sk = Ok tx'.
Proof.
  intros Hi. unfold sign_input. rewrite Nat2Z.id.
  pose proof (lookup_lt_Some _ _ _ Hi) as Hlt.
  assert (∀ tx2, length (inputs tx2) = length (inputs tx) →
    input_out_of_range tx2 (Z.of_nat n) = false) as Hr.
  { intros tx2 Hlen. unfold input_out_of_range. rewrite Hlen.
    apply orb_false_iff; split; [apply Z.ltb_ge|apply Z.leb_gt]; lia. }
  rewrite Hr by done. cbn [raise_if mbind result_bind]. unfold signing_bytes, signing_dict.
  rewrite Hr by (cbn; by rewrite length_alter). cbn [raise_if mbind result_bind].
  rewrite Nat2Z.id. cbn [inputs set_inputs]. rewrite list_lookup_alter_eq, Hi. cbn. by eexists.
Qed.

Section laws.
Context {EL : EcdsaLaws E}.

(** A signed input is authorised to spend an output of the key's address. *)
Lemma sign_input_authorised u tx n sk tx' i o :
  sign_input tx (Z.of_nat n) sk = Ok tx' → inputs tx !! n = Some i →
  u !! outpoint i = Some o → is_valid_output o = true →
  recipient_address o = public_key_to_address (get_public_key sk) →
  ∃ i', inputs tx' !! n = Some i' ∧ authorised u tx' n i'.
Proof.
  intros Hs Hi Ho Hv Ha. destruct (sign_input_Ok _ _ _ _ Hs) as (i0 & msg & Hi0 & Hmsg & Heq).
  rewrite Hi in Hi0. injection Hi0 as <-.
  exists (signed_as (public_key_to_hex (get_public_key sk)) (bytes_hex (sign_message sk msg)) i).
  split; [rewrite Heq; cbn; by rewrite list_lookup_alter_eq, Hi|].
  exists o, (get_public_key sk), (sign_message sk msg), msg. split_and!; cbn; try done.
  - apply public_key_from_to_hex.
  - apply bytes_fromhex_hex.
  - unfold verify_signature, sign_message, get_public_key. by rewrite sign_verify.
Qed.

(** Authorisations already in place survive. *)
Lemma sign_input_keeps_authorised u tx n sk tx' m i :
  sign_input tx (Z.of_nat n) sk = Ok tx' → m ≠ n → inputs tx !! m = Some i →
  authorised u tx m i → authorised u tx' m i.
Proof.
  intros Hs Hm Hi (o & vk & sig & msg & ? & ? & ? & ? & ? & Hmsg & ?).
  exists o, vk, sig, msg. split_and!; try done.
  by rewrite (sign_input_other_message _ _ _ _ _ _ Hs Hm Hi).
Qed.

Lemma signed_as_well_formed sk msg i :
  previous_tx_id i ≠ EmptyString → 0 <= output_index i →
  input_well_formed (signed_as (public_key_to_hex (get_public_key sk))
                       (bytes_hex (sign_message sk msg)) i) = true.
Proof.
  intros Hp Ho. unfold input_well_formed. cbn.
  rewrite !bool_decide_eq_false_2; [by rewrite (proj2 (Z.leb_le _ _))| | |done].
  - intros H. apply (f_equal str_len) in H. rewrite str_len_bytes_hex in H.
    unfold sign_message in H. by rewrite signature_length in H.
  - apply public_key_to_hex_nonempty.
Qed.
End laws.
End signing.
