(* ===== verification/Processing.v ===== *)
(** * transaction/processing.py: applying a batch of transactions

    [apply_transactions] validates and applies a list in order on copies of
    the supplied state.  [run] is the same loop as an inductive relation, and
    [batch_ok] a declarative, order-aware characterisation of the batches it
    accepts; the memory pool reasons with the latter. *)

From S2P Require Import Prelude Bytes Sha256 Json Crypto Transaction Utxo TxValidation.

Abbreviation TxidSet := (gset string).

Record TransactionBatch := MkBatch {
  batch_utxo_set : UTXOSet;
  batch_seen_txids : TxidSet;
  batch_total_fees : Z
}.

Section processing.
Context {E : EcdsaLib}.

Fixpoint apply_loop (transactions : list Transaction) (working : UTXOSet)
    (recorded : TxidSet) (total_fees : Z) : result TransactionBatch :=
  match transactions with
  | [] => Ok (MkBatch working recorded total_fees)
  | tx :: transactions =>
      fee ← calculate_transaction_fee tx working;
      _ ← raise_if (bool_decide (txid tx ∈ recorded)) ValueError;
      working' ← reraise_as (apply_valid_transaction working tx)
                            [KeyError; TypeError; ValueError] ValueError;
      apply_loop transactions working' ({[txid tx]} ∪ recorded) (total_fees + fee)
  end.

Definition apply_transactions (transactions : list Transaction) (utxo_set : UTXOSet)
    (seen_txids : TxidSet) : result TransactionBatch :=
  apply_loop transactions utxo_set seen_txids 0.

(** ** The loop as a relation *)

Inductive run : list Transaction → UTXOSet → TxidSet → Z → UTXOSet → TxidSet → Prop :=
  | run_nil u s : run [] u s 0 u s
  | run_cons tx txs u u1 u2 s s2 fee fees :
      valid_tx u tx fee → txid tx ∉ s → apply_valid_transaction u tx = Ok u1 →
      run txs u1 ({[txid tx]} ∪ s) fees u2 s2 →
      run (tx :: txs) u s (fee + fees) u2 s2.

Lemma apply_loop_run txs : ∀ u s acc b,
  apply_loop txs u s acc = Ok b ↔
    ∃ fees, run txs u s fees (batch_utxo_set b) (batch_seen_txids b) ∧
            batch_total_fees b = acc + fees.
Proof.
  induction txs as [|tx txs IH]; intros u s acc b; cbn [apply_loop].
  - split.
    + intros [= <-]. exists 0. split; [constructor|cbn; lia].
    + intros (fees & Hr & Hf). inversion Hr; subst. destruct b; cbn in *. subst. do 2 f_equal; lia.
  - split.
    + intros (fee & Hfee%calculate_transaction_fee_Ok & H)%bind_Ok.
      apply bind_Ok in H as (? & Hs%raise_if_Ok & H). to_prop.
      apply bind_Ok in H as (u1 & Hu1%reraise_as_Ok & H).
      apply IH in H as (fees & Hr & Hf). exists (fee + fees). split; [|lia].
      by econstructor.
    + intros (fees & Hr & Hf). inversion Hr as [|? ? ? u1 ? ? ? fee fees' Hv Hs Ha Hr']; subst.
      rewrite (proj2 (calculate_transaction_fee_Ok _ _ _) Hv). cbn.
      rewrite bool_decide_eq_false_2 by done. cbn. rewrite Ha. cbn.
      apply IH. exists fees'. split; [done|lia].
Qed.

Lemma apply_transactions_run txs u s b :
  apply_transactions txs u s = Ok b ↔
    run txs u s (batch_total_fees b) (batch_utxo_set b) (batch_seen_txids b).
Proof.
  unfold apply_transactions. rewrite apply_loop_run. split.
  - intros (fees & Hr & ->). by rewrite Z.add_0_l.
  - intros Hr. by exists (batch_total_fees b).
Qed.

Lemma apply_loop_raises txs e : ∀ u s acc, apply_loop txs u s acc = Raise e → e = ValueError.
Proof.
  induction txs as [|tx txs IH]; intros u s acc; cbn [apply_loop]; [done|].
  intros [?%calculate_transaction_fee_raises|(fee & _ & Hr)]%bind_Raise; [done|].
  apply bind_Raise in Hr as [[_ <-]%raise_if_Raise|(? & _ & Hr)]; [done|].
  apply bind_Raise in Hr as [Hr|(u1 & _ & Hr)]; [|by eapply IH].
  unfold reraise_as in Hr. destruct (apply_valid_transaction u tx) as [|ex] eqn:Ha; [done|].
  case_bool_decide as Hx; [by injection Hr as <-|]. exfalso. apply Hx. clear -Ha.
  unfold apply_valid_transaction in Ha.
  apply bind_Raise in Ha as [[_ <-]%raise_if_Raise|(? & _ & Ha)]; [set_solver|].
  apply bind_Raise in Ha as [[_ <-]%raise_if_Raise|(? & _ & Ha)]; [set_solver|].
  apply bind_Raise in Ha as [Ha|(? & _ & Ha)]; [|done].
  unfold transaction_outputs in Ha. case_match; [injection Ha as <-; set_solver|done].
Qed.

(** ** Consequences *)

Lemma run_fees txs u s fees u' s' : run txs u s fees u' s' → 0 <= fees.
Proof.
  induction 1 as [|????????? Hv]; [lia|]. pose proof (valid_fee_nonneg _ _ _ Hv). lia.
Qed.

(** No value is created: fees are exactly what leaves the outputs. *)
Lemma run_total txs u s fees u' s' :
  run txs u s fees u' s' → utxo_total u' + fees = utxo_total u.
Proof.
  induction 1 as [|????????? Hv _ Ha]; [lia|]. pose proof (valid_tx_total _ _ _ _ Hv Ha). lia.
Qed.

Lemma run_seen txs u s fees u' s' :
  run txs u s fees u' s' → s' = list_to_set (txid <$> txs) ∪ s.
Proof. induction 1 as [|????????????? ->]; cbn; set_solver. Qed.

Lemma run_deterministic txs u s fees u' s' fees2 u2 s2 :
  run txs u s fees u' s' → run txs u s fees2 u2 s2 → fees = fees2 ∧ u' = u2 ∧ s' = s2.
Proof.
  intros Hr. revert fees2 u2 s2.
  induction Hr as [|tx txs u u1 ua s sa fee fees Hv Hs Ha _ IH]; intros fees2 u2 s2 Hr2.
  - by inversion Hr2.
  - inversion Hr2 as [|? ? ? u1' ? ? ? fee' fees' Hv' Hs' Ha' Hr']; subst.
    rewrite Ha in Ha'. injection Ha' as ->.
    rewrite (valid_tx_fee_unique _ _ _ _ Hv Hv').
    by destruct (IH _ _ _ Hr') as (-> & -> & ->).
Qed.

Lemma run_app txs1 txs2 u s f1 f2 u1 s1 u2 s2 :
  run txs1 u s f1 u1 s1 → run txs2 u1 s1 f2 u2 s2 → run (txs1 ++ txs2) u s (f1 + f2) u2 s2.
Proof.
  induction 1 as [|tx txs u ua ub s sb fee fees Hv Hs Ha _ IH]; intros Hr2; cbn; [done|].
  rewrite <- Z.add_assoc. econstructor; eauto.
Qed.

Lemma run_app_inv txs1 txs2 u s fees u2 s2 :
  run (txs1 ++ txs2) u s fees u2 s2 →
  ∃ f1 f2 u1 s1, fees = f1 + f2 ∧ run txs1 u s f1 u1 s1 ∧ run txs2 u1 s1 f2 u2 s2.
Proof.
  revert u s fees. induction txs1 as [|tx txs1 IH]; intros u s fees; cbn.
  - intros Hr. exists 0, fees, u, s. split_and!; [lia|constructor|done].
  - inversion 1 as [|? ? ? ua ? ? ? fee fees' Hv Hs Ha Hr']; subst.
    apply IH in Hr' as (f1 & f2 & u1 & s1 & -> & H1 & H2).
    exists (fee + f1), f2, u1, s1. split_and!; [lia| |done]. by econstructor.
Qed.
End processing.
