(* ===== verification/Batch.v ===== *)
(** * When a batch of transactions applies

    The loop of [apply_transactions] is characterised without mentioning its
    intermediate states: [batch_ok] speaks of distinct identifiers, distinct
    spent outpoints, availability of every spent outpoint before its use, and
    validity of every transaction against all the outputs in sight.  Because
    the conditions are closed under choosing a sub-batch, this is what the
    memory pool's selection and removal are verified with. *)

From S2P Require Import Prelude Bytes Sha256 Json Crypto Transaction Utxo TxValidation.
From S2P Require Import Processing.

(** All the outputs a list of transactions creates. *)
Fixpoint creates (txs : list Transaction) : UTXOSet :=
  match txs with
  | [] => ∅
  | tx :: txs => created_by tx ∪ creates txs
  end.

(** Every unspent output belongs to a recorded transaction. *)
Definition keys_recorded (u : UTXOSet) (s : TxidSet) : Prop :=
  ∀ k, is_Some (u !! k) → k.1 ∈ s.

Lemma creates_Some txs k o :
  creates txs !! k = Some o → ∃ tx, tx ∈ txs ∧ created_by tx !! k = Some o.
Proof.
  induction txs as [|tx txs IH]; cbn; [by rewrite lookup_empty|].
  intros [H|[_ H]]%lookup_union_Some_raw.
  - exists tx. split; [by left|done].
  - apply IH in H as (tx' & ? & ?). exists tx'. split; [by right|done].
Qed.

Lemma creates_is_Some txs k :
  is_Some (creates txs !! k) ↔ ∃ tx, tx ∈ txs ∧ is_Some (created_by tx !! k).
Proof.
  split.
  - intros [o Ho]. apply creates_Some in Ho as (tx & ? & ?). eauto.
  - intros (tx & Htx & Hk). induction txs as [|tx' txs IH]; [by apply elem_of_nil in Htx|].
    cbn. apply lookup_union_is_Some. apply elem_of_cons in Htx as [->|Htx]; auto.
Qed.

Lemma creates_lookup txs tx k o :
  NoDup (txid <$> txs) → tx ∈ txs → created_by tx !! k = Some o → creates txs !! k = Some o.
Proof.
  induction txs as [|tx' txs IH]; cbn; intros Hnd Htx Hk; [by apply elem_of_nil in Htx|].
  apply NoDup_cons in Hnd as [Hni Hnd]. apply elem_of_cons in Htx as [->|Htx].
  - by apply lookup_union_Some_l.
  - rewrite lookup_union_r; [by apply IH|].
    destruct (created_by tx' !! k) eqn:Hk'; [|done]. exfalso. apply Hni.
    rewrite <- (created_by_txid tx' k), (created_by_txid tx k) by eauto.
    by apply list_elem_of_fmap_2.
Qed.

Lemma creates_app txs1 txs2 : creates (txs1 ++ txs2) = creates txs1 ∪ creates txs2.
Proof.
  induction txs1 as [|tx txs1 IH]; cbn; [by rewrite map_empty_union|].
  by rewrite IH, map_union_assoc.
Qed.

Lemma NoDup_fmap_unique {A B} (f : A → B) (l : list A) x y :
  NoDup (f <$> l) → x ∈ l → y ∈ l → f x = f y → x = y.
Proof.
  intros Hnd (i & Hi)%list_elem_of_lookup (j & Hj)%list_elem_of_lookup Hf.
  assert (i = j) as ->; [|congruence].
  eapply NoDup_lookup; [exact Hnd| |]; rewrite list_lookup_fmap; [by rewrite Hi|].
  rewrite Hj. cbn. by rewrite Hf.
Qed.

Section batch.
Context {E : EcdsaLib}.

Record batch_ok (u : UTXOSet) (s : TxidSet) (txs : list Transaction) : Prop := {
  batch_txids : NoDup (txid <$> txs);
  batch_fresh : ∀ tx, tx ∈ txs → txid tx ∉ s;
  batch_spent : NoDup (txs ≫= spent_outpoints);
  batch_available : ∀ l1 tx l2 k, txs = l1 ++ tx :: l2 → k ∈ spent_outpoints tx →
    is_Some (u !! k) ∨ is_Some (creates l1 !! k);
  batch_valid : ∀ tx, tx ∈ txs → ∃ fee, valid_tx (u ∪ creates txs) tx fee
}.

Lemma keys_recorded_disjoint u s tx : keys_recorded u s → txid tx ∉ s → created_by tx ##ₘ u.
Proof.
  intros Hk Hs. apply map_disjoint_spec. intros k o o' Hc Hu.
  apply Hs. rewrite <- (created_by_txid tx k) by eauto. apply Hk. eauto.
Qed.

Lemma keys_recorded_step u s tx u1 :
  keys_recorded u s → apply_valid_transaction u tx = Ok u1 →
  keys_recorded u1 ({[txid tx]} ∪ s).
Proof.
  intros Hk Ha k Hu1. rewrite (apply_valid_transaction_lookup _ _ _ _ Ha) in Hu1.
  destruct (created_by tx !! k) eqn:Hc.
  - apply elem_of_union_l, elem_of_singleton, created_by_txid. eauto.
  - apply elem_of_union_r. apply Hk. case_decide; [by destruct Hu1|done].
Qed.

Lemma run_keys_recorded txs u s fees u' s' :
  run txs u s fees u' s' → keys_recorded u s → keys_recorded u' s'.
Proof. induction 1; eauto using keys_recorded_step. Qed.

(** A valid, fresh transaction always applies: its identifier cannot clash. *)
Lemma valid_tx_applies u s tx fee :
  keys_recorded u s → txid tx ∉ s → valid_tx u tx fee →
  apply_valid_transaction u tx = Ok (created_by tx ∪ foldr delete u (spent_outpoints tx)).
Proof.
  intros Hk Hs Hv. apply apply_valid_transaction_Ok. split_and!; [|by intros; eapply valid_tx_spends| |done].
  - by apply (valid_inputs_distinct _ _ _ Hv).
  - by eapply keys_recorded_disjoint.
Qed.

(** ** One step of the equivalence *)

Section step.
Context (u u1 : UTXOSet) (s : TxidSet) (tx : Transaction) (txs : list Transaction).
Hypothesis Hkeys : keys_recorded u s.
Hypothesis Hfresh : txid tx ∉ s.
Hypothesis Happly : apply_valid_transaction u tx = Ok u1.

Let lookup_u1 k : u1 !! k = match created_by tx !! k with
    | Some o => Some o
    | None => if decide (k ∈ spent_outpoints tx) then None else u !! k end.
Proof. by apply apply_valid_transaction_lookup. Qed.

(** The two views agree away from what [tx] spends. *)
Lemma view_step k :
  NoDup (txid <$> tx :: txs) → (∀ tx', tx' ∈ txs → txid tx' ∉ s) → k ∉ spent_outpoints tx →
  (u1 ∪ creates txs) !! k = (u ∪ creates (tx :: txs)) !! k.
Proof.
  intros Hnd Hs Hk. cbn [creates].
  pose proof (keys_recorded_disjoint _ _ _ Hkeys Hfresh) as Hd.
  rewrite !lookup_union, lookup_u1, decide_False by done.
  destruct (created_by tx !! k) eqn:Hc; [|by destruct (u !! k), (creates txs !! k)].
  rewrite (map_disjoint_Some_l _ _ _ _ Hd Hc). by destruct (creates txs !! k).
Qed.

(** Later transactions cannot spend what [tx] spent. *)
Lemma batch_ok_spent_disjoint k tx' :
  batch_ok u1 ({[txid tx]} ∪ s) txs → tx' ∈ txs → k ∈ spent_outpoints tx' →
  k ∉ spent_outpoints tx.
Proof.
  intros Hok Hin Hk Htx.
  pose proof Happly as (_ & Hu & Hd & _)%apply_valid_transaction_Ok.
  destruct (Hu k Htx) as [o Ho].
  assert (created_by tx !! k = None) as Hc.
  { destruct (created_by tx !! k) eqn:Hc; [|done].
    pose proof (map_disjoint_Some_l _ _ _ _ Hd Hc). congruence. }
  apply list_elem_of_split in Hin as (l1 & l2 & ->).
  destruct (batch_available _ _ _ Hok l1 tx' l2 k eq_refl Hk) as [Hs|Hs].
  - rewrite lookup_u1, Hc, decide_True in Hs by done. by destruct Hs.
  - apply creates_is_Some in Hs as (t & Ht & Hs%created_by_txid).
    apply (batch_fresh _ _ _ Hok t); [by apply elem_of_app; left|].
    apply elem_of_union_r. rewrite <- Hs. apply Hkeys. eauto.
Qed.

Lemma batch_ok_cons fee :
  valid_tx u tx fee → batch_ok u1 ({[txid tx]} ∪ s) txs → batch_ok u s (tx :: txs).
Proof.
  intros Hv Hok. pose proof (batch_ok_spent_disjoint) as Hdisj.
  assert (∀ tx', tx' ∈ txs → txid tx' ∉ s) as Hs.
  { intros tx' Hin Ht. apply (batch_fresh _ _ _ Hok tx' Hin). by apply elem_of_union_r. }
  assert (NoDup (txid <$> tx :: txs)) as Hnd.
  { cbn. apply NoDup_cons. split; [|by eapply batch_txids].
    intros (t & Heq & Ht)%list_elem_of_fmap. apply (batch_fresh _ _ _ Hok t Ht).
    apply elem_of_union_l, elem_of_singleton. done. }
  constructor.
  - done.
  - intros t [->|Ht]%elem_of_cons; auto.
  - cbn. apply NoDup_app. split_and!; [by eapply valid_inputs_distinct| |by eapply batch_spent].
    intros k Hk (t & Hk' & Ht)%list_elem_of_bind. by eapply Hdisj.
  - intros [|t0 l1] t l2 k Heq Hk; injection Heq as <- ->; [left; by eapply valid_tx_spends|].
    assert (k ∉ spent_outpoints tx) as Hn by (eapply Hdisj; [done| |done]; set_solver).
    destruct (batch_available _ _ _ Hok l1 t l2 k eq_refl Hk) as [Hu|Hc]; cbn [creates].
    + rewrite lookup_u1, decide_False in Hu by done.
      destruct (created_by tx !! k) eqn:Hcr; [right|by left].
      apply lookup_union_is_Some. left. eauto.
    + right. apply lookup_union_is_Some. by right.
  - intros t [->|Ht]%elem_of_cons.
    + exists fee. eapply valid_tx_frame; [|done]. intros k Hk.
      destruct (valid_tx_spends _ _ _ _ Hv Hk) as [o Ho]. rewrite Ho.
      by apply lookup_union_Some_l.
    + destruct (batch_valid _ _ _ Hok t Ht) as [f Hf]. exists f.
      eapply valid_tx_frame; [|done]. intros k Hk. symmetry. apply view_step; auto.
      by eapply Hdisj.
Qed.

Lemma batch_ok_cons_inv :
  batch_ok u s (tx :: txs) → batch_ok u1 ({[txid tx]} ∪ s) txs.
Proof.
  intros [Hnd Hfr Hsp Hav Hval]. pose proof Hnd as Hnd'.
  cbn in Hnd', Hsp. apply NoDup_cons in Hnd' as [Hni Hnd'].
  apply NoDup_app in Hsp as (Hsp1 & Hdis & Hsp2).
  assert (∀ t k, t ∈ txs → k ∈ spent_outpoints t → k ∉ spent_outpoints tx) as Hdisj.
  { intros t k Ht Hk Hk'. apply (Hdis k Hk'). apply list_elem_of_bind. eauto. }
  constructor; [done| |done| |].
  - intros t Ht [Heq%elem_of_singleton|Hs]%elem_of_union.
    + apply Hni. rewrite <- Heq. by apply list_elem_of_fmap_2.
    + by apply (Hfr t); [right|].
  - intros l1 t l2 k -> Hk.
    assert (k ∉ spent_outpoints tx) as Hn by (eapply Hdisj; [|done]; set_solver).
    rewrite lookup_u1, decide_False by done.
    destruct (Hav (tx :: l1) t l2 k eq_refl Hk) as [Hu|Hc].
    + left. destruct (created_by tx !! k); [by eexists|done].
    + cbn in Hc. apply lookup_union_is_Some in Hc as [[o ->]|Hc]; [left; by eexists|by right].
  - intros t Ht. destruct (Hval t) as [f Hf]; [by right|]. exists f.
    eapply valid_tx_frame; [|done]. intros k Hk. apply view_step; [done| |by eapply Hdisj].
    intros t' Ht'. by apply Hfr; right.
Qed.
End step.

(** ** The equivalence *)

Theorem run_batch_ok txs u s :
  keys_recorded u s → (∃ fees u' s', run txs u s fees u' s') ↔ batch_ok u s txs.
Proof.
  revert u s. induction txs as [|tx txs IH]; intros u s Hkeys.
  - split; [|by eexists _, _, _; constructor]. intros _.
    constructor; cbn; [constructor|by intros ? ?%elem_of_nil|constructor| |by intros ? ?%elem_of_nil].
    by intros [].
  - split.
    + intros (fees & u' & s' & Hr).
      inversion Hr as [|? ? ? u1 ? ? ? fee fees' Hv Hs Ha Hr']; subst.
      eapply batch_ok_cons; try done. apply IH; [by eapply keys_recorded_step|eauto].
    + intros Hok.
      assert (txid tx ∉ s) as Hs by (apply (batch_fresh _ _ _ Hok); by left).
      destruct (batch_valid _ _ _ Hok tx) as [fee Hv]; [by left|].
      assert (valid_tx u tx fee) as Hv'.
      { eapply valid_tx_frame; [|done]. intros k Hk. symmetry.
        destruct (batch_available _ _ _ Hok [] tx txs k eq_refl Hk) as [[o Ho]|Hc];
          [|cbn in Hc; rewrite lookup_empty in Hc; by destruct Hc].
        rewrite Ho. by apply lookup_union_Some_l. }
      pose proof (valid_tx_applies _ _ _ _ Hkeys Hs Hv') as Ha.
      destruct (IH _ _ (keys_recorded_step _ _ _ _ Hkeys Ha)) as [_ Hrun].
      destruct Hrun as (fees & u' & s' & Hr); [by eapply batch_ok_cons_inv|].
      exists (fee + fees), u', s'. by econstructor.
Qed.

(** What [tx] spends is out of sight for the rest of the batch. *)
Lemma spent_out_of_view u s tx fee u1 txs fees u' s' k :
  keys_recorded u s → txid tx ∉ s → valid_tx u tx fee → apply_valid_transaction u tx = Ok u1 →
  run txs u1 ({[txid tx]} ∪ s) fees u' s' → k ∈ spent_outpoints tx →
  (u1 ∪ creates txs) !! k = None.
Proof.
  intros Hkeys Hs Hv Ha Hr Hk. pose proof (keys_recorded_step _ _ _ _ Hkeys Ha) as Hk1.
  assert (batch_ok u1 ({[txid tx]} ∪ s) txs) as Hok by (apply run_batch_ok; eauto).
  pose proof (batch_ok_cons _ _ _ _ _ Hkeys Hs Ha _ Hv Hok) as Hok'.
  pose proof Ha as (_ & Hu & Hd & _)%apply_valid_transaction_Ok.
  destruct (Hu k Hk) as [o Ho]. apply lookup_union_None. split.
  - rewrite (apply_valid_transaction_lookup _ _ _ _ Ha), decide_True by done.
    destruct (created_by tx !! k) eqn:Hc; [|done].
    pose proof (map_disjoint_Some_l _ _ _ _ Hd Hc). congruence.
  - destruct (creates txs !! k) as [o'|] eqn:Hc; [|done].
    apply creates_Some in Hc as (t & Ht & Hc). exfalso. apply (batch_fresh _ _ _ Hok' t); [by right|].
    rewrite <- (created_by_txid t k) by eauto. apply Hkeys. eauto.
Qed.

(** The unspent outputs after a run: everything in sight that no transaction
    of the batch spends. *)
Lemma run_lookup txs u s fees u' s' k :
  keys_recorded u s → run txs u s fees u' s' →
  u' !! k = if decide (k ∈ txs ≫= spent_outpoints) then None else (u ∪ creates txs) !! k.
Proof.
  intros Hkeys Hr. revert Hkeys.
  induction Hr as [|tx txs u u1 ua s sa fee fees Hv Hs Ha Hr IH]; intros Hkeys.
  { cbn. rewrite decide_False by by apply not_elem_of_nil. by rewrite map_union_empty. }
  pose proof (keys_recorded_step _ _ _ _ Hkeys Ha) as Hk1.
  assert (batch_ok u1 ({[txid tx]} ∪ s) txs) as Hok by (apply run_batch_ok; eauto).
  pose proof (batch_ok_cons _ _ _ _ _ Hkeys Hs Ha _ Hv Hok) as Hok'.
  rewrite IH by done. cbn [mbind list_bind].
  destruct (decide (k ∈ spent_outpoints tx)) as [Hk|Hk].
  - rewrite (decide_True (P := k ∈ _ ++ _)) by set_solver.
    rewrite (spent_out_of_view _ _ _ _ _ _ _ _ _ _ Hkeys Hs Hv Ha Hr Hk). by case_decide.
  - rewrite (view_step _ _ _ _ _ Hkeys Hs Ha); [|apply Hok'| |done].
    2: { intros t Ht. apply (batch_fresh _ _ _ Hok'). by right. }
    destruct (decide (k ∈ txs ≫= spent_outpoints)) as [Hin|Hin].
    + by rewrite decide_True by set_solver.
    + by rewrite decide_False by set_solver.
Qed.

(** What a run spends was there or is created by it; either way its
    transaction is recorded. *)
Lemma run_spent txs u s fees u' s' k :
  keys_recorded u s → run txs u s fees u' s' → k ∈ txs ≫= spent_outpoints →
  is_Some ((u ∪ creates txs) !! k) ∧ k.1 ∈ s'.
Proof.
  intros Hkeys Hr (tx & Hspent & Htxin)%list_elem_of_bind.
  assert (batch_ok u s txs) as Hok by (apply run_batch_ok; eauto).
  apply list_elem_of_split in Htxin as (l1 & l2 & Heq).
  assert (is_Some (u !! k) ∨ is_Some (creates txs !! k)) as Hsome.
  { destruct (batch_available _ _ _ Hok _ _ _ _ Heq Hspent) as [?|Hc]; [by left|right].
    rewrite Heq, creates_app. apply lookup_union_is_Some. by left. }
  split; [by apply lookup_union_is_Some|].
  rewrite (run_seen _ _ _ _ _ _ Hr). apply elem_of_union.
  destruct Hsome as [Hu|(t & Ht & Hc)%creates_is_Some]; [right; by apply Hkeys|left].
  apply elem_of_list_to_set. apply created_by_txid in Hc as ->. by apply list_elem_of_fmap_2.
Qed.

(** What a run leaves unspent was there before or was created by it. *)
Lemma run_view txs u s fees u' s' k o :
  keys_recorded u s → run txs u s fees u' s' → u' !! k = Some o →
  (u ∪ creates txs) !! k = Some o.
Proof. intros Hkeys Hr. rewrite (run_lookup _ _ _ _ _ _ _ Hkeys Hr). by case_decide. Qed.

(** ** Sub-batches *)

(** A sub-batch in which every transaction follows its parents applies. *)
Lemma batch_ok_sub u s all sel :
  keys_recorded u s → batch_ok u s all → sel ⊆+ all →
  (∀ l1 tx l2 i, sel = l1 ++ tx :: l2 → i ∈ inputs tx →
     previous_tx_id i ∈ (txid <$> all) → previous_tx_id i ∈ (txid <$> l1)) →
  batch_ok u s sel.
Proof.
  intros Hkeys Hok Hsub Hpar.
  assert (∀ t, t ∈ sel → t ∈ all) as Hin by (intros t Ht; by eapply elem_of_submseteq).
  assert (NoDup (txid <$> sel)) as Hnd
    by (eapply NoDup_sub; [by apply fmap_submseteq|apply Hok]).
  assert (∀ l1 tx l2 k o, sel = l1 ++ tx :: l2 → k ∈ spent_outpoints tx →
    creates all !! k = Some o → ∃ t, t ∈ l1 ∧ created_by t !! k = Some o) as Hcr.
  { intros l1 tx l2 k o -> (i & -> & Hi)%list_elem_of_fmap (t & Ht & Hc)%creates_Some.
    pose proof (created_by_txid t (outpoint i) (mk_is_Some _ _ Hc)) as Hk. cbn in Hk.
    assert (previous_tx_id i ∈ (txid <$> l1)) as (t' & Ht' & Hl1)%list_elem_of_fmap.
    { eapply Hpar; [done..|]. rewrite Hk. by apply list_elem_of_fmap_2. }
    assert (t' = t) as ->; [|eauto].
    eapply NoDup_fmap_unique; [apply (batch_txids _ _ _ Hok)|..]; [|done|congruence].
    apply Hin. set_solver. }
  constructor; [done|intros; by eapply batch_fresh, Hin| | |].
  - eapply NoDup_sub; [by apply bind_submseteq|apply Hok].
  - intros l1 tx l2 k Heq Hk.
    assert (tx ∈ all) as Hall by (apply Hin; rewrite Heq; set_solver).
    destruct (batch_valid _ _ _ Hok tx Hall) as [fee Hv].
    destruct (valid_tx_spends _ _ _ _ Hv Hk) as [o [Ho|[_ Ho]]%lookup_union_Some_raw]; [by left; eauto|].
    right. destruct (Hcr _ _ _ _ _ Heq Hk Ho) as (t & Ht & Hc). apply creates_is_Some. eauto.
  - intros tx Htx. destruct (batch_valid _ _ _ Hok tx (Hin _ Htx)) as [fee Hv]. exists fee.
    eapply valid_tx_frame; [|done]. intros k Hk.
    destruct (valid_tx_spends _ _ _ _ Hv Hk) as [o Ho]. rewrite Ho.
    apply lookup_union_Some_raw in Ho as [Ho|[Hn Ho]]; [by apply lookup_union_Some_l|].
    apply list_elem_of_split in Htx as (l1 & l2 & Heq).
    destruct (Hcr _ _ _ _ _ Heq Hk Ho) as (t & Ht & Hc).
    apply lookup_union_Some_raw. right. split; [done|].
    apply (creates_lookup _ t); [done| |done]. rewrite Heq. set_solver.
Qed.

(** The view of a sub-batch is part of the view of the batch. *)
Lemma view_mono (u : UTXOSet) (all sel : list Transaction) k o :
  NoDup (txid <$> all) → (∀ t, t ∈ sel → t ∈ all) →
  (u ∪ creates sel) !! k = Some o → (u ∪ creates all) !! k = Some o.
Proof.
  intros Hnd Hin [Ho|[Hn (t & Ht & Hc)%creates_Some]]%lookup_union_Some_raw;
    [by apply lookup_union_Some_l|].
  apply lookup_union_Some_raw. right. split; [done|]. by apply (creates_lookup _ t); [| apply Hin|].
Qed.

(** The condition on the order, decided. *)
Fixpoint parents_first (all : list string) (before : list string) (sel : list Transaction) : bool :=
  match sel with
  | [] => true
  | tx :: sel =>
      forallb (λ i, negb (bool_decide (previous_tx_id i ∈ all))
                    || bool_decide (previous_tx_id i ∈ before)) (inputs tx)
      && parents_first all (before ++ [txid tx]) sel
  end.

Lemma parents_first_spec all sel : ∀ before l1 tx l2 i,
  parents_first all before sel = true → sel = l1 ++ tx :: l2 → i ∈ inputs tx →
  previous_tx_id i ∈ all → previous_tx_id i ∈ before ++ (txid <$> l1).
Proof.
  induction sel as [|t sel IH]; intros before l1 tx l2 i Hp Heq Hi Hall; [by destruct l1|].
  cbn in Hp. apply andb_true_iff in Hp as [Ht Hp]. destruct l1 as [|t' l1]; injection Heq as -> Heq.
  - cbn. rewrite app_nil_r. rewrite forallb_forall in Ht.
    specialize (Ht i (proj1 (list_elem_of_In _ _) Hi)).
    rewrite bool_decide_eq_true_2 in Ht by done. cbn in Ht. by apply bool_decide_eq_true in Ht.
  - cbn. rewrite cons_middle, app_assoc. by eapply IH.
Qed.

(** The fees of a run, from fees that are valid in the final view. *)
Lemma run_fees_sum (f : Transaction → Z) txs u s fees u' s' :
  keys_recorded u s → run txs u s fees u' s' →
  (∀ tx, tx ∈ txs → valid_tx (u ∪ creates txs) tx (f tx)) → fees = sumZ_with f txs.
Proof.
  intros Hkeys Hr. revert Hkeys.
  induction Hr as [|tx txs u u1 ua s sa fee fees Hv Hs Ha Hr IH]; intros Hkeys Hf; [done|].
  pose proof (keys_recorded_step _ _ _ _ Hkeys Ha) as Hk1.
  assert (batch_ok u1 ({[txid tx]} ∪ s) txs) as Hok by (apply run_batch_ok; eauto).
  pose proof (batch_ok_cons _ _ _ _ _ Hkeys Hs Ha _ Hv Hok) as Hok'.
  cbn. f_equal.
  - eapply valid_tx_fee_unique; [|apply Hf; by left]. eapply valid_tx_frame; [|exact Hv].
    intros k Hk. destruct (valid_tx_spends _ _ _ _ Hv Hk) as [o Ho]. rewrite Ho.
    by apply lookup_union_Some_l.
  - apply IH; [done|]. intros t Ht. eapply valid_tx_frame; [|apply Hf; by right].
    intros k Hk. apply (view_step _ _ _ _ _ Hkeys Hs Ha).
    + apply Hok'.
    + intros t' Ht'. apply (batch_fresh _ _ _ Hok'). by right.
    + by eapply (batch_ok_spent_disjoint _ _ _ _ _ Hkeys Ha).
Qed.
End batch.
