(* ===== verification/Sample.v ===== *)
(** * A toy signature scheme and sample transactions

    The theorems of the development hold for every [EcdsaLib]; their witnesses
    need one that computes.  [toy_ecdsa] meets the laws of the interface: a
    private key is a byte, and a signature binds the message digest to it.  The
    sample wallet and transactions below are what the witnesses evaluate. *)

From S2P Require Import Prelude Bytes Sha256 Json Crypto Transaction Utxo TxValidation.
From S2P Require Import Processing Batch.

Definition toy_pad (n : nat) (b : Byte.byte) : bytes := replicate n Byte.x00 ++ [b].

Definition toy_unpad (n : nat) (s : bytes) : option Byte.byte :=
  match drop n s with
  | [b] => if decide (s = toy_pad n b) then Some b else None
  | _ => None
  end.

Lemma toy_unpad_pad n b : toy_unpad n (toy_pad n b) = Some b.
Proof.
  unfold toy_unpad, toy_pad at 1.
  assert (drop n (replicate n Byte.x00 ++ [b]) = [b]) as ->
    by (apply drop_app_length'; by rewrite length_replicate).
  by rewrite decide_True.
Qed.

Definition toy_signature (b : Byte.byte) (m : bytes) : bytes := sha256 m ++ toy_pad 31 b.

#[export] Instance toy_ecdsa : EcdsaLib := {|
  SigningKey := Byte.byte;
  VerifyingKey := Byte.byte;
  vk_from_string := toy_unpad 63;
  vk_to_string := toy_pad 63;
  vk_verify vk sig m := bool_decide (sig = toy_signature vk m);
  sk_from_string := toy_unpad 31;
  sk_to_string := toy_pad 31;
  sk_verifying_key b := b;
  sk_sign_deterministic := toy_signature;
  sk_baselen _ := 32%nat
|}.

#[export] Instance toy_laws : EcdsaLaws toy_ecdsa.
Proof.
  constructor; unfold vk_from_string, vk_to_string, sk_from_string, sk_to_string, vk_verify,
    sk_sign_deterministic, toy_ecdsa; intros.
  - apply toy_unpad_pad.
  - apply toy_unpad_pad.
  - by apply bool_decide_eq_true.
  - done.
  - done.
  - unfold toy_signature. by rewrite length_app, length_sha256.
  - done.
Qed.

(** ** A wallet and some payments *)

Definition alice : SigningKey := Byte.x0a.
Definition bob : SigningKey := Byte.x0b.
Definition address_of (sk : SigningKey) : string := public_key_to_address (get_public_key sk).
Definition alice_address : string := Eval vm_compute in address_of alice.
Definition bob_address : string := Eval vm_compute in address_of bob.

(** The identifier of a transaction outside the sample. *)
Definition funding_txid : string := Eval vm_compute in sha256_hex [Byte.x01].

Definition sample_utxos : UTXOSet :=
  {[ (funding_txid, 0) := MkTxOutput 50 alice_address ]}.
Definition sample_seen : TxidSet := {[ funding_txid ]}.

Lemma sample_keys : keys_recorded sample_utxos sample_seen.
Proof.
  unfold sample_utxos, sample_seen. intros k [o [<- _]%lookup_singleton_Some].
  by apply elem_of_singleton.
Qed.

Definition or_empty (r : result Transaction) : Transaction :=
  match r with Ok tx => tx | Raise _ => MkTransaction [] [] 0 1 end.

(** Alice pays Bob 30 and keeps 18, with a fee of 2. *)
Definition payment : Transaction := Eval vm_compute in
  or_empty (sign_input
    (MkTransaction [MkTxInput funding_txid 0 EmptyString EmptyString]
       [MkTxOutput 30 bob_address; MkTxOutput 18 alice_address] 1000 1) 0 alice).

(** Bob spends what [payment] gave him, with a fee of 5. *)
Definition child_payment : Transaction := Eval vm_compute in
  or_empty (sign_input
    (MkTransaction [MkTxInput (txid payment) 0 EmptyString EmptyString]
       [MkTxOutput 25 alice_address] 1001 1) 0 bob).

(** Alice spends her change, with a fee of 1. *)
Definition change_payment : Transaction := Eval vm_compute in
  or_empty (sign_input
    (MkTransaction [MkTxInput (txid payment) 1 EmptyString EmptyString]
       [MkTxOutput 17 bob_address] 1002 1) 0 alice).

(** A second payment of the same coin. *)
Definition double_payment : Transaction := Eval vm_compute in
  or_empty (sign_input
    (MkTransaction [MkTxInput funding_txid 0 EmptyString EmptyString]
       [MkTxOutput 49 bob_address] 1003 1) 0 alice).

Example batch_accepted :
  batch_total_fees <$> apply_transactions [payment; child_payment; change_payment]
                         sample_utxos sample_seen = Ok 8.
Proof. vm_compute. reflexivity. Qed.

Example batch_order_matters :
  apply_transactions [child_payment; payment] sample_utxos sample_seen = Raise ValueError.
Proof. vm_compute. reflexivity. Qed.

Example batch_no_double_spend :
  apply_transactions [payment; double_payment] sample_utxos sample_seen = Raise ValueError.
Proof. vm_compute. reflexivity. Qed.

(** Only [vm_compute] unfolds the samples. *)
#[global] Opaque payment child_payment change_payment double_payment funding_txid.
