(* ===== verification/LedgerTheorems.v ===== *)
(** * What the transaction layer guarantees

    The properties of addresses, signatures, validation and batch processing,
    each with a witness on the sample payments. *)

From S2P Require Import Prelude Bytes Sha256 Json Crypto Transaction Utxo TxValidation.
From S2P Require Import Signing Processing Batch Sample.

(** ** Addresses *)

Lemma validate_address_form a :
  validate_address a = true →
  ∃ h, str_len h = 40%nat ∧ a = "PYC_" +:+ h +:+ address_checksum h.
Proof.
  unfold validate_address. intros Hv. case_match eqn:Hp; [done|]. case_match eqn:Hl; [done|].
  to_prop. exists (str_take 40 (str_drop 4 a)). split; [by rewrite str_len_take, Hl|].
  rewrite <- Hv, str_take_drop. by apply (str_prefix_drop "PYC_").
Qed.

(** [validate_address] accepts exactly the texts made of the prefix, 40
    characters and their checksum, and every address derived from a public
    key is one of them. *)
Theorem validate_address_exact {E : EcdsaLib} :
  (∀ a, validate_address a = true ↔
     ∃ h, str_len h = 40%nat ∧ a = "PYC_" +:+ h +:+ address_checksum h) ∧
  (∀ vk, validate_address (public_key_to_address vk) = true).
Proof.
  split; [|apply validate_public_key_to_address]. intros a. split; [apply validate_address_form|].
  intros (h & Hh & ->). by apply validate_address_of_checksum.
Qed.

(** ** Validation *)

(** C12: validating a transaction never raises, accepts exactly the transactions
    that satisfy the declarative rule [valid_tx], and returns their fee; the
    fee calculation refuses everything else with [ValueError]. *)
Theorem validation_refines_rule {E : EcdsaLib} tx u :
  ∃ verdict,
    safe_validated_fee tx u = Ok verdict ∧
    validate_transaction tx u = Ok (bool_decide (is_Some verdict)) ∧
    calculate_transaction_fee tx u
      = match verdict with Some fee => Ok fee | None => Raise ValueError end ∧
    ∀ fee, verdict = Some fee ↔ valid_tx u tx fee.
Proof.
  destruct (safe_validated_fee_total tx u) as [verdict Hv]. exists verdict.
  unfold validate_transaction, calculate_transaction_fee. rewrite Hv. cbn.
  split_and!; [done|done|by destruct verdict|].
  intros fee. rewrite <- safe_validated_fee_spec, Hv. split; congruence.
Qed.

(** ** Signatures *)

(** Signing one input authorises it to spend an output of the key's
    address, keeps every other input and every authorisation already in
    place, and changes nothing of what the transaction spends and pays. *)
Theorem sign_input_effect {E : EcdsaLib} {EL : EcdsaLaws E} u tx n sk tx' i o :
  sign_input tx (Z.of_nat n) sk = Ok tx' → inputs tx !! n = Some i →
  u !! outpoint i = Some o → is_valid_output o = true →
  recipient_address o = public_key_to_address (get_public_key sk) →
  spent_outpoints tx' = spent_outpoints tx ∧ outputs tx' = outputs tx ∧
  (∃ i', inputs tx' !! n = Some i' ∧ authorised u tx' n i') ∧
  (∀ m j, m ≠ n → inputs tx !! m = Some j →
     inputs tx' !! m = Some j ∧ (authorised u tx m j → authorised u tx' m j)).
Proof.
  intros Hs Hi Ho Hv Ha. destruct (sign_input_frame _ _ _ _ Hs) as ((_ & _ & Hout & _) & Hsp & Hl).
  split_and!; [done|done|by eapply sign_input_authorised|].
  intros m j Hm Hj. split; [by rewrite Hl|]. by apply (sign_input_keeps_authorised u tx n sk).
Qed.

Definition unsigned_payment : Transaction :=
  MkTransaction [MkTxInput funding_txid 0 EmptyString EmptyString]
    [MkTxOutput 30 bob_address; MkTxOutput 18 alice_address] 1000 1.

Lemma sign_input_effect_witness :
  spent_outpoints payment = spent_outpoints unsigned_payment ∧
  ∃ i, inputs payment !! 0%nat = Some i ∧ authorised sample_utxos payment 0 i.
Proof.
  assert (sign_input unsigned_payment (Z.of_nat 0) alice = Ok payment) as Hs
    by (vm_compute; reflexivity).
  destruct (sign_input_effect sample_utxos unsigned_payment 0 alice payment
    (MkTxInput funding_txid 0 EmptyString EmptyString) (MkTxOutput 50 alice_address) Hs)
    as (Hsp & _ & Ha & _); [vm_compute; reflexivity..|].
  exact (conj Hsp Ha).
Defined.

(** ** Batches *)

(** C13: on a state whose outputs all belong to recorded transactions, a batch
    is accepted exactly when its identifiers are new and distinct, no outpoint
    is spent twice, every outpoint is available when it is spent and every
    transaction is valid; any other batch is refused with [ValueError]. *)
Theorem batch_accepted_iff {E : EcdsaLib} txs u s :
  keys_recorded u s →
  ((∃ b, apply_transactions txs u s = Ok b) ↔ batch_ok u s txs) ∧
  (¬ batch_ok u s txs → apply_transactions txs u s = Raise ValueError).
Proof.
  intros Hkeys. assert ((∃ b, apply_transactions txs u s = Ok b) ↔ batch_ok u s txs) as Hiff.
  { rewrite <- run_batch_ok by done. split.
    - intros [b Hb%apply_transactions_run]. eauto.
    - intros (fees & u' & s' & Hr). exists (MkBatch u' s' fees). by apply apply_transactions_run. }
  split; [done|]. intros Hno. destruct (apply_transactions txs u s) as [b|e] eqn:Hb.
  - exfalso. apply Hno, Hiff. eauto.
  - by rewrite (apply_loop_raises _ _ _ _ _ Hb).
Qed.

Lemma batch_accepted_iff_witness :
  (∃ b, apply_transactions [payment; child_payment; change_payment] sample_utxos sample_seen = Ok b) ∧
  batch_ok sample_utxos sample_seen [payment; child_payment; change_payment].
Proof.
  pose proof batch_accepted as (b & Hb & _)%fmap_Ok.
  split; [by exists b|].
  apply (proj1 (batch_accepted_iff _ _ _ sample_keys)). by exists b.
Defined.

(** Applying a batch creates no value and leaves exactly the outputs that
    were there or were created by the batch and that the batch does not
    spend; in particular no outpoint is spent twice and none survives being
    spent. *)
Theorem batch_effect {E : EcdsaLib} txs u s b :
  keys_recorded u s → apply_transactions txs u s = Ok b →
  utxo_total (batch_utxo_set b) + batch_total_fees b = utxo_total u ∧
  0 <= batch_total_fees b ∧
  NoDup (txs ≫= spent_outpoints) ∧
  batch_seen_txids b = list_to_set (txid <$> txs) ∪ s ∧
  ∀ k, batch_utxo_set b !! k =
    if decide (k ∈ txs ≫= spent_outpoints) then None else (u ∪ creates txs) !! k.
Proof.
  intros Hkeys Hr%apply_transactions_run. split_and!.
  - by eapply run_total.
  - by eapply run_fees.
  - eapply batch_spent, run_batch_ok; eauto.
  - by eapply run_seen.
  - intros k. by eapply run_lookup.
Qed.

Lemma batch_effect_witness :
  match apply_transactions [payment; child_payment] sample_utxos sample_seen with
  | Ok b => utxo_total (batch_utxo_set b) + 7 = 50
  | Raise _ => False
  end.
Proof.
  assert (batch_total_fees <$> apply_transactions [payment; child_payment] sample_utxos sample_seen
          = Ok 7) as Hf by (vm_compute; reflexivity).
  apply fmap_Ok in Hf as (b & Hb & Hf). rewrite Hb.
  pose proof (batch_effect _ _ _ _ sample_keys Hb) as [Ht _].
  rewrite Hf in Ht. rewrite Ht. vm_compute. reflexivity.
Defined.

(** The order of a batch matters only through dependencies: any
    rearrangement, and any part, in which transactions still follow the ones
    they spend from is accepted as well. *)
Theorem batch_sub_accepted {E : EcdsaLib} (all sel : list Transaction) u s b :
  keys_recorded u s → apply_transactions all u s = Ok b → sel ⊆+ all →
  (∀ l1 tx l2 i, sel = l1 ++ tx :: l2 → i ∈ inputs tx →
     previous_tx_id i ∈ (txid <$> all) → previous_tx_id i ∈ (txid <$> l1)) →
  ∃ b', apply_transactions sel u s = Ok b'.
Proof.
  intros Hkeys Hr%apply_transactions_run Hsub Hpar.
  assert (batch_ok u s sel) as Hok.
  { eapply batch_ok_sub; [done| |exact Hsub|exact Hpar]. apply run_batch_ok; eauto. }
  apply run_batch_ok in Hok as (fees & u' & s' & Hr'); [|done].
  exists (MkBatch u' s' fees). by apply apply_transactions_run.
Qed.

Lemma batch_sub_accepted_witness :
  ∃ b', apply_transactions [payment; change_payment; child_payment] sample_utxos sample_seen = Ok b'.
Proof.
  pose proof batch_accepted as (b & Hb & _)%fmap_Ok.
  eapply (batch_sub_accepted _ _ _ _ _ sample_keys Hb).
  - apply Permutation_submseteq, perm_skip, perm_swap.
  - intros l1 tx l2 i. apply (parents_first_spec _ _ []). vm_compute. reflexivity.
Defined.
