(* ===== verification/Mempool.v ===== *)
(** * transaction/mempool.py: the pool of pending transactions

    Definitions of the pool and of its operations, in the code's order of
    checks.  [_entries] is a dict used in insertion order, so it is an
    association list.  [MempoolFacts] and [MempoolSelect] hold the proofs. *)

From Stdlib Require Import QArith.
From S2P Require Import Prelude Bytes Sha256 Json Crypto Transaction Utxo TxValidation.
From S2P Require Import Processing.
Open Scope Z_scope.

Definition DEFAULT_MEMPOOL_MAX_TRANSACTIONS : Z := 1000.
Definition DEFAULT_MEMPOOL_MAX_BYTES : Z := 1000000.
Definition DEFAULT_BLOCK_MAX_TRANSACTIONS : Z := 100.
Definition DEFAULT_BLOCK_MAX_BYTES : Z := 100000.

(** [len(serialize(transaction.to_dict()))] *)
Definition transaction_size (tx : Transaction) : Z := Z.of_nat (length (transaction_bytes tx)).

Record MempoolEntry := MkEntry {
  entry_transaction : Transaction;
  entry_fee : Z;
  entry_size_bytes : Z
}.

(** [Fraction(self.fee, self.size_bytes)] *)
Definition fee_rate (e : MempoolEntry) : Q := Qmake (entry_fee e) (Z.to_pos (entry_size_bytes e)).

Definition check_limit (value : Z) (allow_zero : bool) : result unit :=
  raise_if (value <? (if allow_zero then 0 else 1)) ValueError.

Record Mempool := MkMempool {
  max_transactions : Z;
  max_bytes : Z;
  confirmed_utxos : UTXOSet;
  mp_seen_txids : TxidSet;
  working_utxos : UTXOSet;
  entries : list (string * MempoolEntry);
  total_bytes : Z
}.

Definition new_mempool (utxo_set : option UTXOSet) (seen : option TxidSet)
    (max_tx max_b : Z) : result Mempool :=
  _ ← check_limit max_tx false;
  _ ← check_limit max_b false;
  _ ← raise_if (xorb (bool_decide (utxo_set = None)) (bool_decide (seen = None))) ValueError;
  let confirmed := default ∅ utxo_set in
  Ok (MkMempool max_tx max_b confirmed (default ∅ seen) confirmed [] 0).

Definition mempool_len (m : Mempool) : Z := Z.of_nat (length (entries m)).

Definition mempool_copy (m : Mempool) : result Mempool :=
  snapshot ← new_mempool (Some (confirmed_utxos m)) (Some (mp_seen_txids m))
                         (max_transactions m) (max_bytes m);
  Ok (MkMempool (max_transactions snapshot) (max_bytes snapshot) (confirmed_utxos snapshot)
        (mp_seen_txids snapshot) (working_utxos m) (entries m) (total_bytes m)).

Definition mempool_has_transaction (m : Mempool) (tid : string) : bool :=
  bool_decide (tid ∈ (entries m).*1).

Definition get_entry (m : Mempool) (tid : string) : option MempoolEntry :=
  snd <$> (snd <$> list_find (λ p, p.1 = tid) (entries m)).

Definition get_transaction (m : Mempool) (tid : string) : option Transaction :=
  entry_transaction <$> get_entry m tid.

Definition entry_tx (p : string * MempoolEntry) : Transaction := entry_transaction p.2.

Definition get_transactions (m : Mempool) : list Transaction := map entry_tx (entries m).

Definition ADMISSION_ERRORS : list exn :=
  [AttributeError; IndexError; KeyError; TypeError; ValueError].

Section mempool.
Context {E : EcdsaLib}.

(** The [try] block: the entry to add and the next working set, [None] for
    its two [return False] statements. *)
Definition admission (m : Mempool) (tx : Transaction) : result (option (MempoolEntry * UTXOSet)) :=
  fee ← calculate_transaction_fee tx (working_utxos m);
  if bool_decide (txid tx ∈ mp_seen_txids m) || mempool_has_transaction m (txid tx) then Ok None
  else
    let size_bytes := transaction_size tx in
    if max_bytes m <? total_bytes m + size_bytes then Ok None
    else
      updated ← apply_valid_transaction (working_utxos m) tx;
      Ok (Some (MkEntry tx fee size_bytes, updated)).

Definition add_transaction (m : Mempool) (tx : Transaction) : result (bool * Mempool) :=
  if max_transactions m <=? mempool_len m then Ok (false, m)
  else
    admitted ← try_except (admission m tx) ADMISSION_ERRORS None;
    match admitted with
    | None => Ok (false, m)
    | Some (e, updated) =>
        Ok (true, MkMempool (max_transactions m) (max_bytes m) (confirmed_utxos m)
                    (mp_seen_txids m) updated (entries m ++ [(txid tx, e)])
                    (total_bytes m + entry_size_bytes e))
    end.

(** The replay loops of [remove_transaction] and [revalidated]: the verdicts
    of [add_transaction] are ignored. *)
Fixpoint replay (l : list (string * MempoolEntry)) (skip : string → Mempool → bool)
    (rebuilt : Mempool) : result Mempool :=
  match l with
  | [] => Ok rebuilt
  | (tid, e) :: l =>
      if skip tid rebuilt then replay l skip rebuilt
      else r ← add_transaction rebuilt (entry_transaction e); replay l skip r.2
  end.

Definition remove_transaction (m : Mempool) (tid : string) : result (bool * Mempool) :=
  if negb (mempool_has_transaction m tid) then Ok (false, m)
  else
    empty ← new_mempool (Some (confirmed_utxos m)) (Some (mp_seen_txids m))
                        (max_transactions m) (max_bytes m);
    rebuilt ← replay (entries m) (λ entry_txid _, bool_decide (entry_txid = tid)) empty;
    Ok (true, MkMempool (max_transactions m) (max_bytes m) (confirmed_utxos m)
                (mp_seen_txids m) (working_utxos rebuilt) (entries rebuilt)
                (total_bytes rebuilt)).

Definition revalidated (m : Mempool) (utxo_set : UTXOSet) (seen : TxidSet) : result Mempool :=
  empty ← new_mempool (Some utxo_set) (Some seen) (max_transactions m) (max_bytes m);
  replay (entries m) (λ tid rebuilt, bool_decide (tid ∈ mp_seen_txids rebuilt)) empty.
End mempool.

(** ** Selection for a block *)

(** The sort key [(-fee_rate, txid)]. *)
Definition rank_le (p q : string * MempoolEntry) : Prop :=
  (fee_rate q.2 < fee_rate p.2)%Q ∨ (fee_rate q.2 == fee_rate p.2)%Q ∧ String.le p.1 q.1.

#[export] Instance rank_le_dec : RelDecision rank_le.
Proof.
  intros p q. unfold rank_le.
  assert (Decision (fee_rate q.2 < fee_rate p.2)%Q).
  { destruct (Qlt_le_dec (fee_rate q.2) (fee_rate p.2)); [by left|right; by apply Qle_not_lt]. }
  assert (Decision (fee_rate q.2 == fee_rate p.2)%Q) by apply Qeq_dec.
  apply _.
Defined.

Definition ranked (m : Mempool) : list (string * MempoolEntry) := merge_sort rank_le (entries m).

(** [parents[txid]]: the pending transactions an entry spends from. *)
Definition parents (m : Mempool) (e : MempoolEntry) : TxidSet :=
  list_to_set (filter (λ t, t ∈ (entries m).*1) (map previous_tx_id (inputs (entry_transaction e)))).

Record Selection := MkSelection {
  selected : list (string * MempoolEntry);
  selected_txids : TxidSet;
  selected_bytes : Z
}.

(** The two [continue] guards of the inner loop. *)
Definition eligible (m : Mempool) (max_b : Z) (st : Selection) (p : string * MempoolEntry) : bool :=
  negb (bool_decide (p.1 ∈ selected_txids st) || negb (bool_decide (parents m p.2 ⊆ selected_txids st)))
  && negb (max_b <? selected_bytes st + entry_size_bytes p.2).

(** The [for] loop: the first eligible entry, if any. *)
Fixpoint first_eligible (m : Mempool) (max_b : Z) (st : Selection)
    (l : list (string * MempoolEntry)) : option (string * MempoolEntry) :=
  match l with
  | [] => None
  | p :: l => if eligible m max_b st p then Some p else first_eligible m max_b st l
  end.

(** The [while] loop; each round selects a new entry, so the number of entries
    is fuel enough ([select_loop_fuel] in [MempoolSelect]). *)
Fixpoint select_loop (m : Mempool) (max_tx max_b : Z) (fuel : nat) (st : Selection) : Selection :=
  match fuel with
  | O => st
  | S fuel =>
      if Z.of_nat (length (selected st)) <? max_tx then
        match first_eligible m max_b st (ranked m) with
        | None => st
        | Some p =>
            select_loop m max_tx max_b fuel
              (MkSelection (selected st ++ [p]) ({[p.1]} ∪ selected_txids st)
                 (selected_bytes st + entry_size_bytes p.2))
        end
      else st
  end.

Definition select_entries (m : Mempool) (max_tx max_b : Z) : Selection :=
  select_loop m max_tx max_b (length (entries m)) (MkSelection [] ∅ 0).

Definition select_transactions (m : Mempool) (max_tx max_b : Z) : result (list Transaction) :=
  _ ← check_limit max_tx true;
  _ ← check_limit max_b true;
  Ok (map entry_tx (selected (select_entries m max_tx max_b))).
