(* ===== verification/MempoolFacts.v ===== *)
(** * The pool's invariant and the operations that preserve it

    [pending c s es w] says that the entries [es] were admitted one after the
    other on the confirmed state [c], [s], and that [w] is the working set
    they leave.  [mempool_inv] adds the capacity limits and the byte counter. *)

From S2P Require Import Prelude Bytes Sha256 Json Crypto Transaction Utxo TxValidation.
From S2P Require Import Processing Batch Mempool.

Section facts.
Context {E : EcdsaLib}.

Inductive pending (c : UTXOSet) (s : TxidSet) : list (string * MempoolEntry) → UTXOSet → Prop :=
  | pending_nil : pending c s [] c
  | pending_snoc es u tx fee u1 :
      pending c s es u → valid_tx u tx fee → txid tx ∉ s → txid tx ∉ es.*1 →
      apply_valid_transaction u tx = Ok u1 →
      pending c s (es ++ [(txid tx, MkEntry tx fee (transaction_size tx))]) u1.

Record mempool_inv (m : Mempool) : Prop := {
  inv_max_transactions : 0 < max_transactions m;
  inv_max_bytes : 0 < max_bytes m;
  inv_count : mempool_len m <= max_transactions m;
  inv_bytes : total_bytes m <= max_bytes m;
  inv_total : total_bytes m = sumZ_with (entry_size_bytes ∘ snd) (entries m);
  inv_pending : pending (confirmed_utxos m) (mp_seen_txids m) (entries m) (working_utxos m)
}.

(** ** Admission *)

Lemma admit_raises m tx e : admission m tx = Raise e → e ∈ ADMISSION_ERRORS.
Proof.
  unfold admission, ADMISSION_ERRORS.
  intros [->%calculate_transaction_fee_raises|(fee & _ & Hr)]%bind_Raise; [set_solver|].
  do 2 (case_match; [done|]). apply bind_Raise in Hr as [Hr|(? & _ & Hr)]; [|done].
  unfold apply_valid_transaction in Hr.
  apply bind_Raise in Hr as [[_ <-]%raise_if_Raise|(? & _ & Hr)]; [set_solver|].
  apply bind_Raise in Hr as [[_ <-]%raise_if_Raise|(? & _ & Hr)]; [set_solver|].
  apply bind_Raise in Hr as [Hr|(? & _ & Hr)]; [|done].
  unfold transaction_outputs in Hr. case_match; [injection Hr as <-; set_solver|done].
Qed.

Lemma admit_Some m tx e u1 :
  admission m tx = Ok (Some (e, u1)) ↔
    ∃ fee, e = MkEntry tx fee (transaction_size tx) ∧ valid_tx (working_utxos m) tx fee ∧
      txid tx ∉ mp_seen_txids m ∧ txid tx ∉ (entries m).*1 ∧
      total_bytes m + transaction_size tx <= max_bytes m ∧
      apply_valid_transaction (working_utxos m) tx = Ok u1.
Proof.
  unfold admission, mempool_has_transaction. split.
  - intros (fee & Hfee%calculate_transaction_fee_Ok & Hr)%bind_Ok. exists fee.
    case_match eqn:Hseen; [done|]. case_match eqn:Hb; [done|]. to_prop.
    apply bind_Ok in Hr as (u & Ha & [= <- <-]). done.
  - intros (fee & -> & Hv & Hs & He & Hb & Ha).
    rewrite (proj2 (calculate_transaction_fee_Ok _ _ _) Hv). cbn [mbind result_bind].
    rewrite !bool_decide_eq_false_2 by done. cbn [orb].
    rewrite (proj2 (Z.ltb_ge _ _)) by done. by rewrite Ha.
Qed.

(** [add_transaction] never raises: it admits, or leaves the pool alone. *)
Lemma add_transaction_cases m tx :
  (∃ e u1, admission m tx = Ok (Some (e, u1)) ∧ mempool_len m < max_transactions m ∧
     add_transaction m tx =
       Ok (true, MkMempool (max_transactions m) (max_bytes m) (confirmed_utxos m)
                   (mp_seen_txids m) u1 (entries m ++ [(txid tx, e)])
                   (total_bytes m + entry_size_bytes e)))
  ∨ add_transaction m tx = Ok (false, m) ∧
    (max_transactions m <= mempool_len m ∨ ∀ e u1, admission m tx ≠ Ok (Some (e, u1))).
Proof.
  unfold add_transaction. case_match eqn:Hlen; to_prop; [right; auto|].
  unfold try_except. destruct (admission m tx) as [[[e u1]|]|x] eqn:Ha; cbn.
  - left. by exists e, u1.
  - right. split; [done|]. by right.
  - right. rewrite bool_decide_eq_true_2 by (by eapply admit_raises). cbn. split; [done|]. by right.
Qed.

Lemma sumZ_sizes_snoc es (p : string * MempoolEntry) :
  sumZ_with (entry_size_bytes ∘ snd) (es ++ [p])
  = sumZ_with (entry_size_bytes ∘ snd) es + entry_size_bytes p.2.
Proof. rewrite sumZ_with_app. cbn. lia. Qed.

Lemma add_transaction_inv m tx b m' :
  mempool_inv m → add_transaction m tx = Ok (b, m') → mempool_inv m'.
Proof.
  intros Hm Hadd. destruct (add_transaction_cases m tx) as [(e & u1 & Ha & Hlen & Heq)|[Heq _]];
    rewrite Heq in Hadd; injection Hadd as <- <-; [|done].
  apply admit_Some in Ha as (fee & -> & Hv & Hs & He & Hb & Ha). destruct Hm.
  constructor; cbn; [done|done| |done| |].
  - unfold mempool_len in *. cbn. rewrite length_app. cbn. lia.
  - rewrite sumZ_sizes_snoc. cbn. lia.
  - by eapply pending_snoc.
Qed.

Lemma new_mempool_Ok uo so mt mb m :
  new_mempool uo so mt mb = Ok m →
  0 < mt ∧ 0 < mb ∧ m = MkMempool mt mb (default ∅ uo) (default ∅ so) (default ∅ uo) [] 0.
Proof.
  unfold new_mempool, check_limit. intros (? & H1%raise_if_Ok & Hr)%bind_Ok.
  apply bind_Ok in Hr as (? & H2%raise_if_Ok & Hr). apply bind_Ok in Hr as (? & _ & [= <-]).
  to_prop. split_and!; [lia|lia|done].
Qed.

Lemma new_mempool_inv uo so mt mb m : new_mempool uo so mt mb = Ok m → mempool_inv m.
Proof.
  intros (? & ? & ->)%new_mempool_Ok. constructor; unfold mempool_len; cbn; try lia. constructor.
Qed.

(** Under positive limits the constructor succeeds; this is how the pool
    rebuilds itself. *)
Lemma new_mempool_rebuild u s mt mb :
  0 < mt → 0 < mb → new_mempool (Some u) (Some s) mt mb = Ok (MkMempool mt mb u s u [] 0).
Proof.
  intros. unfold new_mempool, check_limit.
  rewrite !(proj2 (Z.ltb_ge _ 1)) by lia. done.
Qed.

(** ** Replay *)

Lemma replay_total skip l : ∀ m, ∃ m', replay l skip m = Ok m'.
Proof.
  induction l as [|[t e] l IH]; intros m; cbn; [by eexists|]. case_match; [apply IH|].
  destruct (add_transaction_cases m (entry_transaction e)) as [(? & ? & _ & _ & ->)|[-> _]]; cbn; apply IH.
Qed.

(** What a replay keeps: a sublist of the entries, in their order, as they
    were or with a recomputed fee. *)
Lemma replay_inv skip l : ∀ m m',
  replay l skip m = Ok m' → mempool_inv m →
  mempool_inv m' ∧ max_transactions m' = max_transactions m ∧ max_bytes m' = max_bytes m ∧
  confirmed_utxos m' = confirmed_utxos m ∧ mp_seen_txids m' = mp_seen_txids m.
Proof.
  induction l as [|[t e] l IH]; intros m m'; cbn; [intros [= <-]; done|].
  case_match; [by apply IH|]. intros ([b m1] & Hadd & Hr)%bind_Ok Hm. cbn in Hr.
  pose proof (add_transaction_inv _ _ _ _ Hm Hadd) as Hm1.
  destruct (IH _ _ Hr Hm1) as (? & -> & -> & -> & ->). split; [done|].
  destruct (add_transaction_cases m (entry_transaction e)) as [(? & ? & _ & _ & Heq)|[Heq _]];
    rewrite Heq in Hadd; injection Hadd as <- <-; done.
Qed.

Lemma remove_transaction_inv m tid b m' :
  mempool_inv m → remove_transaction m tid = Ok (b, m') →
  mempool_inv m' ∧ confirmed_utxos m' = confirmed_utxos m ∧ mp_seen_txids m' = mp_seen_txids m ∧
  max_transactions m' = max_transactions m ∧ max_bytes m' = max_bytes m.
Proof.
  intros Hm. unfold remove_transaction. case_match; [intros [= <- <-]; done|].
  rewrite new_mempool_rebuild by apply Hm. cbn [mbind result_bind].
  intros (rb & Hrb & [= <- <-])%bind_Ok.
  destruct (replay_inv _ _ _ _ Hrb) as ([] & Hmt & Hmb & Hc & Hs).
  { eapply new_mempool_inv, new_mempool_rebuild; apply Hm. }
  cbn in *. split; [|done]. constructor; cbn; try done; unfold mempool_len in *; cbn;
    [apply Hm|apply Hm|congruence|congruence|congruence].
Qed.

Lemma revalidated_inv m u s m' :
  mempool_inv m → revalidated m u s = Ok m' →
  mempool_inv m' ∧ confirmed_utxos m' = u ∧ mp_seen_txids m' = s ∧
  max_transactions m' = max_transactions m ∧ max_bytes m' = max_bytes m.
Proof.
  intros Hm. unfold revalidated. rewrite new_mempool_rebuild by apply Hm. cbn [mbind result_bind].
  intros Hr. destruct (replay_inv _ _ _ _ Hr) as (? & Hmt & Hmb & Hc & Hs); [|done].
  eapply new_mempool_inv, new_mempool_rebuild; apply Hm.
Qed.

Lemma remove_transaction_total m tid : mempool_inv m → ∃ r, remove_transaction m tid = Ok r.
Proof.
  intros Hm. unfold remove_transaction. case_match; [by eexists|].
  rewrite new_mempool_rebuild by apply Hm. cbn [mbind result_bind].
  match goal with |- context [replay ?l ?f ?m0] => destruct (replay_total f l m0) as [rb ->] end.
  by eexists.
Qed.

Lemma revalidated_total m u s : mempool_inv m → ∃ m', revalidated m u s = Ok m'.
Proof.
  intros Hm. unfold revalidated. rewrite new_mempool_rebuild by apply Hm. apply replay_total.
Qed.

(** A copy is the same pool. *)
Lemma mempool_copy_id m : mempool_inv m → mempool_copy m = Ok m.
Proof.
  intros Hm. unfold mempool_copy. rewrite new_mempool_rebuild by apply Hm. by destruct m.
Qed.

(** ** The entries of a pool as a batch *)

Lemma pending_entry c s es w p :
  pending c s es w → p ∈ es →
  p.1 = txid (entry_tx p) ∧ entry_size_bytes p.2 = transaction_size (entry_tx p).
Proof.
  induction 1 as [|es u tx fee u1 _ IH]; [by intros ?%elem_of_nil|].
  intros [?| ->%list_elem_of_singleton]%elem_of_app; [auto|done].
Qed.

Lemma pending_keys c s es w : pending c s es w → es.*1 = txid <$> (entry_tx <$> es).
Proof.
  intros Hp. rewrite <- list_fmap_compose. apply list_fmap_ext. intros i p Hi. cbn.
  by eapply pending_entry, list_elem_of_lookup_2.
Qed.

Lemma pending_keys_NoDup c s es w : pending c s es w → NoDup es.*1.
Proof.
  induction 1 as [|es u tx fee u1 _ IH _ _ Hn]; [constructor|].
  rewrite fmap_app. apply NoDup_app. split_and!; [done| |apply NoDup_singleton].
  intros k Hk Hk'. cbn in Hk'. apply list_elem_of_singleton in Hk' as ->. done.
Qed.

Lemma pending_not_seen c s es w k : pending c s es w → k ∈ es.*1 → k ∉ s.
Proof.
  induction 1 as [|es u tx fee u1 _ IH _ Hs _ _]; [by intros ?%elem_of_nil|].
  rewrite fmap_app. intros [?| ->%list_elem_of_singleton]%elem_of_app; [by apply IH|done].
Qed.

Lemma pending_run c s es w :
  pending c s es w →
  run (entry_tx <$> es) c s (sumZ_with (entry_fee ∘ snd) es) w (list_to_set es.*1 ∪ s).
Proof.
  induction 1 as [|es u tx fee u1 Hp IH Hv Hs Hn Ha].
  - cbn. rewrite union_empty_l_L. constructor.
  - rewrite !fmap_app, sumZ_with_app, list_to_set_app_L. eapply run_app; [exact IH|]. cbn.
    replace (list_to_set es.*1 ∪ ({[txid tx]} ∪ ∅) ∪ s)
      with ({[txid tx]} ∪ (list_to_set es.*1 ∪ s) : TxidSet) by set_solver.
    econstructor; [done| |done|constructor]. rewrite elem_of_union, elem_of_list_to_set. tauto.
Qed.

Lemma pending_batch_ok c s es w :
  keys_recorded c s → pending c s es w → batch_ok c s (entry_tx <$> es).
Proof. intros Hk Hp%pending_run. apply run_batch_ok; eauto. Qed.

(** Every recorded fee is the fee the validator computes for the entry. *)
Lemma pending_valid c s es w p :
  keys_recorded c s → pending c s es w → p ∈ es →
  valid_tx (c ∪ creates (entry_tx <$> es)) (entry_tx p) (entry_fee p.2).
Proof.
  intros Hk Hp. induction Hp as [|es u tx fee u1 Hp IH Hv Hs Hn Ha]; [by intros ?%elem_of_nil|].
  pose proof (pending_snoc _ _ _ _ _ _ _ Hp Hv Hs Hn Ha) as Hp'.
  pose proof (pending_batch_ok _ _ _ _ Hk Hp') as Hok.
  intros Hin. destruct (batch_valid _ _ _ Hok (entry_tx p)) as [f Hf];
    [by apply list_elem_of_fmap_2|].
  enough (f = entry_fee p.2) as -> by done.
  apply elem_of_app in Hin as [Hin| ->%list_elem_of_singleton].
  - eapply valid_tx_fee_unique; [exact Hf|]. eapply valid_tx_frame; [|by apply IH].
    intros k Hspent. destruct (valid_tx_spends _ _ _ _ (IH Hin) Hspent) as [o Ho].
    rewrite Ho, fmap_app, creates_app, map_union_assoc. by apply lookup_union_Some_l.
  - eapply valid_tx_fee_unique; [exact Hf|]. eapply valid_tx_frame; [|exact Hv].
    intros k Hspent. destruct (valid_tx_spends _ _ _ _ Hv Hspent) as [o Ho].
    rewrite Ho, fmap_app, creates_app, map_union_assoc. apply lookup_union_Some_l.
    by eapply run_view, Ho; [|eapply pending_run].
Qed.
End facts.

(** * Removal from the pool, exactly

    [remove_transaction] replays every entry but one.  [survivors] says what
    the replay must keep, without replaying: the entries that do not descend
    from the removed one.  [revalidated] is bounded by the entries it replays. *)

(** The entries that neither are in [removed] nor spend, directly or through
    other entries, an output of a transaction of [removed]. *)
Fixpoint survivors (removed : TxidSet) (l : list (string * MempoolEntry)) :
    list (string * MempoolEntry) :=
  match l with
  | [] => []
  | p :: l =>
      if bool_decide (p.1 ∈ removed)
         || existsb (λ i, bool_decide (previous_tx_id i ∈ removed)) (inputs (entry_tx p))
      then survivors ({[p.1]} ∪ removed) l
      else p :: survivors removed l
  end.

Lemma survivors_sublist l : ∀ removed, survivors removed l `sublist_of` l.
Proof.
  induction l as [|p l IH]; intros removed; cbn; [done|].
  case_match; [by apply sublist_cons|by apply sublist_skip].
Qed.

(** Survivors spend nothing of what is gone. *)
Lemma survivors_independent l : ∀ removed p i,
  p ∈ survivors removed l → i ∈ inputs (entry_tx p) →
  previous_tx_id i ∉ removed ∧ p.1 ∉ removed.
Proof.
  induction l as [|q l IH]; intros removed p i; cbn; [by intros ?%elem_of_nil|].
  case_match eqn:Hq.
  - intros Hp Hi. destruct (IH _ _ _ Hp Hi). set_solver.
  - intros [->|Hp]%elem_of_cons Hi; [|by eapply IH]. to_prop. split; [|done].
    intros Hin. assert (existsb (λ i, bool_decide (previous_tx_id i ∈ removed)) (inputs (entry_tx q)) = true);
      [|congruence].
    apply existsb_exists. exists i. split; [by apply list_elem_of_In|by apply bool_decide_eq_true].
Qed.

Lemma snoc_split {A} (l : list A) x l1 y l2 :
  l ++ [x] = l1 ++ y :: l2 → (∃ l2', l = l1 ++ y :: l2') ∨ l1 = l ∧ y = x.
Proof.
  intros Heq. destruct l2 as [|z l2 _] using rev_ind.
  - apply app_inj_tail in Heq as [-> ->]. by right.
  - left. exists l2. rewrite app_comm_cons, app_assoc in Heq. by apply app_inj_tail in Heq as [-> _].
Qed.

Lemma fmap_app_elem {A B} (f : A → B) (l1 l2 : list A) k :
  k ∈ f <$> (l1 ++ l2) → k ∈ f <$> l1 ∨ k ∈ f <$> l2.
Proof. rewrite fmap_app. apply elem_of_app. Qed.

Section remove.
Context {E : EcdsaLib}.
Context (c : UTXOSet) (s : TxidSet) (all : list (string * MempoolEntry)) (w : UTXOSet).
Hypothesis Hkeys : keys_recorded c s.
Hypothesis Hall : pending c s all w.

Let Hok : batch_ok c s (entry_tx <$> all) := pending_batch_ok _ _ _ _ Hkeys Hall.

(** A pending parent precedes its child. *)
Lemma pending_parent_before l1 p l2 i :
  all = l1 ++ p :: l2 → i ∈ inputs (entry_tx p) → previous_tx_id i ∈ all.*1 →
  previous_tx_id i ∈ l1.*1.
Proof.
  intros Heq Hi Hin.
  assert (outpoint i ∈ spent_outpoints (entry_tx p)) as Hk by (by apply list_elem_of_fmap_2).
  assert (entry_tx <$> all = (entry_tx <$> l1) ++ entry_tx p :: (entry_tx <$> l2)) as Heq'
    by (rewrite Heq; by rewrite fmap_app).
  assert (∀ q, q ∈ all → q.1 = txid (entry_tx q)) as Hkey by (intros q Hq; by eapply pending_entry).
  destruct (batch_available _ _ _ Hok _ _ _ _ Heq' Hk) as [Hc|Hc].
  - exfalso. apply list_elem_of_fmap in Hin as (q & Hq & Hqin).
    apply (batch_fresh _ _ _ Hok (entry_tx q)); [by apply list_elem_of_fmap_2|].
    rewrite <- Hkey, <- Hq by done. by apply Hkeys in Hc.
  - apply creates_is_Some in Hc as (t & (q & -> & Hq)%list_elem_of_fmap & Hc%created_by_txid).
    cbn in Hc. rewrite Hc, <- Hkey by (rewrite Heq; set_solver). by apply list_elem_of_fmap_2.
Qed.

(** An entry whose pending parents are kept is admitted again, unchanged. *)
Lemma admit_kept (kept : list (string * MempoolEntry)) u p :
  pending c s kept u → kept ++ [p] ⊆+ all →
  (∀ l1 q l2 i, kept ++ [p] = l1 ++ q :: l2 → i ∈ inputs (entry_tx q) →
     previous_tx_id i ∈ all.*1 → previous_tx_id i ∈ l1.*1) →
  ∃ u1, valid_tx u (entry_tx p) (entry_fee p.2) ∧ apply_valid_transaction u (entry_tx p) = Ok u1 ∧
    txid (entry_tx p) ∉ s ∧ txid (entry_tx p) ∉ kept.*1.
Proof.
  intros Hkept Hsub Hpar.
  assert (p ∈ all) as Hp by (eapply elem_of_submseteq; [|exact Hsub]; set_solver).
  assert (batch_ok c s (entry_tx <$> kept ++ [p])) as Hsel.
  { eapply batch_ok_sub; [done|exact Hok|by apply fmap_submseteq|].
    intros l1 tx l2 i Heq Hi Hin.
    apply fmap_app_inv in Heq as (e1 & e2 & -> & He2 & Hsplit).
    destruct e2 as [|q e2]; [done|]. injection He2 as -> ->.
    rewrite <- (pending_keys _ _ _ _ Hall) in Hin.
    pose proof (Hpar _ _ _ _ Hsplit Hi Hin) as (r & -> & Hr)%list_elem_of_fmap.
    assert (r ∈ all) as Hrall by (eapply elem_of_submseteq; [|exact Hsub]; rewrite Hsplit; set_solver).
    rewrite (proj1 (pending_entry _ _ _ _ _ Hall Hrall)). by do 2 apply list_elem_of_fmap_2. }
  destruct (proj2 (run_batch_ok _ _ _ Hkeys) Hsel) as (fees & u2 & s2 & Hr).
  rewrite fmap_app in Hr. apply run_app_inv in Hr as (f1 & f2 & u' & s' & -> & Hr1 & Hr2).
  pose proof (pending_run _ _ _ _ Hkept) as Hr0.
  destruct (run_deterministic _ _ _ _ _ _ _ _ _ Hr0 Hr1) as (<- & <- & <-).
  cbn in Hr2. inversion Hr2 as [|? ? ? u1 ? ? ? fee ? Hv Hs Ha _]; subst.
  assert (fee = entry_fee p.2) as ->.
  { eapply valid_tx_fee_unique; [|exact (pending_valid _ _ _ _ _ Hkeys Hall Hp)].
    eapply valid_tx_frame; [|exact Hv]. intros k Hk.
    destruct (valid_tx_spends _ _ _ _ Hv Hk) as [o Ho]. rewrite Ho.
    eapply view_mono; [apply (batch_txids _ _ _ Hok)| |by eapply run_view].
    intros t Ht. eapply elem_of_submseteq; [exact Ht|]. apply fmap_submseteq.
    etrans; [|exact Hsub]. by apply submseteq_inserts_r; reflexivity. }
  exists u1. split_and!; [done|done|set_solver|]. intros Hin. apply Hs, elem_of_union_l.
  by apply elem_of_list_to_set.
Qed.

(** An entry with a missing parent is refused. *)
Lemma valid_needs_parent (kept : list (string * MempoolEntry)) u p i fee :
  pending c s kept u → (∀ q, q ∈ kept → q ∈ all) →
  i ∈ inputs (entry_tx p) → previous_tx_id i ∈ all.*1 → previous_tx_id i ∉ kept.*1 →
  ¬ valid_tx u (entry_tx p) fee.
Proof.
  intros Hkept Hin Hi Hia Hik Hv.
  destruct (valid_tx_spends _ _ _ (outpoint i) Hv) as [o Ho]; [by apply list_elem_of_fmap_2|].
  pose proof (run_view _ _ _ _ _ _ _ _ Hkeys (pending_run _ _ _ _ Hkept) Ho) as Hview.
  apply lookup_union_Some_raw in Hview as [Hc|[_ (t & Ht & Hc)%creates_Some]].
  - apply list_elem_of_fmap in Hia as (q & Hq & Hqin).
    apply (batch_fresh _ _ _ Hok (entry_tx q)); [by apply list_elem_of_fmap_2|].
    rewrite <- (proj1 (pending_entry _ _ _ _ _ Hall Hqin)), <- Hq. apply (Hkeys (outpoint i)). eauto.
  - apply list_elem_of_fmap in Ht as (q & -> & Hq). apply Hik.
    assert (previous_tx_id i = q.1) as ->; [|by apply list_elem_of_fmap_2].
    rewrite (proj1 (pending_entry _ _ _ _ _ Hall (Hin _ Hq))).
    apply (created_by_txid _ (outpoint i)). eauto.
Qed.

Context (tid : string).
Hypothesis Htid : tid ∈ all.*1.

(** Where the replay stands after the entries [pre]. *)
Record replay_inv_at (m : Mempool) (pre : list (string * MempoolEntry)) (removed : TxidSet)
    (m1 : Mempool) : Prop := {
  at_pool : mempool_inv m1;
  at_limits : max_transactions m1 = max_transactions m ∧ max_bytes m1 = max_bytes m;
  at_base : confirmed_utxos m1 = c ∧ mp_seen_txids m1 = s;
  at_kept : entries m1 `sublist_of` pre;
  at_removed : ∀ k, k ∈ pre.*1 → k ∈ removed ∨ k ∈ (entries m1).*1;
  at_disjoint : ∀ k, k ∈ (entries m1).*1 → k ∉ removed;
  at_tid : tid ∈ removed;
  at_gone : ∀ k, k ∈ removed → k = tid ∨ k ∈ pre.*1;
  at_parents : ∀ l1 q l2 i, entries m1 = l1 ++ q :: l2 → i ∈ inputs (entry_tx q) →
    previous_tx_id i ∈ all.*1 → previous_tx_id i ∈ l1.*1
}.

Lemma replay_step_keep m pre removed m1 p l :
  mempool_inv m → entries m = all → all = pre ++ p :: l →
  replay_inv_at m pre removed m1 → p.1 ∉ removed →
  (∀ i, i ∈ inputs (entry_tx p) → previous_tx_id i ∉ removed) →
  ∃ m2, add_transaction m1 (entry_tx p) = Ok (true, m2) ∧ entries m2 = entries m1 ++ [p] ∧
    replay_inv_at m (pre ++ [p]) removed m2.
Proof.
  intros Hm Hes Heq [Hpool [Hmt Hmb] [Hc Hs] Hkept Hrem Hdis Hself Hgone Hpar] Hp Hi.
  pose proof (inv_pending _ Hpool) as Hpend. rewrite Hc, Hs in Hpend.
  assert (entries m1 ++ [p] `sublist_of` all) as Hsub.
  { rewrite Heq. apply sublist_app; [done|]. apply sublist_skip, sublist_nil_l. }
  assert (∀ l1 q l2 i, entries m1 ++ [p] = l1 ++ q :: l2 → i ∈ inputs (entry_tx q) →
    previous_tx_id i ∈ all.*1 → previous_tx_id i ∈ l1.*1) as Hpar'.
  { intros l1 q l2 i [(l2' & Hl)|[-> ->]]%snoc_split Hiq Hia; [by eapply Hpar|].
    pose proof (pending_parent_before _ _ _ _ Heq Hiq Hia) as Hpre.
    destruct (Hrem _ Hpre) as [Hr|]; [|done]. by apply Hi in Hr. }
  destruct (admit_kept _ _ _ Hpend (sublist_submseteq _ _ Hsub) Hpar') as (u1 & Hv & Ha & Hts & Hte).
  assert (p ∈ all) as Hpall by (rewrite Heq; set_solver).
  destruct (pending_entry _ _ _ _ _ Hall Hpall) as [Hkey Hsize].
  pose proof (sublist_length _ _ Hsub) as Hlen. rewrite length_app in Hlen. cbn in Hlen.
  pose proof (inv_count _ Hm) as Hcount. pose proof (inv_bytes _ Hm) as Hbytes.
  pose proof (inv_total _ Hm) as Htot. pose proof (inv_total _ Hpool) as Htot1.
  rewrite Hes in Htot. unfold mempool_len in Hcount. rewrite Hes in Hcount.
  assert (total_bytes m1 + transaction_size (entry_tx p) <= max_bytes m1) as Hb.
  { rewrite Htot1, <- Hsize, Hmb. etrans; [|exact Hbytes]. rewrite Htot, <- sumZ_sizes_snoc.
    eapply sumZ_with_submseteq; [|by apply sublist_submseteq].
    intros q Hq. cbn. rewrite (proj2 (pending_entry _ _ _ _ _ Hall Hq)). unfold transaction_size. lia. }
  destruct (add_transaction_cases m1 (entry_tx p)) as [(e & u2 & Hadm & _ & Hadd)|[_ [Hfull|Hno]]].
  - pose proof (add_transaction_inv _ _ _ _ Hpool Hadd) as Hinv2. rewrite Hadd. eexists. split; [done|].
    apply admit_Some in Hadm as (fee & -> & Hv' & _).
    rewrite (valid_tx_fee_unique _ _ _ _ Hv' Hv) in *.
    assert ((txid (entry_tx p), MkEntry (entry_tx p) (entry_fee p.2) (transaction_size (entry_tx p))) = p)
      as Hpeq by (rewrite <- Hkey, <- Hsize; by destruct p as [? []]).
    cbn in *. rewrite Hpeq in *. split; [done|].
    constructor; cbn; [done|done|done| | | |done| |done].
    + by apply sublist_app.
    + intros k [Hk|Hk]%fmap_app_elem; rewrite fmap_app; set_solver.
    + intros k [Hk|Hk]%fmap_app_elem; [by apply Hdis|]. cbn in Hk. set_solver.
    + intros k [Hk|Hk]%Hgone; [by left|]. right. rewrite fmap_app. set_solver.
  - unfold mempool_len in Hfull. lia.
  - exfalso. eapply Hno, admit_Some. exists (entry_fee p.2). split_and!; [done|done| |done|done|done].
    by rewrite Hs.
Qed.

(** Leaving an entry out keeps the replay's position meaningful. *)
Lemma replay_inv_drop m pre removed m1 p :
  replay_inv_at m pre removed m1 → p.1 ∉ (entries m1).*1 →
  replay_inv_at m (pre ++ [p]) ({[p.1]} ∪ removed) m1.
Proof.
  intros [Hpool Hlim Hbase Hkept Hrem Hdis Hself Hgone Hpar] Hp. constructor; try done.
  - by apply sublist_inserts_r.
  - intros k [[?|?]%Hrem|Hk]%fmap_app_elem; [set_solver|by right|]. cbn in Hk. set_solver.
  - intros k Hk. pose proof (Hdis k Hk). set_solver.
  - set_solver.
  - intros k [Hk|Hk]%elem_of_union; rewrite fmap_app; [set_solver|].
    destruct (Hgone k Hk); set_solver.
Qed.

Lemma replay_step_refuse m pre removed m1 p l i :
  all = pre ++ p :: l → replay_inv_at m pre removed m1 →
  i ∈ inputs (entry_tx p) → previous_tx_id i ∈ removed →
  add_transaction m1 (entry_tx p) = Ok (false, m1).
Proof.
  intros Heq [Hpool _ [Hc Hs] Hkept _ Hdis _ Hgone _] Hi Hr.
  destruct (add_transaction_cases m1 (entry_tx p)) as [(e & u1 & Ha & _)|[? _]]; [exfalso|done].
  apply admit_Some in Ha as (fee & _ & Hv & _). revert Hv.
  pose proof (inv_pending _ Hpool) as Hpend. rewrite Hc, Hs in Hpend.
  eapply valid_needs_parent; [done..| | | |].
  - intros q Hq. rewrite Heq. apply elem_of_app. left. by eapply elem_of_sublist.
  - exact Hi.
  - destruct (Hgone _ Hr) as [->|Hk]; [done|]. rewrite Heq, fmap_app. set_solver.
  - intros Hk. by eapply Hdis.
Qed.

(** The replay keeps the survivors. *)
Lemma replay_survivors m l : ∀ pre removed m1 m2,
  mempool_inv m → entries m = all → all = pre ++ l → replay_inv_at m pre removed m1 →
  replay l (λ entry_txid _, bool_decide (entry_txid = tid)) m1 = Ok m2 →
  entries m2 = entries m1 ++ survivors removed l.
Proof.
  induction l as [|p l IH]; intros pre removed m1 m2 Hm Hes Heq Hat; cbn [replay survivors].
  { intros [= <-]. by rewrite app_nil_r. }
  pose proof (pending_keys_NoDup _ _ _ _ Hall) as Hnd. rewrite Heq, fmap_app in Hnd.
  apply NoDup_app in Hnd as (_ & Hnd & _).
  assert (p.1 ∉ (entries m1).*1) as Hnew.
  { intros Hk. apply (Hnd p.1); [|cbn; set_solver].
    destruct Hat. eapply elem_of_sublist; [exact Hk|]. by apply fmap_sublist. }
  assert (all = (pre ++ [p]) ++ l) as Heq' by (by rewrite Heq, <- app_assoc).
  destruct p as [k e]. cbn [fst] in *. change (entry_transaction e) with (entry_tx (k, e)).
  destruct (bool_decide (k = tid)) eqn:Hk; to_prop.
  - subst k. rewrite bool_decide_eq_true_2 by apply Hat. cbn [orb].
    apply (IH (pre ++ [(tid, e)])); [done..|]. by apply replay_inv_drop.
  - assert (k ∉ removed) as Hkr.
    { intros [|Hin]%(at_gone _ _ _ _ Hat); [done|]. apply (Hnd k Hin). cbn. set_solver. }
    rewrite (bool_decide_eq_false_2 (k ∈ removed)) by done. cbn [orb]. case_match eqn:Hex.
    + apply existsb_exists in Hex as (i & Hi%list_elem_of_In & Hr). to_prop.
      rewrite (replay_step_refuse _ _ _ _ (k, e) _ _ Heq Hat Hi Hr). cbn [mbind result_bind snd].
      apply (IH (pre ++ [(k, e)])); [done..|]. by apply replay_inv_drop.
    + destruct (replay_step_keep m pre removed m1 (k, e) l Hm Hes Heq Hat Hkr) as (m3 & Ha & Hes3 & Hat3).
      { intros i Hi Hr. enough (existsb (λ i, bool_decide (previous_tx_id i ∈ removed))
          (inputs (entry_tx (k, e))) = true) by congruence.
        apply existsb_exists. exists i. split; [by apply list_elem_of_In|by apply bool_decide_eq_true]. }
      rewrite Ha. cbn [mbind result_bind snd].
      intros Hr. rewrite (IH _ _ _ _ Hm Hes Heq' Hat3 Hr), Hes3. by rewrite <- app_assoc.
Qed.
End remove.

Section removal.
Context {E : EcdsaLib}.

(** Removal keeps exactly the entries that do not descend from the target. *)
Lemma remove_transaction_survivors m tid m' :
  mempool_inv m → keys_recorded (confirmed_utxos m) (mp_seen_txids m) →
  remove_transaction m tid = Ok (true, m') → entries m' = survivors {[tid]} (entries m).
Proof.
  intros Hm Hkeys. unfold remove_transaction. case_match eqn:Hhas; [done|].
  rewrite new_mempool_rebuild by apply Hm. cbn [mbind result_bind].
  intros (rb & Hrb & [= <-])%bind_Ok. cbn.
  unfold mempool_has_transaction in Hhas. to_prop.
  change (entries rb = [] ++ survivors {[tid]} (entries m)).
  refine (replay_survivors _ _ _ _ Hkeys (inv_pending _ Hm) tid Hhas m (entries m) [] {[tid]}
            (MkMempool _ _ _ _ (confirmed_utxos m) [] 0) rb Hm eq_refl eq_refl _ Hrb). constructor; cbn; try done.
  - eapply new_mempool_inv, new_mempool_rebuild; apply Hm.
  - by intros ? ?%elem_of_nil.
  - by intros ? ?%elem_of_nil.
  - set_solver.
  - set_solver.
  - by intros [].
Qed.

Lemma remove_transaction_verdict m tid b m' :
  remove_transaction m tid = Ok (b, m') → b = mempool_has_transaction m tid ∧ (b = false → m' = m).
Proof.
  unfold remove_transaction. case_match eqn:Hhas; to_prop.
  - rewrite Hhas. by intros [= <- <-].
  - rewrite Hhas. intros (? & _ & (? & _ & [= <- _])%bind_Ok)%bind_Ok. done.
Qed.

(** A replay keeps a sublist of the transactions it is given. *)
Lemma replay_sublist skip l : ∀ m m',
  replay l skip m = Ok m' →
  ∃ kept, entry_tx <$> entries m' = (entry_tx <$> entries m) ++ kept ∧
    kept `sublist_of` (entry_tx <$> l).
Proof.
  induction l as [|[t e] l IH]; intros m m'; cbn [replay].
  { intros [= <-]. exists []. by rewrite app_nil_r. }
  case_match.
  { intros (kept & ? & ?)%IH. exists kept. split; [done|]. by apply sublist_cons. }
  intros ([b m1] & Hadd & (kept & Hk & Hs)%IH)%bind_Ok. cbn in Hk.
  destruct (add_transaction_cases m (entry_transaction e)) as [(e1 & u1 & Ha & _ & Heq)|[Heq _]];
    rewrite Heq in Hadd; injection Hadd as <- <-.
  - exists (entry_transaction e :: kept). apply admit_Some in Ha as (fee & -> & _).
    rewrite Hk. cbn. rewrite fmap_app, <- app_assoc. split; [done|]. by apply sublist_skip.
  - exists kept. split; [done|]. by apply sublist_cons.
Qed.
End removal.
