(* ===== verification/MempoolSelect.v ===== *)
(** * Block selection from the pool

    The greedy loop of [select_transactions]: what it keeps invariant, when it
    stops, the order it follows, and that the selected transactions apply to
    the confirmed state. *)

From Stdlib Require Import QArith Lqa.
From S2P Require Import Prelude Bytes Sha256 Json Crypto Transaction Utxo TxValidation.
From S2P Require Import Processing Batch Mempool MempoolFacts.
Open Scope Z_scope.

(** ** The ranking is a total order *)

#[export] Instance rank_le_total : Total rank_le.
Proof.
  intros p q. unfold rank_le.
  destruct (Q_dec (fee_rate p.2) (fee_rate q.2)) as [[H|H]|H]; [right; by left|left; by left|].
  destruct (total String.le p.1 q.1) as [Hs|Hs]; [left|right]; right; split; [|done| |done]; lra.
Qed.

#[export] Instance rank_le_trans : Transitive rank_le.
Proof.
  intros p q r. unfold rank_le. intros [H1|[H1 S1]] [H2|[H2 S2]].
  - left. lra.
  - left. lra.
  - left. lra.
  - right. split; [lra|]. by etrans.
Qed.

Lemma ranked_perm m : ranked m ≡ₚ entries m.
Proof. apply merge_sort_Permutation. Qed.

Lemma elem_of_ranked m p : p ∈ ranked m ↔ p ∈ entries m.
Proof. by rewrite ranked_perm. Qed.

Lemma ranked_sorted m : StronglySorted rank_le (ranked m).
Proof. apply StronglySorted_merge_sort; apply _. Qed.

(** ** One round *)

Lemma first_eligible_Some m max_b st l p :
  first_eligible m max_b st l = Some p → p ∈ l ∧ eligible m max_b st p = true.
Proof.
  induction l as [|q l IH]; cbn; [done|]. case_match.
  - intros [= ->]. split; [by left|done].
  - intros [? ?]%IH. split; [by right|done].
Qed.

Lemma first_eligible_None m max_b st l :
  first_eligible m max_b st l = None ↔ ∀ p, p ∈ l → eligible m max_b st p = false.
Proof.
  induction l as [|q l IH]; cbn.
  - split; [by intros _ p ?%elem_of_nil|done].
  - destruct (eligible m max_b st q) eqn:Hq.
    + split; [done|]. intros H. rewrite H in Hq; [done|by left].
    + rewrite IH. split; [intros H p [->|?]%elem_of_cons; auto|]. intros H p ?. apply H. by right.
Qed.

(** The chosen entry is the best ranked of the eligible ones. *)
Lemma first_eligible_best m max_b st l p q :
  StronglySorted rank_le l → first_eligible m max_b st l = Some p →
  q ∈ l → eligible m max_b st q = true → rank_le p q.
Proof.
  induction l as [|r l IH]; cbn; intros Hs Hf Hq Hel; [done|].
  apply StronglySorted_cons in Hs as [Hr Hs].
  destruct (eligible m max_b st r) eqn:Her.
  - injection Hf as ->. apply elem_of_cons in Hq as [->|Hq].
    + destruct (total rank_le p p); done.
    + by eapply Forall_forall in Hr.
  - apply elem_of_cons in Hq as [->|Hq]; [congruence|]. by apply IH.
Qed.

Lemma eligible_spec m max_b st p :
  eligible m max_b st p = true ↔
    p.1 ∉ selected_txids st ∧ parents m p.2 ⊆ selected_txids st ∧
    selected_bytes st + entry_size_bytes p.2 <= max_b.
Proof.
  unfold eligible. rewrite andb_true_iff, !negb_true_iff, orb_false_iff, negb_false_iff.
  rewrite bool_decide_eq_false, bool_decide_eq_true, Z.ltb_ge. tauto.
Qed.

(** ** The loop invariant *)

Record selection_inv (m : Mempool) (max_tx max_b : Z) (st : Selection) : Prop := {
  sel_from : ∀ p, p ∈ selected st → p ∈ entries m;
  sel_nodup : NoDup (selected st).*1;
  sel_txids : selected_txids st = list_to_set (selected st).*1;
  sel_bytes : selected_bytes st = sumZ_with (entry_size_bytes ∘ snd) (selected st);
  sel_max_bytes : selected_bytes st <= max_b;
  sel_max_tx : Z.of_nat (length (selected st)) <= max_tx;
  sel_parents : ∀ l1 p l2, selected st = l1 ++ p :: l2 → parents m p.2 ⊆ list_to_set l1.*1;
  sel_greedy : ∀ l1 p l2 q, selected st = l1 ++ p :: l2 → q ∈ entries m →
    eligible m max_b (MkSelection l1 (list_to_set l1.*1) (sumZ_with (entry_size_bytes ∘ snd) l1)) q = true →
    rank_le p q
}.

Definition select_step (st : Selection) (p : string * MempoolEntry) : Selection :=
  MkSelection (selected st ++ [p]) ({[p.1]} ∪ selected_txids st)
    (selected_bytes st + entry_size_bytes p.2).

Lemma selection_inv_init m max_tx max_b :
  0 <= max_tx → 0 <= max_b → selection_inv m max_tx max_b (MkSelection [] ∅ 0).
Proof.
  intros. constructor; cbn; try done; [by intros ? ?%elem_of_nil|constructor| |]; by intros [].
Qed.

Lemma selection_inv_step m max_tx max_b st p :
  selection_inv m max_tx max_b st → Z.of_nat (length (selected st)) < max_tx →
  first_eligible m max_b st (ranked m) = Some p →
  selection_inv m max_tx max_b (select_step st p).
Proof.
  intros Hst Hlen Hf. pose proof Hf as [Hin%elem_of_ranked Hel]%first_eligible_Some.
  pose proof Hel as (Hn & Hpar & Hb)%eligible_spec. destruct Hst.
  assert (∀ l1 q l2, selected st ++ [p] = l1 ++ q :: l2 →
    (∃ l2', selected st = l1 ++ q :: l2') ∨ l1 = selected st ∧ q = p) as Hsplit.
  { intros l1 q l2 Heq. destruct l2 as [|x l2 _] using rev_ind.
    - apply app_inj_tail in Heq as [-> ->]. by right.
    - left. exists l2. rewrite app_comm_cons, app_assoc in Heq. by apply app_inj_tail in Heq as [-> _]. }
  constructor; cbn.
  - intros q [?| ->%list_elem_of_singleton]%elem_of_app; auto.
  - rewrite fmap_app. apply NoDup_app. split_and!; [done| |apply NoDup_singleton].
    intros k Hk Hk'. cbn in Hk'. apply list_elem_of_singleton in Hk' as ->.
    apply Hn. rewrite sel_txids0. by apply elem_of_list_to_set.
  - rewrite fmap_app, list_to_set_app_L, sel_txids0. cbn. set_solver.
  - rewrite sumZ_with_app, sel_bytes0. cbn. lia.
  - done.
  - rewrite length_app. cbn. lia.
  - intros l1 q l2 [(l2' & Heq)|[-> ->]]%Hsplit; [by eapply sel_parents0|]. by rewrite <- sel_txids0.
  - intros l1 q l2 r [(l2' & Heq)|[-> ->]]%Hsplit Hr Her; [by eapply sel_greedy0|].
    rewrite <- sel_txids0, <- sel_bytes0 in Her.
    eapply first_eligible_best; [apply ranked_sorted|exact Hf|by apply elem_of_ranked|].
    by destruct st.
Qed.

Lemma select_loop_inv m max_tx max_b fuel : ∀ st,
  selection_inv m max_tx max_b st → selection_inv m max_tx max_b (select_loop m max_tx max_b fuel st).
Proof.
  induction fuel as [|fuel IH]; intros st Hst; cbn [select_loop]; [done|].
  case_match eqn:Hlen; [|done]. to_prop. case_match eqn:Hf; [|done].
  apply IH. by apply selection_inv_step.
Qed.

Lemma selection_submseteq m max_tx max_b st :
  selection_inv m max_tx max_b st → selected st ⊆+ entries m.
Proof.
  intros []. apply NoDup_submseteq; [|done]. by eapply NoDup_fmap_1.
Qed.

(** ** Termination *)

(** Nothing is left to do: the count limit is met or no entry is eligible. *)
Definition selection_done (m : Mempool) (max_tx max_b : Z) (st : Selection) : Prop :=
  max_tx <= Z.of_nat (length (selected st)) ∨
  ∀ p, p ∈ entries m → eligible m max_b st p = false.

Lemma select_loop_done m max_tx max_b fuel : ∀ st,
  selection_inv m max_tx max_b st → NoDup (entries m).*1 →
  (length (entries m) <= fuel + length (selected st))%nat →
  selection_done m max_tx max_b (select_loop m max_tx max_b fuel st).
Proof.
  induction fuel as [|fuel IH]; intros st Hst Hnd Hlen; cbn [select_loop].
  - right. intros p Hp. destruct (eligible m max_b st p) eqn:Hel; [|done]. exfalso.
    apply eligible_spec in Hel as (Hn & _ & _). apply Hn.
    rewrite (sel_txids _ _ _ _ Hst). apply elem_of_list_to_set.
    pose proof (selection_submseteq _ _ _ _ Hst) as Hsub.
    apply submseteq_length_Permutation in Hsub; [|done]. rewrite Hsub. by apply list_elem_of_fmap_2.
  - case_match eqn:Hlt; to_prop; [|by left]. case_match eqn:Hf.
    + apply IH; [by apply selection_inv_step|done|]. cbn. rewrite length_app. cbn. lia.
    + right. intros q Hq. rewrite first_eligible_None in Hf. by apply Hf, elem_of_ranked.
Qed.

(** More fuel changes nothing: the loop is the code's [while]. *)
Lemma select_loop_fuel m max_tx max_b fuel : ∀ st extra,
  selection_done m max_tx max_b (select_loop m max_tx max_b fuel st) →
  select_loop m max_tx max_b (fuel + extra) st = select_loop m max_tx max_b fuel st.
Proof.
  induction fuel as [|fuel IH]; intros st extra Hd; cbn [Nat.add select_loop] in *.
  - destruct extra; [done|]. cbn. case_match eqn:Hlt; [|done]. to_prop.
    destruct Hd as [?|Hd]; [lia|].
    assert (first_eligible m max_b st (ranked m) = None) as ->; [|done].
    apply first_eligible_None. intros p Hp%elem_of_ranked. auto.
  - case_match; [|done]. case_match; [by apply IH|done].
Qed.

(** ** The selection is a batch the confirmed state accepts *)

Section applies.
Context {E : EcdsaLib}.

Lemma selection_run m max_tx max_b st :
  mempool_inv m → keys_recorded (confirmed_utxos m) (mp_seen_txids m) →
  selection_inv m max_tx max_b st →
  ∃ u' s', run (entry_tx <$> selected st) (confirmed_utxos m) (mp_seen_txids m)
             (sumZ_with (entry_fee ∘ snd) (selected st)) u' s'.
Proof.
  intros Hm Hkeys Hst. pose proof (inv_pending _ Hm) as Hp.
  pose proof (pending_batch_ok _ _ _ _ Hkeys Hp) as Hok.
  pose proof (selection_submseteq _ _ _ _ Hst) as Hsub.
  assert (∀ p, p ∈ selected st → p.1 = txid (entry_tx p)) as Hkey.
  { intros p Hin%(sel_from _ _ _ _ Hst). by eapply pending_entry. }
  assert (batch_ok (confirmed_utxos m) (mp_seen_txids m) (entry_tx <$> selected st)) as Hsel.
  { eapply batch_ok_sub; [done|exact Hok|by apply fmap_submseteq|].
    intros l1 tx l2 i Heq Hi Hin.
    apply fmap_app_inv in Heq as (e1 & e2 & -> & He2 & Hsplit).
    destruct e2 as [|p e2]; [done|]. injection He2 as -> ->.
    pose proof (sel_parents _ _ _ _ Hst _ _ _ Hsplit) as Hpar.
    rewrite <- (pending_keys _ _ _ _ Hp) in Hin.
    assert (previous_tx_id i ∈ parents m p.2) as Hpi.
    { apply elem_of_list_to_set, list_elem_of_filter. split; [done|].
      apply list_elem_of_fmap. by exists i. }
    apply Hpar, elem_of_list_to_set in Hpi.
    apply list_elem_of_fmap in Hpi as (q & -> & Hq).
    rewrite Hkey by (rewrite Hsplit; set_solver). by do 2 apply list_elem_of_fmap_2. }
  destruct (proj2 (run_batch_ok _ _ _ Hkeys) Hsel) as (fees & u' & s' & Hr).
  exists u', s'. enough (fees = sumZ_with (entry_fee ∘ snd) (selected st)) as <- by done.
  set (view := confirmed_utxos m ∪ creates (entry_tx <$> selected st)).
  assert (∀ p, p ∈ selected st → valid_tx view (entry_tx p) (entry_fee p.2)) as Hval.
  { intros p Hin. pose proof (pending_valid _ _ _ _ p Hkeys Hp (sel_from _ _ _ _ Hst _ Hin)) as Hv.
    destruct (batch_valid _ _ _ Hsel (entry_tx p)) as [fee Hf]; [by apply list_elem_of_fmap_2|].
    enough (fee = entry_fee p.2) as <- by done. eapply valid_tx_fee_unique; [|exact Hv].
    eapply valid_tx_frame; [|exact Hf]. intros k Hk.
    destruct (valid_tx_spends _ _ _ _ Hf Hk) as [o Ho]. rewrite Ho.
    eapply view_mono; [apply (batch_txids _ _ _ Hok)| |exact Ho].
    intros t (q & -> & Hq)%list_elem_of_fmap. apply list_elem_of_fmap_2. by eapply sel_from. }
  rewrite (run_fees_sum (λ t, match calculate_transaction_fee t view with Ok f => f | _ => 0 end)
             _ _ _ _ _ _ Hkeys Hr).
  - rewrite sumZ_with_fmap. apply sumZ_with_ext. intros p Hin. cbn.
    by rewrite (proj2 (calculate_transaction_fee_Ok _ _ _) (Hval p Hin)).
  - intros t (p & -> & Hin)%list_elem_of_fmap.
    rewrite (proj2 (calculate_transaction_fee_Ok _ _ _) (Hval p Hin)). by apply Hval.
Qed.
End applies.
