(* ===== verification/MempoolTheorems.v ===== *)
(** * What the memory pool guarantees

    The operations preserve the pool's invariant and never raise; admission,
    removal and revalidation do exactly what their specifications say; and the
    greedy selection yields a batch that the confirmed state accepts. *)

From Stdlib Require Import QArith.
From S2P Require Import Prelude Bytes Sha256 Json Crypto Transaction Utxo TxValidation.
From S2P Require Import Processing Batch Sample Mempool MempoolFacts.
From S2P Require Import MempoolSelect.
Open Scope Z_scope.

(** ** A sample pool *)

(** The pool of three slots after [payment] and [child_payment]. *)
Definition working_after (u : UTXOSet) (tx : Transaction) : UTXOSet :=
  created_by tx ∪ foldr delete u (spent_outpoints tx).

Definition sample_working : UTXOSet := working_after (working_after sample_utxos payment) child_payment.

Definition sample_entry (tx : Transaction) (fee : Z) : string * MempoolEntry :=
  (txid tx, MkEntry tx fee (transaction_size tx)).

Definition sample_pool : Mempool :=
  MkMempool 3 100000 sample_utxos sample_seen sample_working
    [sample_entry payment 2; sample_entry child_payment 5]
    (transaction_size payment + transaction_size child_payment).

Lemma sample_pending :
  pending sample_utxos sample_seen [sample_entry payment 2; sample_entry child_payment 5] sample_working.
Proof.
  assert (valid_tx sample_utxos payment 2) as Hp
    by (apply calculate_transaction_fee_Ok; vm_compute; reflexivity).
  assert (valid_tx (working_after sample_utxos payment) child_payment 5) as Hc
    by (apply calculate_transaction_fee_Ok; vm_compute; reflexivity).
  assert (txid payment ∉ sample_seen ∧ txid child_payment ∉ sample_seen ∧
          txid child_payment ∉ [txid payment]) as (Hps & Hcs & Hcp).
  { split_and!; apply (bool_decide_unpack (_ ∉ _)); vm_compute; exact I. }
  pose proof (valid_tx_applies _ _ _ _ sample_keys Hps Hp) as Ha.
  assert (keys_recorded (working_after sample_utxos payment) ({[txid payment]} ∪ sample_seen)) as Hk
    by (eapply keys_recorded_step; [exact sample_keys|exact Ha]).
  assert (txid child_payment ∉ ({[txid payment]} ∪ sample_seen : TxidSet)) as Hc'.
  { apply not_elem_of_union. split; [|exact Hcs]. intros Hin%elem_of_singleton.
    apply Hcp. rewrite Hin. apply list_elem_of_here. }
  pose proof (valid_tx_applies _ _ _ _ Hk Hc' Hc) as Ha'.
  refine (pending_snoc _ _ [sample_entry payment 2] _ _ _ _ _ Hc Hcs Hcp Ha').
  refine (pending_snoc _ _ [] _ _ _ _ (pending_nil _ _) Hp Hps (not_elem_of_nil _) Ha).
Qed.

Lemma sample_pool_inv : mempool_inv sample_pool.
Proof.
  constructor; unfold sample_pool, mempool_len;
    cbn [max_transactions max_bytes entries total_bytes confirmed_utxos mp_seen_txids working_utxos];
    [lia|lia|cbn; lia|vm_compute; discriminate|cbn; lia|exact sample_pending].
Qed.

#[global] Opaque sample_pool.

Section theorems.
Context {E : EcdsaLib}.

(** C14: no operation of the pool raises, and each one preserves the
    invariant: the limits, the byte count, and that the entries, in
    insertion order, are a valid batch leading from the confirmed state to
    the working set.  Removal keeps the confirmed state; revalidation
    installs the new one; a copy is the same pool. *)
Theorem mempool_operations_safe m tx tid u s :
  mempool_inv m →
  (∃ b m', add_transaction m tx = Ok (b, m') ∧ mempool_inv m' ∧
     confirmed_utxos m' = confirmed_utxos m ∧ mp_seen_txids m' = mp_seen_txids m) ∧
  (∃ b m', remove_transaction m tid = Ok (b, m') ∧ mempool_inv m' ∧
     confirmed_utxos m' = confirmed_utxos m ∧ mp_seen_txids m' = mp_seen_txids m) ∧
  (∃ m', revalidated m u s = Ok m' ∧ mempool_inv m' ∧
     confirmed_utxos m' = u ∧ mp_seen_txids m' = s) ∧
  mempool_copy m = Ok m.
Proof.
  intros Hm. split_and!.
  - destruct (add_transaction_cases m tx) as [(e & u1 & _ & _ & Heq)|[Heq _]];
      rewrite Heq; do 2 eexists; (split; [done|]); split; try done;
      by eapply add_transaction_inv.
  - destruct (remove_transaction_total m tid Hm) as [[b m'] Hr]. exists b, m'.
    destruct (remove_transaction_inv _ _ _ _ Hm Hr) as (? & ? & ? & _). done.
  - destruct (revalidated_total m u s Hm) as [m' Hr]. exists m'.
    destruct (revalidated_inv _ _ _ _ Hm Hr) as (? & ? & ? & _). done.
  - by apply mempool_copy_id.
Qed.

(** [add_transaction] admits a transaction exactly when the pool has a
    free slot, the transaction is valid against the working set (so it may
    spend pending outputs but no reserved one), it is neither confirmed nor
    pending, its bytes fit and it applies; the entry then records its fee and
    size and goes last.  Otherwise the pool is unchanged. *)
Theorem add_transaction_exact m tx :
  (∀ m', add_transaction m tx = Ok (true, m') ↔
    ∃ fee u1,
      mempool_len m < max_transactions m ∧ valid_tx (working_utxos m) tx fee ∧
      txid tx ∉ mp_seen_txids m ∧ txid tx ∉ (entries m).*1 ∧
      total_bytes m + transaction_size tx <= max_bytes m ∧
      apply_valid_transaction (working_utxos m) tx = Ok u1 ∧
      m' = MkMempool (max_transactions m) (max_bytes m) (confirmed_utxos m) (mp_seen_txids m) u1
             (entries m ++ [(txid tx, MkEntry tx fee (transaction_size tx))])
             (total_bytes m + transaction_size tx)) ∧
  (∀ m', add_transaction m tx = Ok (false, m') → m' = m).
Proof.
  destruct (add_transaction_cases m tx) as [(e & u1 & Ha & Hlen & Heq)|[Heq Hno]]; rewrite Heq.
  - apply admit_Some in Ha as (fee & -> & Hv & Hs & He & Hb & Ha). split; [|done]. intros m'. split.
    + intros [= <-]. by exists fee, u1.
    + intros (fee' & u2 & _ & Hv' & _ & _ & _ & Ha' & ->).
      rewrite (valid_tx_fee_unique _ _ _ _ Hv' Hv). rewrite Ha in Ha'. by injection Ha' as <-.
  - split; [|by intros m' [= <-]]. intros m'. split; [done|].
    intros (fee & u1 & Hlen & Hv & Hs & He & Hb & Ha & _). exfalso.
    destruct Hno as [?|Hno]; [lia|]. eapply Hno, admit_Some. by exists fee.
Qed.

(** [remove_transaction] answers whether the transaction was pending, and
    keeps exactly the entries that do not descend from it, with their fees,
    sizes and order: a dependent entry goes with its ancestor and nothing
    else is lost to the replay. *)
Theorem remove_transaction_exact m tid b m' :
  mempool_inv m → keys_recorded (confirmed_utxos m) (mp_seen_txids m) →
  remove_transaction m tid = Ok (b, m') →
  b = mempool_has_transaction m tid ∧
  entries m' = (if b then survivors {[tid]} (entries m) else entries m).
Proof.
  intros Hm Hk Hr. destruct (remove_transaction_verdict _ _ _ _ Hr) as [Hb Hf].
  split; [done|]. destruct b; [by apply remove_transaction_survivors|by rewrite Hf].
Qed.

(** C15: the transactions selected for a block apply, in the selected order,
    to the confirmed state, collect exactly the recorded fees, and respect
    the limits on count and bytes; each is pending and none is repeated. *)
Theorem selection_applies m max_tx max_b :
  mempool_inv m → keys_recorded (confirmed_utxos m) (mp_seen_txids m) →
  0 <= max_tx → 0 <= max_b →
  ∃ sel b,
    select_transactions m max_tx max_b = Ok (entry_tx <$> sel) ∧ sel ⊆+ entries m ∧
    apply_transactions (entry_tx <$> sel) (confirmed_utxos m) (mp_seen_txids m) = Ok b ∧
    batch_total_fees b = sumZ_with (entry_fee ∘ snd) sel ∧
    Z.of_nat (length sel) <= max_tx ∧ sumZ_with (entry_size_bytes ∘ snd) sel <= max_b.
Proof.
  intros Hm Hk Hmt Hmb. unfold select_transactions, check_limit.
  rewrite !(proj2 (Z.ltb_ge _ 0)) by done. cbn [raise_if mbind result_bind].
  pose proof (select_loop_inv m max_tx max_b (length (entries m)) _
    (selection_inv_init m _ _ Hmt Hmb)) as Hst. fold (select_entries m max_tx max_b) in Hst.
  destruct (selection_run _ _ _ _ Hm Hk Hst) as (u' & s' & Hr).
  exists (selected (select_entries m max_tx max_b)), (MkBatch u' s' (sumZ_with (entry_fee ∘ snd)
    (selected (select_entries m max_tx max_b)))).
  split_and!; [done|by eapply selection_submseteq|by apply apply_transactions_run|done| |].
  - apply Hst.
  - rewrite <- (sel_bytes _ _ _ _ Hst). apply Hst.
Qed.

(** C16: the selection is greedy and maximal: each chosen entry has the
    best fee rate (ties by identifier) among the entries whose pending
    parents were already chosen and that fitted at that point, and the loop
    only stops when the count limit is met or no such entry is left. *)
Theorem selection_greedy m max_tx max_b :
  mempool_inv m → 0 <= max_tx → 0 <= max_b →
  let st := select_entries m max_tx max_b in
  (∀ l1 p l2 q, selected st = l1 ++ p :: l2 → q ∈ entries m →
     eligible m max_b (MkSelection l1 (list_to_set l1.*1)
       (sumZ_with (entry_size_bytes ∘ snd) l1)) q = true → rank_le p q) ∧
  (∀ l1 p l2, selected st = l1 ++ p :: l2 → parents m p.2 ⊆ list_to_set l1.*1) ∧
  (max_tx <= Z.of_nat (length (selected st)) ∨ ∀ p, p ∈ entries m → eligible m max_b st p = false) ∧
  ∀ extra, select_loop m max_tx max_b (length (entries m) + extra) (MkSelection [] ∅ 0) = st.
Proof.
  intros Hm Hmt Hmb. pose proof (selection_inv_init m _ _ Hmt Hmb) as H0.
  pose proof (select_loop_inv m max_tx max_b (length (entries m)) _ H0) as Hst.
  assert (selection_done m max_tx max_b (select_entries m max_tx max_b)) as Hd.
  { apply select_loop_done; [done|by eapply pending_keys_NoDup, Hm|cbn; lia]. }
  cbn. split_and!; [apply Hst|apply Hst|exact Hd|]. intros extra. by apply select_loop_fuel.
Qed.

(** After a block, the revalidated pool holds, in their order, a part
    of the transactions it held, and together they still apply to the new
    confirmed state. *)
Theorem revalidated_applies m u s m' :
  mempool_inv m → keys_recorded u s → revalidated m u s = Ok m' →
  get_transactions m' `sublist_of` get_transactions m ∧
  ∃ b, apply_transactions (get_transactions m') u s = Ok b ∧
    batch_utxo_set b = working_utxos m' ∧
    batch_total_fees b = sumZ_with (entry_fee ∘ snd) (entries m').
Proof.
  intros Hm Hk Hr. destruct (revalidated_inv _ _ _ _ Hm Hr) as (Hm' & <- & <- & _). split.
  - unfold revalidated in Hr. rewrite new_mempool_rebuild in Hr by apply Hm.
    apply replay_sublist in Hr as (kept & Hkept & Hsub). cbn in Hkept. unfold get_transactions.
    change (map entry_tx (entries m')) with (entry_tx <$> entries m'). by rewrite Hkept.
  - pose proof (pending_run _ _ _ _ (inv_pending _ Hm')) as Hrun.
    eexists (MkBatch _ _ _). split; [by apply apply_transactions_run|done].
Qed.
End theorems.

(** ** Witnesses *)

Lemma mempool_operations_safe_witness :
  ∃ b m', remove_transaction sample_pool (txid payment) = Ok (b, m') ∧ mempool_inv m'.
Proof.
  destruct (mempool_operations_safe sample_pool payment (txid payment) sample_utxos sample_seen
    sample_pool_inv) as (_ & (b & m' & Hr & Hi & _) & _).
  exact (ex_intro _ b (ex_intro _ m' (conj Hr Hi))).
Defined.

Lemma remove_transaction_exact_witness :
  ∃ b m', remove_transaction sample_pool (txid child_payment) = Ok (b, m') ∧
    b = mempool_has_transaction sample_pool (txid child_payment).
Proof.
  destruct (remove_transaction_total sample_pool (txid child_payment) sample_pool_inv) as [[b m'] Hr].
  destruct (remove_transaction_exact _ _ _ _ sample_pool_inv sample_keys Hr) as [Hb _].
  exact (ex_intro _ b (ex_intro _ m' (conj Hr Hb))).
Defined.

Lemma selection_applies_witness :
  ∃ sel b, select_transactions sample_pool 2 100000 = Ok (entry_tx <$> sel) ∧
    apply_transactions (entry_tx <$> sel) sample_utxos sample_seen = Ok b.
Proof.
  destruct (selection_applies sample_pool 2 100000 sample_pool_inv sample_keys)
    as (sel & b & Hs & _ & Hb & _); [lia|lia|].
  exact (ex_intro _ sel (ex_intro _ b (conj Hs Hb))).
Defined.

(** The child pays more per byte, but waits for its parent. *)
Example selection_waits_for_parents :
  select_transactions sample_pool 1 100000 = Ok [payment].
Proof. vm_compute. reflexivity. Qed.

Lemma selection_greedy_witness :
  2 <= Z.of_nat (length (selected (select_entries sample_pool 2 100000))) ∨
  ∀ p, p ∈ entries sample_pool → eligible sample_pool 100000 (select_entries sample_pool 2 100000) p = false.
Proof.
  refine (proj1 (proj2 (proj2 (selection_greedy sample_pool 2 100000 sample_pool_inv _ _)))); lia.
Defined.

Lemma revalidated_applies_witness :
  ∃ m', revalidated sample_pool sample_utxos sample_seen = Ok m' ∧
    get_transactions m' `sublist_of` get_transactions sample_pool.
Proof.
  destruct (revalidated_total sample_pool sample_utxos sample_seen sample_pool_inv) as [m' Hr].
  exists m'. split; [exact Hr|].
  exact (proj1 (revalidated_applies sample_pool _ _ m' sample_pool_inv sample_keys Hr)).
Defined.
