(* ===== verification/Merkle.v ===== *)
(** * blockchain/merkle.py: the Merkle root of a block

    The level-by-level loop of the code, and the lemmas behind the commitment
    theorem: the loop is total on hashes, and lists of distinct hashes with one
    root are equal, a hash collision apart. *)

From S2P Require Import Prelude Bytes Sha256 Json Crypto Transaction.

Definition combine_hashes (left_hash right_hash : string) : result string :=
  left_bytes ← bytes_fromhex left_hash;
  right_bytes ← bytes_fromhex right_hash;
  Ok (sha256_hex (left_bytes ++ right_bytes)).

(** An odd level repeats its last hash. *)
Definition pad_level (level : list string) : list string :=
  if Nat.odd (length level) then level ++ option_list (last level) else level.

(** The [for] loop over [range(0, len(current_level), 2)]. *)
Fixpoint pair_up (level : list string) : result (list string) :=
  match level with
  | [] => Ok []
  | [_] => Raise IndexError
  | l :: r :: level =>
      parent_hash ← combine_hashes l r;
      rest ← pair_up level;
      Ok (parent_hash :: rest)
  end.

(** The [while] loop; a level of [n] hashes needs fewer than [n] rounds
    ([merkle_loop_total] below). *)
Fixpoint merkle_loop (fuel : nat) (current_level : list string) : result string :=
  match current_level with
  | [] => Raise IndexError
  | [root] => Ok root
  | _ =>
      match fuel with
      | O => Raise RecursionError
      | S fuel => next_level ← pair_up (pad_level current_level); merkle_loop fuel next_level
      end
  end.

Definition calculate_merkle_root_from_txids (txids : list string) : result string :=
  if bool_decide (txids = []) then Ok (sha256_hex []) else merkle_loop (length txids) txids.

Definition calculate_merkle_root (transactions : list Transaction) : result string :=
  calculate_merkle_root_from_txids (map txid transactions).

(** ** Levels of hashes *)

Definition hashes (l : list string) : Prop := Forall (λ h, is_hash h = true) l.

Lemma hashes_txids txs : hashes (map txid txs).
Proof. apply Forall_forall. intros h (tx & -> & _)%list_elem_of_fmap. apply is_hash_txid. Qed.

(** The digest of 64 bytes: what an inner node of the tree is. *)
Definition inner_node (h : string) : Prop := ∃ m, length m = 64%nat ∧ h = sha256_hex m.

Lemma combine_hashes_Ok a b :
  is_hash a = true → is_hash b = true →
  ∃ h, combine_hashes a b = Ok h ∧ is_hash h = true ∧ inner_node h.
Proof.
  intros (x & -> & Hx)%is_hash_is_bytes_hex (y & -> & Hy)%is_hash_is_bytes_hex.
  unfold combine_hashes. rewrite !bytes_fromhex_hex. cbn. eexists. split_and!; [done|auto with pychain|].
  exists (x ++ y). split; [rewrite length_app; lia|done].
Qed.

Lemma combine_hashes_inj a b c d h :
  hashes [a; b; c; d] → combine_hashes a b = Ok h → combine_hashes c d = Ok h →
  (a = c ∧ b = d) ∨ sha256_collision.
Proof.
  unfold hashes. rewrite !Forall_cons. intros (Ha & Hb & Hc & Hd & _).
  apply is_hash_is_bytes_hex in Ha as (x & -> & Hx), Hb as (y & -> & Hy),
    Hc as (z & -> & Hz), Hd as (w & -> & Hw).
  unfold combine_hashes. rewrite !bytes_fromhex_hex. cbn. intros H1 H2.
  assert (sha256_hex (x ++ y) = sha256_hex (z ++ w)) as Heq by congruence.
  apply sha256_hex_inj in Heq as [Heq|]; [|by right]. left.
  apply app_inj_1 in Heq as [-> ->]; [done|congruence].
Qed.

(** Two elements at a time. *)
Lemma pairs_ind (P : list string → Prop) :
  P [] → (∀ a, P [a]) → (∀ a b l, P l → P (a :: b :: l)) → ∀ l, P l.
Proof.
  intros H0 H1 H2. fix IH 1. intros [|a [|b l]]; [exact H0|apply H1|]. apply H2, IH.
Qed.

Lemma pair_up_Ok l :
  hashes l → Nat.odd (length l) = false →
  ∃ p, pair_up l = Ok p ∧ hashes p ∧ Forall inner_node p ∧ length l = (2 * length p)%nat.
Proof.
  induction l as [|a|a b l IH] using pairs_ind; intros Hl Hodd.
  - exists []. cbn. split_and!; [done|constructor|constructor|done].
  - done.
  - unfold hashes in Hl. rewrite !Forall_cons in Hl. destruct Hl as (Ha & Hb & Hl).
    destruct (combine_hashes_Ok a b Ha Hb) as (h & Hh & Hhash & Hin).
    destruct (IH Hl Hodd) as (p & Hp & ? & ? & Hlen).
    exists (h :: p). cbn [pair_up]. rewrite Hh, Hp. cbn.
    split_and!; [done|by constructor|by constructor|lia].
Qed.

Lemma pair_up_inj l1 : ∀ l2 p,
  hashes l1 → hashes l2 → pair_up l1 = Ok p → pair_up l2 = Ok p → l1 = l2 ∨ sha256_collision.
Proof.
  induction l1 as [|a|a b l1 IH] using pairs_ind; intros l2 p Hl1 Hl2; cbn [pair_up]; [|done|].
  - intros [= <-]. destruct l2 as [|c [|d l2]]; [by left|done|].
    cbn [pair_up]. by intros (? & _ & (? & _ & ?)%bind_Ok)%bind_Ok.
  - intros (h & Hh & (q & Hq & [= <-])%bind_Ok)%bind_Ok.
    destruct l2 as [|c [|d l2]]; [done..|]. cbn [pair_up].
    intros (h' & Hh' & (q' & Hq' & [= <- <-])%bind_Ok)%bind_Ok.
    unfold hashes in Hl1, Hl2. rewrite !Forall_cons in Hl1, Hl2.
    destruct Hl1 as (Ha & Hb & Hl1), Hl2 as (Hc & Hd & Hl2).
    destruct (combine_hashes_inj a b c d h') as [[-> ->]|]; [|done..| |by right].
    { by repeat constructor. }
    destruct (IH l2 q') as [->|]; [done..| |]; auto.
Qed.

(** ** Padding *)

Lemma pad_level_even l : l ≠ [] → Nat.odd (length (pad_level l)) = false.
Proof.
  intros Hl. unfold pad_level. destruct (Nat.odd (length l)) eqn:Ho; [|done].
  destruct (last l) as [x|] eqn:Hx; [|by apply last_None in Hx].
  cbn. rewrite length_app, Nat.add_1_r, Nat.odd_succ. by rewrite <- Nat.negb_odd, Ho.
Qed.

Lemma pad_level_hashes l : hashes l → hashes (pad_level l).
Proof.
  intros Hl. unfold pad_level. case_match; [|done]. apply Forall_app. split; [done|].
  destruct (last l) as [x|] eqn:Hx; [|constructor]. cbn. constructor; [|constructor].
  apply last_Some_elem_of in Hx. by eapply Forall_forall in Hl.
Qed.

Lemma pad_level_inj l1 l2 : NoDup l1 → NoDup l2 → pad_level l1 = pad_level l2 → l1 = l2.
Proof.
  intros H1 H2. unfold pad_level.
  assert (∀ l k : list string, NoDup l → Nat.odd (length k) = true → l = k ++ option_list (last k) → False)
    as Hmix.
  { intros l k Hl Ho ->. destruct (last k) as [x|] eqn:Hx; [|by apply last_None in Hx; subst].
    apply NoDup_app in Hl as (_ & Hd & _). apply (Hd x); [by apply last_Some_elem_of|cbn; by left]. }
  destruct (Nat.odd (length l1)) eqn:O1, (Nat.odd (length l2)) eqn:O2; intros Heq; try done.
  - destruct (last l1) eqn:L1; [|by apply last_None in L1; subst].
    destruct (last l2) eqn:L2; [|by apply last_None in L2; subst].
    by apply app_inj_tail in Heq as [-> _].
  - exfalso. by eapply (Hmix l2 l1).
  - exfalso. by eapply (Hmix l1 l2).
Qed.

(** ** Distinct children have distinct parents *)

Fixpoint lefts (l : list string) : list string :=
  match l with
  | [] => []
  | [a] => [a]
  | a :: _ :: l => a :: lefts l
  end.

Lemma lefts_sublist l : lefts l `sublist_of` l.
Proof.
  induction l as [|a|a b l IH] using pairs_ind; [done..|].
  cbn. apply sublist_skip. by apply sublist_cons.
Qed.

Lemma lefts_pad l : lefts (pad_level l) = lefts l.
Proof.
  unfold pad_level. destruct (Nat.odd (length l)) eqn:Ho; [|done].
  enough (∀ x, lefts (l ++ [x]) = lefts l) as Hx.
  { destruct (last l); cbn; [apply Hx|by rewrite app_nil_r]. }
  intros x. revert Ho. induction l as [|a|a b l IH] using pairs_ind; intros Ho; [done..|].
  cbn. f_equal. by apply IH.
Qed.

Lemma pair_up_elem l p h :
  pair_up l = Ok p → h ∈ p → ∃ a b, a ∈ lefts l ∧ a ∈ l ∧ b ∈ l ∧ combine_hashes a b = Ok h.
Proof.
  revert p. induction l as [|a|a b l IH] using pairs_ind; intros p; cbn [pair_up]; [|done|].
  - by intros [= <-] ?%elem_of_nil.
  - intros (x & Hx & (q & Hq & [= <-])%bind_Ok)%bind_Ok [->|Hin]%elem_of_cons.
    + exists a, b. cbn. set_solver.
    + destruct (IH q Hq Hin) as (c & d & ? & ? & ? & ?). exists c, d. cbn. set_solver.
Qed.

Lemma pair_up_NoDup l p :
  hashes l → NoDup (lefts l) → pair_up l = Ok p → NoDup p ∨ sha256_collision.
Proof.
  revert p. induction l as [|a|a b l IH] using pairs_ind; intros p Hl Hnd; cbn [pair_up]; [|done|].
  - intros [= <-]. left. constructor.
  - intros (h & Hh & (q & Hq & [= <-])%bind_Ok)%bind_Ok.
    unfold hashes in Hl. rewrite !Forall_cons in Hl. destruct Hl as (Ha & Hb & Hl).
    cbn in Hnd. apply NoDup_cons in Hnd as [Hna Hnd].
    destruct (IH q Hl Hnd Hq) as [Hndq|]; [|by right].
    destruct (decide (h ∈ q)) as [Hin|Hin]; [|left; by constructor].
    destruct (pair_up_elem _ _ _ Hq Hin) as (c & d & Hc & Hcl & Hdl & Hcd).
    destruct (combine_hashes_inj a b c d h) as [[-> _]|]; [|done..|by right].
    unfold hashes in *. rewrite Forall_forall in Hl. repeat constructor; auto.
Qed.

(** ** Climbing the tree *)

(** [climb d l r]: [d] rounds of the loop lead from the level [l] to [r]. *)
Inductive climb : nat → list string → list string → Prop :=
  | climb_zero l : climb 0 l l
  | climb_round d l p r :
      (2 <= length l)%nat → pair_up (pad_level l) = Ok p → climb d p r → climb (S d) l r.

Lemma climb_zero_inv l r : climb 0 l r → l = r.
Proof. by inversion 1. Qed.

Lemma merkle_loop_climb fuel l r : merkle_loop fuel l = Ok r → ∃ d, climb d l [r].
Proof.
  revert l. induction fuel as [|fuel IH]; intros [|a [|b l]]; cbn [merkle_loop]; try done.
  - intros [= <-]. exists 0%nat. constructor.
  - intros [= <-]. exists 0%nat. constructor.
  - intros (p & Hp & Hr)%bind_Ok. destruct (IH _ Hr) as [d Hd].
    exists (S d). econstructor; [cbn; lia|done|done].
Qed.

Lemma level_up l :
  hashes l → l ≠ [] →
  ∃ p, pair_up (pad_level l) = Ok p ∧ hashes p ∧ Forall inner_node p ∧
    length (pad_level l) = (2 * length p)%nat.
Proof.
  intros Hl Hne. apply pair_up_Ok; [by apply pad_level_hashes|by apply pad_level_even].
Qed.

Lemma length_pad_level l : (length l <= length (pad_level l) <= S (length l))%nat.
Proof.
  unfold pad_level. case_match; [|lia]. rewrite length_app.
  destruct (last l); cbn; lia.
Qed.

(** The loop ends within the fuel it is given, on a hash. *)
Lemma merkle_loop_total fuel : ∀ l,
  hashes l → l ≠ [] → (length l <= S fuel)%nat →
  ∃ r, merkle_loop fuel l = Ok r ∧ is_hash r = true.
Proof.
  induction fuel as [|fuel IH]; intros [|a [|b l]] Hl Hne Hlen; cbn [merkle_loop]; try done;
    try (exists a; split; [done|by apply Forall_cons in Hl as [? _]]).
  - cbn in Hlen. lia.
  - destruct (level_up (a :: b :: l) Hl Hne) as (p & Hp & Hph & _ & Hplen).
    pose proof (length_pad_level (a :: b :: l)) as Hpad.
    set (k := length (pad_level (a :: b :: l))) in *. cbn [length] in Hpad, Hlen.
    rewrite Hp. cbn [mbind result_bind]. apply IH; [done| |lia].
    intros ->. cbn in Hplen. lia.
Qed.

Lemma merkle_loop_more fuel l r : merkle_loop fuel l = Ok r → merkle_loop (S fuel) l = Ok r.
Proof.
  revert l. induction fuel as [|fuel IH]; intros [|a [|b l]]; try done.
  intros (p & Hp & Hr)%bind_Ok. apply bind_Ok. exists p. split; [done|]. by apply IH.
Qed.

Lemma calculate_merkle_root_from_txids_total l :
  hashes l → ∃ r, calculate_merkle_root_from_txids l = Ok r ∧ is_hash r = true.
Proof.
  intros Hl. unfold calculate_merkle_root_from_txids. case_bool_decide.
  - eexists. split; [done|apply is_hash_sha256_hex].
  - apply merkle_loop_total; [done..|lia].
Qed.

Lemma calculate_merkle_root_total txs :
  ∃ r, calculate_merkle_root txs = Ok r ∧ is_hash r = true.
Proof. apply calculate_merkle_root_from_txids_total, hashes_txids. Qed.

Lemma climb_split a b l r : climb (a + b) l r → ∃ m, climb a l m ∧ climb b m r.
Proof.
  revert l. induction a as [|a IH]; intros l; cbn.
  - intros Hc. exists l. split; [constructor|done].
  - inversion 1 as [|? ? p ? Hlen Hp Hc]; subst. destruct (IH _ Hc) as (m & ? & ?).
    exists m. split; [by econstructor|done].
Qed.

(** One round up, from distinct hashes. *)
Lemma level_up_NoDup l p :
  hashes l → NoDup l → (2 <= length l)%nat → pair_up (pad_level l) = Ok p →
  hashes p ∧ Forall inner_node p ∧ (NoDup p ∨ sha256_collision).
Proof.
  intros Hl Hnd Hlen Hp. assert (l ≠ []) as Hne by (intros ->; cbn in Hlen; lia).
  destruct (level_up l Hl Hne) as (p' & Hp' & Hph & Hin & _). rewrite Hp in Hp'. injection Hp' as <-.
  split_and!; [done..|]. apply (pair_up_NoDup (pad_level l)); [by apply pad_level_hashes| |exact Hp].
  rewrite lefts_pad. by eapply sublist_NoDup, lefts_sublist.
Qed.

Lemma climb_level d l r :
  climb d l r → hashes l → NoDup l →
  (hashes r ∧ NoDup r ∧ (d ≠ 0%nat → Forall inner_node r)) ∨ sha256_collision.
Proof.
  induction 1 as [|d l p r Hlen Hp Hc IH]; intros Hl Hnd; [left; by split_and!|].
  destruct (level_up_NoDup _ _ Hl Hnd Hlen Hp) as (Hph & Hin & [Hpn|]); [|by right].
  destruct (IH Hph Hpn) as [(? & ? & Hd)|]; [left|by right]. split_and!; [done..|]. intros _.
  destruct d; [by inversion Hc; subst|by apply Hd].
Qed.

(** Two levels that lead to the same level in the same number of rounds. *)
Lemma climb_inj d l1 r : climb d l1 r → ∀ l2,
  climb d l2 r → hashes l1 → hashes l2 → NoDup l1 → NoDup l2 → l1 = l2 ∨ sha256_collision.
Proof.
  induction 1 as [|d l1 p1 r Hlen1 Hp1 Hc1 IH]; intros l2 Hc2 Hl1 Hl2 Hn1 Hn2.
  - inversion Hc2; subst. by left.
  - inversion Hc2 as [|? ? p2 ? Hlen2 Hp2 Hc2']; subst.
    destruct (level_up_NoDup _ _ Hl1 Hn1 Hlen1 Hp1) as (Hph1 & _ & [Hpn1|]); [|by right].
    destruct (level_up_NoDup _ _ Hl2 Hn2 Hlen2 Hp2) as (Hph2 & _ & [Hpn2|]); [|by right].
    destruct (IH p2) as [<-|]; [done..| |by right].
    destruct (pair_up_inj _ _ _ (pad_level_hashes _ Hl1) (pad_level_hashes _ Hl2) Hp1 Hp2) as [Heq|];
      [left|by right]. by apply pad_level_inj.
Qed.

(** The commitment, for lists whose hashes are not inner nodes. *)
Lemma climb_binding d1 d2 l1 l2 r :
  climb d1 l1 r → climb d2 l2 r → hashes l1 → hashes l2 → NoDup l1 → NoDup l2 →
  (∀ h, h ∈ l1 ∨ h ∈ l2 → inner_node h → sha256_collision) → l1 ≠ [] → l2 ≠ [] →
  l1 = l2 ∨ sha256_collision.
Proof.
  assert (∀ a b l1 l2, climb b l1 r → climb (S a + b) l2 r → hashes l1 → hashes l2 → NoDup l1 →
    NoDup l2 → (∀ h, h ∈ l1 → inner_node h → sha256_collision) → l1 ≠ [] → sha256_collision) as Hlt.
  { clear. intros a b l1 l2 H1 (m & Ha & Hb)%climb_split Hl1 Hl2 Hn1 Hn2 Hno Hne.
    destruct (climb_level _ _ _ Ha Hl2 Hn2) as [(Hlm & Hnm & Hin)|]; [|done].
    destruct (climb_inj _ _ _ H1 _ Hb) as [->|]; [done..| |done].
    destruct m as [|h m]; [done|]. apply (Hno h); [by left|].
    specialize (Hin ltac:(lia)). by apply Forall_cons in Hin as [? _]. }
  intros H1 H2 Hl1 Hl2 Hn1 Hn2 Hno Hne1 Hne2.
  destruct (lt_eq_lt_dec d1 d2) as [[Hd|<-]|Hd].
  - right. eapply (Hlt (d2 - d1 - 1)%nat d1 l1 l2); try done; [|by intros; eapply Hno; [left|]].
    by replace (S (d2 - d1 - 1) + d1)%nat with d2 by lia.
  - by eapply climb_inj.
  - right. eapply (Hlt (d1 - d2 - 1)%nat d2 l2 l1); try done; [|by intros; eapply Hno; [right|]].
    by replace (S (d1 - d2 - 1) + d2)%nat with d1 by lia.
Qed.

(** ** Transactions *)

Lemma txid_inner_node tx :
  length (transaction_bytes tx) ≠ 64%nat → inner_node (txid tx) → sha256_collision.
Proof.
  intros Hlen (m & Hm & Heq). apply sha256_hex_inj in Heq as [Heq|]; [|done].
  by rewrite Heq in Hlen.
Qed.

Lemma merkle_root_climb txs r :
  txs ≠ [] → calculate_merkle_root txs = Ok r → ∃ d, climb d (map txid txs) [r].
Proof.
  intros Hne. unfold calculate_merkle_root, calculate_merkle_root_from_txids.
  rewrite bool_decide_eq_false_2 by (by destruct txs). apply merkle_loop_climb.
Qed.

(** A non-empty list does not have the root of the empty one. *)
Lemma merkle_root_not_empty txs r :
  txs ≠ [] → calculate_merkle_root txs = Ok r → r = sha256_hex [] → NoDup (map txid txs) →
  (∀ tx, tx ∈ txs → transaction_bytes tx ≠ []) → sha256_collision.
Proof.
  intros Hne Hr Hr0 Hnd Hb. pose proof (hashes_txids txs) as Hl.
  destruct (merkle_root_climb _ _ Hne Hr) as [d Hd].
  destruct (climb_level _ _ _ Hd Hl Hnd) as [(_ & _ & Hin)|Hcol]; [|exact Hcol].
  destruct d as [|d].
  - apply climb_zero_inv in Hd as Heq. destruct txs as [|tx [|? ?]]; [done| |discriminate Heq].
    injection Heq as Heq. rewrite Hr0 in Heq. apply sha256_hex_inj in Heq as [Heq|Hcol]; [|exact Hcol].
    exfalso. apply (Hb tx); [by left|exact Heq].
  - specialize (Hin ltac:(lia)). apply Forall_cons in Hin as [(m & Hm & Heq) _].
    rewrite Hr0 in Heq. apply sha256_hex_inj in Heq as [Heq|Hcol]; [|exact Hcol].
    rewrite <- Heq in Hm. discriminate Hm.
Qed.

Lemma merkle_root_binding txs1 txs2 r :
  calculate_merkle_root txs1 = Ok r → calculate_merkle_root txs2 = Ok r →
  NoDup (map txid txs1) → NoDup (map txid txs2) →
  (∀ tx, tx ∈ txs1 ∨ tx ∈ txs2 → (64 < length (transaction_bytes tx))%nat) →
  map txid txs1 = map txid txs2 ∨ sha256_collision.
Proof.
  intros H1 H2 Hn1 Hn2 Hlen.
  assert (∀ tx, tx ∈ txs1 ∨ tx ∈ txs2 → transaction_bytes tx ≠ []) as Hne.
  { intros tx Htx%Hlen Heq. rewrite Heq in Htx. cbn in Htx. lia. }
  assert (∀ txs, calculate_merkle_root txs = Ok r → txs = [] → r = sha256_hex []) as He.
  { intros ? Hr ->. change (Ok (sha256_hex []) = Ok r) in Hr. congruence. }
  destruct (decide (txs1 = [])) as [E1|E1], (decide (txs2 = [])) as [E2|E2].
  - left. by subst.
  - right. eapply (merkle_root_not_empty txs2 r E2 H2 (He _ H1 E1) Hn2). auto.
  - right. eapply (merkle_root_not_empty txs1 r E1 H1 (He _ H2 E2) Hn1). auto.
  - destruct (merkle_root_climb _ _ E1 H1) as [d1 C1], (merkle_root_climb _ _ E2 H2) as [d2 C2].
    eapply climb_binding; [exact C1|exact C2|apply hashes_txids|apply hashes_txids|done|done| |
      by destruct txs1|by destruct txs2].
    intros h [(tx & -> & Htx)%list_elem_of_fmap|(tx & -> & Htx)%list_elem_of_fmap]; apply txid_inner_node.
    + specialize (Hlen tx (or_introl Htx)). lia.
    + specialize (Hlen tx (or_intror Htx)). lia.
Qed.

(** A transaction that pays something is longer than an inner node. *)
Lemma str_len_transaction_to_dict tx :
  outputs tx ≠ [] → 64 < Z.of_nat (str_len (dumps (transaction_to_dict tx true))).
Proof.
  intros Hne. unfold transaction_to_dict.
  match goal with |- context [JObj ?m] => pose proof (str_len_dumps_obj m) as Hlen end.
  cbn [sumZ_with fst snd] in Hlen.
  pose proof (str_len_str_of_int (tx_version tx)) as Hv.
  pose proof (str_len_str_of_int (tx_timestamp tx)) as Ht.
  assert (34 <= Z.of_nat (str_len (dumps (JList (map tx_output_to_dict (outputs tx)))))) as Ho.
  { destruct (outputs tx) as [|o os]; [done|]. cbn [dumps map]. rewrite !str_len_app.
    pose proof (str_len_comma_join (dumps (tx_output_to_dict o) :: map dumps (map tx_output_to_dict os))) as Hj.
    pose proof (str_len_dumps_obj [("amount", JInt (amount o)); ("recipient_address", JStr (recipient_address o))]) as Hd.
    assert (0 <= sumZ_with (λ s, Z.of_nat (str_len s)) (map dumps (map tx_output_to_dict os))) as Hnn
      by (apply sumZ_with_nonneg, Forall_forall; intros; lia).
    cbn [sumZ_with fst snd] in Hj, Hd. unfold tx_output_to_dict in *.
    pose proof (str_len_str_of_int (amount o)). pose proof (str_len_quote (recipient_address o)).
    change (dumps (JInt (amount o))) with (str_of_int (amount o)) in Hd.
    change (dumps (JStr (recipient_address o))) with (quote (recipient_address o)) in Hd.
    change (str_len "amount") with 6%nat in Hd. change (str_len "recipient_address") with 17%nat in Hd.
    lia. }
  change (str_len "version") with 7%nat in Hlen. change (str_len "inputs") with 6%nat in Hlen.
  change (str_len "outputs") with 7%nat in Hlen. change (str_len "timestamp") with 9%nat in Hlen.
  change (dumps (JInt (tx_version tx))) with (str_of_int (tx_version tx)) in Hlen.
  change (dumps (JInt (tx_timestamp tx))) with (str_of_int (tx_timestamp tx)) in Hlen.
  assert (2 <= Z.of_nat (str_len (dumps (JList (map (λ i, tx_input_to_dict i true) (inputs tx)))))) as Hi.
  { cbn [dumps]. rewrite !str_len_app. change (str_len "[") with 1%nat. change (str_len "]") with 1%nat. lia. }
  lia.
Qed.

Lemma length_transaction_bytes tx :
  outputs tx ≠ [] → (64 < length (transaction_bytes tx))%nat.
Proof.
  intros Hne%str_len_transaction_to_dict. unfold transaction_bytes, serialize.
  rewrite length_list_byte_of_string. lia.
Qed.
