(* ===== verification/Block.v ===== *)
(** * blockchain/: headers, blocks and the genesis block

    [block_header.py], [block.py] and [genesis.py].  A [Block] stores its
    Merkle root: building one computes it, changing the other fields does not. *)

From S2P Require Import Prelude Bytes Sha256 Json Crypto Transaction Merkle.

(** ** block_header.py *)

Record BlockHeader := MkHeader {
  header_version : Z;
  header_previous_block_hash : string;
  header_merkle_root : string;
  header_timestamp : Z;
  header_difficulty : Z;
  header_nonce : Z
}.

Definition header_to_dict (h : BlockHeader) : json :=
  JObj [("version", JInt (header_version h));
        ("previous_block_hash", JStr (header_previous_block_hash h));
        ("merkle_root", JStr (header_merkle_root h));
        ("timestamp", JInt (header_timestamp h));
        ("difficulty", JInt (header_difficulty h));
        ("nonce", JInt (header_nonce h))].

Definition header_to_bytes (h : BlockHeader) : bytes := serialize (header_to_dict h).
Definition header_hash (h : BlockHeader) : string := sha256_hex (header_to_bytes h).

(** ** block.py *)

Record Block := MkBlock {
  transactions : list Transaction;
  previous_block_hash : string;
  block_timestamp : Z;
  block_version : Z;
  block_difficulty : Z;
  block_nonce : Z;
  merkle_root : string
}.

#[export] Instance Block_eq_dec : EqDecision Block.
Proof. solve_decision. Defined.

Definition set_merkle_root (b : Block) (root : string) : Block :=
  MkBlock (transactions b) (previous_block_hash b) (block_timestamp b) (block_version b)
    (block_difficulty b) (block_nonce b) root.

Definition set_nonce (b : Block) (nonce : Z) : Block :=
  MkBlock (transactions b) (previous_block_hash b) (block_timestamp b) (block_version b)
    (block_difficulty b) nonce (merkle_root b).

Definition refresh_merkle_root (b : Block) : result Block :=
  root ← calculate_merkle_root (transactions b);
  Ok (set_merkle_root b root).

(** [Block(...)]: the dataclass constructor and its [__post_init__]. *)
Definition new_block (txs : list Transaction) (previous : string)
    (timestamp version difficulty nonce : Z) : result Block :=
  refresh_merkle_root (MkBlock txs previous timestamp version difficulty nonce EmptyString).

Definition block_header (b : Block) : BlockHeader :=
  MkHeader (block_version b) (previous_block_hash b) (merkle_root b) (block_timestamp b)
    (block_difficulty b) (block_nonce b).

Definition block_hash (b : Block) : string := header_hash (block_header b).

Definition block_to_dict (b : Block) : json :=
  JObj [("header", header_to_dict (block_header b));
        ("transactions", JList (map (λ tx, transaction_to_dict tx true) (transactions b)))].

(** ** genesis.py *)

(** [s * n] *)
Fixpoint str_repeat (s : string) (n : nat) : string :=
  match n with O => EmptyString | S n => s +:+ str_repeat s n end.

Definition GENESIS_PREVIOUS_HASH : string := str_repeat "0" 64.
Definition GENESIS_TIMESTAMP : Z := 1788652800.
Definition GENESIS_VERSION : Z := 1.
Definition GENESIS_DIFFICULTY : Z := 1.
Definition GENESIS_NONCE : Z := 0.
Definition GENESIS_HASH : string :=
  "14c5baf99007aba3bca5d4a32a5dd213" +:+ "4495a6bdaef5586f515d0f838b654e6a".

Definition create_genesis_block : result Block :=
  block ← new_block [] GENESIS_PREVIOUS_HASH GENESIS_TIMESTAMP GENESIS_VERSION
                    GENESIS_DIFFICULTY GENESIS_NONCE;
  _ ← raise_if (bool_decide (block_hash block ≠ GENESIS_HASH)) RuntimeError;
  Ok block.

Definition is_genesis_block (b : Block) : bool :=
  if bool_decide (transactions b ≠ []) then false else bool_decide (block_hash b = GENESIS_HASH).

(** ** Lemmas *)

Lemma is_hash_block_hash b : is_hash (block_hash b) = true.
Proof. apply is_hash_sha256_hex. Qed.

Lemma new_block_Ok txs prev ts v d n b :
  new_block txs prev ts v d n = Ok b ↔
    ∃ root, calculate_merkle_root txs = Ok root ∧ b = MkBlock txs prev ts v d n root.
Proof.
  unfold new_block, refresh_merkle_root. rewrite bind_Ok. cbn.
  split; [intros (root & Hr & [= <-])|intros (root & Hr & ->)]; exists root; auto.
Qed.

Lemma new_block_total txs prev ts v d n : ∃ b, new_block txs prev ts v d n = Ok b.
Proof.
  destruct (calculate_merkle_root_total txs) as (root & Hr & _).
  eexists. apply new_block_Ok. eauto.
Qed.

Definition genesis_block : Block := Eval vm_compute in
  match create_genesis_block with
  | Ok b => b
  | Raise _ => MkBlock [] EmptyString 0 0 0 0 EmptyString
  end.

(** The configured genesis hash is the hash of the configured block. *)
Lemma create_genesis_block_Ok : create_genesis_block = Ok genesis_block.
Proof. vm_compute. reflexivity. Qed.

Lemma genesis_block_hash : block_hash genesis_block = GENESIS_HASH.
Proof. vm_compute. reflexivity. Qed.

Lemma is_genesis_genesis : is_genesis_block genesis_block = true.
Proof. unfold is_genesis_block. rewrite genesis_block_hash. vm_compute. reflexivity. Qed.
