(* ===== verification/Consensus.v ===== *)
(** * consensus/: difficulty and proof of work

    [difficulty.py] and [pow.py].  The predicates of the code accept any
    object and reject everything but an [int] in range; at the type [int] the
    range is what is left. *)

From S2P Require Import Prelude Bytes Sha256 Json Crypto Transaction Merkle Block.

(** ** difficulty.py *)

Definition MAX_TARGET : Z := Z.shiftl 1 256.
Definition MAX_DIFFICULTY : Z := MAX_TARGET.
Definition MINING_DIFFICULTY : Z := 16.

Definition is_valid_difficulty (difficulty : Z) : bool :=
  (1 <=? difficulty) && (difficulty <=? MAX_DIFFICULTY).

Definition target_from_difficulty (difficulty : Z) : result Z :=
  _ ← raise_if (negb (is_valid_difficulty difficulty)) ValueError;
  Ok (MAX_TARGET / difficulty).

Definition expected_difficulty (previous_difficulty : Z) : result Z :=
  _ ← raise_if (negb (is_valid_difficulty previous_difficulty)) ValueError;
  Ok MINING_DIFFICULTY.

(** ** pow.py *)

Definition MAX_NONCE : Z := Z.shiftl 1 32 - 1.

Definition is_valid_nonce (nonce : Z) : bool := (0 <=? nonce) && (nonce <=? MAX_NONCE).

Definition hash_meets_target (hash : string) (difficulty : Z) : result bool :=
  if negb (is_hash hash) || negb (is_valid_difficulty difficulty) then Ok false
  else target ← target_from_difficulty difficulty; Ok (int_of_hex hash <? target).

Definition validate_proof_of_work (b : Block) : result bool :=
  if negb (is_valid_nonce (block_nonce b)) then Ok false
  else try_except (hash_meets_target (block_hash b) (block_difficulty b))
                  [AttributeError; TypeError; ValueError; OverflowError] false.

(** ** Lemmas *)

Lemma is_valid_difficulty_spec d : is_valid_difficulty d = true ↔ 1 <= d <= 2 ^ 256.
Proof.
  unfold is_valid_difficulty, MAX_DIFFICULTY, MAX_TARGET.
  rewrite Z.shiftl_mul_pow2 by lia. rewrite andb_true_iff, !Z.leb_le. lia.
Qed.

Lemma is_valid_nonce_spec n : is_valid_nonce n = true ↔ 0 <= n < 2 ^ 32.
Proof.
  unfold is_valid_nonce, MAX_NONCE. rewrite Z.shiftl_mul_pow2 by lia.
  rewrite andb_true_iff, !Z.leb_le. lia.
Qed.

Lemma target_below t d : 1 <= d → t < 2 ^ 256 / d ↔ (t + 1) * d <= 2 ^ 256.
Proof.
  intros Hd. split.
  - intros Ht. pose proof (Z.mul_div_le (2 ^ 256) d ltac:(lia)). nia.
  - intros Ht. enough (t + 1 <= 2 ^ 256 / d) by lia. apply Z.div_le_lower_bound; lia.
Qed.

(** The rule without its division: [hash + 1] times the difficulty fits in
    256 bits. *)
Lemma hash_meets_target_spec h d :
  hash_meets_target h d = Ok (bool_decide
    (is_hash h = true ∧ 1 <= d <= 2 ^ 256 ∧ (int_of_hex h + 1) * d <= 2 ^ 256)).
Proof.
  unfold hash_meets_target, target_from_difficulty.
  destruct (is_hash h) eqn:Hh; cbn [negb orb].
  2: { symmetry. apply f_equal, bool_decide_eq_false. by intros [? _]. }
  destruct (is_valid_difficulty d) eqn:Hd; cbn [negb raise_if mbind result_bind].
  - apply is_valid_difficulty_spec in Hd. f_equal.
    unfold MAX_TARGET. rewrite Z.shiftl_mul_pow2, Z.mul_1_l by lia.
    apply eq_true_iff_eq. rewrite bool_decide_eq_true, Z.ltb_lt, target_below by lia. tauto.
  - f_equal. symmetry. apply bool_decide_eq_false. intros (_ & Hv & _).
    apply is_valid_difficulty_spec in Hv. congruence.
Qed.

Lemma validate_proof_of_work_spec b :
  validate_proof_of_work b = Ok (bool_decide
    (0 <= block_nonce b < 2 ^ 32 ∧ 1 <= block_difficulty b <= 2 ^ 256 ∧
     (int_of_hex (block_hash b) + 1) * block_difficulty b <= 2 ^ 256)).
Proof.
  unfold validate_proof_of_work. destruct (is_valid_nonce (block_nonce b)) eqn:Hn; cbn [negb].
  - apply is_valid_nonce_spec in Hn. rewrite hash_meets_target_spec. cbn [try_except]. f_equal.
    apply bool_decide_ext. rewrite is_hash_block_hash. tauto.
  - f_equal. symmetry. apply bool_decide_eq_false. intros [Hv _].
    apply is_valid_nonce_spec in Hv. congruence.
Qed.

(** * mining/coinbase.py: the reward transaction of a block *)

Definition BLOCK_SUBSIDY : Z := 50.
Definition SUPPORTED_TRANSACTION_VERSION : Z := 1.

(** [type(value) is int and value >= 0] *)
Definition is_non_negative_integer (value : Z) : bool := 0 <=? value.

Definition create_coinbase_transaction (recipient : string) (timestamp fees : Z) : result Transaction :=
  _ ← raise_if (negb (validate_address recipient)) ValueError;
  _ ← raise_if (negb (is_non_negative_integer timestamp)) ValueError;
  _ ← raise_if (negb (is_non_negative_integer fees)) ValueError;
  Ok (MkTransaction [] [MkTxOutput (BLOCK_SUBSIDY + fees) recipient] timestamp
        SUPPORTED_TRANSACTION_VERSION).

Definition is_coinbase_transaction (tx : Transaction) : bool := bool_decide (inputs tx = []).

Definition validate_coinbase_structure (tx : Transaction) (timestamp : Z) : bool :=
  if negb (is_non_negative_integer timestamp) then false
  else if negb (is_coinbase_transaction tx) then false
  else if negb (tx_version tx =? SUPPORTED_TRANSACTION_VERSION) then false
  else if negb (tx_timestamp tx =? timestamp) then false
  else match outputs tx with
       | [output] => (0 <? amount output) && validate_address (recipient_address output)
       | _ => false
       end.

Definition validate_coinbase_transaction (tx : Transaction) (timestamp total_fees : Z) : bool :=
  is_non_negative_integer total_fees && validate_coinbase_structure tx timestamp
  && match outputs tx with
     | output :: _ => amount output <=? BLOCK_SUBSIDY + total_fees
     | [] => false
     end.

(** ** Lemmas *)

Lemma validate_coinbase_structure_spec tx ts :
  validate_coinbase_structure tx ts = true ↔
    0 <= ts ∧ ∃ reward address, 0 < reward ∧ validate_address address = true ∧
      tx = MkTransaction [] [MkTxOutput reward address] ts 1.
Proof.
  unfold validate_coinbase_structure, is_non_negative_integer, is_coinbase_transaction,
    SUPPORTED_TRANSACTION_VERSION. split.
  - destruct tx as [ins outs ts' v]. cbn [inputs outputs tx_version tx_timestamp].
    do 4 (case_match; [done|]). destruct outs as [|[a r] [|? ?]]; try done. intros Hv. to_prop.
    cbn in *. subst. eauto 10.
  - intros (Hts & reward & address & Hr & Ha & ->). cbn -[validate_address].
    rewrite (proj2 (Z.leb_le _ _)), Z.eqb_refl by done. cbn -[validate_address].
    by rewrite (proj2 (Z.ltb_lt _ _)), Ha.
Qed.

Lemma validate_coinbase_transaction_spec tx ts fees :
  validate_coinbase_transaction tx ts fees = true ↔
    0 <= ts ∧ 0 <= fees ∧ ∃ reward address,
      0 < reward <= 50 + fees ∧ validate_address address = true ∧
      tx = MkTransaction [] [MkTxOutput reward address] ts 1.
Proof.
  unfold validate_coinbase_transaction, is_non_negative_integer, BLOCK_SUBSIDY.
  rewrite !andb_true_iff, Z.leb_le, validate_coinbase_structure_spec. split.
  - intros [[Hf (Hts & reward & address & Hr & Ha & ->)] Hle]. cbn in Hle. to_prop. eauto 10.
  - intros (Hts & Hf & reward & address & Hr & Ha & ->). cbn. rewrite Z.leb_le.
    split_and!; [lia|lia|exists reward, address; split_and!; [lia|done|done]|lia].
Qed.

Lemma create_coinbase_transaction_Ok recipient ts fees tx :
  create_coinbase_transaction recipient ts fees = Ok tx ↔
    validate_address recipient = true ∧ 0 <= ts ∧ 0 <= fees ∧
    tx = MkTransaction [] [MkTxOutput (50 + fees) recipient] ts 1.
Proof.
  unfold create_coinbase_transaction, is_non_negative_integer, BLOCK_SUBSIDY,
    SUPPORTED_TRANSACTION_VERSION. split.
  - intros (? & H1%raise_if_Ok & (? & H2%raise_if_Ok & (? & H3%raise_if_Ok & [= <-])%bind_Ok)%bind_Ok)%bind_Ok.
    to_prop. done.
  - intros (Ha & Hts & Hf & ->). rewrite Ha, !(proj2 (Z.leb_le _ _)) by done. done.
Qed.
