(* ===== verification/ChainState.v ===== *)
(** * blockchain/chainstate.py: the ledger state and one block's effect on it

    [apply_block_transactions] works on a copy of the parent's state; the
    [try] block is [apply_block_body], and [block_effect] the declarative
    reading of a block that is accepted. *)

From S2P Require Import Prelude Bytes Sha256 Json Crypto Transaction Utxo TxValidation.
From S2P Require Import Processing Batch Merkle Block Consensus.

Record ChainState := MkState {
  utxo_set : UTXOSet;
  seen_txids : TxidSet
}.

Definition empty_state : ChainState := MkState ∅ ∅.

Definition BLOCK_ERRORS : list exn :=
  [AttributeError; IndexError; KeyError; TypeError; ValueError; OverflowError].

Section chainstate.
Context {E : EcdsaLib}.

Definition apply_block_body (b : Block) (st : ChainState) : result (option ChainState) :=
  match transactions b with
  | [] => Raise IndexError
  | coinbase :: regular =>
      if bool_decide (txid coinbase ∈ seen_txids st) then Ok None
      else
        batch ← apply_transactions regular (utxo_set st) (seen_txids st);
        if bool_decide (txid coinbase ∈ batch_seen_txids batch) then Ok None
        else if negb (validate_coinbase_transaction coinbase (block_timestamp b) (batch_total_fees batch))
        then Ok None
        else
          utxos ← add_transaction_outputs (batch_utxo_set batch) coinbase;
          Ok (Some (MkState utxos ({[txid coinbase]} ∪ batch_seen_txids batch)))
  end.

Definition apply_block_transactions (b : Block) (st : ChainState) : result (option ChainState) :=
  try_except (apply_block_body b st) BLOCK_ERRORS None.

(** ** The effect of an accepted block *)

(** [reward] is what the coinbase pays, [fees] what the regular transactions
    leave to it. *)
Inductive block_effect (b : Block) (st : ChainState) (reward fees : Z) : ChainState → Prop :=
  | block_effect_intro coinbase regular address u s :
      transactions b = coinbase :: regular →
      run regular (utxo_set st) (seen_txids st) fees u s →
      txid coinbase ∉ s →
      0 <= block_timestamp b → 0 < reward <= 50 + fees → validate_address address = true →
      coinbase = MkTransaction [] [MkTxOutput reward address] (block_timestamp b) 1 →
      created_by coinbase ##ₘ u →
      block_effect b st reward fees (MkState (created_by coinbase ∪ u) ({[txid coinbase]} ∪ s)).

Lemma apply_block_body_Ok b st st' :
  apply_block_body b st = Ok (Some st') ↔ ∃ reward fees, block_effect b st reward fees st'.
Proof.
  unfold apply_block_body. split.
  - destruct (transactions b) as [|cb regular] eqn:Htx; [done|]. case_match; [done|].
    intros (batch & Hb%apply_transactions_run & Hr)%bind_Ok.
    case_match eqn:Hseen; [done|]. to_prop.
    destruct (validate_coinbase_transaction _ _ _) eqn:Hcb; [cbn in Hr|done].
    apply validate_coinbase_transaction_spec in Hcb as (Hts & Hf & reward & address & Hrw & Ha & ->).
    apply bind_Ok in Hr as (u & [Hd ->]%add_transaction_outputs_Ok & [= <-]).
    exists reward, (batch_total_fees batch). by econstructor.
  - intros (reward & fees & [cb regular address u s Htx Hrun Hs Hts Hrw Ha Hcb Hd]).
    rewrite Htx. pose proof (run_seen _ _ _ _ _ _ Hrun) as Hseen.
    rewrite bool_decide_eq_false_2 by (intros Hin; apply Hs; rewrite Hseen; set_solver).
    rewrite (proj2 (apply_transactions_run regular _ _ (MkBatch u s fees)) Hrun).
    cbn [mbind result_bind batch_seen_txids batch_total_fees batch_utxo_set].
    rewrite bool_decide_eq_false_2 by done.
    assert (validate_coinbase_transaction cb (block_timestamp b) fees = true) as ->.
    { apply validate_coinbase_transaction_spec. pose proof (run_fees _ _ _ _ _ _ Hrun).
      split_and!; [done..|]. by exists reward, address. }
    cbn [negb].
    by rewrite (proj2 (add_transaction_outputs_Ok _ _ _) (conj Hd eq_refl)).
Qed.

Lemma apply_block_body_raises b st e : apply_block_body b st = Raise e → e ∈ BLOCK_ERRORS.
Proof.
  unfold apply_block_body, BLOCK_ERRORS.
  destruct (transactions b) as [|cb regular]; [intros [= <-]; set_solver|].
  case_match; [done|].
  intros [->%apply_loop_raises|(batch & _ & Hr)]%bind_Raise; [set_solver|].
  case_match; [done|]. case_match; [done|].
  apply bind_Raise in Hr as [Hr|(? & _ & Hr)]; [|done].
  unfold add_transaction_outputs, transaction_outputs in Hr.
  apply bind_Raise in Hr as [Hr|(? & _ & Hr)]; [|done].
  case_match; [injection Hr as <-; set_solver|done].
Qed.

(** Applying a block never raises, and accepts exactly the blocks with an
    effect. *)
Lemma apply_block_transactions_total b st : ∃ r, apply_block_transactions b st = Ok r.
Proof.
  unfold apply_block_transactions, try_except.
  destruct (apply_block_body b st) as [r|e] eqn:He; [by eexists|].
  rewrite bool_decide_eq_true_2 by (by eapply apply_block_body_raises). by eexists.
Qed.

Lemma apply_block_transactions_Ok b st st' :
  apply_block_transactions b st = Ok (Some st') ↔ ∃ reward fees, block_effect b st reward fees st'.
Proof.
  rewrite <- apply_block_body_Ok. unfold apply_block_transactions, try_except.
  destruct (apply_block_body b st); [done|]. by case_bool_decide.
Qed.

(** ** Value, identifiers and outpoints *)

(** A block adds its reward and burns its fees: at most the subsidy is new. *)
Lemma block_effect_total b st reward fees st' :
  block_effect b st reward fees st' →
  utxo_total (utxo_set st') = utxo_total (utxo_set st) - fees + reward.
Proof.
  intros [cb regular address u s Htx Hrun Hs Hts Hrw Ha Hcb Hd]. cbn.
  rewrite utxo_total_union, utxo_total_created_by by done. rewrite Hcb at 1. cbn.
  pose proof (run_total _ _ _ _ _ _ Hrun). lia.
Qed.

Lemma block_effect_seen b st reward fees st' :
  block_effect b st reward fees st' →
  seen_txids st' = list_to_set (txid <$> transactions b) ∪ seen_txids st.
Proof.
  intros [cb regular address u s Htx Hrun _ _ _ _ _ _]. cbn [seen_txids].
  rewrite Htx, (run_seen _ _ _ _ _ _ Hrun). cbn. by rewrite (assoc_L (∪)).
Qed.

Lemma block_effect_keys b st reward fees st' :
  block_effect b st reward fees st' → keys_recorded (utxo_set st) (seen_txids st) →
  keys_recorded (utxo_set st') (seen_txids st').
Proof.
  intros [cb regular address u s Htx Hrun _ _ _ _ _ _] Hk. cbn [utxo_set seen_txids].
  intros k Hin. apply elem_of_union. apply lookup_union_is_Some in Hin as [Hc|Hu].
  - left. apply elem_of_singleton. by apply created_by_txid.
  - right. by eapply run_keys_recorded.
Qed.

(** The identifiers of the block are new and distinct, and its outpoints are
    spent once. *)
Lemma block_effect_fresh b st reward fees st' :
  block_effect b st reward fees st' → keys_recorded (utxo_set st) (seen_txids st) →
  NoDup (txid <$> transactions b) ∧ (∀ tx, tx ∈ transactions b → txid tx ∉ seen_txids st) ∧
  NoDup (transactions b ≫= spent_outpoints).
Proof.
  intros [cb regular address u s Htx Hrun Hs _ _ _ Hcb _] Hk. rewrite Htx.
  pose proof (run_seen _ _ _ _ _ _ Hrun) as Hseen.
  assert (batch_ok (utxo_set st) (seen_txids st) regular) as [Hnd Hfr Hsp _ _]
    by (apply run_batch_ok; eauto).
  split_and!.
  - cbn. constructor; [|done]. intros Hin. apply Hs. rewrite Hseen.
    by apply elem_of_union_l, elem_of_list_to_set.
  - intros tx [->|Hin]%elem_of_cons; [|by apply Hfr].
    intros Hin. apply Hs. rewrite Hseen. by apply elem_of_union_r.
  - cbn [mbind list_bind]. rewrite Hcb at 1. done.
Qed.

(** Everything a block spends was created by a recorded transaction or by the
    block itself. *)
Lemma block_effect_spent b st reward fees st' k :
  block_effect b st reward fees st' → keys_recorded (utxo_set st) (seen_txids st) →
  k ∈ transactions b ≫= spent_outpoints →
  is_Some ((utxo_set st ∪ creates (transactions b)) !! k) ∧ k.1 ∈ seen_txids st'.
Proof.
  intros [cb regular address u s Htx Hrun Hs _ _ _ Hcb _] Hk Hin.
  rewrite Htx in *. cbn [mbind list_bind] in Hin. rewrite Hcb in Hin at 1.
  destruct (run_spent _ _ _ _ _ _ _ Hk Hrun Hin) as [Hv Hks]. split; [|by apply elem_of_union_r].
  rewrite lookup_union_is_Some in *. cbn [creates]. rewrite lookup_union_is_Some. tauto.
Qed.

(** The unspent outputs after a block, without running it. *)
Lemma block_effect_lookup b st reward fees st' k :
  block_effect b st reward fees st' → keys_recorded (utxo_set st) (seen_txids st) →
  utxo_set st' !! k =
    if decide (k ∈ transactions b ≫= spent_outpoints) then None
    else (utxo_set st ∪ creates (transactions b)) !! k.
Proof.
  intros [cb regular address u s Htx Hrun Hs _ _ _ Hcb Hd] Hk. cbn [utxo_set].
  pose proof (run_seen _ _ _ _ _ _ Hrun) as Hseen.
  assert (transactions b ≫= spent_outpoints = regular ≫= spent_outpoints) as ->.
  { rewrite Htx. cbn [mbind list_bind]. by rewrite Hcb at 1. }
  rewrite Htx. cbn [creates].
  assert (∀ v : UTXOSet, is_Some (created_by cb !! k) → keys_recorded v s → v !! k = None) as Hfresh.
  { intros v Hc Hv. destruct (v !! k) eqn:Hvk; [|done]. exfalso. apply Hs.
    rewrite <- (created_by_txid cb k) by done. apply Hv. by eexists. }
  pose proof (run_keys_recorded _ _ _ _ _ _ Hrun Hk) as Hku.
  pose proof (run_lookup _ _ _ _ _ _ k Hk Hrun) as Hl.
  destruct (created_by cb !! k) as [o|] eqn:Hc.
  - rewrite (lookup_union_Some_l _ _ _ _ Hc).
    rewrite decide_False.
    + rewrite lookup_union_r, (lookup_union_Some_l _ _ _ _ Hc); [done|].
      apply Hfresh; [done|]. intros k' Hk'. rewrite Hseen. by apply elem_of_union_r, Hk.
    + intros Hin. apply Hs. rewrite <- (created_by_txid cb k) by eauto.
      exact (proj2 (run_spent _ _ _ _ _ _ _ Hk Hrun Hin)).
  - rewrite lookup_union_r, Hl by done. case_decide; [done|].
    rewrite !lookup_union, Hc. by destruct (utxo_set st !! k), (creates regular !! k).
Qed.
End chainstate.

(** * blockchain/validation.py: validation of blocks and chains

    The checks of a block against its predecessor and the rebuild of the
    ledger from genesis.  [time.time()] is the argument [clock].  The facts are
    in [ChainFacts]. *)

Definition SUPPORTED_BLOCK_VERSION : Z := 1.
Definition MAX_FUTURE_BLOCK_TIME : Z := 2 * 60 * 60.

(** [type(value) is int and value >= minimum] *)
Definition is_integer (value minimum : Z) : bool := minimum <=? value.

Definition resolve_current_time (clock : Z) (current_time : option Z) : result Z :=
  match current_time with
  | None => Ok clock
  | Some t => _ ← raise_if (negb (is_integer t 0)) ValueError; Ok t
  end.

(** The [try] block of [validate_block_structure]: [None] for its two
    [return False] statements. *)
Definition expected_merkle_root (b : Block) : result (option string) :=
  let txids := map txid (transactions b) in
  if negb (forallb is_hash txids) then Ok None
  else if negb (all_distinct txids) then Ok None
  else root ← calculate_merkle_root_from_txids txids; Ok (Some root).

Definition validate_block_structure (b : Block) : result bool :=
  if negb (is_integer (block_version b) 1) || negb (block_version b =? SUPPORTED_BLOCK_VERSION)
  then Ok false
  else if negb (is_integer (block_timestamp b) 0) then Ok false
  else if negb (is_valid_difficulty (block_difficulty b)) then Ok false
  else if negb (is_valid_nonce (block_nonce b)) then Ok false
  else if negb (is_hash (previous_block_hash b)) then Ok false
  else if negb (is_hash (merkle_root b)) then Ok false
  else
    expected_root ← try_except (expected_merkle_root b)
                      [AttributeError; TypeError; ValueError; OverflowError] None;
    match expected_root with
    | None => Ok false
    | Some root => Ok (bool_decide (merkle_root b = root))
    end.

Definition validate_non_genesis_block_body (b : Block) : bool :=
  match transactions b with
  | [] => false
  | coinbase :: regular =>
      if negb (validate_coinbase_structure coinbase (block_timestamp b)) then false
      else forallb (λ tx, negb (bool_decide (inputs tx = []))) regular
  end.

Definition validate_block_header (b previous : Block) (clock : Z) (current_time : option Z) : result bool :=
  now ← resolve_current_time clock current_time;
  previous_ok ← validate_block_structure previous;
  if negb previous_ok then Ok false else
  block_ok ← validate_block_structure b;
  if negb block_ok then Ok false
  else if bool_decide (previous_block_hash b ≠ block_hash previous) then Ok false
  else if block_timestamp b <? block_timestamp previous then Ok false
  else if now + MAX_FUTURE_BLOCK_TIME <? block_timestamp b then Ok false
  else
    expected ← expected_difficulty (block_difficulty previous);
    if negb (block_difficulty b =? expected) then Ok false
    else if negb (validate_non_genesis_block_body b) then Ok false
    else validate_proof_of_work b.

Section validation.
Context {E : EcdsaLib}.

Definition validate_and_apply_block (b previous : Block) (st : ChainState) (clock : Z)
    (current_time : option Z) : result (option ChainState) :=
  header_ok ← validate_block_header b previous clock current_time;
  if negb header_ok then Ok None else apply_block_transactions b st.

Definition validate_block (b previous : Block) (st : ChainState) (clock : Z)
    (current_time : option Z) : result bool :=
  r ← validate_and_apply_block b previous st clock current_time;
  Ok (bool_decide (is_Some r)).

(** The [for] loop over the blocks after genesis. *)
Fixpoint rebuild_loop (previous : Block) (rest : list Block) (clock now : Z)
    (seen_hashes : gset string) (st : ChainState) : result (option ChainState) :=
  match rest with
  | [] => Ok (Some st)
  | b :: rest =>
      next_state ← validate_and_apply_block b previous st clock (Some now);
      match next_state with
      | None => Ok None
      | Some next =>
          if bool_decide (block_hash b ∈ seen_hashes) then Ok None
          else rebuild_loop b rest clock now ({[block_hash b]} ∪ seen_hashes) next
      end
  end.

Definition rebuild_chain_state (blocks : list Block) (clock : Z) (current_time : option Z) :
    result (option ChainState) :=
  now ← resolve_current_time clock current_time;
  match blocks with
  | [] => Ok None
  | genesis :: rest =>
      genesis_ok ← validate_block_structure genesis;
      if negb genesis_ok then Ok None
      else if negb (is_genesis_block genesis) then Ok None
      else rebuild_loop genesis rest clock now {[block_hash genesis]} empty_state
  end.

Definition validate_chain (blocks : list Block) (clock : Z) (current_time : option Z) : result bool :=
  r ← rebuild_chain_state blocks clock current_time;
  Ok (bool_decide (is_Some r)).
End validation.
