(* ===== verification/ChainFacts.v ===== *)
(** * Facts about block and chain validation

    The declarative reading of the checks ([well_formed_block],
    [valid_header]), and the relation [chain]: the block lists that
    [rebuild_chain_state] accepts, with the ledger state it returns.  The
    chain-wide invariants are proved by rule induction on [chain]. *)

From S2P Require Import Prelude Bytes Sha256 Json Crypto Transaction Utxo TxValidation.
From S2P Require Import Processing Batch Merkle Block Consensus ChainState.

(** ** Structure *)

Record well_formed_block (b : Block) : Prop := {
  wf_version : block_version b = 1;
  wf_timestamp : 0 <= block_timestamp b;
  wf_difficulty : 1 <= block_difficulty b <= 2 ^ 256;
  wf_nonce : 0 <= block_nonce b < 2 ^ 32;
  wf_previous : is_hash (previous_block_hash b) = true;
  wf_txids : NoDup (map txid (transactions b));
  wf_merkle : calculate_merkle_root (transactions b) = Ok (merkle_root b)
}.

Lemma expected_merkle_root_Ok b :
  ∃ root, calculate_merkle_root (transactions b) = Ok root ∧ is_hash root = true ∧
    expected_merkle_root b =
      Ok (if all_distinct (map txid (transactions b)) then Some root else None).
Proof.
  destruct (calculate_merkle_root_total (transactions b)) as (root & Hr & Hh).
  exists root. split_and!; [done..|]. unfold expected_merkle_root.
  assert (forallb is_hash (map txid (transactions b)) = true) as ->.
  { apply forallb_forall. intros h (tx & <- & _)%in_map_iff. apply is_hash_txid. }
  unfold calculate_merkle_root in Hr. cbn [negb]. by destruct (all_distinct _); cbn; rewrite ?Hr.
Qed.

Lemma validate_block_structure_total b : ∃ r, validate_block_structure b = Ok r.
Proof.
  unfold validate_block_structure. destruct (expected_merkle_root_Ok b) as (root & _ & _ & ->).
  repeat (case_match; [by eexists|]). cbn [try_except mbind result_bind].
  repeat case_match; by eexists.
Qed.

Lemma validate_block_structure_spec b : validate_block_structure b = Ok true ↔ well_formed_block b.
Proof.
  unfold validate_block_structure, is_integer, SUPPORTED_BLOCK_VERSION.
  destruct (expected_merkle_root_Ok b) as (root & Hroot & Hh & ->).
  cbn [try_except mbind result_bind]. split.
  - do 6 (case_match; [done|]). destruct (all_distinct _) eqn:Hd; [|done]. intros [= Heq]. to_prop.
    apply all_distinct_true in Hd.
    constructor; [done|done|by apply is_valid_difficulty_spec|by apply is_valid_nonce_spec|done|done|].
    by rewrite Heq.
  - intros []. apply all_distinct_true in wf_txids0. apply is_valid_difficulty_spec in wf_difficulty0.
    apply is_valid_nonce_spec in wf_nonce0. apply Z.leb_le in wf_timestamp0.
    rewrite wf_merkle0 in Hroot. injection Hroot as <-.
    rewrite wf_version0, wf_timestamp0, wf_difficulty0, wf_nonce0, wf_previous0, Hh, wf_txids0.
    cbn. f_equal. by apply bool_decide_eq_true.
Qed.

(** ** Header rules *)

Record valid_header (now : Z) (previous b : Block) : Prop := {
  header_parent_wf : well_formed_block previous;
  header_wf : well_formed_block b;
  header_link : previous_block_hash b = block_hash previous;
  header_monotone : block_timestamp previous <= block_timestamp b;
  header_not_future : block_timestamp b <= now + 7200;
  header_difficulty_rule : block_difficulty b = 16;
  header_coinbase : ∃ coinbase regular, transactions b = coinbase :: regular ∧
    validate_coinbase_structure coinbase (block_timestamp b) = true ∧
    Forall (λ tx, inputs tx ≠ []) regular;
  header_pow : (int_of_hex (block_hash b) + 1) * 16 <= 2 ^ 256
}.

Lemma validate_non_genesis_block_body_spec b :
  validate_non_genesis_block_body b = true ↔
    ∃ coinbase regular, transactions b = coinbase :: regular ∧
      validate_coinbase_structure coinbase (block_timestamp b) = true ∧
      Forall (λ tx, inputs tx ≠ []) regular.
Proof.
  unfold validate_non_genesis_block_body. destruct (transactions b) as [|cb regular].
  { split; [done|]. by intros (? & ? & ? & _). }
  destruct (validate_coinbase_structure cb (block_timestamp b)) eqn:Hcb; cbn [negb].
  - rewrite forallb_forall. split.
    + intros H. exists cb, regular. split_and!; [done..|]. apply Forall_forall.
      intros tx Hin%list_elem_of_In. specialize (H _ Hin). to_prop. done.
    + intros (? & ? & [= <- <-] & _ & Hf) tx Hin%list_elem_of_In.
      apply negb_true_iff, bool_decide_eq_false. by eapply Forall_forall in Hf.
  - split; [done|]. intros (? & ? & [= <- <-] & ? & _). congruence.
Qed.

Lemma validate_block_header_total b previous clock t now :
  resolve_current_time clock t = Ok now → ∃ r, validate_block_header b previous clock t = Ok r.
Proof.
  intros Hnow. unfold validate_block_header. rewrite Hnow. cbn [mbind result_bind].
  destruct (validate_block_structure previous) as [[]|] eqn:Hp; cbn [mbind result_bind negb];
    [|by eexists|by destruct (validate_block_structure_total previous); congruence].
  destruct (validate_block_structure_total b) as [[] ->]; cbn [mbind result_bind negb]; [|by eexists].
  repeat (case_match; [by eexists|]). unfold expected_difficulty.
  apply validate_block_structure_spec, wf_difficulty, is_valid_difficulty_spec in Hp as ->.
  cbn [mbind result_bind negb raise_if].
  repeat (case_match; [by eexists|]). rewrite validate_proof_of_work_spec. by eexists.
Qed.

Lemma validate_block_header_spec b previous clock t now :
  resolve_current_time clock t = Ok now →
  validate_block_header b previous clock t = Ok true ↔ valid_header now previous b.
Proof.
  intros Hnow. unfold validate_block_header. rewrite Hnow. cbn [mbind result_bind].
  unfold expected_difficulty, MAX_FUTURE_BLOCK_TIME, MINING_DIFFICULTY. split.
  - intros (pok & Hp & Hr)%bind_Ok. destruct pok; [|done]. cbn [negb] in Hr.
    apply bind_Ok in Hr as (bok & Hb & Hr). destruct bok; [|done]. cbn [negb] in Hr.
    case_bool_decide as Hlink; [done|].
    destruct (_ <? _) eqn:Hmono; [done|]. destruct (now + _ <? _) eqn:Hfut; [done|].
    apply bind_Ok in Hr as (x & (? & _ & <-%(inj Ok))%bind_Ok & Hr).
    destruct (_ =? _) eqn:Hdiff; [cbn [negb] in Hr|done].
    destruct (validate_non_genesis_block_body b) eqn:Hbody; [cbn [negb] in Hr|done].
    rewrite validate_proof_of_work_spec in Hr. apply (inj Ok) in Hr. to_prop.
    destruct Hr as (_ & _ & Hpow).
    constructor; [by apply validate_block_structure_spec|by apply validate_block_structure_spec|
      destruct (decide (previous_block_hash b = block_hash previous)); tauto|done|lia|done|by apply validate_non_genesis_block_body_spec|].
    congruence.
  - intros [Hp Hb Hlink Hmono Hfut Hdiff Hcb Hpow].
    rewrite (proj2 (validate_block_structure_spec _) Hp), (proj2 (validate_block_structure_spec _) Hb).
    cbn [mbind result_bind negb]. rewrite bool_decide_eq_false_2 by (by intros []).
    rewrite !(proj2 (Z.ltb_ge _ _)) by lia.
    rewrite (proj2 (is_valid_difficulty_spec _)) by apply Hp. cbn [raise_if mbind result_bind negb].
    rewrite Hdiff. cbn [Z.eqb Pos.eqb negb].
    rewrite (proj2 (validate_non_genesis_block_body_spec _) Hcb). cbn [negb].
    rewrite validate_proof_of_work_spec. f_equal. apply bool_decide_eq_true.
    rewrite Hdiff. split_and!; [apply Hb|apply Hb|lia|lia|done].
Qed.

Lemma resolve_current_time_idem clock t now :
  0 <= clock → resolve_current_time clock t = Ok now → resolve_current_time clock (Some now) = Ok now.
Proof.
  intros Hc Hr. cbn. unfold is_integer.
  assert (0 <= now) as Hn.
  { destruct t as [t|]; cbn in Hr; [|by injection Hr as <-].
    apply bind_Ok in Hr as (? & Ht%raise_if_Ok & [= <-]). unfold is_integer in Ht. by to_prop. }
  by rewrite (proj2 (Z.leb_le _ _)).
Qed.

Section chain.
Context {E : EcdsaLib}.

Lemma validate_and_apply_total b previous st clock t now :
  resolve_current_time clock t = Ok now → ∃ r, validate_and_apply_block b previous st clock t = Ok r.
Proof.
  intros Hnow. unfold validate_and_apply_block.
  destruct (validate_block_header_total b previous _ _ _ Hnow) as [[] ->]; cbn; [|by eexists].
  apply apply_block_transactions_total.
Qed.

Lemma validate_and_apply_Ok b previous st clock t now st' :
  resolve_current_time clock t = Ok now →
  validate_and_apply_block b previous st clock t = Ok (Some st') ↔
    valid_header now previous b ∧ ∃ reward fees, block_effect b st reward fees st'.
Proof.
  intros Hnow. rewrite <- (validate_block_header_spec _ _ _ _ _ Hnow), <- apply_block_transactions_Ok.
  unfold validate_and_apply_block.
  destruct (validate_block_header_total b previous _ _ _ Hnow) as [[] ->]; cbn; [tauto|].
  split; [done|]. by intros [? _].
Qed.

(** ** The accepted chains *)

Inductive chain (now : Z) : list Block → ChainState → Prop :=
  | chain_genesis g :
      well_formed_block g → is_genesis_block g = true → chain now [g] empty_state
  | chain_snoc bs previous b st reward fees st' :
      chain now (bs ++ [previous]) st → valid_header now previous b →
      block_effect b st reward fees st' →
      block_hash b ∉ map block_hash (bs ++ [previous]) →
      chain now ((bs ++ [previous]) ++ [b]) st'.

(** One more block at the end of a rebuild. *)
Definition rebuild_step (clock now : Z) (previous b : Block) (hashes : list string) (st : ChainState) :
    result (option ChainState) :=
  next_state ← validate_and_apply_block b previous st clock (Some now);
  match next_state with
  | None => Ok None
  | Some next => Ok (if bool_decide (block_hash b ∈ hashes) then None else Some next)
  end.

Lemma rebuild_loop_snoc clock now rest : ∀ previous b (seen : gset string) st hs,
  (∀ h, h ∈ seen ↔ h ∈ hs) →
  rebuild_loop previous (rest ++ [b]) clock now seen st =
    (r ← rebuild_loop previous rest clock now seen st;
     match r with
     | None => Ok None
     | Some st1 => rebuild_step clock now (default previous (last rest)) b (hs ++ map block_hash rest) st1
     end).
Proof.
  induction rest as [|b1 rest IH]; intros previous b seen st hs Hseen; cbn [rebuild_loop app].
  - cbn [mbind result_bind map last default]. unfold rebuild_step. rewrite app_nil_r.
    destruct (validate_and_apply_block _ _ _ _ _) as [[next|]|]; cbn; [|done..].
    rewrite (bool_decide_ext _ _ (Hseen (block_hash b))). by case_match.
  - destruct (validate_and_apply_block b1 previous st clock (Some now)) as [[next|]|];
      cbn [mbind result_bind]; [|done..].
    case_match; [done|]. rewrite (IH b1 b _ next (hs ++ [block_hash b1])).
    + destruct (rebuild_loop _ _ _ _ _ _) as [[st1|]|]; cbn [mbind result_bind]; [|done..].
      rewrite <- app_assoc. cbn [map app]. destruct rest as [|y rest]; [done|].
      change (last (b1 :: y :: rest)) with (last (y :: rest)).
      destruct (last (y :: rest)) eqn:Hlast; [done|by apply last_None in Hlast].
    + intros h. rewrite elem_of_union, elem_of_singleton, elem_of_app, Hseen, list_elem_of_singleton. tauto.
Qed.

Lemma rebuild_snoc l previous b clock t now :
  resolve_current_time clock t = Ok now →
  rebuild_chain_state ((l ++ [previous]) ++ [b]) clock t =
    (r ← rebuild_chain_state (l ++ [previous]) clock t;
     match r with
     | None => Ok None
     | Some st => rebuild_step clock now previous b (map block_hash (l ++ [previous])) st
     end).
Proof.
  intros Hnow. unfold rebuild_chain_state. rewrite Hnow. cbn [mbind result_bind].
  destruct l as [|g l]; cbn [app].
  - destruct (validate_block_structure previous) as [[]|]; cbn [mbind result_bind negb]; [|done..].
    destruct (is_genesis_block previous); cbn [negb mbind result_bind]; [|done].
    apply (rebuild_loop_snoc clock now [] previous b {[block_hash previous]} empty_state [block_hash previous]).
    intros h. by rewrite elem_of_singleton, list_elem_of_singleton.
  - destruct (validate_block_structure g) as [[]|]; cbn [mbind result_bind negb]; [|done..].
    destruct (is_genesis_block g); cbn [negb mbind result_bind]; [|done].
    rewrite (rebuild_loop_snoc clock now (l ++ [previous]) g b {[block_hash g]} empty_state [block_hash g]).
    + by rewrite last_snoc.
    + intros h. by rewrite elem_of_singleton, list_elem_of_singleton.
Qed.

(** [rebuild_chain_state] accepts exactly the chains, with their states. *)
Lemma rebuild_chain_state_Ok clock t now blocks st :
  0 <= clock → resolve_current_time clock t = Ok now →
  rebuild_chain_state blocks clock t = Ok (Some st) ↔ chain now blocks st.
Proof.
  intros Hclock Hnow. pose proof (resolve_current_time_idem _ _ _ Hclock Hnow) as Hnow'. split.
  - revert st. induction blocks as [|b blocks IH] using rev_ind; intros st.
    { unfold rebuild_chain_state. by rewrite Hnow. }
    destruct blocks as [|previous l _] using rev_ind.
    + clear IH. unfold rebuild_chain_state. rewrite Hnow. cbn [app mbind result_bind].
      destruct (validate_block_structure b) as [[]|] eqn:Hb; cbn; [|done..].
      destruct (is_genesis_block b) eqn:Hg; cbn; [|done]. intros [= <-].
      constructor; [by apply validate_block_structure_spec|done].
    + rewrite (rebuild_snoc _ _ _ _ _ _ Hnow). intros (r & Hr & Hst)%bind_Ok.
      destruct r as [st0|]; [|done]. unfold rebuild_step in Hst.
      apply bind_Ok in Hst as ([next|] & Hn & Hst); [|done]. case_bool_decide as Hin; [done|].
      injection Hst as ->.
      apply (validate_and_apply_Ok _ _ _ _ _ _ _ Hnow') in Hn as (Hh & reward & fees & He).
      econstructor; [by apply IH|done|done|done].
  - induction 1 as [g Hg Hgen|bs previous b st reward fees st' _ IH Hh He Hfresh].
    + unfold rebuild_chain_state. rewrite Hnow. cbn [mbind result_bind].
      rewrite (proj2 (validate_block_structure_spec g) Hg), Hgen. done.
    + rewrite (rebuild_snoc _ _ _ _ _ _ Hnow), IH. cbn [mbind result_bind]. unfold rebuild_step.
      assert (validate_and_apply_block b previous st clock (Some now) = Ok (Some st')) as ->.
      { apply (validate_and_apply_Ok _ _ _ _ _ _ _ Hnow'). eauto. }
      cbn [mbind result_bind]. by rewrite bool_decide_eq_false_2.
Qed.

Lemma rebuild_chain_state_total clock t now blocks :
  0 <= clock → resolve_current_time clock t = Ok now →
  ∃ r, rebuild_chain_state blocks clock t = Ok r.
Proof.
  intros Hclock Hnow. pose proof (resolve_current_time_idem _ _ _ Hclock Hnow) as Hnow'.
  unfold rebuild_chain_state. rewrite Hnow. cbn [mbind result_bind].
  destruct blocks as [|g rest]; [by eexists|].
  destruct (validate_block_structure_total g) as [[] ->]; cbn [mbind result_bind negb]; [|by eexists].
  destruct (is_genesis_block g); cbn [negb]; [|by eexists].
  generalize g, ({[block_hash g]} : gset string), empty_state.
  induction rest as [|b rest IH]; intros p seen st; cbn [rebuild_loop]; [by eexists|].
  destruct (validate_and_apply_total b p st _ _ _ Hnow') as [[next|] ->]; cbn [mbind result_bind];
    [|by eexists].
  case_match; [by eexists|apply IH].
Qed.

(** ** Invariants of a chain *)

Definition chain_txs (blocks : list Block) : list Transaction := blocks ≫= transactions.

Lemma chain_txs_snoc bs b : chain_txs (bs ++ [b]) = chain_txs bs ++ transactions b.
Proof. unfold chain_txs. rewrite bind_app. cbn. by rewrite app_nil_r. Qed.

Lemma genesis_no_transactions g : is_genesis_block g = true → transactions g = [].
Proof.
  unfold is_genesis_block. case_bool_decide as Htx; [done|]. intros _.
  destruct (transactions g); [done|]. by destruct Htx.
Qed.

Record ledger_inv (blocks : list Block) (st : ChainState) : Prop := {
  ledger_keys : keys_recorded (utxo_set st) (seen_txids st);
  ledger_seen : seen_txids st = list_to_set (txid <$> chain_txs blocks);
  ledger_txids : NoDup (txid <$> chain_txs blocks);
  ledger_spent : NoDup (chain_txs blocks ≫= spent_outpoints);
  ledger_spent_recorded : ∀ k, k ∈ chain_txs blocks ≫= spent_outpoints → k.1 ∈ seen_txids st;
  ledger_lookup : ∀ k, utxo_set st !! k =
    if decide (k ∈ chain_txs blocks ≫= spent_outpoints) then None else creates (chain_txs blocks) !! k
}.

Lemma ledger_inv_genesis g : is_genesis_block g = true → ledger_inv [g] empty_state.
Proof.
  intros Hg%genesis_no_transactions. assert (chain_txs [g] = []) as Htx
    by (unfold chain_txs; cbn; by rewrite Hg).
  constructor; rewrite ?Htx; cbn.
  - intros k Hk. rewrite lookup_empty in Hk. by destruct Hk.
  - done.
  - constructor.
  - constructor.
  - by intros k ?%elem_of_nil.
  - intros k. by rewrite lookup_empty, decide_False by apply not_elem_of_nil.
Qed.

(** An outpoint spent before is neither unspent nor created again. *)
Lemma ledger_spent_gone blocks st b reward fees st' k :
  ledger_inv blocks st → block_effect b st reward fees st' →
  k ∈ chain_txs blocks ≫= spent_outpoints → (utxo_set st ∪ creates (transactions b)) !! k = None.
Proof.
  intros [Hk _ _ _ Hrec Hl] He Hin. apply lookup_union_None. split; [by rewrite Hl, decide_True|].
  destruct (creates (transactions b) !! k) as [o|] eqn:Hc; [|done]. exfalso.
  apply creates_Some in Hc as (t & Ht & Hc).
  destruct (block_effect_fresh _ _ _ _ _ He Hk) as (_ & Hfr & _). apply (Hfr t Ht).
  rewrite <- (created_by_txid t k) by eauto. by apply Hrec.
Qed.

Lemma ledger_inv_snoc blocks st b reward fees st' :
  ledger_inv blocks st → block_effect b st reward fees st' → ledger_inv (blocks ++ [b]) st'.
Proof.
  intros Hinv He. pose proof (λ k, ledger_spent_gone _ _ _ _ _ _ k Hinv He) as Hgone.
  destruct Hinv as [Hk Hseen Hnd Hsp Hrec Hl].
  pose proof (block_effect_seen _ _ _ _ _ He) as Hseen'.
  destruct (block_effect_fresh _ _ _ _ _ He Hk) as (Hndb & Hfr & Hspb).
  constructor; rewrite ?chain_txs_snoc, ?fmap_app, ?bind_app.
  - by eapply block_effect_keys.
  - rewrite Hseen', Hseen, list_to_set_app_L. apply (comm_L (∪)).
  - apply NoDup_app. split_and!; [done| |done].
    intros h Hh (t & -> & Ht)%list_elem_of_fmap. apply (Hfr t Ht). rewrite Hseen.
    by apply elem_of_list_to_set.
  - apply NoDup_app. split_and!; [done| |done]. intros k Hin Hin'.
    destruct (block_effect_spent _ _ _ _ _ _ He Hk Hin') as [[o Ho] _].
    rewrite Hgone in Ho; done.
  - intros k [Hin|Hin]%elem_of_app.
    + rewrite Hseen'. by apply elem_of_union_r, Hrec.
    + by eapply block_effect_spent.
  - intros k. rewrite (block_effect_lookup _ _ _ _ _ _ He Hk), creates_app.
    destruct (decide (k ∈ transactions b ≫= spent_outpoints)) as [Hin|Hin].
    { by rewrite decide_True by (by apply elem_of_app; right). }
    destruct (decide (k ∈ chain_txs blocks ≫= spent_outpoints)) as [Hin'|Hin'].
    { rewrite decide_True by (by apply elem_of_app; left). by apply Hgone. }
    rewrite decide_False by (by intros [?|?]%elem_of_app).
    rewrite !lookup_union, Hl, decide_False by done. done.
Qed.

Lemma chain_ledger now blocks st : chain now blocks st → ledger_inv blocks st.
Proof. induction 1; [by apply ledger_inv_genesis|by eapply ledger_inv_snoc]. Qed.

Lemma chain_tip_wf now l t st : chain now (l ++ [t]) st → well_formed_block t.
Proof.
  intros Hc. inversion Hc as [g Hg _ Heq|bs p b st0 reward fees ? _ Hh _ _ Heq]; subst.
  - destruct l as [|? [|? ?]]; by simplify_list_eq.
  - apply app_inj_tail in Heq as [_ ->]. apply Hh.
Qed.

(** At most the subsidy is issued per block. *)
Lemma chain_supply now blocks st :
  chain now blocks st → utxo_total (utxo_set st) <= 50 * (Z.of_nat (length blocks) - 1).
Proof.
  induction 1 as [g _ _|bs previous b st reward fees st' _ IH _ He _].
  - cbn. rewrite utxo_total_empty. lia.
  - rewrite (block_effect_total _ _ _ _ _ He).
    assert (reward <= 50 + fees) by (by destruct He; lia).
    rewrite !length_app in *. cbn [length] in *. lia.
Qed.
End chain.
