(* ===== verification/Mining.v ===== *)
(** * mining/: candidate blocks and the nonce search

    [block_template.py] and [miner.py].  The stop event and the progress
    callback of the search are modelled by what the loop sees of them: whether
    the event is set when a nonce is about to be tried, and the reports made. *)

From S2P Require Import Prelude Bytes Sha256 Json Crypto Transaction Utxo TxValidation.
From S2P Require Import Processing Merkle Block Consensus.

(** ** block_template.py *)

Definition resolve_timestamp (clock : Z) (timestamp : option Z) : result Z :=
  match timestamp with
  | None => Ok clock
  | Some t => _ ← raise_if (t <? 0) ValueError; Ok t
  end.

Section template.
Context {E : EcdsaLib}.

Definition create_block_template (previous : Block) (miner_address : string)
    (txs : option (list Transaction)) (clock : Z) (timestamp : option Z)
    (utxos : option UTXOSet) (seen : option TxidSet) : result Block :=
  _ ← raise_if (block_timestamp previous <? 0) ValueError;
  resolved ← resolve_timestamp clock timestamp;
  let timestamp' :=
    match timestamp with
    | None => Z.max resolved (block_timestamp previous + 1)
    | Some _ => resolved
    end in
  _ ← raise_if (timestamp' <? block_timestamp previous) ValueError;
  let regular := default [] txs in
  _ ← raise_if (existsb (λ tx, bool_decide (inputs tx = [])) regular) ValueError;
  _ ← raise_if (xorb (bool_decide (utxos = None)) (bool_decide (seen = None))) ValueError;
  _ ← raise_if (negb (bool_decide (regular = [])) && bool_decide (utxos = None)) ValueError;
  batch ← match utxos with
          | None => Ok None
          | Some u => Some <$> apply_transactions regular u (default ∅ seen)
          end;
  coinbase ← create_coinbase_transaction miner_address timestamp' (default 0 (batch_total_fees <$> batch));
  _ ← raise_if (match batch with
                | None => false
                | Some r => bool_decide (txid coinbase ∈ batch_seen_txids r)
                end) ValueError;
  difficulty ← expected_difficulty (block_difficulty previous);
  new_block (coinbase :: regular) (block_hash previous) timestamp' 1 difficulty 0.

End template.

(** ** miner.py *)

Record Progress := MkProgress {
  progress_nonce : Z;
  progress_hash : string;
  hashes_tried : Z
}.

(** The [for] loop from [nonce] on, [count] nonces to go.  [stop n] is
    [stop_event.is_set()] when [n] is about to be tried; [interval] is [None]
    when there is no callback.  The reports are returned in order. *)
Fixpoint mine_loop (count : nat) (candidate : Block) (start_nonce nonce : Z)
    (interval : option Z) (stop : Z → bool) : result (option Block * list Progress) :=
  match count with
  | O => Ok (None, [])
  | S count =>
      if stop nonce then Ok (None, [])
      else
        let candidate := set_nonce candidate nonce in
        let report := MkProgress nonce (block_hash candidate) (nonce - start_nonce + 1) in
        reported ← match interval with
                   | None => Ok []
                   | Some i =>
                       _ ← raise_if (i =? 0) ZeroDivisionError;
                       Ok (if (nonce - start_nonce) mod i =? 0 then [report] else [])
                   end;
        found ← validate_proof_of_work candidate;
        if (found : bool) then
          Ok (Some candidate, reported ++ (if bool_decide (interval = None) then [] else [report]))
        else
          r ← mine_loop count candidate start_nonce (nonce + 1) interval stop;
          Ok (r.1, reported ++ r.2)
  end.

Definition mine_block_with_progress (b : Block) (start_nonce max_nonce : Z)
    (interval : option Z) (stop : Z → bool) : result (option Block * list Progress) :=
  _ ← raise_if (negb (is_valid_difficulty (block_difficulty b))) ValueError;
  _ ← raise_if (negb (is_valid_nonce start_nonce) || negb (is_valid_nonce max_nonce)) ValueError;
  _ ← raise_if (max_nonce <? start_nonce) ValueError;
  mine_loop (Z.to_nat (max_nonce + 1 - start_nonce)) b start_nonce start_nonce interval stop.

Definition mine_block (b : Block) (start_nonce max_nonce : Z) : result (option Block) :=
  fst <$> mine_block_with_progress b start_nonce max_nonce None (λ _, false).

(** ** Facts about the search *)

(** The nonce [n] solves the block. *)
Definition solves (b : Block) (n : Z) : Prop := validate_proof_of_work (set_nonce b n) = Ok true.

Lemma set_nonce_twice b n m : set_nonce (set_nonce b n) m = set_nonce b m.
Proof. done. Qed.

Lemma validate_proof_of_work_bool b : ∃ r, validate_proof_of_work b = Ok r.
Proof. rewrite validate_proof_of_work_spec. by eexists. Qed.

Lemma mine_loop_candidate count : ∀ b m s n i stop,
  mine_loop count (set_nonce b m) s n i stop = mine_loop count b s n i stop.
Proof. by destruct count. Qed.

(** The outcome of the search: the first solution, or none before the stop. *)
Lemma mine_loop_spec count : ∀ b s n i stop r ps,
  mine_loop count b s n i stop = Ok (r, ps) →
  match r with
  | Some b' => ∃ k, 0 <= k < Z.of_nat count ∧ b' = set_nonce b (n + k) ∧ solves b (n + k) ∧
      (∀ j, 0 <= j < k → ¬ solves b (n + j)) ∧ (∀ j, 0 <= j <= k → stop (n + j) = false)
  | None => ∃ k, 0 <= k <= Z.of_nat count ∧ (∀ j, 0 <= j < k → ¬ solves b (n + j)) ∧
      (k = Z.of_nat count ∨ stop (n + k) = true)
  end.
Proof.
  induction count as [|count IH]; intros b s n i stop r ps; cbn [mine_loop].
  { intros [= <- <-]. exists 0. split_and!; [lia|lia|intros; lia|by left]. }
  destruct (stop n) eqn:Hstop.
  { intros [= <- <-]. exists 0. split_and!; [lia|lia|intros; lia|right; by rewrite Z.add_0_r]. }
  intros (reported & _ & (found & Hf & Hr)%bind_Ok)%bind_Ok. destruct found.
  - injection Hr as <- _. exists 0. rewrite Z.add_0_r. split_and!; [lia|lia|done|done|intros; lia|].
    intros j Hj. by replace (n + j) with n by lia.
  - apply bind_Ok in Hr as ([r' ps'] & Hr & [= <- _]). rewrite mine_loop_candidate in Hr.
    assert (¬ solves b n) as Hn by (unfold solves; rewrite Hf; by intros [= ?]).
    apply IH in Hr. destruct r' as [b'|].
    + destruct Hr as (k & Hk & -> & Hs & Hno & Hst). exists (k + 1).
      rewrite <- !Z.add_assoc, !(Z.add_comm 1) in *. split_and!; [lia|lia|done|done| |].
      * intros j Hj. destruct (decide (j = 0)) as [->|]; [by rewrite Z.add_0_r|].
        replace (n + j) with (n + 1 + (j - 1)) by lia. apply Hno. lia.
      * intros j Hj. destruct (decide (j = 0)) as [->|]; [by rewrite Z.add_0_r|].
        replace (n + j) with (n + 1 + (j - 1)) by lia. apply Hst. lia.
    + destruct Hr as (k & Hk & Hno & Hend). exists (k + 1). split_and!; [lia|lia| |].
      * intros j Hj. destruct (decide (j = 0)) as [->|]; [by rewrite Z.add_0_r|].
        replace (n + j) with (n + 1 + (j - 1)) by lia. apply Hno. lia.
      * destruct Hend as [->|Hend]; [left; lia|right]. by replace (n + (k + 1)) with (n + 1 + k) by lia.
Qed.

Lemma mine_block_solves b start_nonce max_nonce b' :
  mine_block b start_nonce max_nonce = Ok (Some b') →
  ∃ n, 0 <= n < 2 ^ 32 ∧ b' = set_nonce b n ∧ solves b n.
Proof.
  unfold mine_block, mine_block_with_progress. intros ([r ps] & Hm & Hr)%fmap_Ok.
  cbn in Hr. subst r. apply bind_Ok in Hm as (? & _ & Hm). apply bind_Ok in Hm as (? & Hv%raise_if_Ok & Hm).
  apply bind_Ok in Hm as (? & Hle%raise_if_Ok & Hm).
  apply orb_false_iff in Hv as [Hs%negb_false_iff Hx%negb_false_iff].
  apply is_valid_nonce_spec in Hs, Hx. apply Z.ltb_ge in Hle.
  apply mine_loop_spec in Hm as (k & Hk & Heq & Hsol & _).
  exists (start_nonce + k). split_and!; [lia|lia|done|done].
Qed.

Lemma mine_loop_total count : ∀ b s n i stop,
  i ≠ Some 0 → ∃ r, mine_loop count b s n i stop = Ok r.
Proof.
  induction count as [|count IH]; intros b s n i stop Hi; cbn [mine_loop]; [by eexists|].
  destruct (stop n); [by eexists|].
  assert (∃ rep, match i with
    | None => Ok []
    | Some j => _ ← raise_if (j =? 0) ZeroDivisionError;
        Ok (if (n - s) mod j =? 0
            then [MkProgress n (block_hash (set_nonce b n)) (n - s + 1)] else [])
    end = Ok rep) as [rep ->].
  { destruct i as [j|]; [|by eexists]. rewrite (proj2 (Z.eqb_neq j 0)) by congruence. by eexists. }
  cbn [mbind result_bind].
  destruct (validate_proof_of_work_bool (set_nonce b n)) as [[] ->]; cbn [mbind result_bind]; [by eexists|].
  destruct (IH (set_nonce b n) s (n + 1) i stop Hi) as [r ->]. by eexists.
Qed.

(** The reports: the nonces tried at multiples of the interval, and the
    solution; their counts are positions, so they increase. *)
Lemma mine_loop_reports count : ∀ b s n i stop r ps,
  mine_loop count b s n i stop = Ok (r, ps) →
  Forall (λ p, n <= progress_nonce p ∧ hashes_tried p = progress_nonce p - s + 1 ∧
               progress_hash p = block_hash (set_nonce b (progress_nonce p))) ps ∧
  (i = None → ps = []).
Proof.
  induction count as [|count IH]; intros b s n i stop r ps; cbn [mine_loop].
  { intros [= <- <-]. split; [constructor|done]. }
  destruct (stop n); [intros [= <- <-]; split; [constructor|done]|].
  intros (reported & Hrep & (found & Hf & Hr)%bind_Ok)%bind_Ok.
  assert (Forall (λ p, n <= progress_nonce p ∧ hashes_tried p = progress_nonce p - s + 1 ∧
            progress_hash p = block_hash (set_nonce b (progress_nonce p))) reported ∧
          (i = None → reported = [])) as [Hfor Hnone].
  { destruct i as [j|]; [|injection Hrep as <-; split; [constructor|done]].
    apply bind_Ok in Hrep as (? & _ & [= <-]). split; [|done].
    destruct (_ =? 0); [|constructor].
    apply Forall_singleton. cbn. split_and!; [lia|done|done]. }
  destruct found.
  - injection Hr as <- <-. split.
    + apply Forall_app. split; [done|]. case_bool_decide; [constructor|].
      apply Forall_singleton. cbn. split_and!; [lia|done|done].
    + intros ->. by rewrite Hnone.
  - apply bind_Ok in Hr as ([r' ps'] & Hr & [= <- <-]). rewrite mine_loop_candidate in Hr.
    destruct (IH _ _ _ _ _ _ _ Hr) as [Hps Hn']. split.
    + apply Forall_app. split; [done|]. eapply Forall_impl; [exact Hps|]. cbn. intros p (? & ? & ?).
      split_and!; [lia|done|done].
    + intros Hi. by rewrite Hnone, Hn'.
Qed.
