(* ===== verification/Blockchain.v ===== *)
(** * blockchain/blockchain.py: the node's chain, ledger and pool

    The object's fields are the record [Blockchain]; a method that changes them
    maps a [Blockchain] to its result and the next one, because an exception
    can leave a changed object behind.  The persistent store is the interface
    [ChainStore]. *)

From S2P Require Import Prelude Bytes Sha256 Json Crypto Transaction Utxo TxValidation.
From S2P Require Import Processing Merkle Block Consensus ChainState.
From S2P Require Import Mempool Mining.

(** ** The store, as the chain uses it *)

Record StoredChain := MkStored {
  stored_blocks : list Block;
  stored_state : ChainState;
  stored_mempool : Mempool;
  stored_revision : Z
}.

(** What the caller believes to be on disk. *)
Record Expected := MkExpected {
  expected_height : Z;
  expected_tip_hash : string;
  expected_revision : Z
}.

Class ChainStore := {
  Store : Type;
  load_or_initialize : Store → Z → option Z → option Z → option Z → result StoredChain * Store;
  append_block : Store → Block → ChainState → Mempool → Expected → result Z * Store;
  replace_mempool : Store → Mempool → Expected → result Z * Store;
  close_store : Store → result unit * Store
}.

Section blockchain.
Context {E : EcdsaLib} {CS : ChainStore}.

Record Blockchain := MkBlockchain {
  store : option Store;
  closed : bool;
  storage_failed : bool;
  revision : Z;
  blocks : list Block;
  state : ChainState;
  mempool : Mempool
}.

(** A method: its result or exception, and the object it leaves. *)
Definition method (A : Type) : Type := Blockchain → result A * Blockchain.

(** ** Construction *)

(** [Blockchain()] in memory: a chain of the genesis block. *)
Definition new_blockchain (current_time max_tx max_b : option Z) : result Blockchain :=
  _ ← raise_if (match current_time with None => false | Some t => t <? 0 end) ValueError;
  genesis ← create_genesis_block;
  pool ← new_mempool (Some ∅) (Some ∅) (default DEFAULT_MEMPOOL_MAX_TRANSACTIONS max_tx)
                     (default DEFAULT_MEMPOOL_MAX_BYTES max_b);
  Ok (MkBlockchain None false false 0 [genesis] empty_state pool).

(** [Blockchain(db_path=...)] once the store object exists. *)
Definition open_blockchain (s : Store) (clock : Z) (current_time max_tx max_b : option Z) :
    result Blockchain * Store :=
  match new_blockchain current_time max_tx max_b with
  | Raise e => (Raise e, s)
  | Ok _ =>
      match load_or_initialize s clock current_time max_tx max_b with
      | (Raise e, s) => (Raise e, (close_store s).2)
      | (Ok r, s) =>
          (Ok (MkBlockchain (Some s) false false (stored_revision r) (stored_blocks r)
                 (stored_state r) (stored_mempool r)), s)
      end
  end.

Definition ensure_usable (bc : Blockchain) : result unit :=
  _ ← raise_if (closed bc) StorageClosedError;
  raise_if (storage_failed bc) StorageError.

Definition close : method unit := λ bc,
  match store bc with
  | Some s =>
      if closed bc then (Ok tt, bc)
      else
        let (r, s) := close_store s in
        (r, MkBlockchain (Some s) true (storage_failed bc) (revision bc) (blocks bc)
              (state bc) (mempool bc))
  | None => (Ok tt, bc)
  end.

(** ** Committing a transition *)

Definition publish (s : option Store) (rev : Z) (bs : list Block) (st : ChainState) (mp : Mempool)
    (bc : Blockchain) : Blockchain :=
  MkBlockchain s (closed bc) (storage_failed bc) rev bs st mp.

(** The [except] clause: the object stops being usable and the error is
    reported as a storage error. *)
Definition storage_failure {A} (s : Store) (e : exn) (bc : Blockchain) : result A * Blockchain :=
  (Raise (if is_storage_error e then e else StorageCommitUncertainError),
   MkBlockchain (Some s) (closed bc) true (revision bc) (blocks bc) (state bc) (mempool bc)).

Definition tip (bc : Blockchain) : option Block := last (blocks bc).

Definition commit (bs : list Block) (st : ChainState) (mp : Mempool) (b : option Block) : method unit :=
  λ bc,
  match store bc with
  | None => (Ok tt, publish None (revision bc) bs st mp bc)
  | Some s =>
      match tip bc with
      | None => storage_failure s IndexError bc
      | Some t =>
          let expected := MkExpected (Z.of_nat (length (blocks bc)) - 1) (block_hash t) (revision bc) in
          let (r, s) := match b with
                        | None => replace_mempool s mp expected
                        | Some b => append_block s b st mp expected
                        end in
          match r with
          | Raise e => storage_failure s e bc
          | Ok rev => (Ok tt, publish (Some s) rev bs st mp bc)
          end
      end
  end.

(** [self._mempool = mp], for the pool the object owns. *)
Definition set_mempool (mp : Mempool) (bc : Blockchain) : Blockchain :=
  publish (store bc) (revision bc) (blocks bc) (state bc) mp bc.

(** ** Pending transactions *)

(** A change of the pool: in place without a store, on a copy and committed
    with one. *)
Definition pool_change (change : Mempool → result (bool * Mempool)) : method bool := λ bc,
  match ensure_usable bc with
  | Raise e => (Raise e, bc)
  | Ok _ =>
      match store bc with
      | None =>
          match change (mempool bc) with
          | Raise e => (Raise e, bc)
          | Ok (verdict, mp) => (Ok verdict, set_mempool mp bc)
          end
      | Some _ =>
          match (next ← mempool_copy (mempool bc); change next) with
          | Raise e => (Raise e, bc)
          | Ok (false, _) => (Ok false, bc)
          | Ok (true, mp) =>
              match commit (blocks bc) (state bc) mp None bc with
              | (Raise e, bc) => (Raise e, bc)
              | (Ok _, bc) => (Ok true, bc)
              end
          end
      end
  end.

Definition submit_transaction (tx : Transaction) : method bool :=
  pool_change (λ mp, add_transaction mp tx).

Definition remove_pending_transaction (tid : string) : method bool :=
  pool_change (λ mp, remove_transaction mp tid).

(** ** Blocks *)

Definition add_block (b : Block) (clock : Z) (current_time : option Z) : method bool := λ bc,
  match (_ ← ensure_usable bc;
         t ← match tip bc with None => Raise IndexError | Some t => Ok t end;
         validate_and_apply_block b t (state bc) clock current_time) with
  | Raise e => (Raise e, bc)
  | Ok None => (Ok false, bc)
  | Ok (Some next_state) =>
      if existsb (λ existing, bool_decide (block_hash existing = block_hash b)) (blocks bc)
      then (Ok false, bc)
      else
        match revalidated (mempool bc) (utxo_set next_state) (seen_txids next_state) with
        | Raise e => (Raise e, bc)
        | Ok next_mempool =>
            match commit (blocks bc ++ [b]) next_state next_mempool (Some b) bc with
            | (Raise e, bc) => (Raise e, bc)
            | (Ok _, bc) => (Ok true, bc)
            end
        end
  end.

Definition chain_block_template (bc : Blockchain) (miner_address : string)
    (txs : option (list Transaction)) (clock : Z) (timestamp : option Z) : result Block :=
  _ ← ensure_usable bc;
  t ← match tip bc with None => Raise IndexError | Some t => Ok t end;
  create_block_template t miner_address txs clock timestamp
    (Some (utxo_set (state bc))) (Some (seen_txids (state bc))).

Definition create_mempool_block_template (bc : Blockchain) (miner_address : string) (clock : Z)
    (timestamp : option Z) (max_tx max_b : Z) : result Block :=
  _ ← ensure_usable bc;
  selected ← select_transactions (mempool bc) max_tx max_b;
  chain_block_template bc miner_address (Some selected) clock timestamp.

Definition validate_blockchain (bc : Blockchain) (clock : Z) (current_time : option Z) : result bool :=
  _ ← ensure_usable bc;
  rebuilt ← rebuild_chain_state (blocks bc) clock current_time;
  Ok match rebuilt with
     | None => false
     | Some st => bool_decide (seen_txids st = seen_txids (state bc))
                  && bool_decide (utxo_set st = utxo_set (state bc))
     end.

(** ** Queries *)

Definition blockchain_len (bc : Blockchain) : result Z :=
  _ ← ensure_usable bc; Ok (Z.of_nat (length (blocks bc))).

Definition height (bc : Blockchain) : result Z :=
  _ ← ensure_usable bc; Ok (Z.of_nat (length (blocks bc)) - 1).

Definition chain_snapshot (bc : Blockchain) : result (list Block) :=
  _ ← ensure_usable bc; Ok (blocks bc).

Definition utxo_snapshot (bc : Blockchain) : result UTXOSet :=
  _ ← ensure_usable bc; Ok (utxo_set (state bc)).

Definition mempool_snapshot (bc : Blockchain) : result Mempool :=
  _ ← ensure_usable bc; mempool_copy (mempool bc).

Definition get_mempool_stats (bc : Blockchain) : result (Z * Z) :=
  _ ← ensure_usable bc; Ok (mempool_len (mempool bc), total_bytes (mempool bc)).

Definition chain_get_balance (bc : Blockchain) (address : string) : result Z :=
  _ ← ensure_usable bc; Ok (get_balance (utxo_set (state bc)) address).

Definition chain_get_utxos_for_address (bc : Blockchain) (address : string) : result UTXOSet :=
  _ ← ensure_usable bc; Ok (get_utxos_for_address (utxo_set (state bc)) address).

Definition chain_has_transaction (bc : Blockchain) (tid : string) : result bool :=
  _ ← ensure_usable bc; Ok (bool_decide (tid ∈ seen_txids (state bc))).

Definition get_latest_block (bc : Blockchain) : result Block :=
  _ ← ensure_usable bc;
  match tip bc with None => Raise IndexError | Some t => Ok t end.

Definition get_block_by_height (bc : Blockchain) (h : Z) : result (option Block) :=
  _ ← ensure_usable bc;
  Ok (if (h <? 0) || (Z.of_nat (length (blocks bc)) <=? h) then None
      else blocks bc !! Z.to_nat h).

Definition get_block_by_hash (bc : Blockchain) (hash : string) : result (option Block) :=
  _ ← ensure_usable bc;
  Ok (snd <$> list_find (λ b, block_hash b = hash) (blocks bc)).

(** [self._blocks[start_height:end_height]] *)
Definition get_blocks (bc : Blockchain) (start_height limit : Z) : result (list Block) :=
  _ ← ensure_usable bc;
  Ok (if (start_height <? 0) || (limit <? 1) || (100 <? limit) then []
      else if Z.of_nat (length (blocks bc)) <=? start_height then []
      else
        let end_height := Z.min (start_height + limit) (Z.of_nat (length (blocks bc))) in
        take (Z.to_nat (end_height - start_height)) (drop (Z.to_nat start_height) (blocks bc))).

Definition get_latest_block_info (bc : Blockchain) : result (option (Block * Z)) :=
  _ ← ensure_usable bc;
  Ok ((λ t, (t, Z.of_nat (length (blocks bc)) - 1)) <$> tip bc).

Definition get_block_info_by_hash (bc : Blockchain) (hash : string) : result (option (Block * Z)) :=
  _ ← ensure_usable bc;
  Ok ((λ p, (p.2, Z.of_nat p.1)) <$> list_find (λ b, block_hash b = hash) (blocks bc)).

Record AddressInfo := MkAddressInfo {
  info_address : string;
  info_confirmed_balance : Z;
  info_utxos : UTXOSet;
  info_utxo_count : Z
}.

Definition get_address_info (bc : Blockchain) (address : string) : result AddressInfo :=
  _ ← ensure_usable bc;
  let utxos := get_utxos_for_address (utxo_set (state bc)) address in
  Ok (MkAddressInfo address (get_balance (utxo_set (state bc)) address) utxos (Z.of_nat (size utxos))).

(** *** Finding a transaction *)

Inductive Located :=
  | Pending (tx : Transaction)
  | Confirmed (tx : Transaction) (at_height : Z) (in_block : string).

(** The two nested loops over the blocks and their transactions. *)
Fixpoint locate (tid : string) (h : Z) (bs : list Block) : option Located :=
  match bs with
  | [] => None
  | b :: bs =>
      match list_find (λ tx, txid tx = tid) (transactions b) with
      | Some (_, tx) => Some (Confirmed tx h (block_hash b))
      | None => locate tid (h + 1) bs
      end
  end.

Definition find_transaction (bc : Blockchain) (tid : string) : result (option Located) :=
  _ ← ensure_usable bc;
  Ok match get_transaction (mempool bc) tid with
     | Some tx => Some (Pending tx)
     | None => if bool_decide (tid ∈ seen_txids (state bc)) then locate tid 0 (blocks bc) else None
     end.

(** *** Wallet history *)

Record HistoryRecord := MkHistory {
  history_txid : string;
  history_pending : bool;
  history_sent : bool;
  history_amount : Z;
  history_timestamp : Z;
  history_height : option Z
}.

(** The state of the closure [inspect]: the outputs seen and the records made,
    the last one first. *)
Record HistoryState := MkHistoryState {
  sources : UTXOSet;
  records : list HistoryRecord
}.

Definition inspect (address : string) (tx : Transaction) (h : option Z) (s : HistoryState) : HistoryState :=
  let previous := map (λ i, sources s !! outpoint i) (inputs tx) in
  let sent := existsb (λ o, match o with
                            | None => false
                            | Some o => bool_decide (recipient_address o = address)
                            end) previous in
  let received := sumZ_with amount (filter (λ o, recipient_address o = address) (outputs tx)) in
  let value := if sent
               then sumZ_with amount (filter (λ o, recipient_address o ≠ address) (outputs tx))
               else received in
  MkHistoryState
    (list_to_map (output_items tx) ∪ sources s)
    (if sent || negb (received =? 0)
     then MkHistory (txid tx) (bool_decide (h = None)) sent value (tx_timestamp tx) h :: records s
     else records s).

Fixpoint inspect_all (address : string) (txs : list Transaction) (h : option Z) (s : HistoryState) :
    HistoryState :=
  match txs with
  | [] => s
  | tx :: txs => inspect_all address txs h (inspect address tx h s)
  end.

Fixpoint inspect_blocks (address : string) (h : Z) (bs : list Block) (s : HistoryState) : HistoryState :=
  match bs with
  | [] => s
  | b :: bs => inspect_blocks address (h + 1) bs (inspect_all address (transactions b) (Some h) s)
  end.

Definition get_wallet_history (bc : Blockchain) (address : string) (start limit : Z) :
    result (list HistoryRecord) :=
  _ ← ensure_usable bc;
  _ ← raise_if ((start <? 0) || negb ((1 <=? limit) && (limit <=? 100))) ValueError;
  let s := inspect_blocks address 0 (blocks bc) (MkHistoryState ∅ []) in
  let s := inspect_all address (get_transactions (mempool bc)) None s in
  Ok (take (Z.to_nat limit) (drop (Z.to_nat start) (records s))).
End blockchain.
