(* ===== verification/BlockchainFacts.v ===== *)
(** * Facts about the blockchain object

    [bc_inv] ties the three parts of the object together: the blocks are a
    chain, the cached state is its ledger, and the pool is built on that
    ledger.  Every method preserves it, failing storage included. *)

From S2P Require Import Prelude Bytes Sha256 Json Crypto Transaction Utxo TxValidation.
From S2P Require Import Processing Batch Merkle Block Consensus ChainState.
From S2P Require Import ChainFacts Mempool MempoolFacts MempoolSelect Mining Blockchain.

(** ** Time *)

Lemma valid_header_mono now now' p b : now <= now' → valid_header now p b → valid_header now' p b.
Proof. intros Hle []. constructor; try done. lia. Qed.

Section facts.
Context {E : EcdsaLib}.

Lemma chain_mono now now' bs st : now <= now' → chain now bs st → chain now' bs st.
Proof.
  intros Hle. induction 1; [by constructor|]. econstructor; eauto using valid_header_mono.
Qed.

Lemma chain_nonempty now bs st : chain now bs st → bs ≠ [].
Proof. destruct 1; [done|]. by destruct bs. Qed.

Lemma chain_deterministic now now' bs st st' : chain now bs st → chain now' bs st' → st = st'.
Proof.
  intros H1 H2. set (t := Z.max 0 (Z.max now now')).
  apply (chain_mono _ t) in H1; [|lia]. apply (chain_mono _ t) in H2; [|lia].
  apply (rebuild_chain_state_Ok t None t) in H1, H2; [congruence|lia|done|lia|done].
Qed.

(** ** The invariant *)

Context {CS : ChainStore}.

Record bc_inv (now : Z) (bc : Blockchain) : Prop := {
  bc_chain : chain now (blocks bc) (state bc);
  bc_pool : mempool_inv (mempool bc);
  bc_pool_utxos : confirmed_utxos (mempool bc) = utxo_set (state bc);
  bc_pool_seen : mp_seen_txids (mempool bc) = seen_txids (state bc)
}.

Lemma bc_inv_mono now now' bc : now <= now' → bc_inv now bc → bc_inv now' bc.
Proof. intros Hle []. constructor; eauto using chain_mono. Qed.

Lemma bc_inv_keys now bc :
  bc_inv now bc → keys_recorded (confirmed_utxos (mempool bc)) (mp_seen_txids (mempool bc)).
Proof. intros [Hc _ -> ->]. by eapply ledger_keys, chain_ledger. Qed.

(** The core of an object: what a commit replaces all at once. *)
Definition core (bc : Blockchain) : list Block * ChainState * Mempool * Z :=
  (blocks bc, state bc, mempool bc, revision bc).

Lemma bc_inv_core now bc bc' : core bc = core bc' → bc_inv now bc → bc_inv now bc'.
Proof. unfold core. intros [= Hb Hs Hm _] []. constructor; congruence. Qed.

Lemma new_blockchain_inv ct mt mb bc :
  new_blockchain ct mt mb = Ok bc →
  (∀ now, bc_inv now bc) ∧ ensure_usable bc = Ok tt ∧ blocks bc = [genesis_block] ∧ store bc = None.
Proof.
  unfold new_blockchain. rewrite create_genesis_block_Ok.
  intros (? & _ & Hr)%bind_Ok. cbn [mbind result_bind] in Hr.
  apply bind_Ok in Hr as (pool & Hp & [= <-]). split; [|done]. intros now.
  pose proof (new_mempool_Ok _ _ _ _ _ Hp) as (_ & _ & Heq).
  constructor; cbn [blocks state mempool].
  - constructor; [|apply is_genesis_genesis].
    apply validate_block_structure_spec. vm_compute. reflexivity.
  - by eapply new_mempool_inv.
  - by rewrite Heq.
  - by rewrite Heq.
Qed.

(** ** Commit *)

(** A commit publishes the whole transition or none of it. *)
Lemma commit_cases bs st mp b bc r bc' :
  commit bs st mp b bc = (r, bc') →
  (∃ s rev, r = Ok tt ∧ bc' = publish s rev bs st mp bc ∧ (store bc = None → s = None ∧ rev = revision bc)) ∨
  (∃ s e, r = Raise e ∧ is_storage_error e = true ∧ core bc' = core bc ∧ storage_failed bc' = true ∧
     closed bc' = closed bc ∧ store bc = Some s).
Proof.
  assert (∀ s s' x, storage_failure s' x bc = (r, bc') → store bc = Some s →
    ∃ s e, r = Raise e ∧ is_storage_error e = true ∧ core bc' = core bc ∧ storage_failed bc' = true ∧
      closed bc' = closed bc ∧ store bc = Some s) as Hfail.
  { intros s s' x [= <- <-] Hs. eexists s, _. split_and!; try done. by destruct x. }
  unfold commit. destruct (store bc) as [s|] eqn:Hs.
  - destruct (tip bc) as [t|]; [|by intros ?%(Hfail s); [right|]].
    destruct b as [b|]; destruct (_ : result Z * Store) as [[rev|e] s'];
      try (by intros ?%(Hfail s); [right|]).
    + intros [= <- <-]. left. by exists (Some s'), rev.
    + intros [= <- <-]. left. by exists (Some s'), rev.
  - intros [= <- <-]. left. by exists None, (revision bc).
Qed.

(** ** Pool changes *)

Lemma pool_change_cases change bc r bc' :
  pool_change change bc = (r, bc') →
  core bc' = core bc ∨
  ∃ mp mp', (mp = mempool bc ∨ mempool_copy (mempool bc) = Ok mp) ∧
    (∃ v, change mp = Ok (v, mp')) ∧ ∃ s rev, bc' = publish s rev (blocks bc) (state bc) mp' bc.
Proof.
  unfold pool_change. destruct (ensure_usable bc) as [_|e]; [|intros [= _ <-]; by left].
  destruct (store bc) as [s|] eqn:Hs.
  - destruct (mempool_copy (mempool bc)) as [mp|e] eqn:Hc; cbn [mbind result_bind];
      [|intros [= _ <-]; by left].
    destruct (change mp) as [[[] mp']|e] eqn:Hch; [|intros [= _ <-]; by left..].
    destruct (commit _ _ _ _ bc) as [[u|e] bc1] eqn:Hcm; intros [= _ <-];
      apply commit_cases in Hcm as [(s1 & rev & ? & -> & _)|(s1 & e1 & ? & _ & Hcore & _)]; try done;
      [|by left].
    right. exists mp, mp'. split_and!; [by right|by eexists|by eexists _, _].
  - destruct (change (mempool bc)) as [[v mp']|e] eqn:Hch; [|intros [= _ <-]; by left].
    intros [= _ <-]. right. exists (mempool bc), mp'. split_and!; [by left|by eexists|].
    unfold set_mempool. by eexists _, _.
Qed.

Lemma pool_change_inv now change bc r bc' :
  (∀ m v m', mempool_inv m → change m = Ok (v, m') →
     mempool_inv m' ∧ confirmed_utxos m' = confirmed_utxos m ∧ mp_seen_txids m' = mp_seen_txids m) →
  bc_inv now bc → pool_change change bc = (r, bc') → bc_inv now bc'.
Proof.
  intros Hchange Hbc Hr. apply pool_change_cases in Hr as [Hcore|(mp & mp' & Hmp & [v Hch] & s & rev & ->)].
  { by eapply bc_inv_core. }
  destruct Hbc as [Hc Hp Hu Hs].
  assert (mp = mempool bc) as ->.
  { destruct Hmp as [->|Hmp]; [done|]. rewrite mempool_copy_id in Hmp by done. congruence. }
  destruct (Hchange _ _ _ Hp Hch) as (Hp' & Hu' & Hs').
  constructor; cbn; [done|done|congruence|congruence].
Qed.

Lemma add_transaction_base m tx v m' :
  add_transaction m tx = Ok (v, m') →
  confirmed_utxos m' = confirmed_utxos m ∧ mp_seen_txids m' = mp_seen_txids m.
Proof.
  destruct (add_transaction_cases m tx) as [(? & ? & _ & _ & ->)|[-> _]]; by intros [= _ <-].
Qed.

Lemma add_transaction_base_limits m tx v m' :
  add_transaction m tx = Ok (v, m') →
  confirmed_utxos m' = confirmed_utxos m ∧ mp_seen_txids m' = mp_seen_txids m ∧
  max_transactions m' = max_transactions m ∧ max_bytes m' = max_bytes m.
Proof.
  destruct (add_transaction_cases m tx) as [(? & ? & _ & _ & ->)|[-> _]]; by intros [= _ <-].
Qed.

Lemma submit_transaction_inv now tx bc r bc' :
  bc_inv now bc → submit_transaction tx bc = (r, bc') → bc_inv now bc'.
Proof.
  apply pool_change_inv. intros m v m' Hm Ha. split; [by eapply add_transaction_inv|].
  by eapply add_transaction_base.
Qed.

Lemma remove_pending_transaction_inv now tid bc r bc' :
  bc_inv now bc → remove_pending_transaction tid bc = (r, bc') → bc_inv now bc'.
Proof.
  apply pool_change_inv. intros m v m' Hm Ha.
  by destruct (remove_transaction_inv _ _ _ _ Hm Ha) as (? & ? & ? & _).
Qed.

(** ** Adding a block *)

(** The acceptance rule of [add_block], from the object's fields. *)
Definition accepts (now : Z) (bc : Blockchain) (b : Block) (next : ChainState) : Prop :=
  ∃ t reward fees, tip bc = Some t ∧ valid_header now t b ∧ block_effect b (state bc) reward fees next ∧
    block_hash b ∉ map block_hash (blocks bc).

Lemma existsb_hash bs h :
  existsb (λ e, bool_decide (block_hash e = h)) bs = bool_decide (h ∈ map block_hash bs).
Proof.
  apply eq_true_iff_eq. rewrite bool_decide_eq_true, existsb_exists, list_elem_of_fmap.
  split.
  - intros (e & Hin%list_elem_of_In & He). to_prop. eauto.
  - intros (e & -> & Hin). exists e. split; [by apply list_elem_of_In|by apply bool_decide_eq_true].
Qed.

Lemma bc_inv_tip now bc : bc_inv now bc → ∃ l t, blocks bc = l ++ [t] ∧ tip bc = Some t.
Proof.
  intros [Hc _ _ _]. unfold tip. destruct (blocks bc) as [|t l _] using rev_ind.
  - by apply chain_nonempty in Hc.
  - exists l, t. by rewrite last_snoc.
Qed.

Lemma bc_tip_wf now bc t : bc_inv now bc → tip bc = Some t → well_formed_block t.
Proof.
  intros Hbc Ht. destruct (bc_inv_tip _ _ Hbc) as (l & t' & Hl & Ht'). rewrite Ht in Ht'. injection Ht' as <-.
  pose proof (bc_chain _ _ Hbc) as Hc. rewrite Hl in Hc. by eapply chain_tip_wf.
Qed.

Lemma add_block_cases now clock ct b bc r bc' t0 :
  bc_inv t0 bc → resolve_current_time clock ct = Ok now → add_block b clock ct bc = (r, bc') →
  (∃ e, ensure_usable bc = Raise e ∧ r = Raise e ∧ bc' = bc) ∨
  (r = Ok false ∧ bc' = bc ∧ ensure_usable bc = Ok tt ∧ ∀ next, ¬ accepts now bc b next) ∨
  (∃ next mp, ensure_usable bc = Ok tt ∧ accepts now bc b next ∧
     revalidated (mempool bc) (utxo_set next) (seen_txids next) = Ok mp ∧
     ((∃ s rev, r = Ok true ∧ bc' = publish s rev (blocks bc ++ [b]) next mp bc) ∨
      (∃ s e, r = Raise e ∧ is_storage_error e = true ∧ core bc' = core bc ∧ storage_failed bc' = true ∧
         store bc = Some s))).
Proof.
  intros Hbc Hnow. unfold add_block. destruct (bc_inv_tip _ _ Hbc) as (l & t & Hl & Ht).
  rewrite Ht. destruct (ensure_usable bc) as [[]|e] eqn:Hu; cbn [mbind result_bind].
  2: { intros [= <- <-]. left. by exists e. }
  destruct (validate_and_apply_total b t (state bc) _ _ _ Hnow) as [[next|] Hv]; rewrite Hv.
  - apply (validate_and_apply_Ok _ _ _ _ _ _ _ Hnow) in Hv as (Hh & reward & fees & He).
    rewrite existsb_hash. case_bool_decide as Hdup.
    + intros [= <- <-]. right; left. split_and!; [done..|]. intros next' (t' & ? & ? & _ & _ & _ & Hno). done.
    + destruct (revalidated_total (mempool bc) (utxo_set next) (seen_txids next)) as [mp Hmp]; [apply Hbc|].
      rewrite Hmp. destruct (commit _ _ _ _ bc) as [[u|e] bc1] eqn:Hcm; intros [= <- <-];
        right; right; exists next, mp; (split_and!; [done|by exists t, reward, fees|done|]);
        apply commit_cases in Hcm as [(s1 & rev & ? & -> & _)|(s1 & e1 & Heq & ? & Hcore & ? & _ & ?)]; try done.
      * left. by exists s1, rev.
      * right. injection Heq as ->. by exists s1, e1.
  - intros [= <- <-]. right; left. split_and!; [done..|].
    intros next (t' & reward & fees & Ht' & Hh & He & _). rewrite Ht in Ht'. injection Ht' as <-.
    assert (validate_and_apply_block b t (state bc) clock ct = Ok (Some next)); [|congruence].
    apply (validate_and_apply_Ok _ _ _ _ _ _ _ Hnow). eauto.
Qed.

Lemma accepts_chain now t0 bc b next :
  bc_inv t0 bc → accepts now bc b next → chain (Z.max now t0) (blocks bc ++ [b]) next.
Proof.
  intros Hbc (t & reward & fees & Ht & Hh & He & Hno).
  destruct (bc_inv_tip _ _ Hbc) as (l & t' & Hl & Ht'). rewrite Ht in Ht'. injection Ht' as <-.
  rewrite Hl in *. econstructor; [| |exact He|exact Hno].
  - rewrite <- Hl. eapply chain_mono; [|apply Hbc]. lia.
  - eapply valid_header_mono; [|exact Hh]. lia.
Qed.

Lemma add_block_inv now t0 clock ct b bc r bc' :
  bc_inv t0 bc → resolve_current_time clock ct = Ok now → add_block b clock ct bc = (r, bc') →
  bc_inv (Z.max now t0) bc'.
Proof.
  intros Hbc Hnow Hr. assert (bc_inv (Z.max now t0) bc) as Hbc' by (eapply bc_inv_mono; [|done]; lia).
  destruct (add_block_cases _ _ _ _ _ _ _ _ Hbc Hnow Hr) as
    [(e & _ & _ & ->)|[(_ & -> & _)|(next & mp & _ & Hacc & Hmp & [(s & rev & _ & ->)|(s & e & _ & _ & Hcore & _)])]];
    [done..| |by eapply bc_inv_core].
  destruct (revalidated_inv _ _ _ _ (bc_pool _ _ Hbc) Hmp) as (Hp & Hu & Hs & _).
  constructor; cbn; [|done..]. by eapply accepts_chain.
Qed.

Lemma add_block_bad_time clock ct b bc e :
  resolve_current_time clock ct = Raise e → ∃ e', add_block b clock ct bc = (Raise e', bc).
Proof.
  intros Hnow. unfold add_block, validate_and_apply_block, validate_block_header. rewrite Hnow.
  destruct (ensure_usable bc); cbn [mbind result_bind]; [|by eexists].
  destruct (tip bc); cbn [mbind result_bind]; by eexists.
Qed.

Lemma close_core bc r bc' : close bc = (r, bc') → core bc' = core bc.
Proof.
  unfold close. destruct (store bc) as [s|]; [|by intros [= _ <-]].
  destruct (closed bc); [by intros [= _ <-]|]. destruct (close_store s). by intros [= _ <-].
Qed.

(** The cached state is the one a rebuild finds. *)
Lemma validate_blockchain_true now clock bc :
  bc_inv now bc → ensure_usable bc = Ok tt → 0 <= clock → now <= clock →
  validate_blockchain bc clock None = Ok true.
Proof.
  intros Hbc Hu Hclock Hle. unfold validate_blockchain. rewrite Hu. cbn [mbind result_bind].
  assert (rebuild_chain_state (blocks bc) clock None = Ok (Some (state bc))) as ->.
  { apply (rebuild_chain_state_Ok clock None clock); [done..|]. eapply chain_mono; [exact Hle|apply Hbc]. }
  cbn [mbind result_bind]. by rewrite !bool_decide_eq_true_2.
Qed.

(** ** Starting *)

(** The parts of a stored chain fit together. *)
Definition coherent (now : Z) (r : StoredChain) : Prop :=
  chain now (stored_blocks r) (stored_state r) ∧ mempool_inv (stored_mempool r) ∧
  confirmed_utxos (stored_mempool r) = utxo_set (stored_state r) ∧
  mp_seen_txids (stored_mempool r) = seen_txids (stored_state r).

(** What the object relies on: a store never loads an incoherent chain. *)
Class ChainStoreLaws : Prop :=
  load_coherent s clock ct max_tx max_b r s' :
    0 <= clock → load_or_initialize s clock ct max_tx max_b = (Ok r, s') → coherent (default clock ct) r.

(** An object just constructed, in memory or on a store. *)
Inductive bc_start (limit : Z) (bc : Blockchain) : Prop :=
  | start_new ct max_tx max_b : new_blockchain ct max_tx max_b = Ok bc → bc_start limit bc
  | start_open s clock ct max_tx max_b s' :
      0 <= clock → default clock ct <= limit →
      open_blockchain s clock ct max_tx max_b = (Ok bc, s') → bc_start limit bc.

Lemma open_blockchain_Ok s clock ct max_tx max_b bc s' :
  open_blockchain s clock ct max_tx max_b = (Ok bc, s') →
  ∃ r, load_or_initialize s clock ct max_tx max_b = (Ok r, s') ∧
    bc = MkBlockchain (Some s') false false (stored_revision r) (stored_blocks r) (stored_state r) (stored_mempool r).
Proof.
  unfold open_blockchain. destruct (new_blockchain _ _ _); [|done].
  destruct (load_or_initialize _ _ _ _ _) as [[r|e] s1]; [|done]. intros [= <- <-]. by exists r.
Qed.

Lemma bc_start_inv `{!ChainStoreLaws} limit bc : bc_start limit bc → bc_inv limit bc.
Proof.
  intros [ct mt mb Hnew|s clock ct mt mb s' Hclock Hle Hopen].
  - by destruct (new_blockchain_inv _ _ _ _ Hnew) as [? _].
  - apply open_blockchain_Ok in Hopen as (r & Hr & ->).
    apply load_coherent in Hr as (Hc & ? & ? & ?); [|done]. constructor; cbn; try done. by eapply chain_mono.
Qed.

(** ** Reachable objects *)

(** One method call; [limit] bounds the times at which blocks are added. *)
Inductive bc_step (limit : Z) : relation Blockchain :=
  | step_submit tx r bc bc' : submit_transaction tx bc = (r, bc') → bc_step limit bc bc'
  | step_remove tid r bc bc' : remove_pending_transaction tid bc = (r, bc') → bc_step limit bc bc'
  | step_add b clock ct now r bc bc' :
      resolve_current_time clock ct = Ok now → now <= limit →
      add_block b clock ct bc = (r, bc') → bc_step limit bc bc'
  | step_add_bad_time b clock ct e r bc bc' :
      resolve_current_time clock ct = Raise e → add_block b clock ct bc = (r, bc') → bc_step limit bc bc'
  | step_close r bc bc' : close bc = (r, bc') → bc_step limit bc bc'.

Lemma bc_step_inv limit bc bc' : bc_step limit bc bc' → bc_inv limit bc → bc_inv limit bc'.
Proof.
  intros Hstep Hbc. destruct Hstep as [tx r bc bc' Hs|tid r bc bc' Hs|b clock ct now r bc bc' Hnow Hle Hs|
    b clock ct e r bc bc' Hnow Hs|r bc bc' Hs].
  - by eapply submit_transaction_inv.
  - by eapply remove_pending_transaction_inv.
  - rewrite <- (Z.max_r now limit) by done. by eapply add_block_inv.
  - destruct (add_block_bad_time clock ct b bc e Hnow) as [e' Ha]. rewrite Ha in Hs. by injection Hs as _ <-.
  - eapply bc_inv_core; [|exact Hbc]. symmetry. by eapply close_core.
Qed.

Lemma bc_steps_inv limit bc bc' : rtc (bc_step limit) bc bc' → bc_inv limit bc → bc_inv limit bc'.
Proof. induction 1; eauto using bc_step_inv. Qed.
End facts.
