(* ===== verification/SampleChain.v ===== *)
(** * A sample chain

    The genesis block and one mined block that pays Alice, for the witnesses
    of the chain theorems. *)

From S2P Require Import Prelude Bytes Sha256 Json Crypto Transaction Utxo TxValidation.
From S2P Require Import Processing Batch Sample Merkle Block Consensus ChainState.
From S2P Require Import ChainFacts Mempool Mining.

Definition sample_time : Z := GENESIS_TIMESTAMP + 60.

Definition no_block : Block := MkBlock [] EmptyString 0 0 0 0 EmptyString.

Definition or_no_block (r : result Block) : Block :=
  match r with Ok b => b | Raise _ => no_block end.

(** The candidate after genesis. *)
Definition candidate1 : Block := Eval vm_compute in
  or_no_block (create_block_template genesis_block alice_address (Some []) sample_time
                 (Some sample_time) (Some ∅) (Some ∅)).

(** The candidate with its proof of work. *)
Definition block1 : Block := Eval vm_compute in
  match mine_block candidate1 0 200 with
  | Ok (Some b) => b
  | _ => no_block
  end.

Lemma candidate1_built :
  create_block_template genesis_block alice_address (Some []) sample_time
    (Some sample_time) (Some ∅) (Some ∅) = Ok candidate1.
Proof. vm_compute. reflexivity. Qed.

Lemma block1_mined : mine_block candidate1 0 200 = Ok (Some block1).
Proof. vm_compute. reflexivity. Qed.

(** The rebuilt ledger gives Alice the subsidy. *)
Lemma sample_rebuild :
  (λ r : option ChainState, option_map (λ st, get_balance (utxo_set st) alice_address) r)
    <$> rebuild_chain_state [genesis_block; block1] sample_time None = Ok (Some 50).
Proof. vm_compute. reflexivity. Qed.

Lemma sample_chain : ∃ st,
  rebuild_chain_state [genesis_block; block1] sample_time None = Ok (Some st) ∧
  chain sample_time [genesis_block; block1] st.
Proof.
  pose proof sample_rebuild as ([st|] & Hr & Hst)%fmap_Ok; [|discriminate Hst].
  exists st. split; [exact Hr|].
  apply (rebuild_chain_state_Ok sample_time None sample_time); [|reflexivity|exact Hr].
  vm_compute. discriminate.
Qed.

#[global] Opaque candidate1 block1.
