(* ===== verification/ChainTheorems.v ===== *)
(** * What the chain layer guarantees

    Commitment of the Merkle root, the genesis block, proof of work and the
    nonce search, and the ledger that a chain determines. *)

From S2P Require Import Prelude Bytes Sha256 Json Crypto Transaction Utxo TxValidation.
From S2P Require Import Processing Batch Sample Merkle Block Consensus ChainState.
From S2P Require Import ChainFacts Mempool Mining SampleChain.

(** ** Merkle root *)

(** Injectivity of [cons] without looking inside the elements. *)
Lemma cons_eq_inv {A} (x y : A) l k : x :: l = y :: k → x = y ∧ l = k.
Proof. by intros [= -> ->]. Qed.

Lemma map_txid_bytes txs1 : ∀ txs2,
  map txid txs1 = map txid txs2 → map transaction_bytes txs1 = map transaction_bytes txs2 ∨ sha256_collision.
Proof.
  induction txs1 as [|tx1 txs1 IH]; intros [|tx2 txs2] Heq; [by left|discriminate Heq..|].
  apply cons_eq_inv in Heq as [Htx Heq]. apply sha256_hex_inj in Htx as [Htx|]; [|by right].
  destruct (IH _ Heq) as [Hs|]; [left|by right]. cbn [map]. by rewrite Htx, Hs.
Qed.

(** C17: the Merkle root commits to the block's transactions: two lists of
    transactions with outputs and without repeated identifiers that have the
    same root are the same list of signed transactions, byte for byte and in
    order, unless SHA-256 collides.  Lists of different lengths are covered:
    the padding of odd levels creates no second preimage. *)
Theorem merkle_commitment txs1 txs2 root :
  calculate_merkle_root txs1 = Ok root → calculate_merkle_root txs2 = Ok root →
  NoDup (map txid txs1) → NoDup (map txid txs2) →
  (∀ tx, tx ∈ txs1 ∨ tx ∈ txs2 → outputs tx ≠ []) →
  map transaction_bytes txs1 = map transaction_bytes txs2 ∨ sha256_collision.
Proof.
  intros H1 H2 Hn1 Hn2 Hout.
  destruct (merkle_root_binding _ _ _ H1 H2 Hn1 Hn2) as [Heq|]; [|by apply map_txid_bytes|by right].
  intros tx Htx. by apply length_transaction_bytes, Hout.
Qed.

Lemma merkle_commitment_witness :
  map transaction_bytes [payment; child_payment] = map transaction_bytes [payment; child_payment]
  ∨ sha256_collision.
Proof.
  destruct (calculate_merkle_root_total [payment; child_payment]) as (root & Hr & _).
  assert (NoDup (map txid [payment; child_payment])) as Hnd
    by (apply (bool_decide_unpack _); vm_compute; exact I).
  apply (merkle_commitment _ _ root Hr Hr Hnd Hnd).
  assert (Forall (λ tx, outputs tx ≠ []) [payment; child_payment]) as Hout
    by (repeat constructor; vm_compute; discriminate).
  intros tx [Hin|Hin]; exact (proj1 (Forall_forall _ _) Hout tx Hin).
Defined.

(** The root of any list of hashes is defined and is a hash: the level
    loop terminates, and running it longer than the number of leaves changes
    nothing. *)
Theorem merkle_root_defined txids :
  hashes txids →
  ∃ root, calculate_merkle_root_from_txids txids = Ok root ∧ is_hash root = true ∧
    (txids ≠ [] → ∀ extra, merkle_loop (length txids + extra) txids = Ok root).
Proof.
  intros Hl. destruct (calculate_merkle_root_from_txids_total _ Hl) as (root & Hr & Hh).
  exists root. split_and!; [done..|]. intros Hne extra.
  unfold calculate_merkle_root_from_txids in Hr. rewrite bool_decide_eq_false_2 in Hr by done.
  rewrite Nat.add_comm. induction extra as [|extra IH]; cbn [Nat.add]; [done|].
  by apply merkle_loop_more.
Qed.

Lemma merkle_root_defined_witness :
  ∃ root, calculate_merkle_root_from_txids (map txid [payment; child_payment]) = Ok root ∧
    is_hash root = true.
Proof.
  destruct (merkle_root_defined (map txid [payment; child_payment]) (hashes_txids _))
    as (root & Hr & Hh & _).
  exact (ex_intro _ root (conj Hr Hh)).
Defined.

(** ** Genesis *)

(** The configured genesis block has the configured hash, is valid, and
    is alone: a block recognised as genesis has no transactions and the same
    header bytes, unless SHA-256 collides. *)
Theorem genesis_unique {E : EcdsaLib} :
  create_genesis_block = Ok genesis_block ∧ is_genesis_block genesis_block = true ∧
  (∀ clock, 0 <= clock → validate_chain [genesis_block] clock None = Ok true) ∧
  (∀ b, is_genesis_block b = true →
     transactions b = [] ∧
     (header_to_bytes (block_header b) = header_to_bytes (block_header genesis_block) ∨ sha256_collision)).
Proof.
  split_and!; [apply create_genesis_block_Ok|apply is_genesis_genesis| |].
  - intros clock _. unfold validate_chain, rebuild_chain_state. cbn [resolve_current_time mbind result_bind].
    assert (validate_block_structure genesis_block = Ok true) as -> by (vm_compute; reflexivity).
    by rewrite is_genesis_genesis.
  - intros b Hb. split; [by apply genesis_no_transactions|].
    assert (block_hash b = block_hash genesis_block) as Heq.
    { rewrite genesis_block_hash. unfold is_genesis_block in Hb.
      destruct (bool_decide (transactions b ≠ [])); [discriminate Hb|].
      by apply bool_decide_eq_true in Hb. }
    apply sha256_hex_inj in Heq as [Heq|Hc]; [left; exact Heq|right; exact Hc].
Qed.

Lemma genesis_unique_witness : validate_chain [genesis_block] 0 None = Ok true.
Proof. exact (proj1 (proj2 (proj2 genesis_unique)) 0 (Z.le_refl 0)). Defined.

(** ** Proof of work *)

(** The proof-of-work check never raises; it accepts a block exactly when
    its nonce has 32 bits, its difficulty [d] is between 1 and 2^256, and its
    hash [h] satisfies [(h + 1) * d <= 2^256]; hence a block that meets a
    difficulty meets every lower one. *)
Theorem proof_of_work_rule b :
  validate_proof_of_work b = Ok (bool_decide
    (0 <= block_nonce b < 2 ^ 32 ∧ 1 <= block_difficulty b <= 2 ^ 256 ∧
     (int_of_hex (block_hash b) + 1) * block_difficulty b <= 2 ^ 256)) ∧
  (∀ h d d', hash_meets_target h d = Ok true → 1 <= d' <= d → hash_meets_target h d' = Ok true).
Proof.
  split; [apply validate_proof_of_work_spec|]. intros h d d'.
  rewrite !hash_meets_target_spec. intros H%(inj Ok) Hd'.
  apply bool_decide_eq_true in H as (Hh & Hd & Hle). f_equal. apply bool_decide_eq_true.
  pose proof (int_of_hex_bound h). split_and!; [done|lia|lia|]. nia.
Qed.

(** The nonce search tries the nonces of its range in order and stops at
    the first solution: a block it returns differs from the candidate in its
    nonce only, is solved, and no earlier nonce solves it; when it returns
    nothing, no nonce of the range does.  On valid bounds it always returns. *)
Theorem mine_block_search b start_nonce max_nonce :
  is_valid_difficulty (block_difficulty b) = true →
  is_valid_nonce start_nonce = true → is_valid_nonce max_nonce = true → start_nonce <= max_nonce →
  ∃ r, mine_block b start_nonce max_nonce = Ok r ∧
  match r with
  | Some b' => ∃ n, start_nonce <= n <= max_nonce ∧ b' = set_nonce b n ∧ solves b n ∧
      ∀ m, start_nonce <= m < n → ¬ solves b m
  | None => ∀ m, start_nonce <= m <= max_nonce → ¬ solves b m
  end.
Proof.
  intros Hd Hs Hm Hle. unfold mine_block, mine_block_with_progress.
  rewrite Hd, Hs, Hm, (proj2 (Z.ltb_ge _ _)) by done. cbn [raise_if mbind result_bind orb negb].
  set (count := Z.to_nat (max_nonce + 1 - start_nonce)).
  destruct (mine_loop_total count b start_nonce start_nonce None (λ _, false)) as [[r ps] Hr]; [done|].
  rewrite Hr. exists r. split; [done|].
  apply mine_loop_spec in Hr. destruct r as [b'|].
  - destruct Hr as (k & Hk & -> & Hsol & Hno & _). exists (start_nonce + k).
    split_and!; [lia|lia|done|done|]. intros m Hmk.
    replace m with (start_nonce + (m - start_nonce)) by lia. apply Hno. lia.
  - destruct Hr as (k & Hk & Hno & [->|?]); [|done]. intros m Hmk.
    replace m with (start_nonce + (m - start_nonce)) by lia. apply Hno. lia.
Qed.

Lemma mine_block_search_witness : ∃ r, mine_block candidate1 0 200 = Ok r.
Proof.
  destruct (mine_block_search candidate1 0 200) as (r & Hr & _);
    [vm_compute; reflexivity|reflexivity|reflexivity|lia|].
  exact (ex_intro _ r Hr).
Defined.

(** With a stop event and a progress callback the search finds the same
    first solution or stops, every report is about a nonce it tried, and
    nothing is reported without a callback. *)
Theorem mine_with_progress b start_nonce max_nonce interval stop r reports :
  mine_block_with_progress b start_nonce max_nonce interval stop = Ok (r, reports) →
  match r with
  | Some b' => ∃ n, start_nonce <= n <= max_nonce ∧ b' = set_nonce b n ∧ solves b n ∧
      (∀ m, start_nonce <= m < n → ¬ solves b m) ∧ (∀ m, start_nonce <= m <= n → stop m = false)
  | None => ∃ n, start_nonce <= n <= max_nonce + 1 ∧ (∀ m, start_nonce <= m < n → ¬ solves b m) ∧
      (n = max_nonce + 1 ∨ stop n = true)
  end ∧
  Forall (λ p, hashes_tried p = progress_nonce p - start_nonce + 1 ∧
               progress_hash p = block_hash (set_nonce b (progress_nonce p))) reports ∧
  (interval = None → reports = []).
Proof.
  unfold mine_block_with_progress.
  intros (? & _ & (? & _ & (? & Hle%raise_if_Ok & Hr)%bind_Ok)%bind_Ok)%bind_Ok. to_prop.
  destruct (mine_loop_reports _ _ _ _ _ _ _ _ Hr) as [Hrep Hnone].
  apply mine_loop_spec in Hr. split_and!; [|by eapply Forall_impl; [exact Hrep|]; intros p (_ & ? & ?)|done].
  destruct r as [b'|].
  - destruct Hr as (k & Hk & -> & Hsol & Hno & Hst). exists (start_nonce + k).
    split_and!; [lia|lia|done|done| |]; intros m Hmk;
      replace m with (start_nonce + (m - start_nonce)) by lia; [apply Hno|apply Hst]; lia.
  - destruct Hr as (k & Hk & Hno & Hend). exists (start_nonce + k). split_and!; [lia|lia| |].
    + intros m Hmk. replace m with (start_nonce + (m - start_nonce)) by lia. apply Hno. lia.
    + destruct Hend as [->|?]; [left; lia|by right].
Qed.

Lemma mine_with_progress_witness :
  ∃ reports, mine_block_with_progress candidate1 0 200 (Some 1000) (λ n, n =? 0) = Ok (None, reports) ∧
    Forall (λ p, hashes_tried p = progress_nonce p - 0 + 1 ∧
                 progress_hash p = block_hash (set_nonce candidate1 (progress_nonce p))) reports.
Proof.
  assert (mine_block_with_progress candidate1 0 200 (Some 1000) (λ n, n =? 0) = Ok (None, [])) as Hr
    by (vm_compute; reflexivity).
  exact (ex_intro _ [] (conj Hr (proj1 (proj2 (mine_with_progress _ _ _ _ _ _ _ Hr))))).
Defined.

(** ** The ledger of a chain *)

Section ledger.
Context {E : EcdsaLib}.

(** C1: validating a chain never raises, and what it accepts is exactly the
    relation [chain]: a genesis block followed by blocks that satisfy the header
    rules, apply to the ledger of their predecessors and repeat no hash. *)
Theorem rebuild_refines_chain blocks clock t now :
  0 <= clock → resolve_current_time clock t = Ok now →
  (∃ verdict, rebuild_chain_state blocks clock t = Ok verdict ∧
    validate_chain blocks clock t = Ok (bool_decide (is_Some verdict))) ∧
  ∀ st, rebuild_chain_state blocks clock t = Ok (Some st) ↔ chain now blocks st.
Proof.
  intros Hc Hnow. split; [|intros st; by apply rebuild_chain_state_Ok].
  destruct (rebuild_chain_state_total clock t now blocks Hc Hnow) as [verdict Hv].
  exists verdict. unfold validate_chain. by rewrite Hv.
Qed.

(** C2: the ledger of a valid chain is what the chain says it is: the unspent
    outputs are exactly the outputs its transactions create and do not spend,
    no outpoint is spent twice in the whole chain, every spent outpoint was
    created in the chain, and no transaction identifier appears twice. *)
Theorem chain_ledger_exact blocks clock t st :
  0 <= clock → rebuild_chain_state blocks clock t = Ok (Some st) →
  (∀ k, utxo_set st !! k =
     if decide (k ∈ chain_txs blocks ≫= spent_outpoints) then None else creates (chain_txs blocks) !! k) ∧
  NoDup (chain_txs blocks ≫= spent_outpoints) ∧
  (∀ k, k ∈ chain_txs blocks ≫= spent_outpoints → k.1 ∈ txid <$> chain_txs blocks) ∧
  NoDup (txid <$> chain_txs blocks) ∧
  seen_txids st = list_to_set (txid <$> chain_txs blocks).
Proof.
  intros Hc Hr. destruct (resolve_current_time clock t) as [now|e] eqn:Hnow.
  - apply (rebuild_chain_state_Ok _ _ _ _ _ Hc Hnow), chain_ledger in Hr as [_ Hseen Hnd Hsp Hrec Hl].
    split_and!; [done|done| |done|done]. intros k Hk. apply Hrec in Hk. rewrite Hseen in Hk.
    by apply elem_of_list_to_set in Hk.
  - unfold rebuild_chain_state in Hr. by rewrite Hnow in Hr.
Qed.

(** C3: a chain of [n] blocks after genesis issues at most [50 * n]: the value
    of all unspent outputs never exceeds the subsidies, whatever the fees. *)
Theorem chain_supply_bound blocks clock t st :
  0 <= clock → rebuild_chain_state blocks clock t = Ok (Some st) →
  utxo_total (utxo_set st) <= 50 * (Z.of_nat (length blocks) - 1).
Proof.
  intros Hc Hr. destruct (resolve_current_time clock t) as [now|e] eqn:Hnow.
  - by apply (rebuild_chain_state_Ok _ _ _ _ _ Hc Hnow), chain_supply in Hr.
  - unfold rebuild_chain_state in Hr. by rewrite Hnow in Hr.
Qed.

(** Extending a valid chain by a block is accepted exactly when the block
    is valid against the tip and the chain's own ledger and its hash is new;
    in particular every prefix of a valid chain is valid. *)
Theorem rebuild_extends l tip b clock t now :
  0 <= clock → resolve_current_time clock t = Ok now →
  ∀ st', rebuild_chain_state ((l ++ [tip]) ++ [b]) clock t = Ok (Some st') ↔
    ∃ st reward fees, rebuild_chain_state (l ++ [tip]) clock t = Ok (Some st) ∧
      valid_header now tip b ∧ block_effect b st reward fees st' ∧
      block_hash b ∉ map block_hash (l ++ [tip]).
Proof.
  intros Hc Hnow st'. rewrite (rebuild_chain_state_Ok _ _ _ _ _ Hc Hnow). split.
  - intros Hch. inversion Hch as [|bs p b' st reward fees ? Hch' Hh He Hf Heq]; subst.
    { by destruct l as [|? [|? ?]]. }
    apply app_inj_tail in Heq as [Heq ->]. pose proof Heq as [-> ->]%app_inj_tail.
    exists st, reward, fees. split_and!; [|done..]. by apply (rebuild_chain_state_Ok _ _ now).
  - intros (st & reward & fees & Hr & Hh & He & Hf).
    apply (rebuild_chain_state_Ok _ _ _ _ _ Hc Hnow) in Hr. by econstructor.
Qed.

(** Applying one block never raises; when it succeeds, value changes by
    exactly the reward minus the fees, the reward is positive and at most 50
    plus the fees, and the coinbase cannot fund the block's own transactions. *)
Theorem apply_block_exact b st :
  (∃ r, apply_block_transactions b st = Ok r) ∧
  ∀ st', apply_block_transactions b st = Ok (Some st') →
    ∃ coinbase regular reward fees batch,
      transactions b = coinbase :: regular ∧
      apply_transactions regular (utxo_set st) (seen_txids st) = Ok batch ∧
      batch_total_fees batch = fees ∧ inputs coinbase = [] ∧
      sumZ_with amount (outputs coinbase) = reward ∧ 0 < reward <= 50 + fees ∧
      utxo_total (utxo_set st') = utxo_total (utxo_set st) + reward - fees ∧
      seen_txids st' = list_to_set (txid <$> transactions b) ∪ seen_txids st.
Proof.
  split; [apply apply_block_transactions_total|]. intros st' (reward & fees & He)%apply_block_transactions_Ok.
  pose proof (block_effect_total _ _ _ _ _ He) as Htot. pose proof (block_effect_seen _ _ _ _ _ He) as Hseen.
  destruct He as [cb regular address u s Htx Hrun _ _ Hrw _ Hcb _].
  exists cb, regular, reward, fees, (MkBatch u s fees).
  split_and!; try done; try lia.
  - by apply apply_transactions_run.
  - by rewrite Hcb.
  - rewrite Hcb. cbn. lia.
Qed.
End ledger.

(** ** Witnesses *)

Lemma rebuild_refines_chain_witness :
  ∃ verdict, rebuild_chain_state [genesis_block; block1] sample_time None = Ok verdict ∧
    validate_chain [genesis_block; block1] sample_time None = Ok (bool_decide (is_Some verdict)).
Proof.
  refine (proj1 (rebuild_refines_chain [genesis_block; block1] sample_time None sample_time _ _));
    [vm_compute; discriminate|reflexivity].
Defined.

Lemma chain_ledger_exact_witness :
  NoDup (txid <$> chain_txs [genesis_block; block1]).
Proof.
  pose proof sample_chain as (st & Hr & _).
  refine (proj1 (proj2 (proj2 (proj2 (chain_ledger_exact [genesis_block; block1] sample_time None st _ Hr))))).
  vm_compute. discriminate.
Defined.

Lemma chain_supply_bound_witness :
  ∃ st, rebuild_chain_state [genesis_block; block1] sample_time None = Ok (Some st) ∧
    utxo_total (utxo_set st) <= 50.
Proof.
  pose proof sample_chain as (st & Hr & _). exists st. split; [exact Hr|].
  refine (chain_supply_bound [genesis_block; block1] sample_time None st _ Hr).
  vm_compute. discriminate.
Defined.

Lemma rebuild_extends_witness : ∃ st, rebuild_chain_state [genesis_block] sample_time None = Ok (Some st).
Proof.
  pose proof sample_chain as (st & Hr & _).
  destruct (proj1 (rebuild_extends [] genesis_block block1 sample_time None sample_time
    ltac:(vm_compute; discriminate) eq_refl st) Hr) as (st0 & _ & _ & H0 & _).
  exact (ex_intro _ st0 H0).
Defined.
