(* ===== verification/NodeTheorems.v ===== *)
(** * What the blockchain object guarantees

    Every reachable object is consistent, operations either happen entirely or
    leave the object unchanged, blocks mined from the pool are accepted, and
    the queries answer from the validated chain. *)

From S2P Require Import Prelude Bytes Sha256 Json JsonParse JsonFacts Crypto Transaction Utxo TxValidation.
From S2P Require Import Processing Batch Sample Mempool MempoolFacts MempoolSelect Merkle Block.
From S2P Require Import Consensus ChainState ChainFacts Mining.
From S2P Require Import Blockchain BlockchainFacts SampleChain.

(** * From a candidate block to an accepted one

    What [create_block_template] builds, and that a candidate built on the
    parent's ledger and then mined passes the whole validation. *)

Lemma existsb_empty_inputs txs :
  existsb (λ tx, bool_decide (inputs tx = [])) txs = false ↔ Forall (λ tx, inputs tx ≠ []) txs.
Proof.
  induction txs as [|tx txs IH]; cbn; [split; [constructor|done]|].
  rewrite orb_false_iff, bool_decide_eq_false, IH, Forall_cons. done.
Qed.

Section template.
Context {E : EcdsaLib}.

(** The fields of a candidate built on a ledger. *)
Record template_of (previous : Block) (miner : string) (regular : list Transaction)
    (u : UTXOSet) (s : TxidSet) (ts : Z) (fees : Z) (u' : UTXOSet) (s' : TxidSet) (b : Block) : Prop := {
  template_run : run regular u s fees u' s';
  template_address : validate_address miner = true;
  template_time : block_timestamp previous <= ts ∧ 0 <= ts;
  template_inputs : Forall (λ tx, inputs tx ≠ []) regular;
  template_fresh : txid (MkTransaction [] [MkTxOutput (50 + fees) miner] ts 1) ∉ s';
  template_parent : 1 <= block_difficulty previous <= 2 ^ 256;
  template_block : ∃ root,
    calculate_merkle_root (MkTransaction [] [MkTxOutput (50 + fees) miner] ts 1 :: regular) = Ok root ∧
    b = MkBlock (MkTransaction [] [MkTxOutput (50 + fees) miner] ts 1 :: regular)
          (block_hash previous) ts 1 16 0 root
}.

Lemma resolve_timestamp_Ok clock timestamp ts : resolve_timestamp clock timestamp = Ok ts →
  match timestamp with None => ts = clock | Some t => ts = t ∧ 0 <= t end.
Proof.
  destruct timestamp as [t|]; cbn; [|by intros [= ->]].
  intros (? & Ht%raise_if_Ok & [= <-])%bind_Ok. by to_prop.
Qed.

Lemma create_block_template_Ok previous miner txs clock timestamp u s b :
  create_block_template previous miner txs clock timestamp (Some u) (Some s) = Ok b →
  ∃ ts fees u' s', template_of previous miner (default [] txs) u s ts fees u' s' b ∧
    match timestamp with
    | Some t => ts = t
    | None => ts = Z.max clock (block_timestamp previous + 1)
    end.
Proof.
  unfold create_block_template.
  intros (? & Hprev%raise_if_Ok & (t0 & Ht0%resolve_timestamp_Ok & Hr)%bind_Ok)%bind_Ok.
  apply bind_Ok in Hr as (? & Hmono%raise_if_Ok & Hr).
  apply bind_Ok in Hr as (? & Hin%raise_if_Ok & Hr). apply existsb_empty_inputs in Hin.
  apply bind_Ok in Hr as (? & _ & Hr). apply bind_Ok in Hr as (? & _ & Hr).
  apply bind_Ok in Hr as (batch & (r & Hrun%apply_transactions_run & <-)%fmap_Ok & Hr).
  apply bind_Ok in Hr as (cb & (Haddr & Hts & Hfees & ->)%create_coinbase_transaction_Ok & Hr).
  apply bind_Ok in Hr as (? & Hfresh%raise_if_Ok & Hr).
  apply bind_Ok in Hr as (d & Hd & Hr).
  apply bind_Ok in Hd as (? & Hvd%raise_if_Ok & [= <-]). to_prop.
  apply is_valid_difficulty_spec in Hvd.
  apply new_block_Ok in Hr as (root & Hroot & ->). cbn in Hfresh, Hroot |- *. to_prop.
  eexists _, (batch_total_fees r), (batch_utxo_set r), (batch_seen_txids r). split.
  - constructor; [done|done|split; [exact Hmono|exact Hts]|done|done|done|].
    exists root. by split.
  - destruct timestamp; [by destruct Ht0|by rewrite Ht0].
Qed.

(** A mined candidate satisfies the header rules and has its effect. *)
Lemma template_mined previous miner regular st ts fees u' s' b n now :
  keys_recorded (utxo_set st) (seen_txids st) → well_formed_block previous →
  template_of previous miner regular (utxo_set st) (seen_txids st) ts fees u' s' b →
  0 <= n < 2 ^ 32 → solves b n → ts <= now + 7200 →
  valid_header now previous (set_nonce b n) ∧
  ∃ st', block_effect (set_nonce b n) st (50 + fees) fees st'.
Proof.
  intros Hk Hprev [Hrun Haddr [Hmono Hts] Hin Hfresh Hd (root & Hroot & ->)] Hn Hsol Hfut.
  set (cb := MkTransaction [] [MkTxOutput (50 + fees) miner] ts 1) in *.
  pose proof (run_fees _ _ _ _ _ _ Hrun) as Hfees.
  assert (batch_ok (utxo_set st) (seen_txids st) regular) as Hok by (apply run_batch_ok; eauto).
  pose proof (run_seen _ _ _ _ _ _ Hrun) as Hseen.
  assert (validate_coinbase_structure cb ts = true) as Hcb.
  { apply validate_coinbase_structure_spec. split; [done|]. exists (50 + fees), miner.
    split_and!; [lia|done|done]. }
  split.
  - constructor; cbn [set_nonce block_version block_timestamp block_difficulty block_nonce
      previous_block_hash transactions merkle_root]; [done| |done|done|lia|done| |].
    + constructor; cbn [set_nonce block_version block_timestamp block_difficulty block_nonce
        previous_block_hash transactions merkle_root]; [done|done|lia|done|apply is_hash_block_hash| |done].
      cbn [map]. constructor; [|apply (batch_txids _ _ _ Hok)]. intros Hmem. apply Hfresh.
      rewrite Hseen. by apply elem_of_union_l, elem_of_list_to_set.
    + by exists cb, regular.
    + unfold solves in Hsol. rewrite validate_proof_of_work_spec in Hsol. apply (inj Ok) in Hsol.
      apply bool_decide_eq_true in Hsol as (_ & _ & Hsol). exact Hsol.
  - eexists. apply (block_effect_intro _ _ _ _ cb regular miner u' s'); try done; [lia|].
    eapply keys_recorded_disjoint; [|exact Hfresh]. by eapply run_keys_recorded.
Qed.
End template.

Section node.
Context {E : EcdsaLib} {CS : ChainStore}.

(** ** Reachable objects *)

(** C4: whatever calls are made on a blockchain, in any order, whether it was
    started in memory or on a store that keeps its contract, and with storage
    failures included: its blocks form a valid chain, its cached ledger is the
    one a rebuild from genesis finds (so [validate_chain] answers [True]), the
    pool is valid on that ledger, and the value in circulation respects the
    subsidy. *)
Theorem reachable_consistent `{!ChainStoreLaws} limit bc0 bc :
  0 <= limit → bc_start limit bc0 → rtc (bc_step limit) bc0 bc →
  chain limit (blocks bc) (state bc) ∧ mempool_inv (mempool bc) ∧
  confirmed_utxos (mempool bc) = utxo_set (state bc) ∧ mp_seen_txids (mempool bc) = seen_txids (state bc) ∧
  utxo_total (utxo_set (state bc)) <= 50 * (Z.of_nat (length (blocks bc)) - 1) ∧
  ∀ clock, limit <= clock → ensure_usable bc = Ok tt → validate_blockchain bc clock None = Ok true.
Proof.
  intros Hl Hstart Hsteps. pose proof (bc_steps_inv _ _ _ Hsteps (bc_start_inv _ _ Hstart)) as Hbc.
  pose proof Hbc as [Hc Hp Hu Hs]. split_and!; [done..|by eapply chain_supply|].
  intros clock Hle Husable. eapply validate_blockchain_true; [done|done|lia|done].
Qed.

(** C5: [add_block], in memory and on a store. An object that cannot be used
    and a time that cannot be resolved make it raise, without a change. Otherwise
    it accepts the block exactly when it is valid against the tip and the ledger
    at the resolved time and its hash is new, and rejecting changes nothing.
    Accepting in memory appends the block and installs the ledger after it and
    the revalidated pool. On a store, the block, that ledger and that pool are
    first written in one call, which is told the height, the tip and the revision
    the object is at; they are published with the revision that the store answers,
    and when the store raises instead, the error is reported as a storage error
    and the object keeps its chain, ledger and pool but is marked as failed. *)
Theorem add_block_exact bc b clock ct t0 :
  bc_inv t0 bc →
  match ensure_usable bc, resolve_current_time clock ct with
  | Raise e, _ | Ok _, Raise e => add_block b clock ct bc = (Raise e, bc)
  | Ok _, Ok now =>
      (∃ t next mp, tip bc = Some t ∧ accepts now bc b next ∧
         revalidated (mempool bc) (utxo_set next) (seen_txids next) = Ok mp ∧
         add_block b clock ct bc =
           match store bc with
           | None => (Ok true, publish None (revision bc) (blocks bc ++ [b]) next mp bc)
           | Some s =>
               match append_block s b next mp
                       (MkExpected (Z.of_nat (length (blocks bc)) - 1) (block_hash t) (revision bc)) with
               | (Ok rev, s') => (Ok true, publish (Some s') rev (blocks bc ++ [b]) next mp bc)
               | (Raise e, s') =>
                   (Raise (if is_storage_error e then e else StorageCommitUncertainError),
                    MkBlockchain (Some s') (closed bc) true (revision bc) (blocks bc) (state bc) (mempool bc))
               end
           end) ∨
      ((∀ next, ¬ accepts now bc b next) ∧ add_block b clock ct bc = (Ok false, bc))
  end.
Proof.
  intros Hbc. destruct (ensure_usable bc) as [[]|e] eqn:Hu; [|unfold add_block; by rewrite Hu].
  destruct (bc_inv_tip _ _ Hbc) as (l & t & _ & Ht).
  destruct (resolve_current_time clock ct) as [now|e] eqn:Hnow.
  2: { unfold add_block, validate_and_apply_block, validate_block_header. by rewrite Hu, Ht, Hnow. }
  destruct (add_block b clock ct bc) as [r bc'] eqn:Ha.
  destruct (add_block_cases _ _ _ _ _ _ _ _ Hbc Hnow Ha) as
    [(e & He & _)|[(-> & -> & _ & Hno)|(next & mp & _ & Hacc & Hmp & _)]]; [congruence|by right|left].
  exists t, next, mp. split_and!; [done..|]. rewrite <- Ha. unfold add_block. rewrite Hu, Ht. cbn [mbind result_bind].
  destruct Hacc as (t' & reward & fees & Ht' & Hh & He & Hfresh). rewrite Ht in Ht'. injection Ht' as <-.
  assert (validate_and_apply_block b t (state bc) clock ct = Ok (Some next)) as ->
    by (apply (validate_and_apply_Ok _ _ _ _ _ _ _ Hnow); eauto).
  cbn [mbind result_bind]. rewrite existsb_hash, bool_decide_eq_false_2, Hmp by done.
  unfold commit. rewrite Ht. destruct (store bc) as [s|]; [|done].
  by destruct (append_block _ _ _ _ _) as [[rev|e] s'].
Qed.

(** C6: with a store, a transition is all or nothing.  If submitting, removing
    or adding a block raises, the blocks, the ledger, the pool and the revision
    are what they were; if the failure came from the commit, the error is a
    storage error and every later operation refuses to run. *)
Theorem failed_operation_atomic bc bc' e :
  (∃ tx, submit_transaction tx bc = (Raise e, bc')) ∨
  (∃ tid, remove_pending_transaction tid bc = (Raise e, bc')) ∨
  (∃ b clock ct, add_block b clock ct bc = (Raise e, bc')) →
  core bc' = core bc ∧
  (bc' = bc ∨ is_storage_error e = true ∧ ∃ e', ensure_usable bc' = Raise e').
Proof.
  assert (∀ bs st mp b (A : Type) (k : A), commit bs st mp b bc = (Raise e, bc') →
    core bc' = core bc ∧ (bc' = bc ∨ is_storage_error e = true ∧ ∃ e', ensure_usable bc' = Raise e')) as Hcommit.
  { intros bs st mp b _ _ [(? & ? & ? & _)|(s & e1 & [= <-] & Hse & Hc & Hf & _ & _)]%commit_cases; [done|].
    split; [done|right]. split; [done|]. unfold ensure_usable. rewrite Hf.
    destruct (closed bc'); by eexists. }
  assert (∀ change, pool_change change bc = (Raise e, bc') →
    core bc' = core bc ∧ (bc' = bc ∨ is_storage_error e = true ∧ ∃ e', ensure_usable bc' = Raise e')) as Hpool.
  { intros change. unfold pool_change. destruct (ensure_usable bc); [|intros [= _ <-]; auto].
    destruct (store bc).
    - destruct (_ ≫= _) as [[[] mp]|]; [|intros [= _ <-]; auto..|intros [= _ <-]; auto].
      destruct (commit _ _ _ _ bc) as [[u|x] bc1] eqn:Hcm; [done|]. intros [= -> ->].
      by eapply (Hcommit _ _ _ _ unit tt).
    - destruct (change (mempool bc)) as [[v mp]|]; [done|]. intros [= _ <-]. auto. }
  intros [[tx H]|[[tid H]|(b & clock & ct & H)]]; [by eapply Hpool..|].
  unfold add_block in H. destruct (_ ≫= _) as [[next|]|]; [|done|by injection H as _ <-; auto].
  case_match; [done|]. destruct (revalidated _ _ _) as [mp|]; [|by injection H as _ <-; auto].
  destruct (commit _ _ _ _ bc) as [[u|x] bc1] eqn:Hcm; [done|]. injection H as -> ->.
  by eapply (Hcommit _ _ _ _ unit tt).
Qed.

(** ** From the pool to the chain *)

(** The candidate built from the pool carries the greedy selection, and its
    fees are the recorded ones. *)
Lemma mempool_template_Ok bc t0 miner clock timestamp max_tx max_b b :
  bc_inv t0 bc → 0 <= max_tx → 0 <= max_b →
  create_mempool_block_template bc miner clock timestamp max_tx max_b = Ok b →
  ∃ t ts u' s', tip bc = Some t ∧
    let sel := selected (select_entries (mempool bc) max_tx max_b) in
    ensure_usable bc = Ok tt ∧
    template_of t miner (entry_tx <$> sel) (utxo_set (state bc)) (seen_txids (state bc)) ts
      (sumZ_with (entry_fee ∘ snd) sel) u' s' b.
Proof.
  intros Hbc Hmt Hmb Htmpl. unfold create_mempool_block_template in Htmpl.
  apply bind_Ok in Htmpl as ([] & Hu & Htmpl). apply bind_Ok in Htmpl as (txs & Hsel & Htmpl).
  unfold chain_block_template in Htmpl. rewrite Hu in Htmpl. cbn [mbind result_bind] in Htmpl.
  destruct (bc_inv_tip _ _ Hbc) as (l & t & _ & Ht). rewrite Ht in Htmpl. cbn [mbind result_bind] in Htmpl.
  apply create_block_template_Ok in Htmpl as (ts & fees & u' & s' & Htm & _). cbn [default] in Htm.
  unfold select_transactions, check_limit in Hsel.
  rewrite !(proj2 (Z.ltb_ge _ 0)) in Hsel by done. cbn [raise_if mbind result_bind] in Hsel.
  injection Hsel as <-.
  pose proof (select_loop_inv (mempool bc) max_tx max_b (length (entries (mempool bc))) _
    (selection_inv_init (mempool bc) _ _ Hmt Hmb)) as Hinv.
  destruct (selection_run _ _ _ _ (bc_pool _ _ Hbc) (bc_inv_keys _ _ Hbc) Hinv) as (u2 & s2 & Hrun2).
  rewrite (bc_pool_utxos _ _ Hbc), (bc_pool_seen _ _ Hbc) in Hrun2.
  destruct (run_deterministic _ _ _ _ _ _ _ _ _ (template_run _ _ _ _ _ _ _ _ _ _ Htm) Hrun2) as (-> & _ & _).
  exists t, ts, u', s'. cbn zeta.
  split_and!; [done|done|exact Htm].
Qed.

(** What the pool holds after a block is not in the block. *)
Lemma confirmed_not_pending now bc b next mp tx :
  mempool_inv (mempool bc) → accepts now bc b next →
  revalidated (mempool bc) (utxo_set next) (seen_txids next) = Ok mp → tx ∈ transactions b →
  txid tx ∈ seen_txids next ∧ txid tx ∉ (entries mp).*1.
Proof.
  intros Hm (t & reward & fees & _ & _ & He & _) Hmp Hin.
  assert (txid tx ∈ seen_txids next) as Htx.
  { rewrite (block_effect_seen _ _ _ _ _ He). apply elem_of_union_l, elem_of_list_to_set.
    by apply list_elem_of_fmap_2. }
  split; [done|]. intros Hpend. destruct (revalidated_inv _ _ _ _ Hm Hmp) as (Hp & _ & Hs & _).
  revert Htx. rewrite <- Hs. eapply pending_not_seen; [apply Hp|exact Hpend].
Qed.

(** *** The hash of a candidate is new *)

Lemma header_to_bytes_inj h h' : header_to_bytes h = header_to_bytes h' → h = h'.
Proof.
  unfold header_to_bytes, serialize. intros H.
  assert (dumps (header_to_dict h) = dumps (header_to_dict h')) as Hd.
  { by rewrite <- (String.string_of_list_byte_of_string (dumps (header_to_dict h))), H, String.string_of_list_byte_of_string. }
  pose proof (f_equal (loads (λ m, Ok (JObj m)) ValueError) Hd) as Hl.
  rewrite !loads_dumps in Hl by done. apply (inj Ok) in Hl. vm_compute in Hl.
  destruct h, h'. by injection Hl as -> -> -> -> -> ->.
Qed.

(** The parents are blocks of the chain below the tip. *)
Lemma chain_parents now bs st : chain now bs st → ∀ l t e, bs = l ++ [t] → e ∈ bs →
  is_genesis_block e = true ∨ previous_block_hash e ∈ map block_hash l.
Proof.
  induction 1 as [g _ Hg|bs previous b st reward fees st' _ IH Hh _ _]; intros l t e Heq He.
  - apply list_elem_of_singleton in He as ->. by left.
  - apply app_inj_tail in Heq as [<- <-]. apply elem_of_app in He as [He| ->%list_elem_of_singleton].
    + destruct (IH bs previous e eq_refl He) as [?|Hp]; [by left|right]. rewrite map_app. apply elem_of_app. by left.
    + right. rewrite (header_link _ _ _ Hh), map_app. apply elem_of_app. right. by left.
Qed.

Lemma chain_tip_new now l t st : chain now (l ++ [t]) st → block_hash t ∉ map block_hash l.
Proof.
  intros Hc. inversion Hc as [g _ _ Heq|bs p b ? ? ? ? _ _ _ Hno Heq].
  - destruct l as [|? [|]]; [apply not_elem_of_nil|done|done].
  - apply app_inj_tail in Heq as [<- <-]. done.
Qed.

(** A candidate on the tip has the hash of a block of the chain only if SHA-256
    collides on their headers. *)
Lemma candidate_hash_new t0 bc t b :
  bc_inv t0 bc → tip bc = Some t → previous_block_hash b = block_hash t → block_difficulty b = 16 →
  block_hash b ∈ map block_hash (blocks bc) →
  ∃ e, e ∈ genesis_block :: blocks bc ∧ header_to_bytes (block_header e) ≠ header_to_bytes (block_header b) ∧
    block_hash e = block_hash b.
Proof.
  intros Hbc Ht Hprev Hd Hin. destruct (bc_inv_tip _ _ Hbc) as (l & t' & Hl & Ht').
  rewrite Ht in Ht'. injection Ht' as <-. pose proof (bc_chain _ _ Hbc) as Hc.
  apply list_elem_of_fmap in Hin as (e & He & Hin).
  destruct (chain_parents _ _ _ Hc l t e Hl Hin) as [Hg|Hp].
  - exists genesis_block. split_and!; [by left| |].
    + intros Heq%header_to_bytes_inj. apply (f_equal header_difficulty) in Heq. cbn in Heq. congruence.
    + rewrite He, genesis_block_hash. unfold is_genesis_block in Hg. case_bool_decide; [done|]. by to_prop.
  - exists e. split_and!; [by right| |done]. intros Heq%header_to_bytes_inj.
    apply (f_equal header_previous_block_hash) in Heq. cbn in Heq. rewrite Heq, Hprev in Hp.
    rewrite Hl in Hc. exact (chain_tip_new _ _ _ _ Hc Hp).
Qed.

(** C7: a block mined on the candidate built from the pool is accepted, unless
    it is too far ahead in time, repeats a hash of the chain, or the store fails:
    the selection, the fee computation, the coinbase, the search and the
    validation agree. The block holds the pool's greedy selection within the limits, after
    a coinbase that pays the miner the subsidy plus the recorded fees of the
    selection. At the time [now], [add_block] rejects it without a change
    exactly when its timestamp is more than two hours ahead of [now] or its hash
    is that of a block of the chain, which needs two headers on which SHA-256
    collides. Otherwise it is appended, in memory and on a store that commits,
    and then its transactions are confirmed and no longer pending; a store that
    fails leaves the chain, the ledger and the pool as they were. *)
Theorem mined_pending_accepted bc t0 miner clock timestamp max_tx max_b b start_nonce max_nonce b' clock' ct now :
  bc_inv t0 bc → 0 <= max_tx → 0 <= max_b →
  create_mempool_block_template bc miner clock timestamp max_tx max_b = Ok b →
  mine_block b start_nonce max_nonce = Ok (Some b') →
  resolve_current_time clock' ct = Ok now →
  let sel := selected (select_entries (mempool bc) max_tx max_b) in
  let refused := now + 7200 < block_timestamp b' ∨ block_hash b' ∈ map block_hash (blocks bc) in
  transactions b' = MkTransaction []
    [MkTxOutput (50 + sumZ_with (entry_fee ∘ snd) sel) miner] (block_timestamp b') 1 :: (entry_tx <$> sel) ∧
  (block_hash b' ∈ map block_hash (blocks bc) →
     ∃ e, e ∈ genesis_block :: blocks bc ∧ header_to_bytes (block_header e) ≠ header_to_bytes (block_header b') ∧
       block_hash e = block_hash b') ∧
  (refused → add_block b' clock' ct bc = (Ok false, bc)) ∧
  (¬ refused → ∃ r bc', add_block b' clock' ct bc = (r, bc') ∧
     ((r = Ok true ∧ blocks bc' = blocks bc ++ [b'] ∧
       ∀ tx, tx ∈ transactions b' →
         txid tx ∈ seen_txids (state bc') ∧ txid tx ∉ (entries (mempool bc')).*1) ∨
      (store bc ≠ None ∧ core bc' = core bc ∧ ∃ e, r = Raise e ∧ is_storage_error e = true))).
Proof.
  intros Hbc Hmt Hmb Htmpl (n & Hn & -> & Hsol)%mine_block_solves Hnow sel refused.
  destruct (mempool_template_Ok _ _ _ _ _ _ _ _ Hbc Hmt Hmb Htmpl) as (t & ts & u' & s' & Ht & Hu & Htm).
  destruct (template_block _ _ _ _ _ _ _ _ _ _ Htm) as (root & _ & Hb).
  destruct (add_block (set_nonce b n) clock' ct bc) as [r bc'] eqn:Ha.
  destruct (add_block_cases _ _ _ _ _ _ _ _ Hbc Hnow Ha) as
    [(e & He & _)|[(-> & -> & _ & Hno)|(next & mp & _ & Hacc & Hmp & Hr)]]; [congruence| |].
  - split_and!; [by rewrite Hb|apply (candidate_hash_new t0 bc t); rewrite ?Hb; done|done|].
    intros Hok. exfalso. destruct (template_mined _ _ _ _ _ _ _ _ _ n now
      (ledger_keys _ _ (chain_ledger _ _ _ (bc_chain _ _ Hbc))) (bc_tip_wf _ _ _ Hbc Ht) Htm Hn Hsol) as [Hh [next He]].
    { assert (block_timestamp (set_nonce b n) = ts) as Hts by by rewrite Hb. unfold refused in Hok. lia. }
    apply (Hno next). eexists t, _, _. split_and!; try done. intros Hin. apply Hok. by right.
  - split_and!; [by rewrite Hb|apply (candidate_hash_new t0 bc t); rewrite ?Hb; done| |].
    + intros Href. exfalso. destruct Hacc as (t' & reward & fees & _ & Hh & _ & Hfresh).
      destruct Href as [Hfut|Hin]; [|done]. pose proof (header_not_future _ _ _ Hh). lia.
    + intros _. exists r, bc'. split; [done|]. destruct Hr as [(s & rev & -> & ->)|(s & e & -> & He & Hc & _ & Hs)].
      * left. split_and!; [done..|]. intros tx Hin. eapply confirmed_not_pending; [apply Hbc|exact Hacc|exact Hmp|exact Hin].
      * right. split_and!; [by rewrite Hs|done|by exists e].
Qed.

(** ** Queries *)

Lemma locate_Some tid bs : ∀ h r,
  locate tid h bs = Some r →
  ∃ n b tx, bs !! n = Some b ∧ tx ∈ transactions b ∧ txid tx = tid ∧
    r = Confirmed tx (h + Z.of_nat n) (block_hash b).
Proof.
  induction bs as [|b bs IH]; intros h r; cbn [locate]; [done|].
  destruct (list_find _ _) as [[i tx]|] eqn:Hf.
  - intros [= <-]. apply list_find_Some in Hf as (Hi & Htx & _).
    exists 0%nat, b, tx. split_and!; [done|by eapply list_elem_of_lookup_2|done|]. f_equal. lia.
  - intros (n & b' & tx & ? & ? & ? & ->)%IH. exists (S n), b', tx. split_and!; try done. f_equal. lia.
Qed.

Lemma locate_None tid bs : ∀ h, locate tid h bs = None → tid ∉ txid <$> chain_txs bs.
Proof.
  induction bs as [|b bs IH]; intros h; cbn [locate]; [by intros _ ?%elem_of_nil|].
  destruct (list_find _ _) as [[i tx]|] eqn:Hf; [done|]. intros Hl.
  unfold chain_txs. cbn [mbind list_bind]. rewrite fmap_app. intros [Hin|Hin]%elem_of_app; [|by eapply IH].
  apply list_elem_of_fmap in Hin as (tx & -> & Hin). apply list_find_None in Hf.
  eapply Forall_forall in Hf; [|exact Hin]. done.
Qed.

Lemma get_transaction_Some now bc tid tx :
  bc_inv now bc → get_transaction (mempool bc) tid = Some tx →
  tx ∈ get_transactions (mempool bc) ∧ txid tx = tid.
Proof.
  intros Hbc. unfold get_transaction, get_entry.
  destruct (list_find _ _) as [[i [k e]]|] eqn:Hf; [|done]. intros [= <-].
  apply list_find_Some in Hf as (Hi & Hk & _). cbn in Hk. subst k.
  apply list_elem_of_lookup_2 in Hi. split.
  - unfold get_transactions. by apply (list_elem_of_fmap_2 entry_tx _ (tid, e)).
  - symmetry. exact (proj1 (pending_entry _ _ _ _ _ (inv_pending _ (bc_pool _ _ Hbc)) Hi)).
Qed.

Lemma get_transaction_None bc tid :
  get_transaction (mempool bc) tid = None → tid ∉ (entries (mempool bc)).*1.
Proof.
  unfold get_transaction, get_entry. destruct (list_find _ _) as [[i p]|] eqn:Hf; [done|].
  intros _ (p & -> & Hp)%list_elem_of_fmap. apply list_find_None in Hf.
  eapply Forall_forall in Hf; [|exact Hp]. done.
Qed.

(** [find_transaction] answers for every identifier: a pending
    transaction with it; or the confirmed one, with the height and hash of the
    block that holds it; or nothing, and then it is neither pending nor in the
    chain. *)
Theorem find_transaction_exact bc now tid :
  bc_inv now bc → ensure_usable bc = Ok tt →
  ∃ answer, find_transaction bc tid = Ok answer ∧
  match answer with
  | Some (Pending tx) => tx ∈ get_transactions (mempool bc) ∧ txid tx = tid
  | Some (Confirmed tx h hash) => ∃ b, 0 <= h ∧ blocks bc !! Z.to_nat h = Some b ∧
      tx ∈ transactions b ∧ txid tx = tid ∧ hash = block_hash b ∧ tid ∉ (entries (mempool bc)).*1
  | None => tid ∉ (entries (mempool bc)).*1 ∧ tid ∉ txid <$> chain_txs (blocks bc)
  end.
Proof.
  intros Hbc Hu. unfold find_transaction. rewrite Hu. cbn [mbind result_bind]. eexists. split; [done|].
  destruct (get_transaction (mempool bc) tid) as [tx|] eqn:Hp; [by eapply get_transaction_Some|].
  apply get_transaction_None in Hp. case_bool_decide as Hs.
  - destruct (locate tid 0 (blocks bc)) as [r|] eqn:Hl.
    + apply locate_Some in Hl as (n & b & tx & ? & ? & ? & ->). exists b.
      rewrite Z.add_0_l, Nat2Z.id. split_and!; [lia|done..].
    + split; [done|]. by eapply locate_None.
  - split; [done|]. intros Hin. apply Hs.
    rewrite (ledger_seen _ _ (chain_ledger _ _ _ (bc_chain _ _ Hbc))). by apply elem_of_list_to_set.
Qed.

(** Block queries agree with the chain: [get_blocks] returns the slice of
    at most [limit] blocks from [start], empty outside the valid ranges, and
    [get_block_by_height] the block at a height that exists. *)
Theorem block_queries bc start limit h :
  ensure_usable bc = Ok tt →
  (∃ l, get_blocks bc start limit = Ok l ∧
     (0 <= start → 1 <= limit <= 100 →
        Z.of_nat (length l) <= limit ∧
        ∀ i, (i < length l)%nat → l !! i = blocks bc !! (Z.to_nat start + i)%nat) ∧
     (0 <= start < Z.of_nat (length (blocks bc)) → 1 <= limit <= 100 →
        length l = Z.to_nat (Z.min limit (Z.of_nat (length (blocks bc)) - start))) ∧
     (start < 0 ∨ limit < 1 ∨ 100 < limit → l = [])) ∧
  (∃ b, get_block_by_height bc h = Ok b ∧
     b = if decide (0 <= h) then blocks bc !! Z.to_nat h else None).
Proof.
  intros Hu. unfold get_blocks, get_block_by_height. rewrite Hu. cbn [mbind result_bind]. split.
  - eexists. split; [done|].
    destruct ((start <? 0) || (limit <? 1) || (100 <? limit)) eqn:Hg; to_prop.
    + apply orb_true_iff in Hg. rewrite orb_true_iff, !Z.ltb_lt in Hg. split_and!; [lia|lia|done].
    + destruct (_ <=? start) eqn:Hs; to_prop; (split_and!; [intros _ _|intros ? _|lia]); [|lia| |].
      * split; [cbn; lia|]. cbn. lia.
      * rewrite length_take, length_drop. split; [lia|]. intros i Hi.
        rewrite lookup_take_lt by lia. by rewrite lookup_drop.
      * rewrite length_take, length_drop. lia.
  - eexists. split; [done|]. case_decide as Hh.
    + rewrite (proj2 (Z.ltb_ge _ _)) by done. cbn [orb]. destruct (_ <=? h) eqn:Hlen; [|done]. to_prop.
      symmetry. apply lookup_ge_None. lia.
    + by rewrite (proj2 (Z.ltb_lt _ _)) by lia.
Qed.
End node.

(** ** Witnesses *)

(** A store that answers its calls from a script. *)
Definition answer_from (script : list (result Z)) : result Z * list (result Z) :=
  match script with r :: rest => (r, rest) | [] => (Raise StorageClosedError, []) end.

#[local] Instance scripted_store : ChainStore := {|
  Store := list (result Z);
  load_or_initialize s _ _ _ _ := (Raise StorageCorruptionError, s);
  append_block s _ _ _ _ := answer_from s;
  replace_mempool s _ _ := answer_from s;
  close_store s := (Ok tt, s)
|}.

#[local] Instance scripted_store_laws : ChainStoreLaws.
Proof. done. Qed.

Definition empty_pool : Mempool := MkMempool 10 100000 ∅ ∅ ∅ [] 0.
Definition node_on (s : option (list (result Z))) : Blockchain :=
  MkBlockchain s false false 0 [genesis_block] empty_state empty_pool.
Definition sample_node : Blockchain := node_on None.

Lemma sample_node_new : new_blockchain None (Some 10) (Some 100000) = Ok sample_node.
Proof. unfold new_blockchain. rewrite create_genesis_block_Ok. reflexivity. Qed.

Lemma node_on_inv s now : bc_inv now (node_on s).
Proof.
  apply (bc_inv_core now sample_node); [done|]. exact (proj1 (new_blockchain_inv _ _ _ _ sample_node_new) now).
Qed.

(** After the mined block, Alice spends her reward with a fee of 3, and the
    payment is mined in a second block. *)
Definition funded_node : Blockchain := (add_block block1 sample_time None sample_node).2.
Definition reward_id : string := Eval vm_compute in
  match transactions block1 with tx :: _ => txid tx | [] => EmptyString end.
Definition reward_payment : Transaction := Eval vm_compute in
  or_empty (sign_input
    (MkTransaction [MkTxInput reward_id 0 EmptyString EmptyString]
       [MkTxOutput 30 bob_address; MkTxOutput 17 alice_address] sample_time 1) 0 alice).
Definition pending_node : Blockchain := (submit_transaction reward_payment funded_node).2.
Definition candidate2 : Block := Eval vm_compute in
  or_no_block (create_mempool_block_template pending_node alice_address sample_time None 100 100000).
Definition block2 : Block := set_nonce candidate2 27.

Lemma funded_node_inv : bc_inv sample_time funded_node.
Proof.
  pose proof (add_block_inv sample_time sample_time sample_time None block1 sample_node
    (add_block block1 sample_time None sample_node).1 funded_node (node_on_inv None sample_time)
    eq_refl (surjective_pairing _)) as H.
  by rewrite Z.max_id in H.
Qed.

Lemma pending_node_inv : bc_inv sample_time pending_node.
Proof. exact (submit_transaction_inv _ _ _ _ _ funded_node_inv (surjective_pairing _)). Qed.

Lemma candidate2_built :
  create_mempool_block_template pending_node alice_address sample_time None 100 100000 = Ok candidate2.
Proof. vm_compute. reflexivity. Qed.

Lemma block2_mined : mine_block candidate2 0 200 = Ok (Some block2).
Proof. vm_compute. reflexivity. Qed.

#[local] Opaque candidate2 block2 reward_payment.

Lemma reachable_consistent_witness :
  blocks funded_node = [genesis_block; block1] ∧ chain sample_time (blocks funded_node) (state funded_node) ∧
  validate_blockchain funded_node sample_time None = Ok true.
Proof.
  assert (rtc (bc_step sample_time) sample_node funded_node) as Hsteps
    by exact (rtc_once _ _ (step_add sample_time block1 sample_time None sample_time
      (add_block block1 sample_time None sample_node).1 sample_node funded_node eq_refl (Z.le_refl _) (surjective_pairing _))).
  destruct (reachable_consistent sample_time sample_node funded_node ltac:(vm_compute; discriminate)
    (start_new sample_time sample_node None (Some 10) (Some 100000) sample_node_new) Hsteps) as (Hc & _ & _ & _ & _ & Hv).
  split_and!; [vm_compute; reflexivity|exact Hc|exact (Hv sample_time (Z.le_refl _) ltac:(vm_compute; reflexivity))].
Defined.

(** The block is accepted in memory and on a store that commits; a store that
    fails leaves the chain; the genesis block is not accepted again. *)
Lemma add_block_exact_witness :
  (∃ next, accepts sample_time sample_node block1 next) ∧
  (∃ bc', add_block block1 sample_time None (node_on (Some [Ok 1])) = (Ok true, bc') ∧
     revision bc' = 1 ∧ blocks bc' = [genesis_block; block1]) ∧
  (∃ bc', add_block block1 sample_time None (node_on (Some [Raise OSError])) = (Raise StorageCommitUncertainError, bc') ∧
     storage_failed bc' = true ∧ blocks bc' = [genesis_block]) ∧
  (∀ next, ¬ accepts sample_time sample_node genesis_block next).
Proof.
  pose proof (λ s b, add_block_exact (node_on s) b sample_time None sample_time (node_on_inv s sample_time)) as H.
  assert ((add_block block1 sample_time None (node_on None)).1 = Ok true) as Hr1 by (vm_compute; reflexivity).
  assert ((add_block block1 sample_time None (node_on (Some [Ok 1]))).1 = Ok true) as Hr2 by (vm_compute; reflexivity).
  assert ((add_block block1 sample_time None (node_on (Some [Raise OSError]))).1 = Raise StorageCommitUncertainError) as Hr3
    by (vm_compute; reflexivity).
  assert ((add_block genesis_block sample_time None sample_node).1 = Ok false) as Hg by (vm_compute; reflexivity).
  split_and!.
  - destruct (H None block1) as [(t & next & mp & _ & Hacc & _)|[_ Ha]]; [exact (ex_intro _ next Hacc)|].
    rewrite Ha in Hr1. discriminate Hr1.
  - destruct (H (Some [Ok 1]) block1) as [(t & next & mp & _ & _ & _ & Ha)|[_ Ha]]; rewrite Ha; [|rewrite Ha in Hr2; discriminate Hr2].
    exact (ex_intro _ _ (conj eq_refl (conj eq_refl eq_refl))).
  - destruct (H (Some [Raise OSError]) block1) as [(t & next & mp & _ & _ & _ & Ha)|[_ Ha]]; rewrite Ha; [|rewrite Ha in Hr3; discriminate Hr3].
    exact (ex_intro _ _ (conj eq_refl (conj eq_refl eq_refl))).
  - destruct (H None genesis_block) as [(t & next & mp & _ & _ & _ & Ha)|[Hno _]]; [|exact Hno].
    unfold sample_node in Hg. rewrite Ha in Hg. discriminate Hg.
Defined.

(** A commit that fails: nothing is published, and the object refuses to run. *)
Lemma failed_operation_atomic_witness :
  ∃ bc', add_block block1 sample_time None (node_on (Some [Raise OSError])) = (Raise StorageCommitUncertainError, bc') ∧
    core bc' = core (node_on (Some [Raise OSError])) ∧ ∃ e', ensure_usable bc' = Raise e'.
Proof.
  assert ((λ p : result bool * Blockchain, (p.1, storage_failed p.2)) (add_block block1 sample_time None (node_on (Some [Raise OSError])))
          = (Raise StorageCommitUncertainError, true)) as Hr by (vm_compute; reflexivity).
  destruct (add_block block1 sample_time None (node_on (Some [Raise OSError]))) as [r bc'] eqn:Ha.
  apply pair_equal_spec in Hr as [Hr Hfail]. cbn [fst snd] in Hr, Hfail. subst r.
  destruct (failed_operation_atomic (node_on (Some [Raise OSError])) bc' StorageCommitUncertainError
    (or_intror (or_intror (ex_intro _ block1 (ex_intro _ sample_time (ex_intro _ None Ha)))))) as (Hc & Hf).
  exists bc'. split_and!; [reflexivity|exact Hc|]. destruct Hf as [->|[_ Hf]]; [discriminate Hfail|exact Hf].
Defined.

Lemma mined_pending_accepted_witness :
  ∃ bc', add_block block2 sample_time None pending_node = (Ok true, bc') ∧
    blocks bc' = [genesis_block; block1; block2] ∧
    transactions block2 = [MkTransaction [] [MkTxOutput 53 alice_address] (block_timestamp block2) 1; reward_payment] ∧
    txid reward_payment ∈ seen_txids (state bc') ∧ txid reward_payment ∉ (entries (mempool bc')).*1.
Proof.
  destruct (mined_pending_accepted pending_node sample_time alice_address sample_time None 100 100000
    candidate2 0 200 block2 sample_time None sample_time pending_node_inv ltac:(lia) ltac:(lia)
    candidate2_built block2_mined eq_refl) as (Htx & _ & _ & Hok).
  assert (transactions block2 = [MkTransaction [] [MkTxOutput 53 alice_address] (block_timestamp block2) 1; reward_payment])
    as Htxs by (vm_compute; reflexivity).
  destruct Hok as (r & bc' & Ha & [(-> & Hbs & Hconf)|(Hst & _)]).
  - intros [Hfut|Hin]; [vm_compute in Hfut; discriminate Hfut|]. revert Hin.
    apply (bool_decide_unpack (block_hash block2 ∉ map block_hash (blocks pending_node))). vm_compute. exact I.
  - exists bc'. split_and!; [exact Ha| |exact Htxs| |].
    + rewrite Hbs. assert (blocks pending_node = [genesis_block; block1]) as -> by (vm_compute; reflexivity). reflexivity.
    + apply Hconf. rewrite Htxs. right. left.
    + apply Hconf. rewrite Htxs. right. left.
  - exfalso. apply Hst. vm_compute. reflexivity.
Defined.

Lemma find_transaction_exact_witness :
  ∃ answer, find_transaction sample_node funding_txid = Ok answer.
Proof.
  destruct (find_transaction_exact sample_node 0 funding_txid (node_on_inv None 0) eq_refl) as (a & Ha & _).
  exact (ex_intro _ a Ha).
Defined.

Lemma block_queries_witness : ∃ l, get_blocks sample_node 0 10 = Ok l ∧ length l = 1%nat.
Proof.
  destruct (block_queries sample_node 0 10 0 eq_refl) as [(l & Hl & _ & Hlen & _) _].
  exists l. split; [exact Hl|]. rewrite Hlen; [reflexivity|vm_compute; split; [discriminate|reflexivity]|lia].
Defined.
