(* ===== verification/Wallet.v ===== *)
(** * wallet/: coin selection and transaction building

    [coin_selection.py] and [transaction_builder.py].  The available outputs
    are a dict sorted by amount and outpoint before use, so its order does not
    matter and it is a finite map here. *)

From S2P Require Import Prelude Bytes Sha256 Json Crypto Transaction Utxo TxValidation Signing.
From S2P Require Import Processing Block.

(** ** coin_selection.py *)

Abbreviation Coin := (Outpoint * TxOutput)%type.

Record CoinSelection := MkCoinSelection {
  coins : list Coin;
  coins_total : Z;
  coins_change : Z
}.

(** The sort key [(amount, txid, index)]. *)
Definition coin_le (p q : Coin) : Prop :=
  amount p.2 < amount q.2 ∨
  amount p.2 = amount q.2 ∧
    (String.le p.1.1 q.1.1 ∧ p.1.1 ≠ q.1.1 ∨ p.1.1 = q.1.1 ∧ p.1.2 <= q.1.2).

#[export] Instance coin_le_dec : RelDecision coin_le.
Proof. intros p q. unfold coin_le. apply _. Defined.

(** The [for] loop. *)
Fixpoint select_coins (l : list Coin) (target amount_ fee_ : Z) (selected : list Coin) (total : Z) :
    result CoinSelection :=
  match l with
  | [] => Raise InsufficientBalanceError
  | c :: l =>
      if amount c.2 <=? 0 then Raise ValueError
      else
        let total := total + amount c.2 in
        if target <=? total then Ok (MkCoinSelection (selected ++ [c]) total (total - amount_ - fee_))
        else select_coins l target amount_ fee_ (selected ++ [c]) total
  end.

Definition select_utxos (utxos : UTXOSet) (amount_ fee_ : Z) : result CoinSelection :=
  _ ← raise_if ((amount_ <=? 0) || (fee_ <? 0)) ValueError;
  select_coins (merge_sort coin_le (map_to_list utxos)) (amount_ + fee_) amount_ fee_ [] 0.

(** ** transaction_builder.py *)

Section builder.
Context {E : EcdsaLib}.

(** The loop [for index in range(len(tx.inputs)): tx.sign_input(index, key)]. *)
Fixpoint sign_from (tx : Transaction) (index count : nat) (private_key : SigningKey) : result Transaction :=
  match count with
  | O => Ok tx
  | S count =>
      tx ← sign_input tx (Z.of_nat index) private_key;
      sign_from tx (S index) count private_key
  end.

(** The inputs with every signature replaced by zeros of its width. *)
Definition placeholder_inputs (private_key : SigningKey) (l : list TxInput) : list TxInput :=
  map (λ i, MkTxInput (previous_tx_id i) (output_index i)
              (public_key_to_hex (sk_verifying_key private_key))
              (str_repeat "0" (4 * sk_baselen private_key))) l.

Definition build_signed_transaction (selected_utxos : list Coin) (sender recipient : string)
    (amount_ fee_ : Z) (private_key : SigningKey) (clock : Z) (timestamp : option Z)
    (max_bytes : option Z) : result Transaction :=
  _ ← raise_if ((amount_ <=? 0) || (fee_ <? 0)) ValueError;
  _ ← raise_if (negb (validate_address recipient)
                || bool_decide (public_key_to_address (sk_verifying_key private_key) ≠ sender)) ValueError;
  _ ← raise_if (bool_decide (selected_utxos = []) || negb (all_distinct (map fst selected_utxos))) ValueError;
  _ ← raise_if (existsb (λ c, bool_decide (recipient_address c.2 ≠ sender) || (amount c.2 <=? 0))
                  selected_utxos) ValueError;
  let total := sumZ_with (λ c, amount c.2) selected_utxos in
  let change := total - amount_ - fee_ in
  _ ← raise_if (change <? 0) ValueError;
  let outs := MkTxOutput amount_ recipient :: (if change =? 0 then [] else [MkTxOutput change sender]) in
  _ ← raise_if (match timestamp with None => false | Some t => t <? 0 end) ValueError;
  let tx := MkTransaction (map (λ c, MkTxInput c.1.1 c.1.2 EmptyString EmptyString) selected_utxos)
              outs (default clock timestamp) 1 in
  tx ← match max_bytes with
       | None => Ok tx
       | Some limit =>
           let tx := set_inputs tx (placeholder_inputs private_key (inputs tx)) in
           _ ← raise_if (limit <? Z.of_nat (length (transaction_bytes tx))) TransactionWorkLimitError;
           Ok tx
       end;
  sign_from tx 0 (length (inputs tx)) private_key.
End builder.

(** * Facts about coin selection and transaction building *)

(** ** Coin selection *)

Lemma select_coins_Ok l target a f : ∀ sel total r,
  total = sumZ_with (λ c, amount c.2) sel →
  select_coins l target a f sel total = Ok r →
  ∃ l1 c l2, l = l1 ++ c :: l2 ∧ coins r = sel ++ l1 ++ [c] ∧
    coins_total r = sumZ_with (λ c, amount c.2) (coins r) ∧ coins_change r = coins_total r - a - f ∧
    target <= coins_total r ∧ Forall (λ c, 0 < amount c.2) (l1 ++ [c]) ∧
    (l1 = [] ∨ sumZ_with (λ c, amount c.2) (sel ++ l1) < target).
Proof.
  induction l as [|c l IH]; intros sel total r Htot; cbn [select_coins]; [done|].
  destruct (_ <=? 0) eqn:Hpos; [done|]. to_prop.
  assert (total + amount c.2 = sumZ_with (λ c, amount c.2) (sel ++ [c])) as Htot'
    by (rewrite sumZ_with_app; cbn; lia).
  destruct (target <=? _) eqn:Ht; to_prop.
  - intros [= <-]. exists [], c, l. cbn [coins coins_total coins_change app].
    split_and!; [done|done|done|done|lia|repeat constructor; lia|by left].
  - intros (l1 & c' & l2 & -> & Hc & ? & ? & ? & Hf & Hmin)%IH; [|done].
    exists (c :: l1), c', l2. rewrite Hc. rewrite <- !app_assoc in *. cbn [app] in *.
    split_and!; try done; [by rewrite Hc in *|constructor; [lia|done]|].
    right. destruct Hmin as [->|?]; [lia|done].
Qed.

Lemma select_coins_insufficient l target a f : ∀ sel total,
  total = sumZ_with (λ c, amount c.2) sel → total < target → Forall (λ c, 0 < amount c.2) l →
  (select_coins l target a f sel total = Raise InsufficientBalanceError ↔
     total + sumZ_with (λ c, amount c.2) l < target).
Proof.
  induction l as [|c l IH]; intros sel total Htot Hlt Hl; cbn [select_coins sumZ_with].
  { split; [lia|done]. }
  apply Forall_cons in Hl as [Hc Hl]. rewrite (proj2 (Z.leb_gt _ _)) by done.
  assert (0 <= sumZ_with (λ c, amount c.2) l) as Hnn
    by (apply sumZ_with_nonneg; eapply Forall_impl; [exact Hl|]; cbn; lia).
  destruct (target <=? _) eqn:Ht; to_prop; [split; [done|lia]|].
  rewrite IH; [|rewrite sumZ_with_app; cbn; lia|done|done]. lia.
Qed.

Lemma select_coins_raises l target a f : ∀ sel total e,
  Forall (λ c, 0 < amount c.2) l → select_coins l target a f sel total = Raise e →
  e = InsufficientBalanceError.
Proof.
  induction l as [|c l IH]; intros sel total e Hl; cbn [select_coins]; [by intros [= <-]|].
  apply Forall_cons in Hl as [Hc Hl]. rewrite (proj2 (Z.leb_gt _ _)) by done.
  case_match; [done|]. by apply IH.
Qed.

Lemma sumZ_with_map_to_list (u : UTXOSet) : sumZ_with (λ c, amount c.2) (map_to_list u) = utxo_total u.
Proof.
  induction u as [|k o u Hk IH] using map_ind.
  - rewrite map_to_list_empty, utxo_total_empty. done.
  - rewrite (map_to_list_insert _ _ _ Hk), utxo_total_insert by done. cbn [sumZ_with snd]. by rewrite IH.
Qed.

(** ** Signing every input *)

Section builder.
Context {E : EcdsaLib} {EL : EcdsaLaws E}.

(** The inputs from [index] on are signed; the others are as before. *)
Lemma sign_from_spec sk count : ∀ tx index tx' u,
  (index + count = length (inputs tx))%nat →
  (∀ n i, inputs tx !! n = Some i → (index <= n)%nat → ∃ o, u !! outpoint i = Some o ∧
     is_valid_output o = true ∧ recipient_address o = public_key_to_address (get_public_key sk)) →
  (∀ n i, inputs tx !! n = Some i → (n < index)%nat → authorised u tx n i) →
  sign_from tx index count sk = Ok tx' →
  spent_outpoints tx' = spent_outpoints tx ∧ same_signed_data tx' tx ∧
  (∀ n i, inputs tx' !! n = Some i → authorised u tx' n i) ∧
  (∀ n i, inputs tx' !! n = Some i → (n < index)%nat → inputs tx !! n = Some i) ∧
  (∀ n i, inputs tx' !! n = Some i → (index <= n)%nat →
     ∃ i0 msg, inputs tx !! n = Some i0 ∧
       i = signed_as (public_key_to_hex (get_public_key sk)) (bytes_hex (sign_message sk msg)) i0).
Proof.
  induction count as [|count IH]; intros tx index tx' u Hlen Hown Hauth; cbn [sign_from].
  { intros [= <-]. split_and!; [done|done| |done|].
    - intros n i Hi. apply Hauth; [done|]. apply lookup_lt_Some in Hi. lia.
    - intros n i Hi Hn. apply lookup_lt_Some in Hi. lia. }
  intros (tx1 & Hs & Hr)%bind_Ok.
  destruct (sign_input_frame _ _ _ _ Hs) as ((Hv1 & Ht1 & Ho1 & Hm1) & Hsp1 & Hother).
  destruct (sign_input_Ok _ _ _ _ Hs) as (i0 & msg & Hi0 & _ & Heq1).
  assert (inputs tx1 !! index = Some (signed_as (public_key_to_hex (get_public_key sk))
            (bytes_hex (sign_message sk msg)) i0)) as Hi1.
  { rewrite Heq1. cbn. by rewrite list_lookup_alter_eq, Hi0. }
  assert (∀ n i, inputs tx1 !! n = Some i → (S index <= n)%nat → ∃ o, u !! outpoint i = Some o ∧
     is_valid_output o = true ∧ recipient_address o = public_key_to_address (get_public_key sk)) as Hown1.
  { intros n i Hi Hn. rewrite Hother in Hi by lia. apply (Hown n); [done|lia]. }
  assert (∀ n i, inputs tx1 !! n = Some i → (n < S index)%nat → authorised u tx1 n i) as Hauth1.
  { intros n i Hi Hn. destruct (decide (n = index)) as [->|Hne].
    - destruct (Hown index i0 Hi0 (le_n _)) as (o & Ho & Hvo & Ha).
      destruct (sign_input_authorised u tx index sk tx1 i0 o) as (i' & Hi' & ?); [done..|]. congruence.
    - rewrite Hother in Hi by done. eapply sign_input_keeps_authorised; [exact Hs|done|done|].
      apply Hauth; [done|lia]. }
  destruct (IH tx1 (S index) tx' u) as (Hsp & (Hv & Ht & Ho & Hm) & Ha & Hlow & Hhigh); [|done..|].
  { rewrite Heq1. cbn. rewrite length_alter. lia. }
  split_and!; [congruence|split_and!; congruence|done| |].
  - intros n i Hi Hn. rewrite <- (Hother n) by lia. apply Hlow; [done|lia].
  - intros n i Hi Hn. destruct (decide (n = index)) as [->|Hne].
    + exists i0, msg. split; [done|]. assert (inputs tx1 !! index = Some i) as Hi' by (apply Hlow; [done|lia]).
      congruence.
    + destruct (Hhigh n i Hi ltac:(lia)) as (i1 & m1 & Hi1' & ->). rewrite Hother in Hi1' by done. eauto.
Qed.

Lemma sign_from_total sk count : ∀ tx index,
  (index + count = length (inputs tx))%nat → ∃ tx', sign_from tx index count sk = Ok tx'.
Proof.
  induction count as [|count IH]; intros tx index Hlen; cbn [sign_from]; [by eexists|].
  destruct (lookup_lt_is_Some_2 (inputs tx) index) as [i Hi]; [lia|].
  destruct (sign_input_total tx index sk i Hi) as [tx1 Hs]. rewrite Hs. cbn [mbind result_bind].
  apply IH. destruct (sign_input_Ok _ _ _ _ Hs) as (? & ? & _ & _ & ->). cbn. rewrite length_alter. lia.
Qed.

(** ** What the builder signs *)

Record unsigned_of (sel : list Coin) (sender recipient : string) (a f : Z) (sk : SigningKey)
    (ts : Z) (max_b : option Z) (tx : Transaction) : Prop := {
  unsigned_amounts : 0 < a ∧ 0 <= f;
  unsigned_recipient : validate_address recipient = true;
  unsigned_sender : sender = public_key_to_address (get_public_key sk);
  unsigned_coins : sel ≠ [] ∧ NoDup (map fst sel);
  unsigned_owned : Forall (λ c, recipient_address c.2 = sender ∧ 0 < amount c.2) sel;
  unsigned_change : 0 <= sumZ_with (λ c, amount c.2) sel - a - f;
  unsigned_inputs : map outpoint (inputs tx) = map fst sel;
  unsigned_outputs : outputs tx = MkTxOutput a recipient ::
    (if sumZ_with (λ c, amount c.2) sel - a - f =? 0 then []
     else [MkTxOutput (sumZ_with (λ c, amount c.2) sel - a - f) sender]);
  unsigned_header : tx_version tx = 1 ∧ tx_timestamp tx = ts;
  unsigned_limit : match max_b with
    | None => True
    | Some limit => Z.of_nat (length (transaction_bytes tx)) <= limit ∧
        Forall (λ i, public_key i = public_key_to_hex (sk_verifying_key sk) ∧
                     signature i = str_repeat "0" (4 * sk_baselen sk)) (inputs tx)
    end
}.

Lemma existsb_not_owned sel sender :
  existsb (λ c : Coin, bool_decide (recipient_address c.2 ≠ sender) || (amount c.2 <=? 0)) sel = false ↔
  Forall (λ c, recipient_address c.2 = sender ∧ 0 < amount c.2) sel.
Proof.
  induction sel as [|c sel IH]; cbn; [split; [constructor|done]|].
  rewrite !orb_false_iff, bool_decide_eq_false, Z.leb_gt, IH, Forall_cons.
  split; intros [[H ?] ?]; (split; [split|done]; [|done]); [by apply dec_stable|by intros []].
Qed.

Lemma build_signed_transaction_Ok sel sender recipient a f sk clock timestamp max_b tx' :
  build_signed_transaction sel sender recipient a f sk clock timestamp max_b = Ok tx' →
  (timestamp = None ∨ 0 <= default clock timestamp) ∧
  ∃ tx, unsigned_of sel sender recipient a f sk (default clock timestamp) max_b tx ∧
    sign_from tx 0 (length (inputs tx)) sk = Ok tx'.
Proof.
  unfold build_signed_transaction.
  intros (? & H1%raise_if_Ok & Hr)%bind_Ok. apply bind_Ok in Hr as (? & H2%raise_if_Ok & Hr).
  apply bind_Ok in Hr as (? & H3%raise_if_Ok & Hr). apply bind_Ok in Hr as (? & H4%raise_if_Ok & Hr).
  apply bind_Ok in Hr as (? & H5%raise_if_Ok & Hr). apply bind_Ok in Hr as (? & H6%raise_if_Ok & Hr).
  apply bind_Ok in Hr as (tx & Htx & Hr). apply existsb_not_owned in H4.
  apply orb_false_iff in H1 as [Ha%Z.leb_gt Hf%Z.ltb_ge].
  apply orb_false_iff in H2 as [Hrec%negb_false_iff Hsend%bool_decide_eq_false].
  apply orb_false_iff in H3 as [Hne%bool_decide_eq_false Hnd%negb_false_iff%all_distinct_true].
  apply Z.ltb_ge in H5. apply dec_stable in Hsend.
  split; [destruct timestamp; [right; by apply Z.ltb_ge|by left]|].
  exists tx. split; [|done].
  destruct max_b as [limit|].
  - apply bind_Ok in Htx as (? & Hlim%raise_if_Ok%Z.ltb_ge & [= <-]).
    constructor; cbn [inputs outputs tx_version tx_timestamp set_inputs]; try done.
    + unfold placeholder_inputs. rewrite !map_map. apply map_ext. by intros [[? ?] ?].
    + split; [exact Hlim|]. unfold placeholder_inputs. apply Forall_forall.
      intros i (j & -> & _)%list_elem_of_fmap. done.
  - injection Htx as <-. constructor; cbn [inputs outputs tx_version tx_timestamp]; try done.
    rewrite map_map. apply map_ext. by intros [[? ?] ?].
Qed.

(** ** The size of a signed transaction *)

(** Two inputs that print with the same length. *)
Definition same_input_len (i j : TxInput) : Prop :=
  previous_tx_id i = previous_tx_id j ∧ output_index i = output_index j ∧
  str_len (quote (public_key i)) = str_len (quote (public_key j)) ∧
  str_len (quote (signature i)) = str_len (quote (signature j)).

Lemma str_len_input i j :
  same_input_len i j → str_len (dumps (tx_input_to_dict i true)) = str_len (dumps (tx_input_to_dict j true)).
Proof.
  intros (Hp & Ho & Hk & Hs). apply Nat2Z.inj. unfold tx_input_to_dict. cbn [app].
  rewrite !str_len_dumps_obj_exact. cbn [sumZ_with length]. unfold member_len. cbn [fst snd].
  rewrite Hp, Ho. change (dumps (JStr ?s)) with (quote s).
  change (dumps (JStr (public_key i))) with (quote (public_key i)).
  change (dumps (JStr (public_key j))) with (quote (public_key j)).
  change (dumps (JStr (signature i))) with (quote (signature i)).
  change (dumps (JStr (signature j))) with (quote (signature j)). lia.
Qed.

Lemma length_transaction_bytes_same tx tx' :
  tx_version tx = tx_version tx' → tx_timestamp tx = tx_timestamp tx' → outputs tx = outputs tx' →
  Forall2 same_input_len (inputs tx) (inputs tx') →
  length (transaction_bytes tx) = length (transaction_bytes tx').
Proof.
  intros Hv Ht Ho Hin. unfold transaction_bytes, serialize. rewrite !length_list_byte_of_string.
  apply Nat2Z.inj. unfold transaction_to_dict. rewrite !str_len_dumps_obj_exact.
  cbn [sumZ_with length]. unfold member_len. cbn [fst snd]. rewrite Hv, Ht, Ho.
  enough (Z.of_nat (str_len (dumps (JList (map (λ i, tx_input_to_dict i true) (inputs tx)))))
          = Z.of_nat (str_len (dumps (JList (map (λ i, tx_input_to_dict i true) (inputs tx')))))) as -> by done.
  rewrite !str_len_dumps_list_exact, !length_map, (Forall2_length _ _ _ Hin).
  enough (sumZ_with (λ j, Z.of_nat (str_len (dumps j))) (map (λ i, tx_input_to_dict i true) (inputs tx))
          = sumZ_with (λ j, Z.of_nat (str_len (dumps j))) (map (λ i, tx_input_to_dict i true) (inputs tx')))
    as -> by done.
  induction Hin as [|i j l k Hij Hl IH]; cbn [map sumZ_with]; [done|].
  by rewrite (str_len_input _ _ Hij), IH.
Qed.
(** Signing, whatever the ledger: the shape of the inputs. *)
Lemma sign_from_shape sk count : ∀ tx index tx',
  (index + count = length (inputs tx))%nat → sign_from tx index count sk = Ok tx' →
  same_signed_data tx' tx ∧ length (inputs tx') = length (inputs tx) ∧
  (∀ n, (n < index)%nat → inputs tx' !! n = inputs tx !! n) ∧
  (∀ n i, inputs tx' !! n = Some i → (index <= n)%nat →
     ∃ i0 msg, inputs tx !! n = Some i0 ∧
       i = signed_as (public_key_to_hex (get_public_key sk)) (bytes_hex (sign_message sk msg)) i0).
Proof.
  induction count as [|count IH]; intros tx index tx' Hlen; cbn [sign_from].
  { intros [= <-]. split_and!; [done|done|done|]. intros n i Hi Hn. apply lookup_lt_Some in Hi. lia. }
  intros (tx1 & Hs & Hr)%bind_Ok.
  destruct (sign_input_frame _ _ _ _ Hs) as ((Hv1 & Ht1 & Ho1 & Hm1) & _ & Hother).
  destruct (sign_input_Ok _ _ _ _ Hs) as (i0 & msg & Hi0 & _ & Heq1).
  assert (length (inputs tx1) = length (inputs tx)) as Hlen1 by (rewrite Heq1; cbn; apply length_alter).
  destruct (IH tx1 (S index) tx') as ((Hv & Ht & Ho & Hm) & Hl & Hlow & Hhigh); [lia|done|].
  split_and!; [split_and!; congruence|congruence| |].
  - intros n Hn. rewrite Hlow by lia. apply Hother. lia.
  - intros n i Hi Hn. destruct (decide (n = index)) as [->|Hne].
    + rewrite Hlow in Hi by lia. exists i0, msg. split; [done|].
      rewrite Heq1 in Hi. cbn in Hi. rewrite list_lookup_alter_eq, Hi0 in Hi. by injection Hi as <-.
    + destruct (Hhigh n i Hi ltac:(lia)) as (i1 & m1 & Hi1 & ->). rewrite Hother in Hi1 by done. eauto.
Qed.

Lemma str_forall_repeat0 n : str_forall is_lower_hex (str_repeat "0" n) = true.
Proof. induction n as [|n IH]; [done|]. cbn [str_repeat]. by rewrite str_app_cons, str_app_nil. Qed.

Lemma str_len_repeat0 n : str_len (str_repeat "0" n) = n.
Proof. induction n as [|n IH]; [done|]. cbn [str_repeat]. rewrite str_len_app, IH. done. Qed.

(** Placeholders have the width of real signatures. *)
Lemma signed_size sk tx tx' :
  Forall (λ i, public_key i = public_key_to_hex (sk_verifying_key sk) ∧
               signature i = str_repeat "0" (4 * sk_baselen sk)) (inputs tx) →
  sign_from tx 0 (length (inputs tx)) sk = Ok tx' →
  length (transaction_bytes tx') = length (transaction_bytes tx).
Proof.
  intros Hplace Hs. destruct (sign_from_shape sk _ tx 0 tx' eq_refl Hs) as ((Hv & Ht & Ho & _) & Hlen & _ & Hin).
  apply length_transaction_bytes_same; [done..|]. apply Forall2_same_length_lookup. split; [done|].
  intros n i j Hi Hj. destruct (Hin n i Hi ltac:(lia)) as (j' & msg & Hj' & ->).
  rewrite Hj in Hj'. injection Hj' as <-.
  eapply Forall_lookup in Hplace as [Hk Hsig]; [|exact Hj].
  split_and!; cbn [signed_as previous_tx_id output_index public_key signature]; [done|done| |].
  - by rewrite Hk.
  - rewrite Hsig, !str_len_quote_lower_hex by (apply str_forall_repeat0 || apply bytes_hex_lower).
    rewrite str_len_bytes_hex, str_len_repeat0, baselen_value. unfold sign_message.
    by rewrite signature_length.
Qed.
End builder.
