(* ===== verification/WalletTheorems.v ===== *)
(** * What the wallet guarantees

    Coin selection is smallest-first and minimal, and a transaction built from
    selected coins is valid on the ledger the coins come from, pays what was
    asked, and has the size that was checked before signing. *)

From S2P Require Import Prelude Bytes Sha256 Json Crypto Transaction Utxo TxValidation Signing.
From S2P Require Import Processing Batch Sample Block Wallet.

(** ** Coin selection *)

#[export] Instance coin_le_total : Total coin_le.
Proof.
  intros [[t1 i1] o1] [[t2 i2] o2]. unfold coin_le. cbn.
  destruct (Z.lt_trichotomy (amount o1) (amount o2)) as [?|[?|?]]; [left; by left| |right; by left].
  destruct (decide (t1 = t2)) as [->|Hne].
  - destruct (Z.le_ge_cases i1 i2); [left|right]; right; auto.
  - destruct (total String.le t1 t2); [left|right]; right; auto.
Qed.

#[export] Instance coin_le_trans : Transitive coin_le.
Proof.
  intros [[t1 i1] o1] [[t2 i2] o2] [[t3 i3] o3]. unfold coin_le. cbn.
  intros [?|[? H1]] [?|[? H2]]; [left; lia..|]. right. split; [lia|].
  destruct H1 as [[H1 N1]|[-> ?]], H2 as [[H2 N2]|[-> ?]]; [left|left; done|left; done|right; split; [done|lia]].
  split; [by etrans|]. intros ->. apply N1. by eapply (anti_symm String.le).
Qed.

(** The value of the spendable outputs. *)
Definition spendable (u : UTXOSet) : Z := utxo_total u.

(** With positive amounts, selection succeeds exactly when the outputs are
    worth the amount and the fee, and otherwise reports an insufficient
    balance.  The coins selected are the smallest ones, without repetition,
    their total and change add up, and one coin fewer would not do. *)
Theorem select_utxos_exact u a f :
  0 < a → 0 <= f → map_Forall (λ _ o, 0 < amount o) u →
  (a + f <= spendable u →
     ∃ r l2, select_utxos u a f = Ok r ∧
       coins r ++ l2 ≡ₚ map_to_list u ∧
       (∀ c d, c ∈ coins r → d ∈ l2 → coin_le c d) ∧
       coins_total r = sumZ_with (λ c, amount c.2) (coins r) ∧
       coins_total r = a + f + coins_change r ∧ 0 <= coins_change r ∧
       (∀ l c, coins r = l ++ [c] → sumZ_with (λ c, amount c.2) l < a + f)) ∧
  (spendable u < a + f → select_utxos u a f = Raise InsufficientBalanceError).
Proof.
  intros Ha Hf Hpos. unfold select_utxos, spendable.
  rewrite (proj2 (Z.leb_gt _ _)), (proj2 (Z.ltb_ge _ _)) by done. cbn [raise_if orb mbind result_bind].
  set (l := merge_sort coin_le (map_to_list u)).
  assert (l ≡ₚ map_to_list u) as Hl by apply merge_sort_Permutation.
  assert (Forall (λ c, 0 < amount c.2) l) as Hfor.
  { rewrite Hl. apply Forall_forall. intros [k o] Hin%elem_of_map_to_list. by apply (Hpos k). }
  assert (sumZ_with (λ c, amount c.2) l = utxo_total u) as Htot
    by (rewrite Hl; apply sumZ_with_map_to_list).
  pose proof (select_coins_insufficient l (a + f) a f [] 0 eq_refl ltac:(lia) Hfor) as Hins.
  rewrite Htot in Hins. split; [|intros Hlt; apply Hins; lia].
  intros Hge. destruct (select_coins l (a + f) a f [] 0) as [r|e] eqn:Hr.
  - exists r. destruct (select_coins_Ok _ _ _ _ _ _ r eq_refl Hr) as (l1 & c & l2 & Heq & Hc & Hsum & Hch & Hle & _ & Hmin).
    cbn [app] in Hc, Hmin. exists l2. split_and!; [done| | |done|lia|lia|].
    + rewrite Hc, <- Hl, Heq, <- app_assoc. done.
    + assert (StronglySorted coin_le l) as Hs by (apply StronglySorted_merge_sort; apply _).
      rewrite Heq, cons_middle, app_assoc, <- Hc in Hs. intros x y Hx Hy.
      by eapply StronglySorted_app_1_elem_of.
    + intros l' c' Heq'. rewrite Hc in Heq'. apply app_inj_tail in Heq' as [<- _].
      destruct Hmin as [->|?]; [cbn; lia|done].
  - exfalso. pose proof (select_coins_raises l (a + f) a f [] 0 e Hfor Hr) as ->.
    assert (0 + utxo_total u < a + f) by (by apply Hins). lia.
Qed.

(** ** Building *)

Section building.
Context {E : EcdsaLib} {EL : EcdsaLaws E}.

(** The selected coins are outputs of the ledger with well-formed outpoints. *)
Definition coins_of (u : UTXOSet) (sel : list Coin) : Prop :=
  ∀ c, c ∈ sel → u !! c.1 = Some c.2 ∧ c.1.1 ≠ EmptyString ∧ 0 <= c.1.2.

(** The signed inputs spend the coins, are authorised and well formed. *)
Lemma built_inputs u sel sender recipient a f sk ts max_b tx tx' :
  coins_of u sel → unsigned_of sel sender recipient a f sk ts max_b tx →
  sign_from tx 0 (length (inputs tx)) sk = Ok tx' →
  spent_outpoints tx' = map fst sel ∧ same_signed_data tx' tx ∧
  (∀ n i, inputs tx' !! n = Some i → authorised u tx' n i) ∧
  Forall (λ i, input_well_formed i = true) (inputs tx').
Proof.
  intros Hcoins Hun Hsign. destruct Hun as [_ _ Hsender _ Hown _ Hin _ _ _].
  assert (∀ n i, inputs tx !! n = Some i → ∃ c, c ∈ sel ∧ outpoint i = c.1) as Hcoin.
  { intros n i Hi. assert (outpoint i ∈ map outpoint (inputs tx)) as Hel
      by (by eapply list_elem_of_fmap_2, list_elem_of_lookup_2).
    rewrite Hin in Hel. apply list_elem_of_fmap in Hel as (c & Hc & ?). eauto. }
  destruct (sign_from_spec sk (length (inputs tx)) tx 0 tx' u) as (Hsp & Hd & Ha & _ & Hsigned); [lia| | |done|].
  - intros n i Hi _. destruct (Hcoin n i Hi) as (c & Hc & Hk). destruct (Hcoins c Hc) as [Hu _].
    eapply Forall_forall in Hown as [Hr Hpos]; [|exact Hc]. exists c.2. rewrite Hk, Hr, Hsender.
    split_and!; [done| |done]. unfold is_valid_output.
    by rewrite Hr, Hsender, validate_public_key_to_address, (proj2 (Z.ltb_lt _ _)).
  - intros n i _ Hn. lia.
  - split_and!; [by rewrite Hsp|done|done|]. apply Forall_forall.
    intros i (n & Hi)%list_elem_of_lookup. destruct (Hsigned n i Hi ltac:(lia)) as (i0 & msg & Hi0 & ->).
    destruct (Hcoin n i0 Hi0) as (c & Hc & Hk). destruct (Hcoins c Hc) as (_ & Hid & Hix).
    rewrite <- Hk in Hid, Hix. by apply signed_as_well_formed.
Qed.

(** A transaction the wallet builds from coins of a ledger is valid on that
    ledger with exactly the requested fee, pays the amount to the recipient and
    the rest back to the sender, and spends exactly the selected coins. *)
Theorem built_transaction_valid u sel sender recipient a f sk clock timestamp max_b tx :
  coins_of u sel → 0 <= clock →
  build_signed_transaction sel sender recipient a f sk clock timestamp max_b = Ok tx →
  valid_tx u tx f ∧ spent_outpoints tx = map fst sel ∧
  ∃ change, 0 <= change ∧ sumZ_with (λ c, amount c.2) sel = a + f + change ∧
    outputs tx = MkTxOutput a recipient :: (if change =? 0 then [] else [MkTxOutput change sender]).
Proof.
  intros Hcoins Hclock Hb. apply build_signed_transaction_Ok in Hb as (Htime & tx0 & Hun & Hsign).
  destruct (built_inputs u sel sender recipient a f sk _ _ tx0 tx Hcoins Hun Hsign) as
    (Hsp & (Hv & Ht & Ho & _) & Hauth & Hshape).
  destruct Hun as [[Ha Hf] Hrec -> [Hne Hnd] Hown Hch Hin Hout [Hver Hts] _].
  set (change := sumZ_with (λ c, amount c.2) sel - a - f) in *.
  assert (sumZ_with (value_at u) (map fst sel) = sumZ_with (λ c, amount c.2) sel) as Hval.
  { change (map fst sel) with (fst <$> sel). rewrite sumZ_with_fmap. apply sumZ_with_ext.
    intros c Hc. cbn. apply value_at_Some, Hcoins, Hc. }
  assert (sumZ_with amount (outputs tx) = a + change) as Hpaid.
  { rewrite Ho, Hout. cbn. destruct (change =? 0) eqn:Hz; to_prop; cbn; lia. }
  split_and!; [|done|exists change; split_and!; [done|lia|by rewrite Ho, Hout]].
  constructor; try done; try congruence.
  - rewrite Ht, Hts. destruct Htime as [->|?]; [exact Hclock|assumption].
  - intros Hnil. unfold spent_outpoints in Hsp. rewrite Hnil in Hsp. by destruct sel.
  - rewrite Ho, Hout. constructor.
    + unfold is_valid_output. cbn -[validate_address]. by rewrite (proj2 (Z.ltb_lt _ _)), Hrec.
    + destruct (change =? 0) eqn:Hz; to_prop; [constructor|]. apply Forall_singleton.
      unfold is_valid_output. cbn -[validate_address].
      by rewrite (proj2 (Z.ltb_lt _ _)), validate_public_key_to_address by lia.
  - rewrite Hsp, Hval, Hpaid. lia.
Qed.

(** The size limit is enforced before signing on placeholders, and the
    signed transaction has exactly the size that was checked. *)
Theorem built_transaction_size sel sender recipient a f sk clock timestamp limit tx :
  build_signed_transaction sel sender recipient a f sk clock timestamp (Some limit) = Ok tx →
  Z.of_nat (length (transaction_bytes tx)) <= limit.
Proof.
  intros Hb. apply build_signed_transaction_Ok in Hb as (_ & tx0 & Hun & Hsign).
  destruct (unsigned_limit _ _ _ _ _ _ _ _ _ Hun) as [Hlim Hplace].
  enough (length (transaction_bytes tx) = length (transaction_bytes tx0)) as -> by done.
  by eapply signed_size.
Qed.
End building.

(** ** Witnesses *)

Definition sample_build (limit : option Z) : result Transaction :=
  build_signed_transaction [((funding_txid, 0), MkTxOutput 50 alice_address)] alice_address
    bob_address 30 2 alice 1000 None limit.

Lemma sample_build_Ok limit : limit = None ∨ limit = Some 1000 → ∃ tx, sample_build limit = Ok tx.
Proof.
  intros Hl.
  assert ((λ _, tt) <$> sample_build limit = Ok tt) as Hok
    by (destruct Hl as [->| ->]; vm_compute; reflexivity).
  apply fmap_Ok in Hok as (tx & -> & _). by exists tx.
Qed.

Lemma built_transaction_valid_witness : ∃ tx,
  valid_tx sample_utxos tx 2 ∧
  outputs tx = [MkTxOutput 30 bob_address; MkTxOutput 18 alice_address].
Proof.
  destruct (sample_build_Ok None) as [tx Hb]; [by left|]. exists tx.
  destruct (built_transaction_valid sample_utxos [((funding_txid, 0), MkTxOutput 50 alice_address)]
    alice_address bob_address 30 2 alice 1000 None None tx) as (Hv & _ & ch & _ & Htot & Ho).
  - intros c ->%list_elem_of_singleton. unfold sample_utxos. split_and!.
    + apply lookup_singleton_eq.
    + apply (bool_decide_unpack _). vm_compute. exact I.
    + cbn. lia.
  - lia.
  - exact Hb.
  - split; [exact Hv|]. cbn in Htot. replace ch with 18 in Ho by lia. exact Ho.
Defined.

Lemma built_transaction_size_witness : ∃ tx,
  sample_build (Some 1000) = Ok tx ∧ Z.of_nat (length (transaction_bytes tx)) <= 1000.
Proof.
  destruct (sample_build_Ok (Some 1000)) as [tx Hb]; [by right|]. exists tx. split; [exact Hb|].
  exact (built_transaction_size _ _ _ _ _ _ _ _ _ tx Hb).
Defined.

Lemma select_utxos_exact_witness :
  (∃ r, select_utxos sample_utxos 30 2 = Ok r ∧ coins_total r = 32 + coins_change r) ∧
  select_utxos sample_utxos 49 2 = Raise InsufficientBalanceError.
Proof.
  assert (map_Forall (λ _ o, 0 < amount o) sample_utxos) as Hpos.
  { intros k o. unfold sample_utxos. intros [_ <-]%lookup_singleton_Some. cbn. lia. }
  assert (spendable sample_utxos = 50) as Hs by (vm_compute; reflexivity).
  split.
  - destruct (proj1 (select_utxos_exact sample_utxos 30 2 ltac:(lia) ltac:(lia) Hpos))
      as (r & _ & Hr & _ & _ & _ & Htot & _); [lia|].
    exists r. split; [exact Hr|lia].
  - apply (select_utxos_exact sample_utxos 49 2); [lia|lia|exact Hpos|lia].
Defined.
