(* ===== verification/Codec.v ===== *)
(** * storage/codec.py: the strict canonical codecs

    Transactions and blocks as canonical JSON bytes, amounts as decimal text.
    Decoding accepts exactly what encoding produces ([StorageTheorems]). *)

From S2P Require Import Prelude Bytes Json JsonParse Crypto Transaction Merkle Block Consensus.
From S2P Require Import ChainState.

Definition TRANSACTION_KEYS : list string := ["version"; "inputs"; "outputs"; "timestamp"].
Definition INPUT_KEYS : list string := ["previous_tx_id"; "output_index"; "public_key"; "signature"].
Definition OUTPUT_KEYS : list string := ["amount"; "recipient_address"].
Definition HEADER_KEYS : list string :=
  ["version"; "previous_block_hash"; "merkle_root"; "timestamp"; "difficulty"; "nonce"].
Definition MALFORMED_ERRORS : list exn :=
  [AttributeError; IndexError; KeyError; TypeError; ValueError; OverflowError; RecursionError].

(** ** Shapes *)

Definition require (condition : bool) : result unit := raise_if (negb condition) StorageCorruptionError.

(** [d[k]] *)
Fixpoint member (m : list (string * json)) (k : string) : result json :=
  match m with
  | [] => Raise KeyError
  | (k', v) :: m => if bool_decide (k' = k) then Ok v else member m k
  end.

(** [set(m) == keys] *)
Definition has_keys (m : list (string * json)) (keys : list string) : bool :=
  bool_decide (Forall (λ k, k ∈ keys) m.*1) && bool_decide (Forall (λ k, k ∈ m.*1) keys).

Definition object_of (value : json) (keys : list string) : result (list (string * json)) :=
  match value with
  | JObj m => _ ← require (has_keys m keys); Ok m
  | _ => Raise StorageCorruptionError
  end.

Definition integer_of (value : json) (minimum : Z) : result Z :=
  match value with
  | JInt z => _ ← require (minimum <=? z); Ok z
  | _ => Raise StorageCorruptionError
  end.

Definition string_of (value : json) : result string :=
  match value with
  | JStr s => _ ← require (bool_decide (s ≠ EmptyString)); Ok s
  | _ => Raise StorageCorruptionError
  end.

Definition list_of (value : json) : result (list json) :=
  match value with JList l => Ok l | _ => Raise StorageCorruptionError end.

(** The loop of [_unique_object]; [network/protocol.py] has it with its own
    exception. *)
Fixpoint unique_pairs (e : exn) (result : list (string * json)) (pairs : list (string * json)) :
    Prelude.result json :=
  match pairs with
  | [] => Ok (JObj result)
  | (key, value) :: pairs =>
      _ ← raise_if (bool_decide (key ∈ result.*1)) e;
      unique_pairs e (result ++ [(key, value)]) pairs
  end.

Definition unique_object (pairs : list (string * json)) : result json :=
  unique_pairs StorageCorruptionError [] pairs.

Definition parse (data : bytes) : result json :=
  s ← utf8_decode data; loads unique_object StorageCorruptionError s.

(** ** Transactions *)

Definition input_from_dict (item : json) : result TxInput :=
  m ← object_of item INPUT_KEYS;
  txid ← member m "previous_tx_id" ≫= string_of;
  idx ← (v ← member m "output_index"; integer_of v 0);
  pk ← member m "public_key" ≫= string_of;
  sig ← member m "signature" ≫= string_of;
  Ok (MkTxInput txid idx pk sig).

Definition output_from_dict (item : json) : result TxOutput :=
  m ← object_of item OUTPUT_KEYS;
  amount ← (v ← member m "amount"; integer_of v 1);
  address ← member m "recipient_address" ≫= string_of;
  _ ← require (validate_address address);
  Ok (MkTxOutput amount address).

Definition transaction_from_dict (value : json) : result Transaction :=
  m ← object_of value TRANSACTION_KEYS;
  version ← (v ← member m "version"; integer_of v 1);
  _ ← require (version =? 1);
  timestamp ← (v ← member m "timestamp"; integer_of v 0);
  ins ← member m "inputs" ≫= list_of;
  outs ← member m "outputs" ≫= list_of;
  _ ← require (bool_decide (outs ≠ []));
  inputs ← map_result input_from_dict ins;
  outputs ← map_result output_from_dict outs;
  _ ← require (bool_decide (inputs ≠ []) || (length outputs =? 1)%nat);
  Ok (MkTransaction inputs outputs timestamp version).

Definition transaction_data (tx : Transaction) : result json :=
  let data := transaction_to_dict tx true in
  _ ← transaction_from_dict data;
  Ok data.

Definition encode_transaction (tx : Transaction) : result bytes :=
  reraise_as (serialize <$> transaction_data tx) MALFORMED_ERRORS StorageCorruptionError.

Definition decode_transaction (data : bytes) : result Transaction :=
  reraise_as
    (tx ← parse data ≫= transaction_from_dict;
     _ ← require (bool_decide (serialize (transaction_to_dict tx true) = data));
     Ok tx)
    MALFORMED_ERRORS StorageCorruptionError.

(** ** Blocks *)

Definition block_from_dict (value : json) : result Block :=
  m ← object_of value ["header"; "transactions"];
  header ← (v ← member m "header"; object_of v HEADER_KEYS);
  version ← (v ← member header "version"; integer_of v 0);
  timestamp ← (v ← member header "timestamp"; integer_of v 0);
  difficulty ← (v ← member header "difficulty"; integer_of v 0);
  nonce ← (v ← member header "nonce"; integer_of v 0);
  previous ← member header "previous_block_hash" ≫= string_of;
  root ← member header "merkle_root" ≫= string_of;
  items ← member m "transactions" ≫= list_of;
  txs ← map_result transaction_from_dict items;
  block ← new_block txs previous timestamp version difficulty nonce;
  _ ← require (bool_decide (merkle_root block = root));
  ok ← validate_block_structure block;
  _ ← require ok;
  Ok block.

Definition encode_block (b : Block) : result bytes :=
  reraise_as
    (_ ← map_result transaction_data (transactions b);
     let data := block_to_dict b in
     _ ← block_from_dict data;
     Ok (serialize data))
    MALFORMED_ERRORS StorageCorruptionError.

Definition decode_block (data : bytes) : result Block :=
  reraise_as
    (b ← parse data ≫= block_from_dict;
     _ ← require (bool_decide (serialize (block_to_dict b) = data));
     Ok b)
    MALFORMED_ERRORS StorageCorruptionError.

(** ** Amounts *)

Definition encode_amount (amount : Z) : result string :=
  _ ← require (1 <=? amount); Ok (str_of_int amount).

(** ["1" <= data[0] <= "9"], and only digits. *)
Definition canonical_decimal (data : string) : bool :=
  match data with
  | EmptyString => false
  | String c _ => negb (code c =? 48)%N && str_forall is_digit data
  end.

Definition decode_amount (data : string) : result Z :=
  _ ← require (canonical_decimal data); Ok (int_of_decimal data).
