(* ===== verification/CodecFacts.v ===== *)
(** * Facts about the codecs: they invert each other *)

From Stdlib Require DecimalString DecimalZ DecimalFacts.
From S2P Require Import Prelude Bytes Json JsonParse JsonFacts Crypto Transaction Merkle Block.
From S2P Require Import Consensus ChainState ChainFacts Codec.

(** ** Parsing canonical bytes *)

Lemma unique_pairs_Ok e pairs : ∀ acc,
  NoDup (acc ++ pairs).*1 → unique_pairs e acc pairs = Ok (JObj (acc ++ pairs)).
Proof.
  induction pairs as [|[k v] pairs IH]; intros acc Hnd; cbn [unique_pairs]; [by rewrite app_nil_r|].
  rewrite bool_decide_eq_false_2; cbn [raise_if mbind result_bind].
  - rewrite IH, <- app_assoc; [done|]. by rewrite <- app_assoc.
  - intros Hk. rewrite fmap_app in Hnd. apply NoDup_app in Hnd as (_ & Hd & _).
    apply (Hd k Hk). by left.
Qed.

Lemma unique_pairs_Raise e pairs : ∀ acc x, unique_pairs e acc pairs = Raise x → x = e.
Proof.
  induction pairs as [|[k v] pairs IH]; intros acc x; cbn [unique_pairs]; [done|].
  intros [[_ ->]%raise_if_Raise|(? & _ & H)]%bind_Raise; [done|by eapply IH].
Qed.

Lemma unique_object_Ok m : NoDup m.*1 → unique_object m = Ok (JObj m).
Proof. intros Hnd. by apply (unique_pairs_Ok _ m []). Qed.

Lemma parse_serialize j : keys_distinct j = true → parse (serialize j) = Ok (canon j).
Proof.
  intros Hk. unfold parse, serialize. rewrite utf8_decode_ascii by apply ascii_text_dumps.
  cbn [mbind result_bind]. apply loads_dumps; [apply unique_object_Ok|done].
Qed.

(** Parsing raises only what the handlers of the codec expect. *)
Lemma parse_raises b e : parse b = Raise e → e ∈ [ValueError; StorageCorruptionError; BeyondLatin1].
Proof.
  unfold parse. intros [H|(s & _ & H)]%bind_Raise.
  - apply utf8_decode_raises in H as [->| ->]; set_solver.
  - pose proof (loads_ends unique_object StorageCorruptionError
      (λ e, e ∈ [ValueError; StorageCorruptionError; BeyondLatin1])) as Hl.
    specialize (Hl ltac:(set_solver) ltac:(set_solver) ltac:(set_solver)).
    specialize (Hl ltac:(intros m x ->%unique_pairs_Raise; set_solver) s). by rewrite H in Hl.
Qed.

(** ** Shapes *)

Lemma integer_of_Ok v n z : integer_of v n = Ok z ↔ v = JInt z ∧ n <= z.
Proof.
  destruct v; cbn; try (by split; [done|intros [? _]]). unfold require. rewrite bind_Ok. split.
  - intros (? & H%raise_if_Ok & [= <-]). to_prop. done.
  - intros [[= ->] Hz]. exists tt. split; [by apply raise_if_Ok; rewrite (proj2 (Z.leb_le _ _))|done].
Qed.

Lemma string_of_Ok v s : string_of v = Ok s ↔ v = JStr s ∧ s ≠ EmptyString.
Proof.
  destruct v; cbn; try (by split; [done|intros [? _]]). unfold require. rewrite bind_Ok. split.
  - intros (? & H%raise_if_Ok & [= <-]). to_prop. done.
  - intros [[= ->] Hz]. exists tt. split; [by apply raise_if_Ok; rewrite bool_decide_eq_true_2|done].
Qed.

Lemma bind_integer_of {A} z n (k : Z → result A) :
  (integer_of (JInt z) n ≫= k) = if decide (n <= z) then k z else Raise StorageCorruptionError.
Proof. unfold integer_of, require. case_decide as H; [by rewrite (proj2 (Z.leb_le _ _))|]. by rewrite (proj2 (Z.leb_gt _ _)) by lia. Qed.

Lemma bind_string_of {A} s (k : string → result A) :
  (string_of (JStr s) ≫= k) = if decide (s ≠ EmptyString) then k s else Raise StorageCorruptionError.
Proof.
  unfold string_of, require. destruct (decide (s = EmptyString)) as [->|Hs]; [reflexivity|].
  by rewrite bool_decide_eq_true_2, decide_True.
Qed.

Lemma bind_require {A} (b : bool) (k : unit → result A) :
  (require b ≫= k) = if b then k tt else Raise StorageCorruptionError.
Proof. by destruct b. Qed.

(** ** What can be stored *)

Definition storable_input (i : TxInput) : Prop :=
  previous_tx_id i ≠ EmptyString ∧ 0 <= output_index i ∧ public_key i ≠ EmptyString ∧ signature i ≠ EmptyString.

Definition storable_output (o : TxOutput) : Prop :=
  1 <= amount o ∧ recipient_address o ≠ EmptyString ∧ validate_address (recipient_address o) = true.

Record storable (tx : Transaction) : Prop := {
  storable_version : tx_version tx = 1;
  storable_timestamp : 0 <= tx_timestamp tx;
  storable_outputs : outputs tx ≠ [] ∧ Forall storable_output (outputs tx);
  storable_inputs : Forall storable_input (inputs tx);
  storable_coinbase : inputs tx ≠ [] ∨ length (outputs tx) = 1%nat
}.

(** The dict of an input, or its members in sorted order. *)
Definition form_of (v d : json) : Prop := v = d ∨ v = canon d.

Lemma input_from_dict_spec v i i' : form_of v (tx_input_to_dict i true) →
  input_from_dict v = Ok i' ↔ i' = i ∧ storable_input i.
Proof.
  intros Hv. assert (input_from_dict v =
    (string_of (JStr (previous_tx_id i)) ≫= λ t, integer_of (JInt (output_index i)) 0 ≫= λ n,
     string_of (JStr (public_key i)) ≫= λ p, string_of (JStr (signature i)) ≫= λ s, Ok (MkTxInput t n p s))) as ->
    by (destruct Hv as [->| ->]; reflexivity).
  rewrite bind_string_of, bind_integer_of, bind_string_of, bind_string_of. unfold storable_input.
  repeat case_decide; destruct i; cbn in *; naive_solver.
Qed.

Lemma output_from_dict_spec v o o' : form_of v (tx_output_to_dict o) →
  output_from_dict v = Ok o' ↔ o' = o ∧ storable_output o.
Proof.
  intros Hv. assert (output_from_dict v =
    (integer_of (JInt (amount o)) 1 ≫= λ a, string_of (JStr (recipient_address o)) ≫= λ r,
     require (validate_address r) ≫= λ _, Ok (MkTxOutput a r))) as -> by (destruct Hv as [->| ->]; reflexivity).
  rewrite bind_integer_of, bind_string_of, bind_require. unfold storable_output.
  destruct o as [a r]. cbn. destruct (validate_address r); repeat case_decide; naive_solver.
Qed.

(** A list of parsed elements, element by element. *)
Lemma map_result_forms {A} (f : json → result A) (d : A → json) (P : A → Prop) l l' vs :
  (∀ v x x', form_of v (d x) → f v = Ok x' ↔ x' = x ∧ P x) →
  Forall2 (λ v x, form_of v (d x)) vs l → map_result f vs = Ok l' ↔ l' = l ∧ Forall P l.
Proof.
  intros Hf Hvs. rewrite map_result_Ok. split.
  - intros H. revert l' H. induction Hvs as [|v x vs l Hv _ IH]; intros l' H.
    + by inversion H.
    + apply Forall2_cons_inv_l in H as (x' & l'' & [-> ?]%(Hf _ _ _ Hv) & [-> ?]%IH & ->).
      split; [done|by constructor].
  - intros [-> HP]. induction Hvs as [|v x vs l Hv _ IH]; [apply Forall2_nil_2|].
    apply Forall_cons in HP as [? ?]. apply Forall2_cons_2; [by apply (Hf _ _ _ Hv)|auto].
Qed.

Lemma forms_dict {A} (d : A → json) (l : list A) : Forall2 (λ v x, form_of v (d x)) (map d l) l.
Proof. apply Forall2_fmap_l, Forall_Forall2_diag, Forall_forall. intros x _. by left. Qed.

Lemma forms_canon {A} (d : A → json) (l : list A) : Forall2 (λ v x, form_of v (d x)) (map canon (map d l)) l.
Proof.
  rewrite map_map. apply Forall2_fmap_l, Forall_Forall2_diag, Forall_forall. intros x _. by right.
Qed.

Lemma transaction_from_dict_spec v tx tx' : form_of v (transaction_to_dict tx true) →
  transaction_from_dict v = Ok tx' ↔ tx' = tx ∧ storable tx.
Proof.
  intros Hv.
  assert (∃ ins outs, Forall2 (λ v i, form_of v (tx_input_to_dict i true)) ins (inputs tx) ∧
    Forall2 (λ v o, form_of v (tx_output_to_dict o)) outs (outputs tx) ∧
    transaction_from_dict v =
      (integer_of (JInt (tx_version tx)) 1 ≫= λ ver, require (ver =? 1) ≫= λ _,
       integer_of (JInt (tx_timestamp tx)) 0 ≫= λ ts, require (bool_decide (outs ≠ [])) ≫= λ _,
       map_result input_from_dict ins ≫= λ i, map_result output_from_dict outs ≫= λ o,
       require (bool_decide (i ≠ []) || (length o =? 1)%nat) ≫= λ _,
       Ok (MkTransaction i o ts ver))) as (ins & outs & Hi & Ho & ->).
  { destruct Hv as [->| ->]; eexists _, _; (split_and!; [| |reflexivity]);
      apply forms_dict || apply forms_canon. }
  rewrite bind_integer_of, bind_require, bind_integer_of, bind_require.
  pose proof (λ l', map_result_forms input_from_dict _ _ _ l' ins input_from_dict_spec Hi) as Hins.
  pose proof (λ l', map_result_forms output_from_dict _ _ _ l' outs output_from_dict_spec Ho) as Houts.
  split.
  - case_decide; [|done]. case_match eqn:Hver; [|done]. case_decide; [|done]. case_bool_decide as Hne; [|done].
    intros (i & [-> Hi']%Hins & (o & [-> Ho']%Houts & H3)%bind_Ok)%bind_Ok.
    rewrite bind_require in H3. destruct (_ || _) eqn:Hcb; [|done]. injection H3 as <-. to_prop.
    split; [by destruct tx; cbn in *; subst|]. constructor; try done.
    + split; [|done]. intros Hnil. rewrite Hnil in Ho. apply Hne. by apply Forall2_nil_inv_r in Ho.
    + apply orb_true_iff in Hcb as [H4|H4]; to_prop; auto.
  - intros [-> [Hver Hts [Hne Hos] His Hcb]]. rewrite decide_True by lia.
    rewrite (proj2 (Z.eqb_eq _ _)), decide_True by done.
    rewrite bool_decide_eq_true_2 by (intros ->; apply Hne; by apply Forall2_nil_inv_l in Ho).
    rewrite (proj2 (Hins _) (conj eq_refl His)), (proj2 (Houts _) (conj eq_refl Hos)).
    cbn [mbind result_bind]. destruct Hcb as [Hcb|Hcb].
    + rewrite bool_decide_eq_true_2 by done. by destruct tx.
    + rewrite Hcb, orb_true_r. by destruct tx.
Qed.

(** ** The transaction codec *)

Lemma keys_distinct_input i : keys_distinct (tx_input_to_dict i true) = true.
Proof. reflexivity. Qed.

Lemma keys_distinct_output o : keys_distinct (tx_output_to_dict o) = true.
Proof. reflexivity. Qed.

Lemma keys_distinct_all {A} (d : A → json) (l : list A) :
  (∀ x, keys_distinct (d x) = true) → keys_distinct (JList (map d l)) = true.
Proof. intros Hd. apply keys_distinct_list, Forall_map, Forall_forall. intros x _. apply Hd. Qed.

Lemma keys_distinct_transaction tx : keys_distinct (transaction_to_dict tx true) = true.
Proof.
  apply keys_distinct_obj. split; [apply (bool_decide_unpack _); reflexivity|].
  repeat constructor; apply keys_distinct_all; [apply keys_distinct_input|apply keys_distinct_output].
Qed.

Lemma keys_distinct_block b : keys_distinct (block_to_dict b) = true.
Proof.
  apply keys_distinct_obj. split; [apply (bool_decide_unpack _); reflexivity|].
  repeat constructor. apply keys_distinct_all, keys_distinct_transaction.
Qed.

Lemma encode_transaction_Ok tx b :
  encode_transaction tx = Ok b ↔ storable tx ∧ b = transaction_bytes tx.
Proof.
  unfold encode_transaction, transaction_data. rewrite reraise_as_Ok, fmap_Ok.
  pose proof (transaction_from_dict_spec _ tx tx (or_introl eq_refl)) as Hspec. split.
  - intros (j & (tx' & Htx & [= <-])%bind_Ok & <-).
    apply (transaction_from_dict_spec _ tx tx' (or_introl eq_refl)) in Htx as [_ ?]. done.
  - intros [Hs ->]. eexists. rewrite (proj2 Hspec (conj eq_refl Hs)). done.
Qed.

Lemma decode_transaction_Ok tx b :
  decode_transaction b = Ok tx ↔ storable tx ∧ b = transaction_bytes tx.
Proof.
  unfold decode_transaction. rewrite reraise_as_Ok. unfold transaction_bytes. split.
  - intros (tx' & (v & Hp & Hv)%bind_Ok & Hr)%bind_Ok. rewrite bind_require in Hr.
    case_bool_decide as Hb; [|done]. injection Hr as ->. subst b.
    rewrite (parse_serialize _ (keys_distinct_transaction tx)) in Hp. injection Hp as <-.
    apply (transaction_from_dict_spec _ tx tx (or_intror eq_refl)) in Hv as [_ Hs]. done.
  - intros [Hs ->]. rewrite (parse_serialize _ (keys_distinct_transaction tx)). cbn [mbind result_bind].
    rewrite (proj2 (transaction_from_dict_spec _ tx tx (or_intror eq_refl)) (conj eq_refl Hs)).
    cbn [mbind result_bind]. by rewrite bind_require, bool_decide_eq_true_2.
Qed.

(** ** The block codec *)

Record storable_block (b : Block) : Prop := {
  storable_transactions : Forall storable (transactions b);
  storable_root : calculate_merkle_root (transactions b) = Ok (merkle_root b);
  storable_header : 0 <= block_version b ∧ 0 <= block_timestamp b ∧ 0 <= block_difficulty b ∧ 0 <= block_nonce b;
  storable_hashes : previous_block_hash b ≠ EmptyString ∧ merkle_root b ≠ EmptyString;
  storable_structure : validate_block_structure b = Ok true
}.

Lemma block_from_dict_spec v b b' : form_of v (block_to_dict b) →
  block_from_dict v = Ok b' ↔ b' = b ∧ storable_block b.
Proof.
  intros Hv.
  assert (∃ items, Forall2 (λ v tx, form_of v (transaction_to_dict tx true)) items (transactions b) ∧
    block_from_dict v =
      (integer_of (JInt (block_version b)) 0 ≫= λ ver, integer_of (JInt (block_timestamp b)) 0 ≫= λ ts,
       integer_of (JInt (block_difficulty b)) 0 ≫= λ d, integer_of (JInt (block_nonce b)) 0 ≫= λ n,
       string_of (JStr (previous_block_hash b)) ≫= λ prev, string_of (JStr (merkle_root b)) ≫= λ root,
       map_result transaction_from_dict items ≫= λ txs, new_block txs prev ts ver d n ≫= λ block,
       require (bool_decide (merkle_root block = root)) ≫= λ _,
       validate_block_structure block ≫= λ ok, require ok ≫= λ _, Ok block)) as (items & Hi & ->).
  { destruct Hv as [->| ->]; eexists _; (split; [|reflexivity]); apply forms_dict || apply forms_canon. }
  rewrite !bind_integer_of, !bind_string_of.
  pose proof (λ l', map_result_forms transaction_from_dict _ _ _ l' items transaction_from_dict_spec Hi) as Htxs.
  split.
  - repeat (case_decide; [|done]). intros (txs & [-> Hs]%Htxs & (blk & Hb & Hr)%bind_Ok)%bind_Ok.
    apply new_block_Ok in Hb as (root & Hroot & ->). rewrite bind_require in Hr.
    case_bool_decide as Heq; [|done]. cbn in Heq. subst root.
    apply bind_Ok in Hr as (ok & Hok & Hr). rewrite bind_require in Hr. destruct ok; [|done].
    injection Hr as <-. destruct b; cbn in *. split; [done|]. by constructor.
  - intros [-> [Hs Hroot (? & ? & ? & ?) [? ?] Hok]]. rewrite !decide_True by done.
    rewrite (proj2 (Htxs _) (conj eq_refl Hs)). cbn [mbind result_bind].
    unfold new_block, refresh_merkle_root. cbn [transactions]. rewrite Hroot. cbn [mbind result_bind].
    replace (set_merkle_root _ _) with b by (by destruct b).
    change (result_bind _ _ ?k ?m) with (m ≫= k).
    rewrite bind_require, bool_decide_eq_true_2, Hok by done. cbn [mbind result_bind]. done.
Qed.

Lemma encode_block_Ok b d : encode_block b = Ok d ↔ storable_block b ∧ d = serialize (block_to_dict b).
Proof.
  unfold encode_block. rewrite reraise_as_Ok. split.
  - intros (l & _ & (b' & Hb & [= <-])%bind_Ok)%bind_Ok.
    by apply (block_from_dict_spec _ b b' (or_introl eq_refl)) in Hb as [_ ?].
  - intros [Hs ->].
    assert (map_result transaction_data (transactions b)
            = Ok (map (λ tx, transaction_to_dict tx true) (transactions b))) as ->.
    { apply map_result_Ok, Forall2_fmap_r, Forall_Forall2_diag.
      eapply Forall_impl; [apply Hs|]. intros tx Htx. unfold transaction_data.
      by rewrite (proj2 (transaction_from_dict_spec _ tx tx (or_introl eq_refl)) (conj eq_refl Htx)). }
    cbn [mbind result_bind].
    by rewrite (proj2 (block_from_dict_spec _ b b (or_introl eq_refl)) (conj eq_refl Hs)).
Qed.

Lemma decode_block_Ok b d : decode_block d = Ok b ↔ storable_block b ∧ d = serialize (block_to_dict b).
Proof.
  unfold decode_block. rewrite reraise_as_Ok. split.
  - intros (b' & (v & Hp & Hv)%bind_Ok & Hr)%bind_Ok. rewrite bind_require in Hr.
    case_bool_decide as Hd; [|done]. injection Hr as ->. subst d.
    rewrite (parse_serialize _ (keys_distinct_block b)) in Hp. injection Hp as <-.
    by apply (block_from_dict_spec _ b b (or_intror eq_refl)) in Hv as [_ Hs].
  - intros [Hs ->]. rewrite (parse_serialize _ (keys_distinct_block b)). cbn [mbind result_bind].
    rewrite (proj2 (block_from_dict_spec _ b b (or_intror eq_refl)) (conj eq_refl Hs)).
    cbn [mbind result_bind]. by rewrite bind_require, bool_decide_eq_true_2.
Qed.

(** ** Amounts *)

Lemma uint_of_digits s : str_forall is_digit s = true → ∃ d, DecimalString.NilEmpty.uint_of_string s = Some d.
Proof.
  induction s as [|c s IH]; [by eexists|]. cbn [str_forall]. intros [Hc [d Hd]%IH]%andb_true_iff.
  cbn [DecimalString.NilEmpty.uint_of_string]. rewrite Hd. revert Hc.
  destruct c as [[] [] [] [] [] [] [] []]; try discriminate; intros _; by eexists.
Qed.

Lemma digits_of_uint d : str_forall is_digit (DecimalString.NilEmpty.string_of_uint d) = true.
Proof. by induction d. Qed.

Lemma canonical_decimal_spec s : canonical_decimal s = true ↔ ∃ a, 1 <= a ∧ s = str_of_int a.
Proof.
  split.
  - destruct s as [|c s]; [done|]. cbn [canonical_decimal]. intros [Hc Hs]%andb_true_iff.
    destruct (uint_of_digits _ Hs) as [d Hd].
    assert (DecimalString.NilEmpty.string_of_uint d = String c s) as Hprint by (by apply DecimalString.NilEmpty.sus).
    assert (Decimal.unorm d = d) as Hn by (destruct d; [done| |done..]; cbn in Hprint; by injection Hprint as <- _).
    assert (str_of_int (Z.of_int (Decimal.Pos d)) = String c s) as Hstr.
    { unfold str_of_int. rewrite DecimalZ.to_of. cbn [Decimal.norm]. rewrite Hn.
      cbn [DecimalString.NilZero.string_of_int]. by destruct d. }
    exists (Z.of_int (Decimal.Pos d)). split; [|done].
    assert (0 <= Z.of_int (Decimal.Pos d)) by (unfold Z.of_int, Z.of_uint; lia).
    destruct (decide (Z.of_int (Decimal.Pos d) = 0)) as [H0|]; [|lia].
    rewrite H0 in Hstr. injection Hstr as <- _. done.
  - intros (a & Ha & ->). unfold str_of_int. pose proof (norm_to_int a) as Hn.
    pose proof (DecimalZ.of_to a) as Hof. destruct (Z.to_int a) as [d|d]; [|unfold Z.of_int, Z.of_uint in Hof; lia].
    cbn [Decimal.norm] in Hn. injection Hn as Hn. cbn [DecimalString.NilZero.string_of_int].
    destruct d as [|d|d|d|d|d|d|d|d|d|d]; [by cbn in Hof; lia| |
      unfold DecimalString.NilZero.string_of_uint, canonical_decimal;
      cbn [DecimalString.NilEmpty.string_of_uint str_forall]; rewrite digits_of_uint; reflexivity..].
    exfalso. rewrite DecimalFacts.unorm_D0 in Hn. destruct (Decimal.nzhead d) eqn:Hz;
      try (unfold Decimal.unorm in Hn; by rewrite Hz in Hn).
    + unfold Decimal.unorm in Hn. rewrite Hz in Hn. injection Hn as <-. cbn in Hof. lia.
    + by apply (DecimalFacts.nzhead_nonzero d u).
Qed.

Lemma amount_roundtrip a s : decode_amount s = Ok a ↔ encode_amount a = Ok s.
Proof.
  unfold decode_amount, encode_amount. rewrite !bind_require. split.
  - destruct (canonical_decimal s) eqn:Hc; [|done]. intros [= <-].
    apply canonical_decimal_spec in Hc as (a & Ha & ->). by rewrite int_of_str_of_int, (proj2 (Z.leb_le _ _)).
  - destruct (1 <=? a) eqn:Ha; [|done]. to_prop. intros [= <-].
    by rewrite (proj2 (canonical_decimal_spec _)), int_of_str_of_int by eauto.
Qed.

(** ** What decoding raises *)

Definition raises_in {A} (es : list exn) (r : result A) : Prop := ∀ e, r = Raise e → e ∈ es.

Lemma raises_in_bind {A B} es (m : result A) (f : A → result B) :
  raises_in es m → (∀ a, m = Ok a → raises_in es (f a)) → raises_in es (m ≫= f).
Proof. intros Hm Hf e [H|(a & Ha & H)]%bind_Raise; [by apply Hm|by eapply Hf]. Qed.

Lemma raises_in_Ok {A} es (a : A) : raises_in es (Ok a).
Proof. by intros e. Qed.

Lemma raises_in_map_result {A B} es (f : A → result B) l :
  (∀ x, raises_in es (f x)) → raises_in es (map_result f l).
Proof.
  intros Hf. induction l as [|x l IH]; cbn [map_result]; [apply raises_in_Ok|].
  apply raises_in_bind; [apply Hf|intros y _]. apply raises_in_bind; [exact IH|intros ys _]. apply raises_in_Ok.
Qed.

(** The exceptions a decoder meets before its handler. *)
Definition DECODE_ERRORS : list exn := [ValueError; KeyError; StorageCorruptionError; BeyondLatin1].

Lemma raises_in_require b : raises_in DECODE_ERRORS (require b).
Proof. intros e [_ <-]%raise_if_Raise. set_solver. Qed.

Lemma raises_in_member m k : raises_in DECODE_ERRORS (member m k).
Proof. induction m as [|[k' v] m IH]; cbn [member]; [intros e [= <-]; set_solver|]. by case_bool_decide. Qed.

Ltac raises_step :=
  first [ apply raises_in_Ok
        | apply raises_in_require
        | apply raises_in_member
        | apply raises_in_bind; [|intros ? _]
        | intros ? [= <-]; set_solver ].

Lemma raises_in_object_of v keys : raises_in DECODE_ERRORS (object_of v keys).
Proof. destruct v; cbn [object_of]; repeat raises_step. Qed.
Lemma raises_in_integer_of v n : raises_in DECODE_ERRORS (integer_of v n).
Proof. destruct v; cbn [integer_of]; repeat raises_step. Qed.
Lemma raises_in_string_of v : raises_in DECODE_ERRORS (string_of v).
Proof. destruct v; cbn [string_of]; repeat raises_step. Qed.
Lemma raises_in_list_of v : raises_in DECODE_ERRORS (list_of v).
Proof. destruct v; cbn [list_of]; repeat raises_step. Qed.

Ltac raises_with tac :=
  repeat first [ tac | apply raises_in_object_of | apply raises_in_integer_of | apply raises_in_string_of
               | apply raises_in_list_of | raises_step ].

Lemma raises_in_transaction_from_dict v : raises_in DECODE_ERRORS (transaction_from_dict v).
Proof.
  unfold transaction_from_dict. raises_with fail; apply raises_in_map_result; intros x.
  - unfold input_from_dict. raises_with fail.
  - unfold output_from_dict. raises_with fail.
Qed.

Lemma raises_in_parse b : raises_in DECODE_ERRORS (parse b).
Proof. intros e H%parse_raises. set_solver. Qed.

Lemma raises_in_reraise {A} (m : result A) :
  raises_in DECODE_ERRORS m →
  raises_in [StorageCorruptionError; BeyondLatin1] (reraise_as m MALFORMED_ERRORS StorageCorruptionError).
Proof.
  intros Hm e. destruct m as [a|x]; cbn [reraise_as]; [done|]. specialize (Hm x eq_refl).
  case_bool_decide as Hx; intros [= <-]; [set_solver|]. revert Hm Hx. unfold DECODE_ERRORS, MALFORMED_ERRORS.
  set_solver.
Qed.

Lemma decode_transaction_raises b e :
  decode_transaction b = Raise e → e = StorageCorruptionError ∨ e = BeyondLatin1.
Proof.
  intros H. enough (e ∈ [StorageCorruptionError; BeyondLatin1]) by set_solver. revert e H.
  apply raises_in_reraise. apply raises_in_bind; [|intros tx _; repeat raises_step].
  apply raises_in_bind; [apply raises_in_parse|intros v _; apply raises_in_transaction_from_dict].
Qed.

Lemma raises_in_block_from_dict v : raises_in DECODE_ERRORS (block_from_dict v).
Proof.
  assert (∀ txs p t v d n, raises_in DECODE_ERRORS (new_block txs p t v d n)) as Hnew
    by (intros * e H; destruct (new_block_total txs p t v0 d n); congruence).
  assert (∀ b, raises_in DECODE_ERRORS (validate_block_structure b)) as Hok
    by (intros b e H; destruct (validate_block_structure_total b); congruence).
  unfold block_from_dict.
  raises_with ltac:(first [apply Hnew | apply Hok | apply raises_in_map_result, raises_in_transaction_from_dict]).
Qed.

Lemma decode_block_raises b e : decode_block b = Raise e → e = StorageCorruptionError ∨ e = BeyondLatin1.
Proof.
  intros H. enough (e ∈ [StorageCorruptionError; BeyondLatin1]) by set_solver. revert e H.
  apply raises_in_reraise. apply raises_in_bind; [|intros blk _; repeat raises_step].
  apply raises_in_bind; [apply raises_in_parse|intros v _; apply raises_in_block_from_dict].
Qed.
