(* ===== verification/Database.v ===== *)
(** * storage/database.py: tables, statements and transactions

    The part of SQLite the program uses, and the transaction ownership of
    [database.py] on top of it.  A database is its five tables and its schema
    rows; a statement checks the constraints of the schema.  Anything can go
    wrong at any statement: the list of faults says which executions fail, and
    for a failed COMMIT whether the data reached the disk. *)

From Stdlib Require Strings.Ascii.
From S2P Require Import Prelude Bytes Json JsonParse Codec.

Definition SCHEMA_VERSION : Z := 1.
Definition MAX_SQLITE_INTEGER : Z := 2 ^ 63 - 1.

(** ** Tables *)

Record BlockRow := MkBlockRow {
  row_height : Z; row_hash : string; row_previous : string; row_block : bytes }.
Record UtxoRow := MkUtxoRow {
  row_txid : string; row_index : Z; row_amount : string; row_address : string }.
Record PoolRow := MkPoolRow { row_position : Z; row_pool_txid : string; row_transaction : bytes }.
Record MetaRow := MkMetaRow {
  row_id : Z; row_version : Z; row_genesis : string; row_tip : string; row_chain_height : Z;
  row_revision : Z; row_digest : string; row_max_transactions : string; row_max_bytes : string }.

(** A row of [sqlite_schema]: type, name, table name and statement. *)
Abbreviation SchemaRow := (string * string * string * option string)%type.

(** A table whose key is an INTEGER PRIMARY KEY is kept in key order, as
    SQLite keeps it. *)
Record Tables := MkTables {
  schema_rows : list SchemaRow;
  block_rows : list BlockRow;
  seen_rows : list string;
  utxo_rows : list UtxoRow;
  pool_rows : list PoolRow;
  meta_rows : list MetaRow
}.

Definition set_blocks (t : Tables) (l : list BlockRow) : Tables :=
  MkTables (schema_rows t) l (seen_rows t) (utxo_rows t) (pool_rows t) (meta_rows t).
Definition set_seen (t : Tables) (l : list string) : Tables :=
  MkTables (schema_rows t) (block_rows t) l (utxo_rows t) (pool_rows t) (meta_rows t).
Definition set_utxos (t : Tables) (l : list UtxoRow) : Tables :=
  MkTables (schema_rows t) (block_rows t) (seen_rows t) l (pool_rows t) (meta_rows t).
Definition set_pool (t : Tables) (l : list PoolRow) : Tables :=
  MkTables (schema_rows t) (block_rows t) (seen_rows t) (utxo_rows t) l (meta_rows t).
Definition set_meta (t : Tables) (l : list MetaRow) : Tables :=
  MkTables (schema_rows t) (block_rows t) (seen_rows t) (utxo_rows t) (pool_rows t) l.

Definition empty_tables : Tables := MkTables [] [] [] [] [] [].

(** ** Executing a statement *)

(** What happens to one execution.  [persisted] matters for COMMIT only. *)
Inductive fault := NoFault | Fault (corrupt persisted : bool).

Abbreviation DbState := (Tables * list fault)%type.
Definition db (A : Type) : Type := DbState → result A * DbState.

#[export] Instance db_ret : MRet db := λ A a s, (Ok a, s).
#[export] Instance db_bind : MBind db := λ A B f m s,
  match m s with (Ok a, s) => f a s | (Raise e, s) => (Raise e, s) end.

(** Code that does not touch the database. *)
Definition pure {A} (r : result A) : db A := λ s, (r, s).

Definition execute {A} (statement : Tables → result (A * Tables)) : db A := λ '(t, fs),
  match fs with
  | Fault corrupt _ :: fs => (Raise (if corrupt then SqliteCorrupt else SqliteError), (t, fs))
  | _ =>
      match statement t with
      | Ok (a, t') => (Ok a, (t', tail fs))
      | Raise e => (Raise e, (t, tail fs))
      end
  end.

Definition select {A} (query : Tables → A) : db A := execute (λ t, Ok (query t, t)).

(** A statement that changes the tables. *)
Definition update (change : Tables → result Tables) : db unit := execute (λ t, t' ← change t; Ok (tt, t')).

(** ** Constraints and writes *)

(** A Python integer bound to a parameter. *)
Definition bind_integer (z : Z) : result unit :=
  raise_if (negb ((- 2 ^ 63 <=? z) && (z <=? MAX_SQLITE_INTEGER))) OverflowError.

(** A constraint of the schema; its violation is [sqlite3.IntegrityError]. *)
Definition constraint (b : bool) : result unit := raise_if (negb b) SqliteError.

Fixpoint insert_by {A} (key : A → Z) (row : A) (rows : list A) : list A :=
  match rows with
  | [] => [row]
  | r :: rows => if key row <? key r then row :: r :: rows else r :: insert_by key row rows
  end.

Definition insert_block (row : BlockRow) (t : Tables) : result Tables :=
  _ ← bind_integer (row_height row);
  _ ← constraint (0 <=? row_height row);
  _ ← constraint (bool_decide (row_height row ∉ map row_height (block_rows t)));
  _ ← constraint (is_hash (row_hash row) && bool_decide (row_hash row ∉ map row_hash (block_rows t)));
  _ ← constraint (is_hash (row_previous row));
  Ok (set_blocks t (insert_by row_height row (block_rows t))).

Definition insert_seen (txid : string) (t : Tables) : result Tables :=
  _ ← constraint (is_hash txid && bool_decide (txid ∉ seen_rows t));
  Ok (set_seen t (seen_rows t ++ [txid])).

Definition utxo_key (row : UtxoRow) : string * Z := (row_txid row, row_index row).

Definition insert_utxo (row : UtxoRow) (t : Tables) : result Tables :=
  _ ← bind_integer (row_index row);
  _ ← constraint (0 <=? row_index row);
  _ ← constraint (canonical_decimal (row_amount row));
  _ ← constraint (bool_decide (utxo_key row ∉ map utxo_key (utxo_rows t)));
  _ ← constraint (bool_decide (row_txid row ∈ seen_rows t));
  Ok (set_utxos t (utxo_rows t ++ [row])).

Definition insert_pool (row : PoolRow) (t : Tables) : result Tables :=
  _ ← bind_integer (row_position row);
  _ ← constraint (0 <=? row_position row);
  _ ← constraint (bool_decide (row_position row ∉ map row_position (pool_rows t)));
  _ ← constraint (is_hash (row_pool_txid row) && bool_decide (row_pool_txid row ∉ map row_pool_txid (pool_rows t)));
  Ok (set_pool t (insert_by row_position row (pool_rows t))).

(** The CHECK and FOREIGN KEY constraints of a row of [metadata]. *)
Definition meta_constraints (row : MetaRow) (t : Tables) : result unit :=
  _ ← bind_integer (row_chain_height row);
  _ ← bind_integer (row_revision row);
  _ ← constraint (row_id row =? 1);
  _ ← constraint (0 <? row_version row);
  _ ← constraint ((0 <=? row_chain_height row) && (0 <=? row_revision row));
  _ ← constraint (is_hash (row_digest row));
  _ ← constraint (canonical_decimal (row_max_transactions row) && canonical_decimal (row_max_bytes row));
  constraint (bool_decide (row_tip row ∈ map row_hash (block_rows t))).

Definition insert_meta (row : MetaRow) (t : Tables) : result Tables :=
  _ ← meta_constraints row t;
  _ ← constraint (bool_decide (row_id row ∉ map row_id (meta_rows t)));
  Ok (set_meta t (meta_rows t ++ [row])).

(** [DELETE FROM seen_transactions]: no output may refer to a deleted row. *)
Definition delete_seen (t : Tables) : result Tables :=
  _ ← constraint (bool_decide (utxo_rows t = [])); Ok (set_seen t []).

(** [executemany] *)
Fixpoint execute_all {A} (f : A → Tables → result Tables) (rows : list A) (t : Tables) : result Tables :=
  match rows with
  | [] => Ok t
  | r :: rows => t ← f r t; execute_all f rows t
  end.

(** ** The schema *)

(** The CREATE TABLE statements, verbatim. *)
Definition SCHEMA_SQL : list (string * string) := [
  ("blocks", "CREATE TABLE blocks (
        height INTEGER PRIMARY KEY CHECK (height >= 0),
        hash TEXT NOT NULL UNIQUE
            CHECK (length(hash) = 64 AND hash NOT GLOB '*[^0-9a-f]*'),
        previous_hash TEXT NOT NULL
            CHECK (length(previous_hash) = 64 AND previous_hash NOT GLOB '*[^0-9a-f]*'),
        data BLOB NOT NULL CHECK (typeof(data) = 'blob')
    )");
  ("seen_transactions", "CREATE TABLE seen_transactions (
        txid TEXT NOT NULL PRIMARY KEY
            CHECK (length(txid) = 64 AND txid NOT GLOB '*[^0-9a-f]*')
    )");
  ("utxos", "CREATE TABLE utxos (
        txid TEXT NOT NULL,
        output_index INTEGER NOT NULL
            CHECK (typeof(output_index) = 'integer' AND output_index >= 0),
        amount TEXT NOT NULL
            CHECK (typeof(amount) = 'text' AND length(amount) > 0
                   AND substr(amount, 1, 1) BETWEEN '1' AND '9'
                   AND amount NOT GLOB '*[^0-9]*'),
        recipient_address TEXT NOT NULL,
        PRIMARY KEY (txid, output_index),
        FOREIGN KEY (txid) REFERENCES seen_transactions(txid)
    )");
  ("mempool", "CREATE TABLE mempool (
        position INTEGER PRIMARY KEY CHECK (position >= 0),
        txid TEXT NOT NULL UNIQUE
            CHECK (length(txid) = 64 AND txid NOT GLOB '*[^0-9a-f]*'),
        data BLOB NOT NULL CHECK (typeof(data) = 'blob')
    )");
  ("metadata", "CREATE TABLE metadata (
        id INTEGER PRIMARY KEY CHECK (id = 1),
        schema_version INTEGER NOT NULL
            CHECK (typeof(schema_version) = 'integer' AND schema_version > 0),
        genesis_hash TEXT NOT NULL,
        tip_hash TEXT NOT NULL,
        height INTEGER NOT NULL
            CHECK (typeof(height) = 'integer' AND height >= 0),
        revision INTEGER NOT NULL
            CHECK (typeof(revision) = 'integer' AND revision >= 0),
        mempool_digest TEXT NOT NULL
            CHECK (length(mempool_digest) = 64 AND mempool_digest NOT GLOB '*[^0-9a-f]*'),
        mempool_max_transactions TEXT NOT NULL
            CHECK (typeof(mempool_max_transactions) = 'text'
                   AND length(mempool_max_transactions) > 0
                   AND substr(mempool_max_transactions, 1, 1) BETWEEN '1' AND '9'
                   AND mempool_max_transactions NOT GLOB '*[^0-9]*'),
        mempool_max_bytes TEXT NOT NULL
            CHECK (typeof(mempool_max_bytes) = 'text'
                   AND length(mempool_max_bytes) > 0
                   AND substr(mempool_max_bytes, 1, 1) BETWEEN '1' AND '9'
                   AND mempool_max_bytes NOT GLOB '*[^0-9]*'),
        FOREIGN KEY (tip_hash) REFERENCES blocks(hash)
    )")
].

Definition AUTO_INDEXES : list (string * string) := [
  ("sqlite_autoindex_blocks_1", "blocks");
  ("sqlite_autoindex_seen_transactions_1", "seen_transactions");
  ("sqlite_autoindex_utxos_1", "utxos");
  ("sqlite_autoindex_mempool_1", "mempool")
].

(** [re.sub(r"\s+", " ", s)]; [after] says that a space has just been written. *)
Fixpoint squeeze (after : bool) (s : string) : string :=
  match s with
  | EmptyString => EmptyString
  | String c s =>
      if is_space c then (if after then squeeze true s else String (Ascii.ascii_of_N 32) (squeeze true s))
      else String c (squeeze false s)
  end.

Definition normalize_ddl (statement : string) : string :=
  let s := squeeze false statement in
  rstrip (λ c, (code c =? 59)%N) (rstrip is_space (lstrip is_space s)).

(** CREATE TABLE adds the table and the automatic index of its UNIQUE or
    PRIMARY KEY text constraint. *)
Definition create_table (p : string * string) (t : Tables) : Tables :=
  let row : SchemaRow := ("table", p.1, p.1, Some p.2) in
  let indexes : list SchemaRow :=
    map (λ i, ("index", i.1, i.2, None)) (filter (λ i, i.2 = p.1) AUTO_INDEXES) in
  MkTables (schema_rows t ++ row :: indexes) (block_rows t) (seen_rows t) (utxo_rows t)
    (pool_rows t) (meta_rows t).

Fixpoint create_tables (l : list (string * string)) : db unit :=
  match l with
  | [] => mret tt
  | p :: l => update (λ t, Ok (create_table p t)) ≫= λ _, create_tables l
  end.

Definition create_schema : db unit :=
  existing ← select schema_rows;
  _ ← pure (raise_if (bool_decide (existing ≠ [])) StorageCorruptionError);
  create_tables SCHEMA_SQL.

Definition dict_get (l : list (string * string)) (k : string) : option string :=
  snd <$> (snd <$> list_find (λ p, p.1 = k) l).

(** One row of [sqlite_schema] in the loop of [validate_schema]. *)
Definition check_schema_row (row : SchemaRow) (tables indexes : gset string) :
    result (gset string * gset string) :=
  let '(kind, name, table, statement) := row in
  match dict_get SCHEMA_SQL name, dict_get AUTO_INDEXES name with
  | Some sql, _ =>
      if bool_decide (kind = "table") && bool_decide (table = name) then
        match statement with
        | Some s =>
            _ ← raise_if (bool_decide (normalize_ddl s ≠ normalize_ddl sql)) StorageCorruptionError;
            Ok ({[name]} ∪ tables, indexes)
        | None => Raise StorageCorruptionError
        end
      else Raise StorageCorruptionError
  | None, Some owner =>
      _ ← raise_if (negb (bool_decide (kind = "index") && bool_decide (table = owner)
                          && bool_decide (statement = None))) StorageCorruptionError;
      Ok (tables, {[name]} ∪ indexes)
  | None, None => Raise StorageCorruptionError
  end.

Fixpoint check_schema_rows (rows : list SchemaRow) (tables indexes : gset string) :
    result (gset string * gset string) :=
  match rows with
  | [] => Ok (tables, indexes)
  | r :: rows => '(tables, indexes) ← check_schema_row r tables indexes; check_schema_rows rows tables indexes
  end.

Definition check_schema (rows : list SchemaRow) : result unit :=
  '(tables, indexes) ← check_schema_rows rows ∅ ∅;
  raise_if (bool_decide (tables ≠ list_to_set (map fst SCHEMA_SQL))
            || bool_decide (indexes ≠ list_to_set (map fst AUTO_INDEXES))) StorageCorruptionError.

Definition validate_schema : db unit := rows ← select schema_rows; pure (check_schema rows).

(** [PRAGMA integrity_check] answers "ok" unless the file is damaged, which is
    a fault; [PRAGMA foreign_key_check] looks for rows without their parent. *)
Definition foreign_keys_hold (t : Tables) : bool :=
  forallb (λ r, bool_decide (row_txid r ∈ seen_rows t)) (utxo_rows t)
  && forallb (λ r, bool_decide (row_tip r ∈ map row_hash (block_rows t))) (meta_rows t).

Definition check_integrity : db unit :=
  _ ← select (λ _, tt);
  ok ← select foreign_keys_hold;
  pure (raise_if (negb ok) StorageCorruptionError).

(** ** Transactions *)

Definition sqlite_storage_error (e : exn) : exn :=
  match e with SqliteCorrupt => StorageCorruptionError | _ => StorageError end.

Definition is_sqlite_error (e : exn) : bool :=
  match e with SqliteError | SqliteCorrupt | SqliteIntegrity => true | _ => false end.

(** The exception that leaves the [with] block when BEGIN or the body raises. *)
Definition transaction_error (e : exn) : exn :=
  if is_sqlite_error e then sqlite_storage_error e
  else match e with OverflowError => StorageError | _ => e end.

(** [with transaction(connection): body], from the committed tables.  A body
    that raises is rolled back; so is a COMMIT that fails before its data
    reached the disk.  A ROLLBACK that fails itself leaves the transaction to
    the closing of the connection, with the same effect. *)
Definition transaction {A} (body : db A) : db A := λ '(committed, fs),
  match fs with
  | Fault corrupt _ :: fs =>
      (Raise (transaction_error (if corrupt then SqliteCorrupt else SqliteError)), (committed, fs))
  | _ =>
      match body (committed, tail fs) with
      | (Raise e, (_, fs)) => (Raise (transaction_error e), (committed, tail fs))
      | (Ok a, (t, fs)) =>
          match fs with
          | Fault _ persisted :: fs =>
              (Raise StorageCommitUncertainError, (if persisted then t else committed, tail fs))
          | _ => (Ok a, (t, tail fs))
          end
      end
  end.

(** The schema the program creates is the schema it accepts. *)
Definition program_schema : list SchemaRow :=
  schema_rows (foldl (λ t p, create_table p t) empty_tables SCHEMA_SQL).

Lemma program_schema_valid : check_schema program_schema = Ok tt.
Proof. vm_compute. reflexivity. Qed.
