(* ===== verification/Storage.v ===== *)
(** * storage/: rows, the SQLite chain store, and its interface to the chain

    [block_store.py], [chainstate_store.py] and [chain_store.py].  The class
    [SQLiteChainStore] is the record [SqliteStore] with the file it owns, and
    the instance [sqlite_store] of the interface that [Blockchain] uses. *)

From S2P Require Import Prelude Bytes Sha256 Json JsonParse Crypto Transaction Utxo TxValidation.
From S2P Require Import Processing Merkle Block Consensus ChainState.
From S2P Require Import Mempool Mining Blockchain Codec Database.

(** ** block_store.py *)

Definition encode_block_row (h : Z) (b : Block) : result BlockRow :=
  _ ← raise_if (negb ((0 <=? h) && (h <=? MAX_SQLITE_INTEGER))) StorageError;
  data ← encode_block b;
  Ok (MkBlockRow h (block_hash b) (previous_block_hash b) data).

Definition insert_block_row (row : BlockRow) : db unit := update (insert_block row).

(** The loop over the rows, from [expected_height]. *)
Fixpoint decode_block_rows (expected_height : Z) (rows : list BlockRow) : result (list Block) :=
  match rows with
  | [] => Ok []
  | row :: rows =>
      _ ← raise_if (negb (row_height row =? expected_height)) StorageCorruptionError;
      b ← decode_block (row_block row);
      _ ← raise_if (bool_decide (row_hash row ≠ block_hash b)
                    || bool_decide (row_previous row ≠ previous_block_hash b)) StorageCorruptionError;
      bs ← decode_block_rows (expected_height + 1) rows;
      Ok (b :: bs)
  end.

Definition read_block_rows : db (list Block) :=
  rows ← select block_rows;
  pure (_ ← raise_if (bool_decide (rows = [])) StorageCorruptionError; decode_block_rows 0 rows).

(** ** chainstate_store.py *)

Record Metadata := MkMetadata {
  meta_height : Z;
  meta_tip : string;
  meta_revision : Z;
  meta_max_transactions : Z;
  meta_max_bytes : Z;
  meta_digest : string
}.

(** [sorted] on [(outpoint, output)] pairs with distinct outpoints. *)
Definition outpoint_le (p q : Outpoint * TxOutput) : Prop :=
  String.le p.1.1 q.1.1 ∧ p.1.1 ≠ q.1.1 ∨ p.1.1 = q.1.1 ∧ p.1.2 <= q.1.2.

#[export] Instance outpoint_le_dec : RelDecision outpoint_le.
Proof. intros p q. unfold outpoint_le. apply _. Defined.

Definition encode_utxo_row (st : ChainState) (p : Outpoint * TxOutput) : result UtxoRow :=
  _ ← raise_if (bool_decide (p.1.1 ∉ seen_txids st)
                || negb ((0 <=? p.1.2) && (p.1.2 <=? MAX_SQLITE_INTEGER))) StorageError;
  _ ← raise_if (negb (validate_address (recipient_address p.2))) StorageError;
  a ← encode_amount (amount p.2);
  Ok (MkUtxoRow p.1.1 p.1.2 a (recipient_address p.2)).

Definition encode_chainstate_rows (st : ChainState) : result (list string * list UtxoRow) :=
  _ ← raise_if (negb (forallb is_hash (elements (seen_txids st)))) StorageError;
  utxos ← map_result (encode_utxo_row st) (merge_sort outpoint_le (map_to_list (utxo_set st)));
  Ok (merge_sort String.le (elements (seen_txids st)), utxos).

Definition replace_chainstate_rows (rows : list string * list UtxoRow) : db unit :=
  _ ← update (λ t, Ok (set_utxos t []));
  _ ← update delete_seen;
  _ ← update (execute_all insert_seen rows.1);
  update (execute_all insert_utxo rows.2).

Fixpoint decode_seen_rows (rows : list string) (seen : TxidSet) : result TxidSet :=
  match rows with
  | [] => Ok seen
  | txid :: rows =>
      _ ← raise_if (negb (is_hash txid) || bool_decide (txid ∈ seen)) StorageCorruptionError;
      decode_seen_rows rows ({[txid]} ∪ seen)
  end.

Fixpoint decode_utxo_rows (seen : TxidSet) (rows : list UtxoRow) (utxos : UTXOSet) : result UTXOSet :=
  match rows with
  | [] => Ok utxos
  | r :: rows =>
      _ ← raise_if (bool_decide (row_txid r ∉ seen) || (row_index r <? 0)) StorageCorruptionError;
      _ ← raise_if (negb (validate_address (row_address r))) StorageCorruptionError;
      _ ← raise_if (utxo_exists utxos (row_txid r) (row_index r)) StorageCorruptionError;
      a ← decode_amount (row_amount r);
      utxos ← utxo_add utxos (row_txid r) (row_index r) (MkTxOutput a (row_address r));
      decode_utxo_rows seen rows utxos
  end.

Definition read_chainstate_rows : db ChainState :=
  seen_rows ← select seen_rows;
  seen ← pure (decode_seen_rows seen_rows ∅);
  rows ← select utxo_rows;
  utxos ← pure (decode_utxo_rows seen rows ∅);
  mret (MkState utxos seen).

Fixpoint number_rows (position : Z) (txs : list Transaction) : result (list PoolRow) :=
  match txs with
  | [] => Ok []
  | tx :: txs =>
      data ← encode_transaction tx;
      rows ← number_rows (position + 1) txs;
      Ok (MkPoolRow position (txid tx) data :: rows)
  end.

Definition encode_mempool_rows (m : Mempool) : result (list PoolRow) :=
  rows ← number_rows 0 (get_transactions m);
  _ ← raise_if ((max_transactions m <? Z.of_nat (length rows))
                || (max_bytes m <? sumZ_with (λ r, Z.of_nat (length (row_transaction r))) rows)) StorageError;
  Ok rows.

Definition replace_mempool_rows (rows : list PoolRow) : db unit :=
  _ ← update (λ t, Ok (set_pool t []));
  update (execute_all insert_pool rows).

(** [sha256_hex(serialize(txids))] *)
Definition mempool_digest (txids : list string) : string := sha256_hex (serialize (JList (map JStr txids))).

Section chainstate_store.
Context {E : EcdsaLib}.

Fixpoint replay_pool_rows (expected_position : Z) (rows : list PoolRow) (pool : Mempool) : result Mempool :=
  match rows with
  | [] => Ok pool
  | r :: rows =>
      _ ← raise_if (negb (row_position r =? expected_position)) StorageCorruptionError;
      tx ← decode_transaction (row_transaction r);
      _ ← raise_if (negb (is_hash (row_pool_txid r)) || bool_decide (row_pool_txid r ≠ txid tx))
            StorageCorruptionError;
      '(added, pool) ← add_transaction pool tx;
      _ ← raise_if (negb added) StorageCorruptionError;
      replay_pool_rows (expected_position + 1) rows pool
  end.

Definition read_mempool_rows (st : ChainState) (metadata : Metadata) : db Mempool :=
  pool ← pure (new_mempool (Some (utxo_set st)) (Some (seen_txids st))
                 (meta_max_transactions metadata) (meta_max_bytes metadata));
  rows ← select pool_rows;
  pool ← pure (replay_pool_rows 0 rows pool);
  _ ← pure (raise_if (bool_decide (mempool_digest (map txid (get_transactions pool)) ≠ meta_digest metadata))
              StorageCorruptionError);
  mret pool.
End chainstate_store.

Definition metadata_row (h : Z) (tip_hash : string) (rev max_tx max_b : Z) (digest : string) : result MetaRow :=
  _ ← raise_if (negb ((0 <=? h) && (h <=? MAX_SQLITE_INTEGER))
                || negb ((0 <=? rev) && (rev <=? MAX_SQLITE_INTEGER))) StorageError;
  _ ← raise_if (negb (is_hash tip_hash) || negb (is_hash digest)) StorageError;
  mt ← encode_amount max_tx;
  mb ← encode_amount max_b;
  Ok (MkMetaRow 1 SCHEMA_VERSION GENESIS_HASH tip_hash h rev digest mt mb).

Definition insert_metadata (row : MetaRow) : db unit := update (insert_meta row).

Definition decode_metadata (rows : list MetaRow) : result Metadata :=
  match rows with
  | [r] =>
      _ ← raise_if (row_version r <=? 0) StorageCorruptionError;
      _ ← raise_if (negb (row_version r =? SCHEMA_VERSION)) StorageVersionError;
      _ ← raise_if (negb (row_id r =? 1) || bool_decide (row_genesis r ≠ GENESIS_HASH)
                    || negb (is_hash (row_tip r)) || negb (is_hash (row_digest r))) StorageCorruptionError;
      _ ← raise_if ((row_chain_height r <? 0) || (row_revision r <? row_chain_height r)) StorageCorruptionError;
      mt ← decode_amount (row_max_transactions r);
      mb ← decode_amount (row_max_bytes r);
      Ok (MkMetadata (row_chain_height r) (row_tip r) (row_revision r) mt mb (row_digest r))
  | _ => Raise StorageCorruptionError
  end.

Definition read_metadata : db Metadata := rows ← select meta_rows; pure (decode_metadata rows).

(** The row the WHERE clause selects, and the row SET makes of it. *)
Definition meta_matches (e : Expected) (r : MetaRow) : bool :=
  (row_id r =? 1) && (row_chain_height r =? expected_height e)
  && bool_decide (row_tip r = expected_tip_hash e) && (row_revision r =? expected_revision e).

Definition meta_updated (h : Z) (tip_hash : string) (rev : Z) (digest : string) (r : MetaRow) : MetaRow :=
  MkMetaRow (row_id r) (row_version r) (row_genesis r) tip_hash h rev digest
    (row_max_transactions r) (row_max_bytes r).

(** The UPDATE statement, with its row count. *)
Definition update_meta (h : Z) (tip_hash : string) (rev : Z) (digest : string) (e : Expected) (t : Tables) :
    result (Z * Tables) :=
  let rows := map (λ r, if meta_matches e r then meta_updated h tip_hash rev digest r else r) (meta_rows t) in
  let touched := filter (λ r, meta_matches e r = true) (meta_rows t) in
  _ ← map_result (λ r, meta_constraints (meta_updated h tip_hash rev digest r) t) touched;
  Ok (Z.of_nat (length touched), set_meta t rows).

Definition update_metadata (h : Z) (tip_hash : string) (rev : Z) (digest : string) (e : Expected) : db unit :=
  count ← execute (update_meta h tip_hash rev digest e);
  pure (raise_if (negb (count =? 1)) StorageConflictError).

(** ** chain_store.py *)

(** The file behind the path. *)
Inductive DbFile := Absent | EmptyFile | Database (t : Tables).

Record SqliteStore := MkStore {
  store_closed : bool;
  connected : bool;
  file : DbFile;
  faults : list fault
}.

Definition require_connection (s : SqliteStore) : result unit :=
  _ ← raise_if (store_closed s) StorageClosedError;
  raise_if (negb (connected s)) StorageError.

(** The connection sees an empty file as a database without a schema. *)
Definition file_tables (f : DbFile) : Tables :=
  match f with Database t => t | _ => empty_tables end.

(** A file stays empty until a transaction commits. *)
Definition file_after (f : DbFile) (committed t : Tables) : DbFile :=
  match f with
  | Database _ => Database t
  | _ => if bool_decide (schema_rows t = []) then EmptyFile else Database t
  end.

(** [with database.transaction(self._connection): body] *)
Definition in_transaction {A} (body : db A) (s : SqliteStore) : result A * SqliteStore :=
  let '(r, (t, fs)) := transaction body (file_tables (file s), faults s) in
  (r, MkStore (store_closed s) (connected s) (file_after (file s) (file_tables (file s)) t) fs).

(** [open_database]: creates an absent file, refuses an empty one; the PRAGMAs
    may fail.  The answer says whether the file was created. *)
Definition open_database (s : SqliteStore) : result bool * SqliteStore :=
  match file s with
  | EmptyFile => (Raise StorageCorruptionError, s)
  | f =>
      let created := match f with Absent => true | _ => false end in
      let f := match f with Absent => EmptyFile | f => f end in
      match faults s with
      | Fault corrupt _ :: fs =>
          (Raise (sqlite_storage_error (if corrupt then SqliteCorrupt else SqliteError)),
           MkStore (store_closed s) (connected s) f fs)
      | _ => (Ok created, MkStore (store_closed s) true f (tail (faults s)))
      end
  end.

Definition initialize_file (max_tx max_b : Z) (s : SqliteStore) : result unit * SqliteStore :=
  match (genesis ← create_genesis_block;
         genesis_row ← encode_block_row 0 genesis;
         metadata ← metadata_row 0 GENESIS_HASH 0 max_tx max_b (mempool_digest []);
         _ ← require_connection s;
         Ok (genesis_row, metadata)) with
  | Raise e => (Raise e, s)
  | Ok (genesis_row, metadata) =>
      in_transaction (_ ← create_schema; _ ← insert_block_row genesis_row; insert_metadata metadata) s
  end.

Definition check_configuration (metadata : Metadata) (max_tx max_b : option Z) : result unit :=
  raise_if (match max_tx with Some n => negb (n =? meta_max_transactions metadata) | None => false end
            || match max_b with Some n => negb (n =? meta_max_bytes metadata) | None => false end)
    StorageConfigurationError.

Section chain_store.
Context {E : EcdsaLib}.

(** The body of the transaction that recovers the chain. *)
Definition recover (clock now : Z) (max_tx max_b : option Z) : db StoredChain :=
  _ ← validate_schema;
  metadata ← read_metadata;
  _ ← check_integrity;
  _ ← pure (check_configuration metadata max_tx max_b);
  bs ← read_block_rows;
  _ ← pure (raise_if (negb (bool_decide (block_hash <$> head bs = Some GENESIS_HASH)
                            && (meta_height metadata =? Z.of_nat (length bs) - 1)
                            && bool_decide (block_hash <$> last bs = Some (meta_tip metadata))))
              StorageCorruptionError);
  rebuilt ← pure (rebuild_chain_state bs clock (Some now));
  st ← pure (match rebuilt with None => Raise StorageCorruptionError | Some st => Ok st end);
  cached ← read_chainstate_rows;
  _ ← pure (raise_if (bool_decide (seen_txids cached ≠ seen_txids st)
                      || bool_decide (utxo_set cached ≠ utxo_set st)) StorageCorruptionError);
  pool ← read_mempool_rows st metadata;
  mret (MkStored bs st pool (meta_revision metadata)).

Definition close_sqlite (s : SqliteStore) : result unit * SqliteStore :=
  if store_closed s then (Ok tt, s)
  else if connected s then
    match faults s with
    | Fault _ _ :: fs => (Raise StorageError, MkStore true false (file s) fs)
    | _ => (Ok tt, MkStore true false (file s) (tail (faults s)))
    end
  else (Ok tt, MkStore true false (file s) (faults s)).

(** The [try] block of [load_or_initialize]. *)
Definition load_body (clock now : Z) (max_tx max_b : option Z) (s : SqliteStore) :
    result StoredChain * SqliteStore :=
  let opened :=
    if connected s then (Ok tt, s)
    else
      match open_database s with
      | (Raise e, s) => (Raise e, s)
      | (Ok false, s) => (Ok tt, s)
      | (Ok true, s) =>
          initialize_file (default DEFAULT_MEMPOOL_MAX_TRANSACTIONS max_tx)
            (default DEFAULT_MEMPOOL_MAX_BYTES max_b) s
      end in
  match opened with
  | (Raise e, s) => (Raise e, s)
  | (Ok _, s) => in_transaction (recover clock now max_tx max_b) s
  end.

Definition load_sqlite (s : SqliteStore) (clock : Z) (current_time max_tx max_b : option Z) :
    result StoredChain * SqliteStore :=
  let not_positive (v : option Z) := match v with Some n => n <=? 0 | None => false end in
  match (_ ← raise_if (store_closed s) StorageClosedError;
         _ ← raise_if (not_positive max_tx || not_positive max_b) ValueError;
         raise_if (match current_time with Some t => t <? 0 | None => false end) ValueError) with
  | Raise e => (Raise e, s)
  | Ok _ =>
      match load_body clock (default clock current_time) max_tx max_b s with
      | (Ok r, s) => (Ok r, s)
      | (Raise e, s) =>
          (Raise (if is_sqlite_error e then sqlite_storage_error e else e), (close_sqlite s).2)
      end
  end.

Definition check_expected (e : Expected) (next_mempool : Mempool) : db unit :=
  metadata ← read_metadata;
  latest ← select (λ t, last (block_rows t));
  _ ← pure (raise_if (negb ((meta_height metadata =? expected_height e)
                            && bool_decide (meta_tip metadata = expected_tip_hash e)
                            && (meta_revision metadata =? expected_revision e)
                            && match latest with
                               | Some r => (row_height r =? expected_height e)
                                           && bool_decide (row_hash r = expected_tip_hash e)
                               | None => false
                               end)) StorageConflictError);
  pure (check_configuration metadata (Some (max_transactions next_mempool)) (Some (max_bytes next_mempool))).

Definition append_sqlite (s : SqliteStore) (b : Block) (next_state : ChainState) (next_mempool : Mempool)
    (e : Expected) : result Z * SqliteStore :=
  let next_height := expected_height e + 1 in
  let next_revision := expected_revision e + 1 in
  match (_ ← require_connection s;
         block_row ← encode_block_row next_height b;
         state_rows ← encode_chainstate_rows next_state;
         pool_rows ← encode_mempool_rows next_mempool;
         let digest := mempool_digest (map row_pool_txid pool_rows) in
         _ ← metadata_row next_height (row_hash block_row) next_revision (max_transactions next_mempool)
               (max_bytes next_mempool) digest;
         Ok (block_row, state_rows, pool_rows, digest)) with
  | Raise e => (Raise e, s)
  | Ok (block_row, state_rows, pool_rows, digest) =>
      match in_transaction
              (_ ← check_expected e next_mempool;
               _ ← pure (raise_if (bool_decide (previous_block_hash b ≠ expected_tip_hash e)) StorageConflictError);
               _ ← insert_block_row block_row;
               _ ← replace_chainstate_rows state_rows;
               _ ← replace_mempool_rows pool_rows;
               update_metadata next_height (row_hash block_row) next_revision digest e) s with
      | (Ok _, s) => (Ok next_revision, s)
      | (Raise e, s) => (Raise e, s)
      end
  end.

Definition replace_sqlite (s : SqliteStore) (next_mempool : Mempool) (e : Expected) : result Z * SqliteStore :=
  let next_revision := expected_revision e + 1 in
  match (_ ← require_connection s;
         pool_rows ← encode_mempool_rows next_mempool;
         let digest := mempool_digest (map row_pool_txid pool_rows) in
         _ ← metadata_row (expected_height e) (expected_tip_hash e) next_revision
               (max_transactions next_mempool) (max_bytes next_mempool) digest;
         Ok (pool_rows, digest)) with
  | Raise e => (Raise e, s)
  | Ok (pool_rows, digest) =>
      match in_transaction
              (_ ← check_expected e next_mempool;
               _ ← replace_mempool_rows pool_rows;
               update_metadata (expected_height e) (expected_tip_hash e) next_revision digest e) s with
      | (Ok _, s) => (Ok next_revision, s)
      | (Raise e, s) => (Raise e, s)
      end
  end.

#[export] Instance sqlite_store : ChainStore := {|
  Store := SqliteStore;
  load_or_initialize := load_sqlite;
  append_block := append_sqlite;
  replace_mempool := replace_sqlite;
  close_store := close_sqlite
|}.
End chain_store.
