(* ===== verification/RowFacts.v ===== *)
(** * Facts about rows: what was written is what is read

    The pure halves of the storage functions: encoding to rows, the constraints
    of the inserts, and decoding, for each of the tables. *)

From S2P Require Import Prelude Bytes Sha256 Json JsonParse Crypto Transaction Utxo TxValidation.
From S2P Require Import Processing Batch Merkle Block Consensus ChainState.
From S2P Require Import Mempool MempoolFacts Mining Blockchain Codec CodecFacts Database Storage.

(** ** Statements *)

Lemma constraint_Ok b u : constraint b = Ok u ↔ b = true.
Proof. unfold constraint. rewrite raise_if_Ok. by rewrite negb_false_iff. Qed.

Lemma insert_by_last {A} (key : A → Z) row rows :
  Forall (λ r, key r <= key row) rows → insert_by key row rows = rows ++ [row].
Proof.
  induction 1 as [|r rows Hr Hrows IH]; [done|]. cbn [insert_by].
  by rewrite (proj2 (Z.ltb_ge _ _)), IH by lia.
Qed.

Lemma execute_all_Ok {A} (f : A → Tables → result Tables) rows (P : list A → Tables → Prop) :
  (∀ done row t t', P done t → f row t = Ok t' → P (done ++ [row]) t') →
  ∀ done t t', P done t → execute_all f rows t = Ok t' → P (done ++ rows) t'.
Proof.
  intros Hstep. induction rows as [|r rows IH]; intros before t t' Ht; cbn [execute_all].
  - intros [= <-]. by rewrite app_nil_r.
  - intros (t1 & H1 & H2)%bind_Ok. rewrite cons_middle, app_assoc. eapply IH; [|exact H2]. by eapply Hstep.
Qed.

(** ** Blocks *)

Definition block_row (h : Z) (b : Block) : BlockRow :=
  MkBlockRow h (block_hash b) (previous_block_hash b) (serialize (block_to_dict b)).

Fixpoint number_blocks (h : Z) (bs : list Block) : list BlockRow :=
  match bs with [] => [] | b :: bs => block_row h b :: number_blocks (h + 1) bs end.

Lemma encode_block_row_Ok h b row :
  encode_block_row h b = Ok row → storable_block b ∧ row = block_row h b ∧ 0 <= h.
Proof.
  unfold encode_block_row. intros (? & Hh%raise_if_Ok & (d & [Hs ->]%encode_block_Ok & [= <-])%bind_Ok)%bind_Ok.
  to_prop. split_and!; [done|done|lia].
Qed.

Lemma number_blocks_snoc h bs b :
  number_blocks h (bs ++ [b]) = number_blocks h bs ++ [block_row (h + Z.of_nat (length bs)) b].
Proof.
  revert h. induction bs as [|x bs IH]; intros h; cbn [number_blocks app length]; [by rewrite Z.add_0_r|].
  rewrite IH. by replace (h + 1 + Z.of_nat (length bs)) with (h + Z.of_nat (S (length bs))) by lia.
Qed.

Lemma number_blocks_heights h bs :
  Forall (λ r, h <= row_height r < h + Z.of_nat (length bs)) (number_blocks h bs).
Proof.
  revert h. induction bs as [|x bs IH]; intros h; cbn [number_blocks length]; constructor; [cbn; lia|].
  eapply Forall_impl; [apply IH|]. intros r. cbn. lia.
Qed.

Lemma decode_block_rows_step h row rows : decode_block_rows h (row :: rows) =
  (_ ← raise_if (negb (row_height row =? h)) StorageCorruptionError;
   b ← decode_block (row_block row);
   _ ← raise_if (bool_decide (row_hash row ≠ block_hash b)
                 || bool_decide (row_previous row ≠ previous_block_hash b)) StorageCorruptionError;
   bs ← decode_block_rows (h + 1) rows;
   Ok (b :: bs)).
Proof. reflexivity. Qed.

Lemma decode_block_rows_cons h row rows b bs :
  row_height row = h → decode_block (row_block row) = Ok b → row_hash row = block_hash b →
  row_previous row = previous_block_hash b → decode_block_rows (h + 1) rows = Ok bs →
  decode_block_rows h (row :: rows) = Ok (b :: bs).
Proof.
  intros Hh Hb Hhash Hprev Hbs. rewrite decode_block_rows_step, Hh, Z.eqb_refl, Hb.
  change (negb true) with false. rewrite raise_if_false, Ok_bind, Hhash, Hprev.
  rewrite !bool_decide_eq_false_2 by (intros Hne; by apply Hne).
  change (false || false) with false. by rewrite raise_if_false, Hbs.
Qed.

Lemma decode_number_blocks h bs : Forall storable_block bs → decode_block_rows h (number_blocks h bs) = Ok bs.
Proof.
  intros Hs. revert h. induction Hs as [|b bs Hb Hs IH]; intros h; [done|]. cbn [number_blocks].
  apply decode_block_rows_cons; [done| |done|done|apply IH].
  exact (proj2 (decode_block_Ok b _) (conj Hb eq_refl)).
Qed.

Lemma number_blocks_hashes h bs : map row_hash (number_blocks h bs) = map block_hash bs.
Proof. revert h. induction bs as [|b bs IH]; intros h; cbn; [done|]. by rewrite IH. Qed.

Lemma last_number_blocks h bs b :
  last (number_blocks h (bs ++ [b])) = Some (block_row (h + Z.of_nat (length bs)) b).
Proof. rewrite number_blocks_snoc. apply last_snoc. Qed.

Lemma insert_block_last t bs b row t' :
  block_rows t = number_blocks 0 bs → row = block_row (Z.of_nat (length bs)) b →
  insert_block row t = Ok t' → t' = set_blocks t (number_blocks 0 (bs ++ [b])).
Proof.
  intros Ht -> H. unfold insert_block in H.
  repeat (let H' := fresh in apply bind_Ok in H as (? & H' & H)). injection H as <-. f_equal.
  rewrite Ht, insert_by_last, number_blocks_snoc; [done|].
  eapply Forall_impl; [apply number_blocks_heights|]. intros r. cbn. lia.
Qed.

(** ** Historical identifiers *)

Lemma insert_seen_all l t t' :
  seen_rows t = [] → execute_all insert_seen l t = Ok t' →
  t' = set_seen t l ∧ NoDup l ∧ Forall (λ x, is_hash x = true) l.
Proof.
  intros Ht Hl.
  enough (t' = set_seen t ([] ++ l) ∧ NoDup ([] ++ l) ∧ Forall (λ x, is_hash x = true) ([] ++ l)) by done.
  eapply (execute_all_Ok insert_seen l (λ before t1, t1 = set_seen t before ∧ NoDup before ∧
    Forall (λ x, is_hash x = true) before)); [|split_and!; [|constructor|constructor]|exact Hl].
  - intros before x t1 t2 (-> & Hnd & Hh) (? & Hc%constraint_Ok & [= <-])%bind_Ok. to_prop. cbn in *.
    split_and!; [done| |by apply Forall_app; split; [|constructor]].
    apply NoDup_app. split_and!; [done| |apply NoDup_singleton].
    by intros y Hy ->%list_elem_of_singleton.
  - destruct t; cbn in *. by subst.
Qed.

Lemma decode_seen_all l : ∀ acc : TxidSet,
  NoDup l → Forall (λ x, is_hash x = true) l → (∀ x, x ∈ l → x ∉ acc) →
  decode_seen_rows l acc = Ok (list_to_set l ∪ acc).
Proof.
  induction l as [|x l IH]; intros acc Hnd Hh Hacc; cbn [decode_seen_rows list_to_set].
  - f_equal. set_solver.
  - apply NoDup_cons in Hnd as [Hx Hnd]. apply Forall_cons in Hh as [Hhx Hh]. rewrite Hhx.
    rewrite bool_decide_eq_false_2 by (apply Hacc; by left). cbn [negb orb raise_if mbind result_bind].
    rewrite IH; [f_equal; set_solver|done|done|]. intros y Hy [->%elem_of_singleton|H]%elem_of_union; [done|].
    apply (Hacc y); [by right|done].
Qed.

(** ** Unspent outputs *)

Lemma encode_utxo_row_Ok st p row :
  encode_utxo_row st p = Ok row ↔
    p.1.1 ∈ seen_txids st ∧ 0 <= p.1.2 <= MAX_SQLITE_INTEGER ∧
    validate_address (recipient_address p.2) = true ∧
    ∃ a, encode_amount (amount p.2) = Ok a ∧ row = MkUtxoRow p.1.1 p.1.2 a (recipient_address p.2).
Proof.
  unfold encode_utxo_row. split.
  - intros (? & H1%raise_if_Ok & (? & H2%raise_if_Ok & (a & Ha & [= <-])%bind_Ok)%bind_Ok)%bind_Ok.
    to_prop. apply dec_stable in H. split_and!; eauto.
  - intros (Hs & [Hlo Hhi] & Ha & a & Henc & ->).
    rewrite bool_decide_eq_false_2 by (intros Hn; by apply Hn).
    rewrite (proj2 (Z.leb_le 0 _)), (proj2 (Z.leb_le _ MAX_SQLITE_INTEGER)), Ha by done.
    change (negb true) with false. change (false || negb (true && true)) with false.
    by rewrite !raise_if_false, Henc.
Qed.

Lemma insert_utxo_all rows t t' :
  utxo_rows t = [] → execute_all insert_utxo rows t = Ok t' → t' = set_utxos t rows.
Proof.
  intros Ht Hl. enough (t' = set_utxos t ([] ++ rows)) by done.
  eapply (execute_all_Ok insert_utxo rows (λ before t1, t1 = set_utxos t before)); [| |exact Hl].
  - intros before r t1 t2 -> H. unfold insert_utxo in H.
    repeat (let H' := fresh in apply bind_Ok in H as (? & H' & H)). by injection H as <-.
  - destruct t; cbn in *. by subst.
Qed.

Lemma decode_utxo_rows_step seen r rows utxos : decode_utxo_rows seen (r :: rows) utxos =
  (_ ← raise_if (bool_decide (row_txid r ∉ seen) || (row_index r <? 0)) StorageCorruptionError;
   _ ← raise_if (negb (validate_address (row_address r))) StorageCorruptionError;
   _ ← raise_if (utxo_exists utxos (row_txid r) (row_index r)) StorageCorruptionError;
   a ← decode_amount (row_amount r);
   utxos ← utxo_add utxos (row_txid r) (row_index r) (MkTxOutput a (row_address r));
   decode_utxo_rows seen rows utxos).
Proof. reflexivity. Qed.

Lemma decode_utxo_all st l rows : ∀ acc : UTXOSet,
  map_result (encode_utxo_row st) l = Ok rows → NoDup l.*1 → (∀ k, k ∈ l.*1 → acc !! k = None) →
  decode_utxo_rows (seen_txids st) rows acc = Ok (list_to_map l ∪ acc).
Proof.
  revert rows. induction l as [|[[tid i] o] l IH]; intros rows acc; cbn [map_result].
  { intros [= <-] _ _. cbn. by rewrite (left_id_L ∅ (∪)). }
  intros (row & (Hs & [Hlo Hhi] & Ha & a & Henc & ->)%encode_utxo_row_Ok & (rows' & Hl & [= <-])%bind_Ok)%bind_Ok.
  cbn [fst snd] in *. intros [Hn Hnd]%NoDup_cons Hacc. rewrite decode_utxo_rows_step.
  cbn [row_txid row_index row_address row_amount].
  rewrite bool_decide_eq_false_2 by (intros Hne; by apply Hne). rewrite (proj2 (Z.ltb_ge _ _)) by done.
  rewrite Ha. change (false || false) with false. change (negb true) with false. rewrite !raise_if_false.
  assert (acc !! (tid, i) = None) as Hnone by (apply Hacc; by left).
  unfold utxo_exists, utxo_add. rewrite Hnone, bool_decide_eq_false_2 by (by intros []).
  rewrite raise_if_false, (proj2 (amount_roundtrip (amount o) a) Henc), !Ok_bind.
  rewrite (IH _ _ Hl Hnd).
  - f_equal. cbn [list_to_map foldr]. rewrite <- insert_union_l, insert_union_r; [by destruct o|].
    apply not_elem_of_list_to_map_1. exact Hn.
  - intros k Hk. rewrite lookup_insert_ne; [apply Hacc; by right|]. intros <-. by apply Hn.
Qed.

(** ** Pending transactions *)

Lemma number_rows_snoc n txs tx rows :
  number_rows n (txs ++ [tx]) = Ok rows ↔ ∃ rows', number_rows n txs = Ok rows' ∧ storable tx ∧
    rows = rows' ++ [MkPoolRow (n + Z.of_nat (length txs)) (txid tx) (transaction_bytes tx)].
Proof.
  revert n rows. induction txs as [|x txs IH]; intros n rows; cbn [app number_rows length].
  - rewrite bind_Ok. setoid_rewrite encode_transaction_Ok. rewrite Z.add_0_r. split.
    + intros (d & [Hs ->] & [= <-]). by exists [].
    + intros (r & [= <-] & Hs & ->). by eexists.
  - rewrite bind_Ok. split.
    + intros (d & Hd & (r & (r' & Hr & Hs & ->)%IH & [= <-])%bind_Ok). exists (MkPoolRow n (txid x) d :: r').
      rewrite Hd, Ok_bind, Hr, Ok_bind. split_and!; [done|done|]. cbn. do 4 f_equal. lia.
    + intros (r & (d & Hd & (r' & Hr & [= <-])%bind_Ok)%bind_Ok & Hs & ->). exists d. split; [done|].
      assert (number_rows (n + 1) (txs ++ [tx]) = Ok (r' ++ [MkPoolRow (n + 1 + Z.of_nat (length txs)) (txid tx)
        (transaction_bytes tx)])) as -> by (apply IH; eauto).
      rewrite Ok_bind. cbn. do 5 f_equal. lia.
Qed.

Lemma number_rows_txids n txs rows : number_rows n txs = Ok rows → map row_pool_txid rows = map txid txs.
Proof.
  revert n rows. induction txs as [|x txs IH]; intros n rows; cbn [number_rows]; [by intros [= <-]|].
  intros (d & _ & (r & Hr & [= <-])%bind_Ok)%bind_Ok. cbn. by rewrite (IH _ _ Hr).
Qed.

Lemma number_rows_sorted n txs rows :
  number_rows n txs = Ok rows →
  ∀ l1 r l2, rows = l1 ++ r :: l2 → Forall (λ q, row_position q <= row_position r) l1.
Proof.
  revert n rows. induction txs as [|x txs IH]; intros n rows; cbn [number_rows].
  { intros [= <-] l1 r l2 H. by destruct l1. }
  intros (d & _ & (rs & Hr & [= <-])%bind_Ok)%bind_Ok [|q l1] r l2 [= <- ->]; [constructor|].
  constructor; [|by eapply IH]. cbn.
  assert (∀ n txs rows q, number_rows n txs = Ok rows → q ∈ rows → n <= row_position q) as Hlow.
  { clear. intros n txs. revert n. induction txs as [|x txs IH]; intros n rows q; cbn [number_rows].
    { intros [= <-] ?%elem_of_nil. done. }
    intros (d & _ & (rs & Hr & [= <-])%bind_Ok)%bind_Ok [->|Hq]%elem_of_cons; [cbn; lia|].
    specialize (IH _ _ _ Hr Hq). lia. }
  specialize (Hlow _ _ _ r Hr ltac:(set_solver)). lia.
Qed.

Lemma insert_pool_all txs rows t t' :
  pool_rows t = [] → number_rows 0 txs = Ok rows → execute_all insert_pool rows t = Ok t' → t' = set_pool t rows.
Proof.
  intros Ht Hn Hl.
  enough (∀ before after t1, rows = before ++ after → t1 = set_pool t before →
    execute_all insert_pool after t1 = Ok t' → t' = set_pool t rows) as Hgen.
  { eapply (Hgen [] rows t); [done| |exact Hl]. destruct t; cbn in *; by subst. }
  intros before after. revert before.
  induction after as [|r after IH]; intros before t1 Heq -> H; cbn [execute_all] in H.
  { injection H as <-. by rewrite Heq, app_nil_r. }
  apply bind_Ok in H as (t2 & Hi & H). apply (IH (before ++ [r]) t2); [by rewrite <- app_assoc| |exact H].
  unfold insert_pool in Hi. repeat (let H' := fresh in apply bind_Ok in Hi as (? & H' & Hi)).
  injection Hi as <-. unfold set_pool. cbn. f_equal. apply insert_by_last. by eapply number_rows_sorted.
Qed.

Section pool.
Context {E : EcdsaLib}.

Lemma replay_pool_rows_step n r rows pool : replay_pool_rows n (r :: rows) pool =
  (_ ← raise_if (negb (row_position r =? n)) StorageCorruptionError;
   tx ← decode_transaction (row_transaction r);
   _ ← raise_if (negb (is_hash (row_pool_txid r)) || bool_decide (row_pool_txid r ≠ txid tx))
         StorageCorruptionError;
   '(added, pool) ← add_transaction pool tx;
   _ ← raise_if (negb added) StorageCorruptionError;
   replay_pool_rows (n + 1) rows pool).
Proof. reflexivity. Qed.

Lemma replay_pool_rows_app n l k pool :
  replay_pool_rows n (l ++ k) pool =
    (pool' ← replay_pool_rows n l pool; replay_pool_rows (n + Z.of_nat (length l)) k pool').
Proof.
  revert n pool. induction l as [|r l IH]; intros n pool; cbn [app length].
  { rewrite Z.add_0_r. reflexivity. }
  rewrite !replay_pool_rows_step.
  destruct (raise_if _ _); [|done]. rewrite !Ok_bind. destruct (decode_transaction _) as [tx|]; [|done].
  rewrite !Ok_bind. destruct (raise_if _ _); [|done]. rewrite !Ok_bind.
  destruct (add_transaction pool tx) as [[added pool']|]; [|done]. rewrite !Ok_bind.
  destruct (raise_if _ _); [|done]. rewrite !Ok_bind, IH.
  by replace (n + 1 + Z.of_nat (length l)) with (n + Z.of_nat (S (length l))) by lia.
Qed.

(** A row that [number_rows] wrote is replayed when its transaction is admissible. *)
Lemma replay_pool_row n tx pool fee u1 :
  storable tx → mempool_len pool < max_transactions pool → valid_tx (working_utxos pool) tx fee →
  txid tx ∉ mp_seen_txids pool → txid tx ∉ (entries pool).*1 →
  total_bytes pool + transaction_size tx <= max_bytes pool →
  apply_valid_transaction (working_utxos pool) tx = Ok u1 →
  replay_pool_rows n [MkPoolRow n (txid tx) (transaction_bytes tx)] pool =
    Ok (MkMempool (max_transactions pool) (max_bytes pool) (confirmed_utxos pool) (mp_seen_txids pool) u1
          (entries pool ++ [(txid tx, MkEntry tx fee (transaction_size tx))])
          (total_bytes pool + transaction_size tx)).
Proof.
  intros Hs Hlen Hv Hseen Hkeys Hb Ha. rewrite replay_pool_rows_step.
  cbn [row_position row_transaction row_pool_txid].
  rewrite Z.eqb_refl, (proj2 (decode_transaction_Ok tx _) (conj Hs eq_refl)), is_hash_txid.
  change (negb true) with false. rewrite raise_if_false, Ok_bind.
  rewrite bool_decide_eq_false_2 by (intros Hne; by apply Hne). change (false || false) with false.
  rewrite raise_if_false.
  assert (admission pool tx = Ok (Some (MkEntry tx fee (transaction_size tx), u1))) as Hadm
    by (apply admit_Some; eauto 10).
  destruct (add_transaction_cases pool tx) as [(e & u & Hadm' & _ & Hadd)|[_ [Hmax|Hno]]]; [|lia|by destruct (Hno _ _ Hadm)].
  rewrite Hadm in Hadm'. injection Hadm' as <- <-. rewrite Hadd, Ok_bind. cbn [entry_size_bytes]. reflexivity.
Qed.

(** Replaying the rows of a pool rebuilds it. *)
Lemma replay_own c s es w mt mb rows :
  pending c s es w → number_rows 0 (entry_tx <$> es) = Ok rows →
  Z.of_nat (length es) <= mt → sumZ_with (entry_size_bytes ∘ snd) es <= mb →
  replay_pool_rows 0 rows (MkMempool mt mb c s c [] 0) =
    Ok (MkMempool mt mb c s w es (sumZ_with (entry_size_bytes ∘ snd) es)).
Proof.
  intros Hp. revert rows. induction Hp as [|es u tx fee u1 Hp IH Hv Hs Hk Ha]; intros rows Hrows Hlen Hb.
  { injection Hrows as <-. reflexivity. }
  rewrite fmap_app in Hrows. apply number_rows_snoc in Hrows as (rows' & Hrows & Hst & ->).
  rewrite sumZ_sizes_snoc, length_app in *. cbn [snd entry_size_bytes length] in *.
  assert (0 <= transaction_size tx) by (unfold transaction_size; lia).
  rewrite replay_pool_rows_app, (IH _ Hrows) by lia. rewrite Ok_bind.
  assert (length rows' = length (entry_tx <$> es)) as Hl.
  { rewrite <- (length_map row_pool_txid), (number_rows_txids _ _ _ Hrows). apply length_map. }
  rewrite Hl. change (entry_tx (txid tx, MkEntry tx fee (transaction_size tx))) with tx in *.
  rewrite (replay_pool_row _ tx _ fee u1); [reflexivity|done| |done|done|done| |done].
  - unfold mempool_len. cbn. lia.
  - cbn. lia.
Qed.

(** ** Metadata *)

Definition meta_row (h : Z) (tip_hash : string) (rev : Z) (mt mb digest : string) : MetaRow :=
  MkMetaRow 1 SCHEMA_VERSION GENESIS_HASH tip_hash h rev digest mt mb.

Lemma metadata_row_Ok h tip_hash rev max_tx max_b digest row :
  metadata_row h tip_hash rev max_tx max_b digest = Ok row →
  0 <= h ∧ 0 <= rev ∧ is_hash tip_hash = true ∧ is_hash digest = true ∧
  ∃ mt mb, encode_amount max_tx = Ok mt ∧ encode_amount max_b = Ok mb ∧ row = meta_row h tip_hash rev mt mb digest.
Proof.
  unfold metadata_row.
  intros (? & H1%raise_if_Ok & (? & H2%raise_if_Ok & (mt & Hmt & (mb & Hmb & [= <-])%bind_Ok)%bind_Ok)%bind_Ok)%bind_Ok.
  to_prop. split_and!; [done..|eauto].
Qed.

Lemma decode_meta_row h tip_hash rev max_tx max_b mt mb digest :
  0 <= h <= rev → is_hash tip_hash = true → is_hash digest = true →
  encode_amount max_tx = Ok mt → encode_amount max_b = Ok mb →
  decode_metadata [meta_row h tip_hash rev mt mb digest] = Ok (MkMetadata h tip_hash rev max_tx max_b digest).
Proof.
  intros [Hh Hr] Ht Hd Hmt%amount_roundtrip Hmb%amount_roundtrip. unfold decode_metadata, meta_row.
  cbn [row_version row_id row_genesis row_tip row_digest row_chain_height row_revision row_max_transactions row_max_bytes].
  rewrite Ht, Hd, Hmt, Hmb, (proj2 (Z.ltb_ge h 0)), (proj2 (Z.ltb_ge rev h)) by done.
  rewrite bool_decide_eq_false_2 by (intros Hne; by apply Hne). reflexivity.
Qed.
End pool.
