(* ===== verification/StorageFacts.v ===== *)
(** * Facts about the chain store: what the tables hold and what recovery reads

    [encodes] says that the tables hold a chain, its ledger and its pool.  The
    transactions of the store establish and keep it, and recovery inverts it. *)

From S2P Require Import Prelude Bytes Sha256 Json JsonParse Crypto Transaction Utxo TxValidation.
From S2P Require Import Processing Batch Merkle Block Consensus ChainState.
From S2P Require Import ChainFacts Mempool MempoolFacts Mining Blockchain BlockchainFacts.
From S2P Require Import Codec CodecFacts Database Storage RowFacts.

(** ** Statements without faults *)

(** A success that no fault disturbed. *)
Definition runs {A} (m : db A) (t : Tables) (a : A) (t' : Tables) : Prop := m (t, []) = (Ok a, (t', [])).

(** A success is the same with or without faults to come: the faults that were
    met did not fire. *)
Class Robust {A} (m : db A) : Prop :=
  robust t fs a t' fs' : m (t, fs) = (Ok a, (t', fs')) → runs m t a t'.

#[export] Instance robust_execute {A} (f : Tables → result (A * Tables)) : Robust (execute f).
Proof.
  intros t fs a t' fs'. unfold runs, execute.
  destruct fs as [|[|c p] fs]; destruct (f t) as [[b t1]|e]; cbn; by intros [= <- <- _] || intros [=].
Qed.

#[export] Instance robust_select {A} (q : Tables → A) : Robust (select q).
Proof. apply robust_execute. Qed.
#[export] Instance robust_update (f : Tables → result Tables) : Robust (update f).
Proof. apply robust_execute. Qed.

#[export] Instance robust_pure {A} (r : result A) : Robust (pure r).
Proof. intros t fs a t' fs'. unfold runs, pure. by intros [= -> <- _]. Qed.

#[export] Instance robust_ret {A} (a : A) : Robust (mret a).
Proof. intros t fs a' t' fs'. unfold runs. cbn. by intros [= -> <- _]. Qed.

Lemma db_bind_Ok {A B} (m : db A) (f : A → db B) s b s' :
  (m ≫= f) s = (Ok b, s') ↔ ∃ a s1, m s = (Ok a, s1) ∧ f a s1 = (Ok b, s').
Proof.
  unfold mbind, db_bind. destruct (m s) as [[a|e] s1]; split.
  - intros H. by exists a, s1.
  - by intros (? & ? & [= <- <-] & ?).
  - done.
  - by intros (? & ? & [=] & ?).
Qed.

#[export] Instance robust_bind {A B} (m : db A) (f : A → db B) :
  Robust m → (∀ a, Robust (f a)) → Robust (m ≫= f).
Proof.
  intros Hm Hf t fs b t' fs' (a & [t1 fs1] & H1 & H2)%db_bind_Ok.
  apply db_bind_Ok. exists a, (t1, []). split; [by eapply Hm|by eapply Hf].
Qed.

Lemma runs_bind {A B} (m : db A) (f : A → db B) t b t' :
  Robust m → runs (m ≫= f) t b t' ↔ ∃ a t1, runs m t a t1 ∧ runs (f a) t1 b t'.
Proof.
  intros Hm. unfold runs. rewrite db_bind_Ok. split.
  - intros (a & [t1 fs1] & H1 & H2). pose proof (Hm _ _ _ _ _ H1) as H. unfold runs in H. rewrite H in H1.
    injection H1 as <-. eauto.
  - intros (a & t1 & H1 & H2). eauto.
Qed.

Lemma runs_pure {A} (r : result A) t a t' : runs (pure r) t a t' ↔ r = Ok a ∧ t' = t.
Proof. unfold runs, pure. split; [by intros [= -> ->]|by intros [-> ->]]. Qed.

Lemma runs_ret {A} (a b : A) t t' : runs (mret a) t b t' ↔ a = b ∧ t' = t.
Proof. unfold runs. cbn. split; [by intros [= -> ->]|by intros [-> ->]]. Qed.

Lemma runs_execute {A} (f : Tables → result (A * Tables)) t a t' : runs (execute f) t a t' ↔ f t = Ok (a, t').
Proof. unfold runs, execute. destruct (f t) as [[b t1]|e]; cbn; split; congruence. Qed.

Lemma runs_select {A} (q : Tables → A) t a t' : runs (select q) t a t' ↔ q t = a ∧ t' = t.
Proof. unfold select. rewrite runs_execute. split; [by intros [= -> ->]|by intros [-> ->]]. Qed.

Lemma runs_update (f : Tables → result Tables) t u t' : runs (update f) t u t' ↔ f t = Ok t'.
Proof.
  unfold update. rewrite runs_execute, bind_Ok. destruct u. split.
  - intros (t1 & H & [= ->]). exact H.
  - intros H. eauto.
Qed.

(** ** Transactions *)

(** A transaction commits what its body computes, or changes nothing; only a
    COMMIT of unknown outcome may do either. *)
Lemma transaction_cases {A} (body : db A) committed fs r t fs' :
  Robust body → transaction body (committed, fs) = (r, (t, fs')) →
  (∃ a, r = Ok a ∧ runs body committed a t) ∨
  (∃ e, r = Raise e ∧ t = committed) ∨
  (r = Raise StorageCommitUncertainError ∧ ∃ a, runs body committed a t).
Proof.
  intros Hb. unfold transaction.
  assert (∀ fs0, match body (committed, tail fs0) with
    | (Raise e, (_, fs)) => (Raise (transaction_error e), (committed, tail fs))
    | (Ok a, (t, fs)) => match fs with
        | Fault _ persisted :: fs => (Raise StorageCommitUncertainError, (if persisted then t else committed, tail fs))
        | _ => (Ok a, (t, tail fs)) end end = (r, (t, fs')) →
    (∃ a, r = Ok a ∧ runs body committed a t) ∨ (∃ e, r = Raise e ∧ t = committed) ∨
    (r = Raise StorageCommitUncertainError ∧ ∃ a, runs body committed a t)) as H.
  { intros fs0. destruct (body (committed, tail fs0)) as [[a|e] [t1 fs1]] eqn:Hr.
    - pose proof (Hb _ _ _ _ _ Hr) as Hrun. destruct fs1 as [|[|c p] fs1].
      + intros [= <- <- _]. left. eauto.
      + intros [= <- <- _]. left. eauto.
      + destruct p; intros [= <- <- _]; right; [right; eauto|left; eauto].
    - intros [= <- <- _]. right; left. eauto. }
  destruct fs as [|[|c p] fs]; [apply H|apply H|]. intros [= <- <- _]. right; left. eauto.
Qed.

Lemma transaction_runs {A} (body : db A) committed a t :
  runs body committed a t → transaction body (committed, []) = (Ok a, (t, [])).
Proof. unfold runs, transaction. cbn [tail]. by intros ->. Qed.

#[export] Instance robust_create_tables l : Robust (create_tables l).
Proof. induction l as [|p l IH]; cbn [create_tables]; apply _. Qed.
#[export] Instance robust_create_schema : Robust create_schema.
Proof. unfold create_schema. apply _. Qed.
#[export] Instance robust_insert_block_row row : Robust (insert_block_row row).
Proof. unfold insert_block_row. apply _. Qed.
#[export] Instance robust_insert_metadata row : Robust (insert_metadata row).
Proof. unfold insert_metadata. apply _. Qed.
#[export] Instance robust_replace_chainstate_rows rows : Robust (replace_chainstate_rows rows).
Proof. unfold replace_chainstate_rows. apply _. Qed.
#[export] Instance robust_replace_mempool_rows rows : Robust (replace_mempool_rows rows).
Proof. unfold replace_mempool_rows. apply _. Qed.
#[export] Instance robust_update_metadata h tip rev d e : Robust (update_metadata h tip rev d e).
Proof. unfold update_metadata. apply _. Qed.
#[export] Instance robust_read_metadata : Robust read_metadata.
Proof. unfold read_metadata. apply _. Qed.
#[export] Instance robust_validate_schema : Robust validate_schema.
Proof. unfold validate_schema. apply _. Qed.
#[export] Instance robust_check_integrity : Robust check_integrity.
Proof. unfold check_integrity. apply _. Qed.
#[export] Instance robust_read_block_rows : Robust read_block_rows.
Proof. unfold read_block_rows. apply _. Qed.
#[export] Instance robust_read_chainstate_rows : Robust read_chainstate_rows.
Proof. unfold read_chainstate_rows. apply _. Qed.
#[export] Instance robust_check_expected e m : Robust (check_expected e m).
Proof. unfold check_expected. apply _. Qed.

(** ** What the tables hold *)

Record encodes (t : Tables) (bs : list Block) (st : ChainState) (mp : Mempool) (rev : Z) : Prop := {
  enc_schema : check_schema (schema_rows t) = Ok tt;
  enc_blocks : block_rows t = number_blocks 0 bs ∧ Forall storable_block bs;
  enc_seen : decode_seen_rows (seen_rows t) ∅ = Ok (seen_txids st);
  enc_utxos : decode_utxo_rows (seen_txids st) (utxo_rows t) ∅ = Ok (utxo_set st);
  enc_pool : number_rows 0 (get_transactions mp) = Ok (pool_rows t);
  enc_meta : ∃ mt mb, encode_amount (max_transactions mp) = Ok mt ∧ encode_amount (max_bytes mp) = Ok mb ∧
    meta_rows t = [meta_row (Z.of_nat (length bs) - 1) (default EmptyString (block_hash <$> last bs)) rev mt mb
                     (mempool_digest (map txid (get_transactions mp)))];
  enc_revision : Z.of_nat (length bs) - 1 <= rev;
  enc_nonempty : bs ≠ []
}.

(** ** The writes *)

Lemma replace_chainstate_runs st rows t u t' :
  encode_chainstate_rows st = Ok rows → runs (replace_chainstate_rows rows) t u t' →
  t' = set_utxos (set_seen t rows.1) rows.2 ∧ decode_seen_rows rows.1 ∅ = Ok (seen_txids st) ∧
  decode_utxo_rows (seen_txids st) rows.2 ∅ = Ok (utxo_set st).
Proof.
  intros (? & _ & (ur & Hur & [= <-])%bind_Ok)%bind_Ok. cbn [fst snd]. unfold replace_chainstate_rows.
  intros (? & t1 & [= <-]%runs_update & H)%runs_bind; [|apply _].
  apply runs_bind in H as (? & t2 & Hd%runs_update & H); [|apply _].
  apply runs_bind in H as (? & t3 & Hs%runs_update & Hu%runs_update); [|apply _].
  unfold delete_seen in Hd. apply bind_Ok in Hd as (? & _ & [= <-]).
  apply insert_seen_all in Hs as (-> & Hnd & Hh); [|done].
  apply insert_utxo_all in Hu as ->; [|done]. split_and!; [by destruct t| |].
  - rewrite decode_seen_all by (done || set_solver). rewrite (right_id_L ∅ (∪)). f_equal.
    apply set_eq. intros y. rewrite elem_of_list_to_set, (merge_sort_Permutation String.le). apply elem_of_elements.
  - assert (merge_sort outpoint_le (map_to_list (utxo_set st)) ≡ₚ map_to_list (utxo_set st)) as Hp
      by apply merge_sort_Permutation.
    assert (NoDup (merge_sort outpoint_le (map_to_list (utxo_set st))).*1) as Hnd'
      by (rewrite Hp; apply NoDup_fst_map_to_list).
    rewrite (decode_utxo_all st _ _ ∅ Hur Hnd') by (intros; apply lookup_empty).
    rewrite (right_id_L ∅ (∪)), (list_to_map_proper _ _ Hnd' Hp). by rewrite list_to_map_to_list.
Qed.

Lemma encode_mempool_rows_Ok mp rows :
  encode_mempool_rows mp = Ok rows → number_rows 0 (get_transactions mp) = Ok rows.
Proof. unfold encode_mempool_rows. by intros (r & Hr & (? & _ & [= <-])%bind_Ok)%bind_Ok. Qed.

Lemma replace_mempool_runs mp rows t u t' :
  encode_mempool_rows mp = Ok rows → runs (replace_mempool_rows rows) t u t' → t' = set_pool t rows.
Proof.
  intros Hr%encode_mempool_rows_Ok. unfold replace_mempool_rows.
  intros (? & t1 & [= <-]%runs_update & H%runs_update)%runs_bind; [|apply _].
  eapply insert_pool_all in H as ->; [by destruct t|done|exact Hr].
Qed.

Lemma update_metadata_runs h tip_hash rev digest e r t u t' :
  meta_rows t = [r] → runs (update_metadata h tip_hash rev digest e) t u t' →
  t' = set_meta t [meta_updated h tip_hash rev digest r] ∧ meta_matches e r = true.
Proof.
  intros Hr. unfold update_metadata. intros (n & t1 & H%runs_execute & Hn)%runs_bind; [|apply _].
  apply runs_pure in Hn as [Hn%raise_if_Ok ->]. unfold update_meta in H. rewrite Hr in H. cbn [map] in H.
  apply bind_Ok in H as (? & _ & [= <- <-]). to_prop.
  destruct (meta_matches e r) eqn:Hm; [by split|]. exfalso. revert Hn.
  rewrite filter_cons_False by congruence. done.
Qed.

Lemma check_expected_runs e mp t u t' : runs (check_expected e mp) t u t' → t' = t.
Proof.
  unfold check_expected, read_metadata. intros (m & t1 & H1 & H)%runs_bind; [|apply _].
  apply runs_bind in H1 as (? & t2 & [_ ->]%runs_select & [_ ->]%runs_pure); [|apply _].
  apply runs_bind in H as (? & t3 & [_ ->]%runs_select & H); [|apply _].
  apply runs_bind in H as (? & t4 & [_ ->]%runs_pure & [_ ->]%runs_pure); [|apply _]. done.
Qed.

(** The body of [append_block]'s transaction. *)
Lemma append_runs t bs st mp rev b st' mp' t' tip_block row srows prows mrow u :
  encodes t bs st mp rev → last bs = Some tip_block →
  max_transactions mp' = max_transactions mp → max_bytes mp' = max_bytes mp →
  let e := MkExpected (Z.of_nat (length bs) - 1) (block_hash tip_block) rev in
  encode_block_row (expected_height e + 1) b = Ok row → encode_chainstate_rows st' = Ok srows →
  encode_mempool_rows mp' = Ok prows →
  let digest := mempool_digest (map row_pool_txid prows) in
  metadata_row (expected_height e + 1) (row_hash row) (rev + 1) (max_transactions mp') (max_bytes mp') digest = Ok mrow →
  runs (_ ← check_expected e mp';
        _ ← pure (raise_if (bool_decide (previous_block_hash b ≠ expected_tip_hash e)) StorageConflictError);
        _ ← insert_block_row row;
        _ ← replace_chainstate_rows srows;
        _ ← replace_mempool_rows prows;
        update_metadata (expected_height e + 1) (row_hash row) (rev + 1) digest e) t u t' →
  encodes t' (bs ++ [b]) st' mp' (rev + 1).
Proof.
  intros [Hsch [Hbs Hsb] Hseen Hutxo Hpool (mt & mb & Hmt & Hmb & Hmeta) Hrev Hne] Hlast Emt Emb e Hrow Hsrows Hprows
    digest Hmrow. cbn [expected_height expected_tip_hash] in e.
  intros (? & t1 & ->%check_expected_runs & H)%runs_bind; [|apply _].
  apply runs_bind in H as (? & t2 & [_ ->]%runs_pure & H); [|apply _].
  apply runs_bind in H as (? & t3 & Hb%runs_update & H); [|apply _].
  apply runs_bind in H as (? & t4 & Hs & H); [|apply _].
  apply runs_bind in H as (? & t5 & Hp & Hm); [|apply _].
  apply encode_block_row_Ok in Hrow as (Hstb & -> & _).
  apply (insert_block_last _ bs b) in Hb as ->; [|done|cbn; f_equal; lia].
  apply (replace_chainstate_runs st') in Hs as (-> & Hset & Hl); [|done].
  apply (replace_mempool_runs mp') in Hp as ->; [|done].
  eapply update_metadata_runs in Hm as [-> _]; [|exact Hmeta].
  pose proof (encode_mempool_rows_Ok _ _ Hprows) as Hn.
  constructor; cbn; try done.
  - split; [done|]. apply Forall_app. by split; [|constructor].
  - exists mt, mb. rewrite Emt, Emb. split_and!; [done|done|]. rewrite last_snoc, length_app. cbn.
    unfold meta_updated, meta_row, digest. rewrite (number_rows_txids _ _ _ Hn). cbn.
    do 2 f_equal. lia.
  - rewrite length_app. cbn. lia.
  - by destruct bs.
Qed.

(** The body of [replace_mempool]'s transaction. *)
Lemma replace_runs t bs st mp rev mp' t' tip_block prows u :
  encodes t bs st mp rev → last bs = Some tip_block →
  max_transactions mp' = max_transactions mp → max_bytes mp' = max_bytes mp →
  let e := MkExpected (Z.of_nat (length bs) - 1) (block_hash tip_block) rev in
  encode_mempool_rows mp' = Ok prows →
  let digest := mempool_digest (map row_pool_txid prows) in
  runs (_ ← check_expected e mp';
        _ ← replace_mempool_rows prows;
        update_metadata (expected_height e) (expected_tip_hash e) (rev + 1) digest e) t u t' →
  encodes t' bs st mp' (rev + 1).
Proof.
  intros [Hsch [Hbs Hsb] Hseen Hutxo Hpool (mt & mb & Hmt & Hmb & Hmeta) Hrev Hne] Hlast Emt Emb e Hprows digest.
  cbn [expected_height expected_tip_hash] in e.
  intros (? & t1 & ->%check_expected_runs & H)%runs_bind; [|apply _].
  apply runs_bind in H as (? & t5 & Hp & Hm); [|apply _].
  apply (replace_mempool_runs mp') in Hp as ->; [|done].
  eapply update_metadata_runs in Hm as [-> _]; [|exact Hmeta].
  pose proof (encode_mempool_rows_Ok _ _ Hprows) as Hn.
  constructor; cbn; try done.
  - exists mt, mb. rewrite Emt, Emb, Hlast. split_and!; [done|done|].
    unfold meta_updated, meta_row, digest. by rewrite (number_rows_txids _ _ _ Hn).
  - lia.
Qed.
