(* ===== verification/RecoverFacts.v ===== *)
(** * Facts about recovery

    What [recover] accepts, that it reads back what the tables encode, and what
    a fresh file is initialized to. *)

From S2P Require Import Prelude Bytes Sha256 Json JsonParse Crypto Transaction Utxo TxValidation.
From S2P Require Import Processing Batch Merkle Block Consensus ChainState.
From S2P Require Import ChainFacts Mempool MempoolFacts Mining Blockchain BlockchainFacts.
From S2P Require Import Codec CodecFacts Database Storage RowFacts StorageFacts.

Section recover.
Context {E : EcdsaLib}.

#[export] Instance robust_read_mempool_rows st m : Robust (read_mempool_rows st m).
Proof. unfold read_mempool_rows. apply _. Qed.

#[export] Instance robust_recover clock now mt mb : Robust (recover clock now mt mb).
Proof. unfold recover. repeat (apply robust_bind; [apply _|intros ?]). apply _. Qed.

(** ** Reading *)

(** A body that only reads is a function of the tables. *)
Class Reads {A} (m : db A) (f : Tables → result A) : Prop := reads t : m (t, []) = (f t, (t, [])).

#[export] Instance reads_pure {A} (r : result A) : Reads (pure r) (λ _, r).
Proof. intros t. reflexivity. Qed.
#[export] Instance reads_ret {A} (a : A) : Reads (mret a) (λ _, Ok a).
Proof. intros t. reflexivity. Qed.
#[export] Instance reads_select {A} (q : Tables → A) : Reads (select q) (λ t, Ok (q t)).
Proof. intros t. reflexivity. Qed.

#[export] Instance reads_bind {A B} (m : db A) (f : A → db B) g h :
  Reads m g → (∀ a, Reads (f a) (h a)) → Reads (m ≫= f) (λ t, a ← g t; h a t).
Proof.
  intros Hm Hf t. unfold mbind, db_bind, result_bind. rewrite (Hm t). destruct (g t) as [a|e]; [apply Hf|done].
Qed.

Lemma reads_eq {A} (m : db A) f g : Reads m f → (∀ t, f t = g t) → Reads m g.
Proof. intros Hm Heq t. by rewrite <- Heq. Qed.

Lemma reads_runs {A} (m : db A) f t a t' : Reads m f → runs m t a t' ↔ f t = Ok a ∧ t' = t.
Proof. intros Hm. unfold runs. rewrite (Hm t). split; [by intros [= -> ->]|by intros [-> ->]]. Qed.

Definition pool_of (st : ChainState) (m : Metadata) (t : Tables) : result Mempool :=
  pool ← new_mempool (Some (utxo_set st)) (Some (seen_txids st)) (meta_max_transactions m) (meta_max_bytes m);
  pool ← replay_pool_rows 0 (pool_rows t) pool;
  _ ← raise_if (bool_decide (mempool_digest (map txid (get_transactions pool)) ≠ meta_digest m)) StorageCorruptionError;
  Ok pool.

#[export] Instance reads_mempool st m : Reads (read_mempool_rows st m) (pool_of st m).
Proof. unfold read_mempool_rows. eapply reads_eq; [apply _|]. reflexivity. Qed.

(** What recovery checks and computes, as a function of the tables. *)
Definition recover_of (clock now : Z) (max_tx max_b : option Z) (t : Tables) : result StoredChain :=
  _ ← check_schema (schema_rows t);
  m ← decode_metadata (meta_rows t);
  _ ← raise_if (negb (foreign_keys_hold t)) StorageCorruptionError;
  _ ← check_configuration m max_tx max_b;
  bs ← (_ ← raise_if (bool_decide (block_rows t = [])) StorageCorruptionError; decode_block_rows 0 (block_rows t));
  _ ← raise_if (negb (bool_decide (block_hash <$> head bs = Some GENESIS_HASH)
                      && (meta_height m =? Z.of_nat (length bs) - 1)
                      && bool_decide (block_hash <$> last bs = Some (meta_tip m)))) StorageCorruptionError;
  rebuilt ← rebuild_chain_state bs clock (Some now);
  st ← match rebuilt with None => Raise StorageCorruptionError | Some st => Ok st end;
  seen ← decode_seen_rows (seen_rows t) ∅;
  utxos ← decode_utxo_rows seen (utxo_rows t) ∅;
  _ ← raise_if (bool_decide (seen ≠ seen_txids st) || bool_decide (utxos ≠ utxo_set st)) StorageCorruptionError;
  pool ← pool_of st m t;
  Ok (MkStored bs st pool (meta_revision m)).

Lemma result_bind_assoc {A B C} (m : result A) (f : A → result B) (g : B → result C) :
  (m ≫= f) ≫= g = m ≫= (λ a, f a ≫= g).
Proof. by destruct m. Qed.

(** Two sequences of the same checks, differently associated. *)
Ltac same_checks :=
  repeat first
    [ reflexivity
    | match goal with
      | |- (_ ≫= _) ≫= _ = _ => rewrite result_bind_assoc
      | |- _ = (_ ≫= _) ≫= _ => rewrite (result_bind_assoc (B := _)) at 1
      | |- Ok _ ≫= _ = _ => rewrite (Ok_bind _ _)
      | |- _ = Ok _ ≫= _ => rewrite (Ok_bind _ _)
      | |- ?m ≫= _ = ?m ≫= _ => destruct m; [|reflexivity]
      end ].

#[export] Instance reads_recover clock now max_tx max_b :
  Reads (recover clock now max_tx max_b) (recover_of clock now max_tx max_b).
Proof.
  unfold recover, validate_schema, read_metadata, check_integrity, read_block_rows, read_chainstate_rows.
  eapply reads_eq; [apply _|]. intros t. unfold recover_of. cbn beta. same_checks.
Qed.

(** ** Soundness *)

Lemma replay_pool_rows_inv n rows pool pool' :
  replay_pool_rows n rows pool = Ok pool' → mempool_inv pool →
  mempool_inv pool' ∧ confirmed_utxos pool' = confirmed_utxos pool ∧ mp_seen_txids pool' = mp_seen_txids pool.
Proof.
  revert n pool. induction rows as [|r rows IH]; intros n pool; [by intros [= <-]|].
  rewrite replay_pool_rows_step.
  intros (? & _ & (tx & _ & (? & _ & ([added pool1] & Ha & (? & _ & Hr)%bind_Ok)%bind_Ok)%bind_Ok)%bind_Ok)%bind_Ok Hp.
  cbn in Hr. destruct (IH _ _ Hr) as (? & -> & ->); [by eapply add_transaction_inv|].
  split; [done|]. by eapply add_transaction_base.
Qed.

Lemma pool_of_inv st m t mp :
  pool_of st m t = Ok mp →
  mempool_inv mp ∧ confirmed_utxos mp = utxo_set st ∧ mp_seen_txids mp = seen_txids st.
Proof.
  unfold pool_of. intros (p & Hp & (p' & Hr & (? & _ & [= <-])%bind_Ok)%bind_Ok)%bind_Ok.
  pose proof (new_mempool_inv _ _ _ _ _ Hp) as Hi. apply new_mempool_Ok in Hp as (_ & _ & ->).
  by destruct (replay_pool_rows_inv _ _ _ _ Hr Hi) as (? & -> & ->).
Qed.

Lemma resolve_some clock now : 0 <= now → resolve_current_time clock (Some now) = Ok now.
Proof. intros. unfold resolve_current_time, is_integer. by rewrite (proj2 (Z.leb_le _ _)). Qed.

(** What recovery returns is coherent, whatever the tables hold. *)
Lemma recover_of_sound clock now max_tx max_b t r :
  0 <= clock → 0 <= now → recover_of clock now max_tx max_b t = Ok r → coherent now r.
Proof.
  intros Hclock Hnow. unfold recover_of.
  intros (? & _ & (m & _ & (? & _ & (? & _ & (bs & _ & (? & _ & (rb & Hrb & H)%bind_Ok)%bind_Ok)%bind_Ok)%bind_Ok)%bind_Ok)%bind_Ok)%bind_Ok.
  apply bind_Ok in H as (st & Hst & (seen & _ & (u & _ & (? & _ & (mp & Hmp & [= <-])%bind_Ok)%bind_Ok)%bind_Ok)%bind_Ok).
  destruct rb as [st'|]; [|done]. injection Hst as ->.
  split; cbn; [|by eapply pool_of_inv].
  by eapply rebuild_chain_state_Ok; [exact Hclock|by apply resolve_some|].
Qed.

(** ** Completeness *)

Lemma decode_seen_rows_Ok rows : ∀ acc seen,
  decode_seen_rows rows acc = Ok seen → seen = list_to_set rows ∪ acc.
Proof.
  induction rows as [|x rows IH]; intros acc seen; cbn [decode_seen_rows list_to_set]; [intros [= <-]; set_solver|].
  intros (? & _ & ->%IH)%bind_Ok. set_solver.
Qed.

Lemma decode_utxo_rows_known seen rows : ∀ acc u,
  decode_utxo_rows seen rows acc = Ok u → Forall (λ r, row_txid r ∈ seen) rows.
Proof.
  induction rows as [|r rows IH]; intros acc u; [constructor|]. rewrite decode_utxo_rows_step.
  intros (? & H%raise_if_Ok & (? & _ & (? & _ & (? & _ & (? & _ & Hr)%bind_Ok)%bind_Ok)%bind_Ok)%bind_Ok)%bind_Ok.
  to_prop. constructor; [by apply dec_stable|by eapply IH].
Qed.

Lemma encodes_foreign_keys t bs st mp rev : encodes t bs st mp rev → foreign_keys_hold t = true.
Proof.
  intros [_ [Hbs _] Hseen%decode_seen_rows_Ok Hu%decode_utxo_rows_known _ (mt & mb & _ & _ & Hmeta) _ Hne].
  rewrite (right_id_L ∅ (∪)) in Hseen.
  unfold foreign_keys_hold. apply andb_true_iff. split; apply forallb_forall; intros r Hr%list_elem_of_In.
  - apply bool_decide_eq_true. apply (elem_of_list_to_set (C := gset string)). rewrite <- Hseen.
    by eapply Forall_forall in Hu.
  - rewrite Hmeta in Hr. apply list_elem_of_singleton in Hr as ->. apply bool_decide_eq_true. cbn.
    rewrite Hbs, number_blocks_hashes. destruct bs as [|b bs _] using rev_ind; [done|].
    rewrite last_snoc. cbn. apply list_elem_of_fmap_2. set_solver.
Qed.

Lemma chain_head now bs st : chain now bs st → block_hash <$> head bs = Some GENESIS_HASH.
Proof.
  induction 1 as [g _ Hg|bs p b st ? ? ? H IH _ _ _]; [|by destruct bs].
  unfold is_genesis_block in Hg. cbn. f_equal. by repeat case_bool_decide.
Qed.

Lemma pool_of_encodes t bs st mp rev m :
  encodes t bs st mp rev → mempool_inv mp → confirmed_utxos mp = utxo_set st → mp_seen_txids mp = seen_txids st →
  meta_max_transactions m = max_transactions mp → meta_max_bytes m = max_bytes mp →
  meta_digest m = mempool_digest (map txid (get_transactions mp)) →
  pool_of st m t = Ok mp.
Proof.
  intros Henc Hinv Hu Hs Hmt Hmb Hd. destruct Hinv as [Hpt Hpb Hc Hb Htot Hpend].
  unfold pool_of. rewrite Hmt, Hmb, Hd, new_mempool_rebuild, Ok_bind by done.
  rewrite <- Hu, <- Hs. unfold mempool_len in Hc. rewrite Htot in Hb.
  rewrite (replay_own _ _ (entries mp) (working_utxos mp)); [|done|exact (enc_pool _ _ _ _ _ Henc)|done|done].
  rewrite Ok_bind, <- Htot. replace (MkMempool _ _ _ _ _ _ _) with mp by by destruct mp.
  by rewrite bool_decide_eq_false_2 by (intros Hne; by apply Hne).
Qed.

(** Recovery reads back exactly what the tables encode. *)
Lemma recover_of_encodes clock now max_tx max_b t bs st mp rev :
  0 <= clock → 0 <= now → encodes t bs st mp rev → coherent now (MkStored bs st mp rev) →
  (∀ n, max_tx = Some n → n = max_transactions mp) → (∀ n, max_b = Some n → n = max_bytes mp) →
  recover_of clock now max_tx max_b t = Ok (MkStored bs st mp rev).
Proof.
  intros Hclock Hnow Henc (Hc & Hinv & Hu & Hs) Hmt Hmb. cbn in *. unfold recover_of.
  pose proof Henc as [Hsch [Hbs Hsb] Hseen Hl _ (at_ & ab & Hat & Hab & Hmeta) Hrev Hne].
  rewrite Hsch, Ok_bind, Hmeta.
  destruct (last bs) as [b0|] eqn:Hlast; [|by apply last_None in Hlast].
  cbn [fmap option_fmap option_map default from_option id].
  assert (0 < Z.of_nat (length bs)) as Hlen by (destruct bs; [done|cbn; lia]).
  erewrite decode_meta_row; [|lia|apply is_hash_block_hash|apply is_hash_sha256_hex|done|done].
  rewrite Ok_bind, (encodes_foreign_keys _ _ _ _ _ Henc). change (negb true) with false. rewrite raise_if_false.
  set (m := MkMetadata _ _ _ _ _ _).
  assert (check_configuration m max_tx max_b = Ok tt) as ->.
  { apply raise_if_Ok, orb_false_iff. split; [destruct max_tx as [n|]|destruct max_b as [n|]]; try done; cbn.
    - by rewrite (Hmt n eq_refl), Z.eqb_refl.
    - by rewrite (Hmb n eq_refl), Z.eqb_refl. }
  rewrite Ok_bind, Hbs, bool_decide_eq_false_2, raise_if_false by (by destruct bs).
  rewrite decode_number_blocks, Ok_bind by done.
  rewrite (chain_head _ _ _ Hc), Hlast. cbn [fmap option_fmap option_map]. cbn [meta_height meta_tip m].
  rewrite Z.eqb_refl, !bool_decide_eq_true_2 by done. change (negb (true && true && true)) with false.
  rewrite raise_if_false.
  rewrite (proj2 (rebuild_chain_state_Ok clock (Some now) now bs st Hclock (resolve_some _ _ Hnow)) Hc), !Ok_bind.
  rewrite Hseen, Ok_bind, Hl, Ok_bind.
  rewrite !bool_decide_eq_false_2 by (intros Hx; by apply Hx). change (false || false) with false.
  rewrite raise_if_false, (pool_of_encodes t bs st mp rev) by done. reflexivity.
Qed.

(** ** Exactness *)

Ltac stable := repeat match goal with H : ¬ (_ ≠ _) |- _ => apply dec_stable in H end.

Lemma decode_block_rows_Ok h rows : ∀ bs,
  decode_block_rows h rows = Ok bs → rows = number_blocks h bs ∧ Forall storable_block bs.
Proof.
  revert h. induction rows as [|[rh rhash rprev rdata] rows IH]; intros h bs; [by intros [= <-]|].
  rewrite decode_block_rows_step. cbn [row_height row_hash row_previous row_block].
  intros (? & H1%raise_if_Ok & (b & [Hb ->]%decode_block_Ok & (? & H2%raise_if_Ok & (bs' & Hr & [= <-])%bind_Ok)%bind_Ok)%bind_Ok)%bind_Ok.
  apply IH in Hr as [-> Hbs]. to_prop. stable. cbn in *. subst.
  split; [done|by constructor].
Qed.

Lemma replay_pool_rows_txs n rows : ∀ pool pool',
  replay_pool_rows n rows pool = Ok pool' →
  ∃ txs, get_transactions pool' = get_transactions pool ++ txs ∧ number_rows n txs = Ok rows ∧
    max_transactions pool' = max_transactions pool ∧ max_bytes pool' = max_bytes pool.
Proof.
  revert n. induction rows as [|[rp rt rd] rows IH]; intros n pool pool'.
  { intros [= <-]. exists []. by rewrite app_nil_r. }
  rewrite replay_pool_rows_step. cbn [row_position row_pool_txid row_transaction].
  intros (? & H1%raise_if_Ok & (tx & [Htx ->]%decode_transaction_Ok & (? & H2%raise_if_Ok & ([added p1] & Ha & H)%bind_Ok)%bind_Ok)%bind_Ok)%bind_Ok.
  cbn in H. apply bind_Ok in H as (? & H3%raise_if_Ok & (txs & Hg & Hn & Hmt & Hmb)%IH). to_prop. subst.
  stable. cbn in *. subst rt.
  destruct (add_transaction_cases pool tx) as [(e & u1 & (fee & -> & _)%admit_Some & _ & Heq)|[Heq _]];
    rewrite Heq in Ha; [injection Ha as <-|done].
  exists (tx :: txs). cbn in *. rewrite Hg, Hmt, Hmb. unfold get_transactions. cbn.
  rewrite map_app, <- app_assoc. split_and!; [done| |done..].
  rewrite (proj2 (encode_transaction_Ok tx _) (conj Htx eq_refl)), Ok_bind, Hn. reflexivity.
Qed.

Lemma pool_of_Ok st m t mp :
  pool_of st m t = Ok mp →
  number_rows 0 (get_transactions mp) = Ok (pool_rows t) ∧ max_transactions mp = meta_max_transactions m ∧
  max_bytes mp = meta_max_bytes m ∧ mempool_digest (map txid (get_transactions mp)) = meta_digest m.
Proof.
  unfold pool_of. intros (p & Hp & (p' & Hr & (? & Hd%raise_if_Ok & [= <-])%bind_Ok)%bind_Ok)%bind_Ok.
  apply new_mempool_Ok in Hp as (_ & _ & ->). apply replay_pool_rows_txs in Hr as (txs & Htx & Hn & -> & ->).
  to_prop. stable. change (get_transactions p' = txs) in Htx. rewrite Htx in *. by split_and!.
Qed.

Lemma decode_metadata_Ok rows m :
  decode_metadata rows = Ok m →
  meta_height m <= meta_revision m ∧ ∃ mt mb, encode_amount (meta_max_transactions m) = Ok mt ∧
  encode_amount (meta_max_bytes m) = Ok mb ∧
  rows = [meta_row (meta_height m) (meta_tip m) (meta_revision m) mt mb (meta_digest m)].
Proof.
  unfold decode_metadata. destruct rows as [|[rid rv rg rt rh rr rd rmt rmb] [|? ?]]; [done| |done]. cbn.
  intros (? & _ & (? & H1%raise_if_Ok & (? & H2%raise_if_Ok & (? & H3%raise_if_Ok &
    (mt & Hmt%amount_roundtrip & (mb & Hmb%amount_roundtrip & [= <-])%bind_Ok)%bind_Ok)%bind_Ok)%bind_Ok)%bind_Ok)%bind_Ok.
  to_prop. stable. subst. cbn. split; [lia|]. by exists rmt, rmb.
Qed.

(** Recovery accepts exactly the tables that encode a coherent chain, and
    returns it. *)
Lemma recover_of_Ok clock now t bs st mp rev :
  0 <= clock → 0 <= now →
  recover_of clock now None None t = Ok (MkStored bs st mp rev) ↔
  encodes t bs st mp rev ∧ coherent now (MkStored bs st mp rev).
Proof.
  intros Hclock Hnow. split; [|intros [??]; by apply recover_of_encodes].
  intros Hr. split; [|exact (recover_of_sound _ _ _ _ _ _ Hclock Hnow Hr)]. revert Hr. unfold recover_of.
  intros (? & Hs & (m & Hm & (? & _ & (? & _ & (bs' & Hbs & (? & Hg%raise_if_Ok & (rb & Hrb & H)%bind_Ok)%bind_Ok)%bind_Ok)%bind_Ok)%bind_Ok)%bind_Ok)%bind_Ok.
  apply bind_Ok in H as (st' & Hst & (seen & Hseen & (u & Hu & (? & Heq%raise_if_Ok & (mp' & Hmp & [= -> -> -> <-])%bind_Ok)%bind_Ok)%bind_Ok)%bind_Ok).
  apply bind_Ok in Hbs as (? & Hne%raise_if_Ok & [Hrows Hstb]%decode_block_rows_Ok).
  apply decode_metadata_Ok in Hm as (Hle & mt & mb & Hmt & Hmb & Hmeta).
  apply pool_of_Ok in Hmp as (Hn & Emt & Emb & Hd).
  to_prop. stable. subst. destruct x. rewrite Hrows in *.
  constructor; try done.
  - exists mt, mb. rewrite Emt, Emb, Hd. split_and!; [done..|]. rewrite Hmeta. repeat f_equal; [lia|].
    by destruct (last bs); cbn in *; simplify_eq.
  - lia.
  - by intros ->.
Qed.

(** ** A fresh file *)

Lemma create_tables_runs l t u t' :
  runs (create_tables l) t u t' → t' = foldl (λ t p, create_table p t) t l.
Proof.
  revert t. induction l as [|p l IH]; intros t; cbn [create_tables foldl]; [by intros [_ ->]%runs_ret|].
  intros (? & t1 & [= <-]%runs_update & H%IH)%runs_bind; [done|apply _].
Qed.

Lemma create_schema_runs t u t' :
  runs create_schema t u t' → schema_rows t = [] ∧ t' = foldl (λ t p, create_table p t) t SCHEMA_SQL.
Proof.
  unfold create_schema. intros (rows & t1 & [<- ->]%runs_select & H)%runs_bind; [|apply _].
  apply runs_bind in H as (? & t2 & [Hr%raise_if_Ok ->]%runs_pure & H%create_tables_runs); [|apply _].
  apply bool_decide_eq_false in Hr. split; [by apply dec_stable|done].
Qed.

Definition initial_pool (max_tx max_b : Z) : Mempool := MkMempool max_tx max_b ∅ ∅ ∅ [] 0.

(** What [initialize_file] writes: the schema, the genesis block, and no
    outputs, identifiers or pending transactions. *)
Lemma initialize_runs max_tx max_b genesis row metadata u t :
  block_hash genesis = GENESIS_HASH → encode_block_row 0 genesis = Ok row →
  metadata_row 0 GENESIS_HASH 0 max_tx max_b (mempool_digest []) = Ok metadata →
  runs (_ ← create_schema; _ ← insert_block_row row; insert_metadata metadata) empty_tables u t →
  encodes t [genesis] empty_state (initial_pool max_tx max_b) 0.
Proof.
  intros Hg (Hst & -> & _)%encode_block_row_Ok.
  intros (_ & _ & _ & _ & mt & mb & Hmt & Hmb & ->)%metadata_row_Ok.
  intros (? & t1 & [_ ->]%create_schema_runs & H)%runs_bind; [|apply _].
  apply runs_bind in H as (? & t2 & Hb%runs_update & Hm%runs_update); [|apply _].
  set (t0 := foldl (λ t p, create_table p t) empty_tables SCHEMA_SQL) in *.
  apply (insert_block_last t0 [] genesis _ t2 eq_refl eq_refl) in Hb as ->.
  unfold insert_meta in Hm. apply bind_Ok in Hm as (? & _ & (? & _ & [= <-])%bind_Ok).
  constructor; cbn [schema_rows block_rows seen_rows utxo_rows pool_rows meta_rows set_blocks set_meta].
  - exact program_schema_valid.
  - split; [done|by constructor].
  - reflexivity.
  - reflexivity.
  - reflexivity.
  - exists mt, mb. split_and!; [done|done|]. cbn. by rewrite Hg.
  - done.
  - done.
Qed.

Lemma initial_coherent now max_tx max_b :
  0 < max_tx → 0 < max_b → coherent now (MkStored [genesis_block] empty_state (initial_pool max_tx max_b) 0).
Proof.
  intros. split_and!; try done; cbn.
  - constructor; [|apply is_genesis_genesis]. apply validate_block_structure_spec. vm_compute. reflexivity.
  - apply (new_mempool_inv (Some ∅) (Some ∅) max_tx max_b). by apply new_mempool_rebuild.
Qed.
End recover.
