(* ===== verification/DurableFacts.v ===== *)
(** * What is on disk

    The operations of [SQLiteChainStore] on a file, faults included, and the
    invariant that ties the object of [Blockchain] to its file. *)

From S2P Require Import Prelude Bytes Sha256 Json JsonParse Crypto Transaction Utxo TxValidation.
From S2P Require Import Processing Batch Merkle Block Consensus ChainState.
From S2P Require Import ChainFacts Mempool MempoolFacts Mining Blockchain BlockchainFacts.
From S2P Require Import Codec CodecFacts Database Storage RowFacts StorageFacts RecoverFacts.

Section durable.
Context {E : EcdsaLib}.

(** ** One transaction on a file *)

Lemma in_transaction_cases {A} (body : db A) s t r s' :
  Robust body → file s = Database t → in_transaction body s = (r, s') →
  (∃ a t', r = Ok a ∧ runs body t a t' ∧ file s' = Database t') ∨
  (∃ e, r = Raise e ∧ file s' = Database t) ∨
  (r = Raise StorageCommitUncertainError ∧ ∃ a t', runs body t a t' ∧ file s' = Database t').
Proof.
  intros Hb Hf. unfold in_transaction. rewrite Hf. cbn [file_tables].
  destruct (transaction body (t, faults s)) as [r1 [t1 fs1]] eqn:Ht. intros [= <- <-]. cbn [file file_after].
  destruct (transaction_cases _ _ _ _ _ _ Hb Ht) as [(a & -> & Hr)|[(e & -> & ->)|(-> & a & Hr)]]; eauto 7.
Qed.

(** The file holds [r]. *)
Definition holds (t : Tables) (r : StoredChain) : Prop :=
  encodes t (stored_blocks r) (stored_state r) (stored_mempool r) (stored_revision r).

Definition expected_of (r : StoredChain) (tip_block : Block) : Expected :=
  MkExpected (Z.of_nat (length (stored_blocks r)) - 1) (block_hash tip_block) (stored_revision r).

(** The outcomes of a write: done; refused with the file as it was; or a COMMIT
    of unknown outcome, with the file as it was or done. *)
Definition write_outcome (t : Tables) (next : StoredChain) (r : result Z) (s' : SqliteStore) : Prop :=
  (r = Ok (stored_revision next) ∧ ∃ t', file s' = Database t' ∧ holds t' next) ∨
  (∃ e, r = Raise e ∧ file s' = Database t) ∨
  (r = Raise StorageCommitUncertainError ∧ ∃ t', file s' = Database t' ∧ holds t' next).

Lemma write_cases (body : db unit) s t next res s' :
  Robust body → file s = Database t → (∀ a t', runs body t a t' → holds t' next) →
  match in_transaction body s with
  | (Ok _, s) => (Ok (stored_revision next), s)
  | (Raise e, s) => (Raise e, s)
  end = (res, s') → write_outcome t next res s'.
Proof.
  intros Hb Hf Hrun. destruct (in_transaction body s) as [q s1] eqn:Ht.
  destruct (in_transaction_cases _ _ _ _ _ Hb Hf Ht) as
    [(a & t' & -> & Hr & Hf')|[(e & -> & Hf')|(-> & a & t' & Hr & Hf')]]; intros [= <- <-].
  - left. split; [done|]. exists t'. split; [done|]. by eapply Hrun.
  - right; left. by exists e.
  - right; right. split; [done|]. exists t'. split; [done|]. by eapply Hrun.
Qed.

Lemma append_sqlite_outcome s t r tip_block b st mp res s' :
  file s = Database t → holds t r → last (stored_blocks r) = Some tip_block →
  max_transactions mp = max_transactions (stored_mempool r) → max_bytes mp = max_bytes (stored_mempool r) →
  append_sqlite s b st mp (expected_of r tip_block) = (res, s') →
  write_outcome t (MkStored (stored_blocks r ++ [b]) st mp (stored_revision r + 1)) res s'.
Proof.
  intros Hf Hh Hlast Hmt Hmb. unfold append_sqlite.
  match goal with |- context [match ?c with Ok _ => _ | Raise e => _ end] => destruct c as [[[[row sr] pr] d]|e] eqn:Hc end.
  2: { intros [= <- <-]. right; left. by exists e. }
  apply bind_Ok in Hc as (? & _ & (row' & Hrow & (sr' & Hsr & (pr' & Hpr & (? & Hmeta & [= -> -> -> <-])%bind_Ok)%bind_Ok)%bind_Ok)%bind_Ok).
  apply (write_cases _ s t (MkStored (stored_blocks r ++ [b]) st mp (stored_revision r + 1))); [apply _|done|].
  intros a t'. by eapply append_runs.
Qed.

Lemma replace_sqlite_outcome s t r tip_block mp res s' :
  file s = Database t → holds t r → last (stored_blocks r) = Some tip_block →
  max_transactions mp = max_transactions (stored_mempool r) → max_bytes mp = max_bytes (stored_mempool r) →
  replace_sqlite s mp (expected_of r tip_block) = (res, s') →
  write_outcome t (MkStored (stored_blocks r) (stored_state r) mp (stored_revision r + 1)) res s'.
Proof.
  intros Hf Hh Hlast Hmt Hmb. unfold replace_sqlite.
  match goal with |- context [match ?c with Ok _ => _ | Raise e => _ end] => destruct c as [[pr d]|e] eqn:Hc end.
  2: { intros [= <- <-]. right; left. by exists e. }
  apply bind_Ok in Hc as (? & _ & (pr' & Hpr & (? & Hmeta & [= -> <-])%bind_Ok)%bind_Ok).
  apply (write_cases _ s t (MkStored (stored_blocks r) (stored_state r) mp (stored_revision r + 1))); [apply _|done|].
  intros a t'. by eapply replace_runs.
Qed.

(** ** Loading *)

Lemma recover_of_unlimited clock now max_tx max_b t r :
  recover_of clock now max_tx max_b t = Ok r → recover_of clock now None None t = Ok r.
Proof.
  unfold recover_of. intros (? & -> & (m & -> & (? & Hfk & (? & _ & H)%bind_Ok)%bind_Ok)%bind_Ok)%bind_Ok.
  by rewrite !Ok_bind, Hfk, Ok_bind.
Qed.

Lemma load_sqlite_Ok s clock ct max_tx max_b r s' :
  load_sqlite s clock ct max_tx max_b = (Ok r, s') →
  ∃ t, file s' = Database t ∧ recover_of clock (default clock ct) None None t = Ok r.
Proof.
  unfold load_sqlite. destruct (_ ≫= _) as [|]; [|done]. unfold load_body.
  cbn zeta. destruct (if connected s then _ else _) as [[?|e] s1]; [|done].
  destruct (in_transaction _ s1) as [[r1|e] s2] eqn:Ht; [|done]. intros [= <- <-].
  unfold in_transaction in Ht.
  destruct (transaction _ _) as [r2 [t fs]] eqn:Htr. injection Ht as -> <-. cbn [file].
  destruct (transaction_cases _ _ _ _ _ _ (robust_recover clock (default clock ct) max_tx max_b) Htr) as
    [(r3 & Heq & Hr)|[(e & He & _)|[He _]]]; [injection Heq as <-|discriminate He..].
  apply (reads_runs _ _ _ _ _ (reads_recover clock (default clock ct) max_tx max_b)) in Hr as [Hr ->].
  apply recover_of_unlimited in Hr. destruct (file s1) as [| |t]; cbn [file_tables file_after] in *; [..|by exists t].
  all: exfalso; revert Hr; unfold recover_of; vm_compute; discriminate.
Qed.

#[export] Instance sqlite_store_laws : ChainStoreLaws (CS := sqlite_store).
Proof.
  intros s clock ct max_tx max_b r s' Hclock Hload.
  pose proof Hload as (t & _ & Hr)%load_sqlite_Ok. eapply recover_of_sound; [exact Hclock| |exact Hr].
  destruct ct as [n|]; [|done]. cbn. revert Hload. cbn. unfold load_sqlite.
  destruct (Z.ltb_spec n 0); [|done].
  destruct (_ ≫= _) as [u|] eqn:Hc; [|done].
  apply bind_Ok in Hc as (? & _ & (? & _ & Hc%raise_if_Ok)%bind_Ok). discriminate Hc.
Qed.

(** A connection that has not been opened, on a file that holds a chain. *)
Definition reopened (t : Tables) : SqliteStore := MkStore false false (Database t) [].

Lemma load_reopened t r clock ct :
  0 <= clock → 0 <= default clock ct → holds t r → coherent (default clock ct) r →
  load_sqlite (reopened t) clock ct None None = (Ok r, MkStore false true (Database t) []).
Proof.
  intros Hclock Hnow Hh Hc. unfold load_sqlite. cbn [store_closed reopened].
  assert (match ct with Some t => t <? 0 | None => false end = false) as -> by
    (destruct ct; [apply Z.ltb_ge; exact Hnow|done]).
  change (false || false) with false. rewrite !raise_if_false. unfold raise_if.
  unfold load_body. cbn [connected reopened open_database file faults store_closed tail].
  unfold in_transaction. cbn [file faults store_closed connected file_tables file_after].
  rewrite (transaction_runs _ t r t).
  - reflexivity.
  - apply (reads_runs _ _ _ _ _ (reads_recover clock (default clock ct) None None)). split; [|done].
    destruct r. by apply recover_of_encodes.
Qed.

(** ** The object and its file *)

#[local] Existing Instance sqlite_store.

Definition core_of (bc : Blockchain) : StoredChain := MkStored (blocks bc) (state bc) (mempool bc) (revision bc).

(** The object's file holds a coherent chain, the object's own unless a write
    has failed. *)
Definition durable (limit : Z) (bc : Blockchain) : Prop :=
  ∃ s t r, store bc = Some s ∧ file s = Database t ∧ holds t r ∧ coherent limit r ∧
    (storage_failed bc = false → r = core_of bc).

Lemma durable_core limit bc bc' :
  durable limit bc → core bc' = core bc → store bc' = store bc →
  (storage_failed bc' = false → storage_failed bc = false) → durable limit bc'.
Proof.
  intros (s & t & r & Hs & Hf & Hh & Hc & Hr) [= Hb Hst Hmp Hrev] Hs' Hfail.
  exists s, t, r. rewrite Hs'. split_and!; [done..|]. intros ->%Hfail%Hr. unfold core_of. congruence.
Qed.

Lemma ensure_usable_open (bc : Blockchain) : ensure_usable bc = Ok tt → storage_failed bc = false.
Proof. unfold ensure_usable. by destruct (closed bc), (storage_failed bc). Qed.

(** A commit leaves the file with the chain the object has, or with a coherent
    one when the object has failed. *)
Lemma commit_durable limit bs st mp b bc res bc' :
  durable limit bc → storage_failed bc = false → coherent limit (MkStored bs st mp 0) →
  max_transactions mp = max_transactions (mempool bc) → max_bytes mp = max_bytes (mempool bc) →
  match b with Some b => bs = blocks bc ++ [b] | None => bs = blocks bc ∧ st = state bc end →
  commit bs st mp b bc = (res, bc') → durable limit bc'.
Proof.
  intros (s & t & r & Hs & Hf & Hh & Hc & Hr) Hfail Hnext Hmt Hmb Hb. rewrite (Hr Hfail) in *. clear Hr.
  assert (∃ tb, last (blocks bc) = Some tb) as [tb Htb].
  { destruct Hc as [Hc _]. apply chain_nonempty in Hc. cbn in Hc.
    destruct (last (blocks bc)) eqn:E1; [by eexists|by apply last_None in E1]. }
  assert (∀ r s', write_outcome t (MkStored bs st mp (revision bc + 1)) r s' →
    match r with
    | Raise e => storage_failure s' e bc
    | Ok rev => (Ok tt, publish (Some s') rev bs st mp bc)
    end = (res, bc') → durable limit bc') as Hout.
  { intros q s' [[-> (t' & Hf' & Hh')]|[(e & -> & Hf')|[-> (t' & Hf' & Hh')]]]; intros [= _ <-].
    - exists s', t', (MkStored bs st mp (revision bc + 1)). by split_and!.
    - exists s', t, (core_of bc). by split_and!.
    - exists s', t', (MkStored bs st mp (revision bc + 1)). by split_and!. }
  unfold commit. rewrite Hs. unfold tip. rewrite Htb. cbn zeta.
  change (MkExpected _ _ _) with (expected_of (core_of bc) tb).
  destruct b as [b|].
  - subst bs. destruct (append_block _ _ _ _ _) as [q s'] eqn:Ha. apply Hout.
    exact (append_sqlite_outcome s t (core_of bc) tb b st mp q s' Hf Hh Htb Hmt Hmb Ha).
  - destruct Hb as [-> ->]. destruct (replace_mempool _ _ _) as [q s'] eqn:Ha. apply Hout.
    exact (replace_sqlite_outcome s t (core_of bc) tb mp q s' Hf Hh Htb Hmt Hmb Ha).
Qed.

Lemma pool_change_durable limit change bc r bc' :
  (∀ m v m', mempool_inv m → change m = Ok (v, m') →
     mempool_inv m' ∧ confirmed_utxos m' = confirmed_utxos m ∧ mp_seen_txids m' = mp_seen_txids m ∧
     max_transactions m' = max_transactions m ∧ max_bytes m' = max_bytes m) →
  bc_inv limit bc → durable limit bc → pool_change change bc = (r, bc') → durable limit bc'.
Proof.
  intros Hchange [Hc Hp Hu Hs] Hd. unfold pool_change.
  destruct (ensure_usable bc) as [[]|e] eqn:Hus; [|by intros [= _ <-]].
  pose proof Hd as (s & _ & _ & Hst & _). rewrite Hst, mempool_copy_id, Ok_bind by done.
  destruct (change (mempool bc)) as [[[] mp]|e] eqn:Hch; [|by intros [= _ <-]..].
  destruct (Hchange _ _ _ Hp Hch) as (Hp' & Hu' & Hs' & Hmt & Hmb).
  destruct (commit _ _ _ _ _) as [q bc1] eqn:Hcm. intros Heq.
  assert (bc1 = bc') as <- by (destruct q; by injection Heq).
  eapply commit_durable; [exact Hd|by apply ensure_usable_open| | | | |exact Hcm]; [|done..].
  split_and!; cbn; [done|done|congruence|congruence].
Qed.

Lemma add_block_durable limit b clock ct now bc r bc' :
  bc_inv limit bc → durable limit bc → resolve_current_time clock ct = Ok now → now <= limit →
  add_block b clock ct bc = (r, bc') → durable limit bc'.
Proof.
  intros Hbc Hd Hnow Hle Hr.
  destruct (add_block_cases _ _ _ _ _ _ _ _ Hbc Hnow Hr) as
    [(e & _ & _ & ->)|[(_ & -> & _)|(next & mp & Hus & Hacc & Hmp & _)]]; [done..|].
  pose proof (accepts_chain _ _ _ _ _ Hbc Hacc) as Hc. rewrite Z.max_r in Hc by done.
  destruct (revalidated_inv _ _ _ _ (bc_pool _ _ Hbc) Hmp) as (Hp & Hu & Hs & Hmt & Hmb).
  revert Hr. unfold add_block. destruct (_ ≫= _) as [[st|]|] eqn:Hv; [|by intros [= _ <-]..].
  destruct (existsb _ _); [by intros [= _ <-]|].
  assert (st = next) as ->.
  { apply bind_Ok in Hv as ([] & _ & (t & Ht & Hv)%bind_Ok).
    apply (validate_and_apply_Ok _ _ _ _ _ _ _ Hnow) in Hv as (Hh & rw & fees & He).
    destruct (tip bc) as [t'|] eqn:Ht'; [|done]. injection Ht as ->.
    destruct Hacc as (_ & _ & _ & _ & _ & _ & Hno).
    assert (accepts now bc b st) as Hacc by (exists t, rw, fees; by rewrite Ht').
    eapply chain_deterministic; [eapply accepts_chain; [exact Hbc|exact Hacc]|exact Hc]. }
  rewrite Hmp. destruct (commit _ _ _ _ _) as [q bc1] eqn:Hcm. intros Heq.
  assert (bc1 = bc') as <- by (destruct q; by injection Heq).
  by eapply commit_durable; [exact Hd|apply ensure_usable_open| | | | |exact Hcm].
Qed.

Lemma close_durable limit bc r bc' : close bc = (r, bc') → durable limit bc → durable limit bc'.
Proof.
  unfold close. intros Hcl (s & t & q & Hs & Hf & Hh & Hc & Hr). rewrite Hs in Hcl.
  assert (durable limit bc) as Hd by (exists s, t, q; by split_and!).
  destruct (closed bc); [by injection Hcl as _ <-|].
  destruct (close_store s) as [res s'] eqn:Hcs. injection Hcl as _ <-.
  assert (file s' = file s) as Hfile.
  { cbn in Hcs. unfold close_sqlite in Hcs. destruct (store_closed s); [by injection Hcs as _ <-|].
    destruct (connected s); [|by injection Hcs as _ <-]. by destruct (faults s) as [|[] ?]; injection Hcs as _ <-. }
  exists s', t, q. rewrite Hfile. by split_and!.
Qed.

Lemma coherent_mono now now' r : now <= now' → coherent now r → coherent now' r.
Proof. intros Hle (Hc & Hp). split; [by eapply chain_mono|done]. Qed.

Lemma open_durable limit s0 clock ct max_tx max_b bc s1 :
  0 <= clock → default clock ct <= limit → open_blockchain s0 clock ct max_tx max_b = (Ok bc, s1) →
  0 <= limit ∧ durable limit bc.
Proof.
  intros Hclock Hle Hopen. assert (0 <= default clock ct) as Hnow.
  { destruct ct as [n|]; [|done]. cbn. revert Hopen. unfold open_blockchain, new_blockchain.
    destruct (Z.ltb_spec n 0); [|done]. done. }
  split; [lia|]. apply open_blockchain_Ok in Hopen as (r & Hr & ->).
  apply load_sqlite_Ok in Hr as (t & Hf & Hr). destruct r as [bs st mp rev].
  apply recover_of_Ok in Hr as [Hh Hc]; [|done..].
  exists s1, t, (MkStored bs st mp rev). split_and!; [done..|by eapply coherent_mono|done].
Qed.

Lemma open_reopened t r clock :
  0 <= clock → holds t r → coherent clock r →
  open_blockchain (reopened t) clock None None None =
    (Ok (MkBlockchain (Some (MkStore false true (Database t) [])) false false (stored_revision r)
           (stored_blocks r) (stored_state r) (stored_mempool r)), MkStore false true (Database t) []).
Proof.
  intros Hclock Hh Hc. unfold open_blockchain, new_blockchain. rewrite create_genesis_block_Ok.
  rewrite raise_if_false. change (load_or_initialize) with load_sqlite.
  rewrite (load_reopened t r clock None) by done. reflexivity.
Qed.
End durable.
