(* ===== verification/StorageTheorems.v ===== *)
(** * What the storage guarantees

    Stored transactions, blocks and amounts read back as they were written; a
    write happens entirely or not at all, whatever fails; and the chain on disk
    is the chain in memory, ready to be opened again. *)

From S2P Require Import Prelude Bytes Sha256 Json JsonParse Crypto Transaction Utxo TxValidation.
From S2P Require Import Processing Batch Sample Merkle Block Consensus ChainState.
From S2P Require Import ChainFacts Mempool MempoolFacts Mining Blockchain.
From S2P Require Import BlockchainFacts Codec CodecFacts Database Storage RowFacts StorageFacts.
From S2P Require Import RecoverFacts DurableFacts.

(** ** The codec *)

(** C11: storing and reading are inverse, for transactions, blocks and amounts:
    the decoder returns a value for exactly the bytes the encoder produces from
    it, so reading back what was written gives the value, and no other byte
    string (another key order, spacing or number format) reads as it. *)
Theorem codec_roundtrip :
  (∀ tx d, encode_transaction tx = Ok d ↔ decode_transaction d = Ok tx) ∧
  (∀ b d, encode_block b = Ok d ↔ decode_block d = Ok b) ∧
  (∀ a s, encode_amount a = Ok s ↔ decode_amount s = Ok a).
Proof.
  split_and!; intros.
  - by rewrite encode_transaction_Ok, decode_transaction_Ok.
  - by rewrite encode_block_Ok, decode_block_Ok.
  - by rewrite amount_roundtrip.
Qed.

(** Decoding arbitrary bytes never yields an ill-typed value.  It returns
    a transaction with the fixed version, a timestamp that is not negative,
    outputs with positive amounts and valid addresses, and complete inputs; or
    a block whose structure [validate_block_structure] accepts and whose
    transactions are such; or it raises [StorageCorruptionError] (or the text
    is outside the characters the model represents). *)
Theorem decoding_typed d :
  match decode_transaction d with
  | Ok tx => storable tx
  | Raise e => e = StorageCorruptionError ∨ e = BeyondLatin1
  end ∧
  match decode_block d with
  | Ok b => validate_block_structure b = Ok true ∧ Forall storable (transactions b)
  | Raise e => e = StorageCorruptionError ∨ e = BeyondLatin1
  end.
Proof.
  split.
  - destruct (decode_transaction d) as [tx|e] eqn:Hd; [by apply decode_transaction_Ok in Hd as [? _]|].
    by eapply decode_transaction_raises.
  - destruct (decode_block d) as [b|e] eqn:Hd; [|by eapply decode_block_raises].
    apply decode_block_Ok in Hd as [Hb _]. split; apply Hb.
Qed.

(** ** Writes *)

Section store.
Context {E : EcdsaLib}.

(** C9: a write is atomic.  Whatever statement fails during [append_block] or
    [replace_mempool] on a file that holds [r]: success means that the file
    holds the chain after the write, under the next revision; an error means
    that the file is as it was, except [StorageCommitUncertainError], after
    which it is either. *)
Theorem write_atomic s t r tip_block b st mp :
  file s = Database t → holds t r → last (stored_blocks r) = Some tip_block →
  max_transactions mp = max_transactions (stored_mempool r) → max_bytes mp = max_bytes (stored_mempool r) →
  (∀ res s', append_sqlite s b st mp (expected_of r tip_block) = (res, s') →
     write_outcome t (MkStored (stored_blocks r ++ [b]) st mp (stored_revision r + 1)) res s') ∧
  (∀ res s', replace_sqlite s mp (expected_of r tip_block) = (res, s') →
     write_outcome t (MkStored (stored_blocks r) (stored_state r) mp (stored_revision r + 1)) res s').
Proof.
  intros Hf Hh Hlast Hmt Hmb.
  split; intros res s' Hr; [by eapply append_sqlite_outcome|by eapply replace_sqlite_outcome].
Qed.

(** C10: opening a file gives what it holds, and nothing else is accepted.
    Loading a database that no fault disturbs returns [r] exactly when the
    tables encode [r] and [r] is coherent at the current time: the blocks are
    a valid chain, the stored outputs and identifiers are the ledger a rebuild
    from genesis finds, and the stored pool is valid on it.  The file is not
    changed. *)
Theorem load_exact t clock ct r :
  0 <= clock → 0 <= default clock ct →
  (∃ s', load_sqlite (reopened t) clock ct None None = (Ok r, s') ∧ file s' = Database t) ↔
  holds t r ∧ coherent (default clock ct) r.
Proof.
  intros Hclock Hnow. split.
  - intros (s' & (t' & Hf & Hr)%load_sqlite_Ok & Hf'). rewrite Hf in Hf'. injection Hf' as ->.
    destruct r. exact (proj1 (recover_of_Ok _ _ _ _ _ _ _ Hclock Hnow) Hr).
  - intros [Hh Hc]. eexists. split; [by apply load_reopened|done].
Qed.

(** ** The object and its file *)

#[local] Existing Instance sqlite_store.

Lemma bc_step_durable limit bc bc' :
  bc_step limit bc bc' → bc_inv limit bc → durable limit bc → durable limit bc'.
Proof.
  intros Hstep Hbc Hd. destruct Hstep as [tx r bc bc' Hs|tid r bc bc' Hs|b clock ct now r bc bc' Hnow Hle Hs|
    b clock ct e r bc bc' Hnow Hs|r bc bc' Hs].
  - eapply pool_change_durable; [|done..|exact Hs]. intros m v m' Hm Ha.
    split; [exact (add_transaction_inv _ _ _ _ Hm Ha)|]. exact (add_transaction_base_limits _ _ _ _ Ha).
  - eapply pool_change_durable; [|done..|exact Hs]. intros m v m' Hm Ha.
    exact (remove_transaction_inv _ _ _ _ Hm Ha).
  - by eapply add_block_durable.
  - destruct (add_block_bad_time clock ct b bc e Hnow) as [e' Ha]. rewrite Ha in Hs. by injection Hs as _ <-.
  - by eapply close_durable.
Qed.

Lemma bc_steps_durable limit bc bc' :
  rtc (bc_step limit) bc bc' → bc_inv limit bc → durable limit bc → durable limit bc'.
Proof. induction 1; eauto using bc_step_inv, bc_step_durable. Qed.

(** C8: a blockchain on a database never loses or corrupts the chain.
    After any calls, with any statements failing on the way, the file can be
    opened again at any later time.  What comes back is a valid chain with its
    ledger and a valid pool; it is the object's own chain, ledger, pool and
    revision as long as no write has failed. *)
Theorem reachable_durable limit s0 clock0 ct max_tx max_b bc0 s1 bc :
  0 <= clock0 → default clock0 ct <= limit →
  open_blockchain s0 clock0 ct max_tx max_b = (Ok bc0, s1) → rtc (bc_step limit) bc0 bc →
  ∃ s t r, store bc = Some s ∧ file s = Database t ∧ coherent limit r ∧
    (storage_failed bc = false → r = core_of bc) ∧
    ∀ clock, limit <= clock →
      ∃ bc1 s2, open_blockchain (reopened t) clock None None None = (Ok bc1, s2) ∧
        core_of bc1 = r ∧ ensure_usable bc1 = Ok tt.
Proof.
  intros Hclock0 Hle Hopen Hsteps.
  pose proof (bc_start_inv limit bc0 (start_open _ _ _ _ _ _ _ _ Hclock0 Hle Hopen)) as Hbc.
  destruct (open_durable _ _ _ _ _ _ _ _ Hclock0 Hle Hopen) as [Hl Hd].
  destruct (bc_steps_durable _ _ _ Hsteps Hbc Hd) as (s & t & r & Hs & Hf & Hh & Hc & Hr).
  exists s, t, r. split_and!; [done..|]. intros clock Hclock.
  eexists _, _. split; [apply open_reopened; [|exact Hh|]|].
  - lia.
  - by eapply coherent_mono.
  - by destruct r.
Qed.
End store.

(** ** Witnesses *)

#[local] Existing Instance sqlite_store.

(** The transaction that initializes a new file, and how it ends. *)
Definition init (row : BlockRow) (metadata : MetaRow) : db unit :=
  _ ← create_schema; _ ← insert_block_row row; insert_metadata metadata.

Definition init_outcome (genesis : Block) (digest : string) : result (result unit * list fault) :=
  row ← encode_block_row 0 genesis;
  metadata ← metadata_row 0 GENESIS_HASH 0 10 100000 digest;
  let '(r, (_, fs)) := init row metadata (empty_tables, []) in Ok (r, fs).

Lemma init_outcome_encodes genesis digest :
  block_hash genesis = GENESIS_HASH → digest = mempool_digest [] →
  init_outcome genesis digest = Ok (Ok tt, []) → ∃ t, encodes t [genesis] empty_state (initial_pool 10 100000) 0.
Proof.
  intros Hg Hd (row & Hrow & (md & Hmd & H)%bind_Ok)%bind_Ok.
  destruct (init row md (empty_tables, [])) as [r [t fs]] eqn:Hi. injection H as -> ->.
  exists t. rewrite Hd in Hmd. exact (initialize_runs 10 100000 genesis row md tt t Hg Hrow Hmd Hi).
Qed.

Definition sample_stored : StoredChain := MkStored [genesis_block] empty_state (initial_pool 10 100000) 0.

Lemma sample_file : ∃ t, holds t sample_stored.
Proof.
  apply (init_outcome_encodes genesis_block (mempool_digest []) genesis_block_hash eq_refl).
  vm_compute. reflexivity.
Qed.

Lemma write_atomic_witness : ∃ t res s',
  replace_sqlite (MkStore false true (Database t) []) (initial_pool 10 100000)
    (expected_of sample_stored genesis_block) = (res, s') ∧
  write_outcome t (MkStored [genesis_block] empty_state (initial_pool 10 100000) 1) res s'.
Proof.
  destruct sample_file as [t Ht]. exists t.
  destruct (replace_sqlite (MkStore false true (Database t) []) (initial_pool 10 100000)
    (expected_of sample_stored genesis_block)) as [res s'] eqn:Hr.
  exists res, s'. split; [reflexivity|].
  exact (proj2 (write_atomic (MkStore false true (Database t) []) t sample_stored genesis_block genesis_block
    empty_state (initial_pool 10 100000) eq_refl Ht eq_refl eq_refl eq_refl) res s' Hr).
Defined.

Lemma load_exact_witness : ∃ t s',
  load_sqlite (reopened t) 0 None None None = (Ok sample_stored, s') ∧ file s' = Database t.
Proof.
  destruct sample_file as [t Ht]. exists t.
  exact (proj2 (load_exact t 0 None sample_stored (Z.le_refl 0) (Z.le_refl 0))
    (conj Ht (initial_coherent 0 10 100000 eq_refl eq_refl))).
Defined.

Lemma reachable_durable_witness : ∃ t bc0 s1,
  open_blockchain (reopened t) 0 None None None = (Ok bc0, s1) ∧
  ∃ s t' r, store bc0 = Some s ∧ file s = Database t' ∧ coherent 0 r.
Proof.
  destruct sample_file as [t Ht].
  pose proof (open_reopened t sample_stored 0 (Z.le_refl 0) Ht (initial_coherent 0 10 100000 eq_refl eq_refl)) as Ho.
  eexists t, _, _. split; [exact Ho|].
  destruct (reachable_durable 0 _ 0 None None None _ _ _ (Z.le_refl 0) (Z.le_refl 0) Ho (rtc_refl _ _))
    as (s & t' & r & Hs & Hf & Hc & _).
  exists s, t', r. exact (conj Hs (conj Hf Hc)).
Defined.
