(* ===== verification/NetConfig.v ===== *)
(** * network/config.py: addresses and the node's configuration

    [local_ipv4], the policy on endpoints, and the checks of
    [NodeConfig.__post_init__].  An address is its 32-bit value.  Durations and
    clock readings are rationals: a finite float has an exact rational value,
    and the rounding of float arithmetic is not modelled. *)

From Stdlib Require Import Strings.Ascii.
From Stdlib Require Export QArith.
From S2P Require Import Prelude Bytes JsonParse.
#[local] Open Scope Z_scope.

Definition PROTOCOL_VERSION : Z := 1.
Definition NETWORK_ID : string := "mini-blockchain-v1".
Definition MAX_FRAME_BYTES : Z := 4 * 1024 * 1024.
Definition MAX_ITEM_BYTES : Z := 2 * 1024 * 1024.
Definition MAX_HEIGHT : Z := 2 ^ 63 - 1.
Definition MAX_BLOCK_BATCH : Z := 16.
Definition MAX_MEMPOOL_PAGE : Z := 32.
Definition MAX_PEER_ENDPOINTS : Z := 32.

(** ** The [ipaddress] module *)

(** [s.split(c)] *)
Fixpoint str_split (c : ascii) (s : string) : list string :=
  match s with
  | EmptyString => [EmptyString]
  | String d s =>
      if bool_decide (c = d) then EmptyString :: str_split c s
      else match str_split c s with
           | [] => [String d EmptyString]
           | x :: l => String d x :: l
           end
  end.

Definition digits (s : string) : bool := str_forall is_digit s && negb (bool_decide (s = EmptyString)).

(** One octet: at most three ASCII digits, no leading zero, at most 255. *)
Definition parse_octet (s : string) : option Z :=
  if digits s && (str_len s <=? 3)%nat && negb (String.prefix "0" s && (1 <? str_len s)%nat)
     && (int_of_decimal s <=? 255)
  then Some (int_of_decimal s) else None.

(** [int(IPv4Address(s))] *)
Definition parse_ipv4 (s : string) : option Z :=
  match str_split "." s with
  | [a; b; c; d] =>
      a ← parse_octet a; b ← parse_octet b; c ← parse_octet c; d ← parse_octet d;
      Some (a * 2 ^ 24 + b * 2 ^ 16 + c * 2 ^ 8 + d)
  | _ => None
  end.

Definition netmask (prefixlen : Z) : Z := 2 ^ 32 - 2 ^ (32 - prefixlen).

(** [IPv4Network]: the address with its host bits clear, and the prefix. *)
Record Ipv4Network := MkNetwork { network_address : Z; prefixlen : Z }.

#[export] Instance network_eq_dec : EqDecision Ipv4Network.
Proof. solve_decision. Defined.

Definition broadcast_address (n : Ipv4Network) : Z := network_address n + 2 ^ (32 - prefixlen n) - 1.

(** [address in network] *)
Definition in_network (address : Z) (n : Ipv4Network) : bool :=
  Z.land address (netmask (prefixlen n)) =? network_address n.

(** [a.subnet_of(b)] *)
Definition subnet_of (a b : Ipv4Network) : bool :=
  (network_address b <=? network_address a) && (broadcast_address a <=? broadcast_address b).

(** The part after the slash: a prefix length, a netmask or a host mask. *)
Definition parse_prefix (s : string) : option Z :=
  if digits s then (if int_of_decimal s <=? 32 then Some (int_of_decimal s) else None)
  else
    ip ← parse_ipv4 s;
    let find (mask : Z) := snd <$> list_find (λ p, netmask p = mask) (seqZ 0 33) in
    match find ip with Some p => Some p | None => find (2 ^ 32 - 1 - ip) end.

(** [IPv4Network(cidr, strict=True)] of a string with a slash. *)
Definition parse_network (cidr : string) : option Ipv4Network :=
  match str_split "/" cidr with
  | [a; p] =>
      address ← parse_ipv4 a;
      p ← parse_prefix p;
      if Z.land address (netmask p) =? address then Some (MkNetwork address p) else None
  | _ => None
  end.

(** [str(address)], [str(network)] *)
Definition ipv4_str (a : Z) : string :=
  let o k := Json.str_of_int (a / 2 ^ k mod 256) in
  o 24 +:+ "." +:+ o 16 +:+ "." +:+ o 8 +:+ "." +:+ o 0.
Definition network_str (n : Ipv4Network) : string :=
  ipv4_str (network_address n) +:+ "/" +:+ Json.str_of_int (prefixlen n).

Definition LOCAL_NETWORKS : list Ipv4Network := [
  MkNetwork (127 * 2 ^ 24) 8; MkNetwork (10 * 2 ^ 24) 8;
  MkNetwork (172 * 2 ^ 24 + 16 * 2 ^ 16) 12; MkNetwork (192 * 2 ^ 24 + 168 * 2 ^ 16) 16
].

Example local_networks_parsed :
  map parse_network ["127.0.0.0/8"; "10.0.0.0/8"; "172.16.0.0/12"; "192.168.0.0/16"] = map Some LOCAL_NETWORKS.
Proof. reflexivity. Qed.

Definition local_ipv4 (host : string) : result Z :=
  match parse_ipv4 host with
  | None => Raise ValueError
  | Some address =>
      _ ← raise_if (negb (existsb (in_network address) LOCAL_NETWORKS)) ValueError;
      _ ← raise_if (existsb (λ n, address =? broadcast_address n) LOCAL_NETWORKS) ValueError;
      Ok address
  end.

(** ** The configuration *)

Abbreviation Endpoint := (string * Z)%type.

Record NodeConfig := MkConfig {
  host : string;
  port : Z;
  db_path : option string;
  seeds : list Endpoint;
  allowed_cidrs : list string;
  mempool_max_transactions : option Z;
  mempool_max_bytes : option Z;
  max_peers : Z;
  max_concurrent_dials : Z;
  max_frame_bytes : Z;
  max_item_bytes : Z;
  inbound_max_events : Z;
  inbound_max_bytes : Z;
  outbound_max_frames : Z;
  outbound_max_bytes : Z;
  max_requests : Z;
  block_batch_size : Z;
  mempool_page_size : Z;
  snapshot_max_transactions : Z;
  snapshot_max_bytes : Z;
  snapshot_global_bytes : Z;
  connect_timeout : Q;
  handshake_timeout : Q;
  request_timeout : Q;
  read_timeout : Q;
  body_timeout : Q;
  write_timeout : Q;
  close_timeout : Q;
  ping_interval : Q;
  pong_timeout : Q;
  status_interval : Q;
  mempool_refresh_interval : Q;
  snapshot_idle_timeout : Q;
  snapshot_lifetime : Q;
  snapshot_cooldown : Q;
  retry_delay : Q;
  reconnect_initial : Q;
  reconnect_max : Q;
  maintenance_interval : Q;
  message_rate : Z;
  message_burst : Z;
  byte_rate : Z;
  byte_burst : Z;
  service_rate : Z;
  service_burst : Z;
  discovery_interval : Q;
  candidate_ttl : Q;
  max_candidates : Z;
  networks : list Ipv4Network
}.

Definition default_config : NodeConfig := {|
  host := "127.0.0.1"; port := 5001; db_path := None; seeds := []; allowed_cidrs := ["127.0.0.0/8"];
  mempool_max_transactions := None; mempool_max_bytes := None;
  max_peers := 8; max_concurrent_dials := 2; max_frame_bytes := MAX_FRAME_BYTES;
  max_item_bytes := MAX_ITEM_BYTES; inbound_max_events := 128; inbound_max_bytes := 16 * 1024 * 1024;
  outbound_max_frames := 64; outbound_max_bytes := 8 * 1024 * 1024; max_requests := 4;
  block_batch_size := MAX_BLOCK_BATCH; mempool_page_size := MAX_MEMPOOL_PAGE;
  snapshot_max_transactions := 4096; snapshot_max_bytes := 4 * 1024 * 1024;
  snapshot_global_bytes := 16 * 1024 * 1024;
  connect_timeout := 5; handshake_timeout := 5; request_timeout := 10; read_timeout := 90;
  body_timeout := 10; write_timeout := 10; close_timeout := 5; ping_interval := 30; pong_timeout := 10;
  status_interval := 15; mempool_refresh_interval := 60; snapshot_idle_timeout := 30;
  snapshot_lifetime := 300; snapshot_cooldown := 10; retry_delay := 10; reconnect_initial := 1;
  reconnect_max := 30; maintenance_interval := 1 # 4;
  message_rate := 100; message_burst := 200; byte_rate := 8 * 1024 * 1024; byte_burst := 16 * 1024 * 1024;
  service_rate := 10; service_burst := 20; discovery_interval := 30; candidate_ttl := 600;
  max_candidates := 128; networks := []
|}.

(** [max(matching, key=prefixlen)]: the first of the longest. *)
Definition most_specific (n : Ipv4Network) (l : list Ipv4Network) : Ipv4Network :=
  foldl (λ best n, if prefixlen best <? prefixlen n then n else best) n l.

Definition validate_host (nets : list Ipv4Network) (h : string) : result string :=
  address ← local_ipv4 h;
  match filter (λ n, in_network address n = true) nets with
  | [] => Raise ValueError
  | n :: matching =>
      let network := most_specific n matching in
      _ ← raise_if ((prefixlen network <? 31)
                    && ((address =? network_address network) || (address =? broadcast_address network))) ValueError;
      Ok (ipv4_str address)
  end.

Definition validate_endpoint (nets : list Ipv4Network) (h : string) (p : Z) : result Endpoint :=
  _ ← raise_if (negb ((1 <=? p) && (p <=? 65535))) ValueError;
  h ← validate_host nets h;
  Ok (h, p).

(** The loop over [allowed_cidrs]. *)
Definition parse_cidr (cidr : string) : result Ipv4Network :=
  _ ← raise_if (bool_decide (length (str_split "/" cidr) = 1%nat)) ValueError;
  match parse_network cidr with
  | None => Raise ValueError
  | Some n => _ ← raise_if (negb (existsb (subnet_of n) LOCAL_NETWORKS)) ValueError; Ok n
  end.

(** The loop over [seeds]: duplicates are dropped. *)
Fixpoint normalize_seeds (nets : list Ipv4Network) (l acc : list Endpoint) : result (list Endpoint) :=
  match l with
  | [] => Ok acc
  | (h, p) :: l =>
      e ← validate_endpoint nets h p;
      normalize_seeds nets l (if bool_decide (e ∈ acc) then acc else acc ++ [e])
  end.

Definition durations (c : NodeConfig) : list Q :=
  [connect_timeout c; handshake_timeout c; request_timeout c; read_timeout c; body_timeout c; write_timeout c;
   close_timeout c; ping_interval c; pong_timeout c; status_interval c; mempool_refresh_interval c;
   snapshot_idle_timeout c; snapshot_lifetime c; snapshot_cooldown c; retry_delay c; reconnect_initial c;
   reconnect_max c; maintenance_interval c; discovery_interval c; candidate_ttl c].

Definition counts (c : NodeConfig) : list Z :=
  option_list (mempool_max_transactions c) ++ option_list (mempool_max_bytes c) ++
  [max_peers c; max_concurrent_dials c; max_frame_bytes c; max_item_bytes c; inbound_max_events c;
   inbound_max_bytes c; outbound_max_frames c; outbound_max_bytes c; max_requests c; block_batch_size c;
   mempool_page_size c; snapshot_max_transactions c; snapshot_max_bytes c; snapshot_global_bytes c;
   message_rate c; message_burst c; byte_rate c; byte_burst c; service_rate c; service_burst c; max_candidates c].

Definition over_limit (c : NodeConfig) : bool :=
  (2 ^ 32 - 1 <? max_frame_bytes c) || (4 <? max_requests c)
  || (MAX_BLOCK_BATCH <? block_batch_size c) || (MAX_MEMPOOL_PAGE <? mempool_page_size c).

(** The fields [__post_init__] writes back. *)
Definition normalized (c : NodeConfig) (h : string) (s : list Endpoint) (nets : list Ipv4Network) : NodeConfig := {|
  host := h; port := port c; db_path := db_path c; seeds := s; allowed_cidrs := map network_str nets;
  mempool_max_transactions := mempool_max_transactions c; mempool_max_bytes := mempool_max_bytes c;
  max_peers := max_peers c; max_concurrent_dials := max_concurrent_dials c; max_frame_bytes := max_frame_bytes c;
  max_item_bytes := max_item_bytes c; inbound_max_events := inbound_max_events c;
  inbound_max_bytes := inbound_max_bytes c; outbound_max_frames := outbound_max_frames c;
  outbound_max_bytes := outbound_max_bytes c; max_requests := max_requests c;
  block_batch_size := block_batch_size c; mempool_page_size := mempool_page_size c;
  snapshot_max_transactions := snapshot_max_transactions c; snapshot_max_bytes := snapshot_max_bytes c;
  snapshot_global_bytes := snapshot_global_bytes c;
  connect_timeout := connect_timeout c; handshake_timeout := handshake_timeout c;
  request_timeout := request_timeout c; read_timeout := read_timeout c; body_timeout := body_timeout c;
  write_timeout := write_timeout c; close_timeout := close_timeout c; ping_interval := ping_interval c;
  pong_timeout := pong_timeout c; status_interval := status_interval c;
  mempool_refresh_interval := mempool_refresh_interval c; snapshot_idle_timeout := snapshot_idle_timeout c;
  snapshot_lifetime := snapshot_lifetime c; snapshot_cooldown := snapshot_cooldown c;
  retry_delay := retry_delay c; reconnect_initial := reconnect_initial c; reconnect_max := reconnect_max c;
  maintenance_interval := maintenance_interval c; message_rate := message_rate c;
  message_burst := message_burst c; byte_rate := byte_rate c; byte_burst := byte_burst c;
  service_rate := service_rate c; service_burst := service_burst c;
  discovery_interval := discovery_interval c; candidate_ttl := candidate_ttl c;
  max_candidates := max_candidates c; networks := nets
|}.

(** [NodeConfig(...)]: the constructor's arguments are the fields of [c], its
    [networks] aside. *)
Definition node_config (c : NodeConfig) : result NodeConfig :=
  _ ← raise_if (bool_decide (allowed_cidrs c = [])) ValueError;
  nets ← map_result parse_cidr (allowed_cidrs c);
  h ← validate_host nets (host c);
  _ ← raise_if (negb ((0 <=? port c) && (port c <=? 65535))) ValueError;
  _ ← raise_if (match db_path c with
                | Some path => bool_decide (path = EmptyString)
                               || negb (str_forall (λ ch, negb (code ch =? 0)%N) path)
                | None => false
                end) ValueError;
  s ← normalize_seeds nets (seeds c) [];
  _ ← raise_if (negb (forallb (λ d, negb (Qle_bool d 0)) (durations c))) ValueError;
  _ ← raise_if (negb (forallb (λ n, 0 <? n) (counts c))) ValueError;
  _ ← raise_if (over_limit c) ValueError;
  _ ← raise_if (max_candidates c <? Z.of_nat (length s)) ValueError;
  _ ← raise_if (negb (Qle_bool (reconnect_initial c) (reconnect_max c))) ValueError;
  Ok (normalized c h s nets).

(** [config.validate_host], [config.validate_endpoint] *)
Definition config_validate_host (c : NodeConfig) (h : string) : result string := validate_host (networks c) h.
Definition config_validate_endpoint (c : NodeConfig) (e : Endpoint) : result Endpoint :=
  validate_endpoint (networks c) e.1 e.2.
