(* ===== verification/Messages.v ===== *)
(** * network/messages.py: the message schemas

    A [Message] arrives with fields of any JSON type; [validate_message] is the
    check the code makes before it uses one. *)

From S2P Require Import Prelude Bytes Json JsonParse Codec NetConfig.
#[local] Open Scope Z_scope.

Definition ERROR_CODES : list string :=
  ["BAD_MESSAGE"; "UNSUPPORTED_VERSION"; "WRONG_NETWORK"; "UNKNOWN_ANCHOR"; "FORK_UNSUPPORTED";
   "STALE_TIP"; "SNAPSHOT_EXPIRED"; "POLICY_LIMIT"; "BUSY"].
Definition REQUEST_TYPES : list string := ["GET_STATUS"; "GET_PEERS"; "GET_BLOCKS"; "GET_MEMPOOL"].

Definition SCHEMAS : list (string * list string) := [
  ("VERSION", ["network_id"; "genesis_hash"; "node_id"; "connection_nonce"; "listen_port"; "height"; "tip_hash"]);
  ("VERACK", []); ("GET_STATUS", []); ("STATUS", ["height"; "tip_hash"]);
  ("GET_PEERS", []); ("PEERS", ["peers"]); ("NEW_TRANSACTION", ["transaction"]);
  ("NEW_BLOCK", ["block"]); ("GET_BLOCKS", ["anchor_height"; "anchor_hash"; "limit"]);
  ("BLOCKS", ["anchor_height"; "anchor_hash"; "tip_height"; "tip_hash"; "blocks"; "more"]);
  ("GET_MEMPOOL", ["tip_hash"; "snapshot_id"; "cursor"; "limit"]);
  ("MEMPOOL", ["tip_hash"; "snapshot_id"; "cursor"; "transactions"; "next_cursor"; "done"]);
  ("PING", ["nonce"]); ("PONG", ["nonce"]); ("ERROR", ["code"; "message"])
].

(** [d[k]] of a table with string keys. *)
Definition table_get {A} (l : list (string * A)) (k : string) : option A :=
  snd <$> (snd <$> list_find (λ p, p.1 = k) l).

Record Message := MkMessage {
  message_type : json;
  payload : json;
  request_id : json;
  message_version : json
}.

(** [Message(kind, payload, request_id)] *)
Definition message (kind : string) (members : list (string * json)) (rid : option string) : Message :=
  MkMessage (JStr kind) (JObj members) (match rid with Some r => JStr r | None => JNull end) (JInt PROTOCOL_VERSION).

(** ** The checks *)

Definition expect (condition : bool) : result unit := raise_if (negb condition) ProtocolError.

Definition check_integer (v : json) (minimum maximum : Z) : result unit :=
  expect match v with JInt z => (minimum <=? z) && (z <=? maximum) | _ => false end.

Definition is_token (s : string) : bool := (str_len s =? 32)%nat && str_forall is_lower_hex s.

Definition check_hex (v : json) (token : bool) : result unit :=
  expect match v with JStr s => if token then is_token s else is_hash s | _ => false end.

Definition check_item (v : json) : result unit :=
  expect match v with
         | JStr s => negb (bool_decide (s = EmptyString)) && str_forall (λ c, (code c <? 128)%N) s
         | _ => false
         end.

(** [for name in names: if name in payload: check(payload[name])] *)
Fixpoint check_present (check : json → result unit) (names : list string) (p : list (string * json)) : result unit :=
  match names with
  | [] => Ok tt
  | n :: names =>
      _ ← match table_get p n with Some v => check v | None => Ok tt end;
      check_present check names p
  end.

Definition check_list (v : json) (maximum : Z) : result (list json) :=
  match v with
  | JList l => _ ← expect (Z.of_nat (length l) <=? maximum); Ok l
  | _ => Raise ProtocolError
  end.

Fixpoint check_each (check : json → result unit) (l : list json) : result unit :=
  match l with [] => Ok tt | v :: l => _ ← check v; check_each check l end.

(** One entry of [payload["peers"]]. *)
Definition check_peer (endpoint : json) : result unit :=
  match endpoint with
  | JObj m =>
      _ ← expect (has_keys m ["host"; "port"]);
      h ← member m "host";
      _ ← match h with
          | JStr s => reraise_as (_ ← local_ipv4 s; Ok tt) [ValueError] ProtocolError
          | _ => Raise ProtocolError
          end;
      p ← member m "port";
      check_integer p 1 65535
  | _ => Raise ProtocolError
  end.

(** The branch for each type. *)
Definition check_payload (kind : string) (p : list (string * json)) : result unit :=
  if bool_decide (kind = "VERSION") then
    n ← member p "network_id";
    _ ← expect (match n with JStr s => bool_decide (s = NETWORK_ID) | _ => false end);
    l ← member p "listen_port"; check_integer l 1 65535
  else if bool_decide (kind = "GET_BLOCKS") then
    l ← member p "limit"; check_integer l 1 MAX_BLOCK_BATCH
  else if bool_decide (kind = "BLOCKS") then
    b ← member p "blocks"; l ← check_list b MAX_BLOCK_BATCH; check_each check_item l
  else if bool_decide (kind = "GET_MEMPOOL") then
    l ← member p "limit";
    _ ← check_integer l 1 MAX_MEMPOOL_PAGE;
    s ← member p "snapshot_id";
    match s with
    | JNull => c ← member p "cursor"; expect (match c with JInt z => z =? 0 | _ => false end)
    | s => check_hex s true
    end
  else if bool_decide (kind = "MEMPOOL") then
    s ← member p "snapshot_id";
    _ ← check_hex s true;
    t ← member p "transactions";
    l ← check_list t MAX_MEMPOOL_PAGE;
    _ ← check_each check_item l;
    c ← member p "cursor";
    n ← member p "next_cursor";
    _ ← expect (match n, c with JInt n, JInt c => n =? c + Z.of_nat (length l) | _, _ => false end);
    d ← member p "done";
    expect (match d with JBool d => d | _ => false end || negb (bool_decide (l = [])))
  else if bool_decide (kind = "PEERS") then
    v ← member p "peers"; l ← check_list v MAX_PEER_ENDPOINTS; check_each check_peer l
  else if bool_decide (kind = "ERROR") then
    c ← member p "code";
    _ ← expect (match c with JStr s => bool_decide (s ∈ ERROR_CODES) | _ => false end);
    m ← member p "message";
    expect (match m with JStr s => (str_len s <=? 256)%nat | _ => false end)
  else Ok tt.

Definition is_none (v : json) : bool := match v with JNull => true | _ => false end.

Definition check_request_id (kind : string) (rid : json) : result unit :=
  let required := bool_decide (kind ∈ REQUEST_TYPES) || bool_decide (kind ∈ ["PEERS"; "BLOCKS"; "MEMPOOL"]) in
  let optional := bool_decide (kind ∈ ["STATUS"; "ERROR"]) in
  if required || (optional && negb (is_none rid)) then check_hex rid true
  else expect (is_none rid).

Definition validate_message (m : Message) : result unit :=
  _ ← expect (match message_version m with JInt v => v =? PROTOCOL_VERSION | _ => false end);
  match message_type m with
  | JStr kind =>
      match table_get SCHEMAS kind, payload m with
      | Some keys, JObj p =>
          _ ← expect (has_keys p keys);
          _ ← check_request_id kind (request_id m);
          _ ← check_present (λ v, check_integer v 0 MAX_HEIGHT)
                ["height"; "anchor_height"; "tip_height"; "cursor"; "next_cursor"] p;
          _ ← check_present (λ v, check_hex v false) ["genesis_hash"; "tip_hash"; "anchor_hash"] p;
          _ ← check_present (λ v, check_hex v true) ["node_id"; "connection_nonce"; "nonce"] p;
          _ ← check_present (λ v, expect match v with JBool _ => true | _ => false end) ["more"; "done"] p;
          _ ← check_present check_item ["transaction"; "block"] p;
          check_payload kind p
      | _, _ => Raise ProtocolError
      end
  | _ => Raise ProtocolError
  end.
