(* ===== verification/Protocol.v ===== *)
(** * network/protocol.py: frames and signed items

    A frame is a length prefix and the canonical JSON of an envelope.  A signed
    item is the base64 text of the storage codec's bytes. *)

From Stdlib Require Import Strings.Byte Strings.Ascii.
From S2P Require Import Prelude Bytes Json JsonParse Crypto Transaction Block Codec NetConfig Messages.
#[local] Open Scope Z_scope.

Definition MAX_JSON_DEPTH : Z := 32.

(** ** [base64] *)

Definition base64_char (n : N) : ascii :=
  ascii_of_N (if n <? 26 then 65 + n else if n <? 52 then 71 + n else if n <? 62 then n - 4
              else if n =? 62 then 43 else 47)%N.

Definition base64_value (c : ascii) : option N :=
  let n := code c in
  (if (65 <=? n) && (n <=? 90) then Some (n - 65)
   else if (97 <=? n) && (n <=? 122) then Some (n - 71)
   else if (48 <=? n) && (n <=? 57) then Some (n + 4)
   else if n =? 43 then Some 62
   else if n =? 47 then Some 63
   else None)%N.

Definition byte_of (n : N) : byte := default Byte.x00 (Byte.of_N (n mod 256)).

(** [base64.b64encode(data).decode("ascii")] *)
Fixpoint b64encode (data : bytes) : string :=
  match data with
  | a :: b :: c :: data =>
      let n := (65536 * Byte.to_N a + 256 * Byte.to_N b + Byte.to_N c)%N in
      String (base64_char (n / 262144)) (String (base64_char (n / 4096 mod 64))
        (String (base64_char (n / 64 mod 64)) (String (base64_char (n mod 64)) (b64encode data))))
  | [a; b] =>
      let n := (1024 * Byte.to_N a + 4 * Byte.to_N b)%N in
      String (base64_char (n / 4096)) (String (base64_char (n / 64 mod 64))
        (String (base64_char (n mod 64)) "="))
  | [a] =>
      let n := (16 * Byte.to_N a)%N in
      String (base64_char (n / 64)) (String (base64_char (n mod 64)) "==")
  | [] => EmptyString
  end.

(** [base64.b64decode(s, validate=True)] of ASCII text: groups of four
    characters of the alphabet, the last one padded; the bits the padding
    leaves over are ignored. *)
Fixpoint b64decode (s : string) : result bytes :=
  match s with
  | EmptyString => Ok []
  | String c1 (String c2 (String c3 (String c4 rest))) =>
      match base64_value c1, base64_value c2, base64_value c3, base64_value c4 with
      | Some a, Some b, Some c, Some d =>
          let n := (262144 * a + 4096 * b + 64 * c + d)%N in
          t ← b64decode rest;
          Ok (byte_of (n / 65536) :: byte_of (n / 256) :: byte_of n :: t)
      | Some a, Some b, Some c, None =>
          if bool_decide (String c4 rest = "=")
          then Ok [byte_of ((4096 * a + 64 * b + c) / 1024); byte_of ((4096 * a + 64 * b + c) / 4)]
          else Raise ValueError
      | Some a, Some b, None, None =>
          if bool_decide (String c3 (String c4 rest) = "==")
          then Ok [byte_of ((64 * a + b) / 16)]
          else Raise ValueError
      | _, _, _, _ => Raise ValueError
      end
  | _ => Raise ValueError
  end.

Example base64_examples :
  map b64encode [[]; [Byte.x66]; [Byte.x66; Byte.x6f]; [Byte.x66; Byte.x6f; Byte.x6f; Byte.xff]]
  = ["" ; "Zg=="; "Zm8="; "Zm9v/w=="] ∧
  map b64decode ["Zg=="; "Zm9v/w=="; "Zg="; "Z"; "Zm8?"] =
  [Ok [Byte.x66]; Ok [Byte.x66; Byte.x6f; Byte.x6f; Byte.xff]; Raise ValueError; Raise ValueError; Raise ValueError].
Proof. split; vm_compute; reflexivity. Qed.

(** ** Envelopes *)

Definition check_limit_positive (v : Z) : result unit := raise_if (v <=? 0) ValueError.

(** [_check_depth], from a state of its loop. *)
Fixpoint scan_depth (data : bytes) (depth : Z) (in_string escaped : bool) : result unit :=
  match data with
  | [] => raise_if (in_string || negb (depth =? 0)) ProtocolError
  | b :: data =>
      let n := Byte.to_N b in
      if in_string then
        if escaped then scan_depth data depth true false
        else if (n =? 92)%N then scan_depth data depth true true
        else scan_depth data depth (negb (n =? 34)%N) false
      else if (n =? 34)%N then scan_depth data depth true escaped
      else if ((n =? 91) || (n =? 123))%N then
        _ ← raise_if (MAX_JSON_DEPTH <? depth + 1) ProtocolError;
        scan_depth data (depth + 1) false escaped
      else if ((n =? 93) || (n =? 125))%N then
        _ ← raise_if (depth - 1 <? 0) ProtocolError;
        scan_depth data (depth - 1) false escaped
      else scan_depth data depth false escaped
  end.

Definition check_depth (data : bytes) : result unit := scan_depth data 0 false false.

Definition envelope (m : Message) : json :=
  JObj [("payload", payload m); ("request_id", request_id m); ("type", message_type m);
        ("version", message_version m)].

(** [n.to_bytes(4, "big")] *)
Definition be32 (n : Z) : bytes :=
  map (λ k, byte_of (Z.to_N (n / k))) [2 ^ 24; 2 ^ 16; 2 ^ 8; 1].

(** [int.from_bytes(b, "big")] *)
Definition int_of_be (b : bytes) : Z := foldl (λ n x, 256 * n + Z.of_N (Byte.to_N x)) 0 b.

Definition encode_message (m : Message) (max_frame_bytes : Z) : result bytes :=
  _ ← check_limit_positive max_frame_bytes;
  _ ← validate_message m;
  let body := serialize (envelope m) in
  _ ← raise_if (Z.min max_frame_bytes (2 ^ 32 - 1) <? Z.of_nat (length body)) PolicyLimitError;
  Ok (be32 (Z.of_nat (length body)) ++ body).

Definition envelope_object (pairs : list (string * json)) : result json := unique_pairs ProtocolError [] pairs.

Definition ENVELOPE_KEYS : list string := ["version"; "type"; "request_id"; "payload"].

(** [Message( **parsed)] *)
Definition message_of (m : list (string * json)) : result Message :=
  t ← member m "type"; p ← member m "payload"; r ← member m "request_id"; v ← member m "version";
  Ok (MkMessage t p r v).

Definition ENVELOPE_ERRORS : list exn := [ValueError; TypeError; OverflowError; RecursionError].

Definition decode_message (body : bytes) (max_frame_bytes : Z) : result Message :=
  _ ← check_limit_positive max_frame_bytes;
  _ ← raise_if (bool_decide (body = [])) ProtocolError;
  _ ← raise_if (max_frame_bytes <? Z.of_nat (length body)) PolicyLimitError;
  _ ← check_depth body;
  reraise_as
    (s ← utf8_decode body;
     parsed ← loads envelope_object ProtocolError s;
     match parsed with
     | JObj m =>
         _ ← raise_if (negb (has_keys m ENVELOPE_KEYS)) ProtocolError;
         msg ← message_of m;
         _ ← validate_message msg;
         _ ← raise_if (bool_decide (serialize parsed ≠ body)) ProtocolError;
         Ok msg
     | _ => Raise ProtocolError
     end)
    ENVELOPE_ERRORS ProtocolError.

(** ** Signed items *)

Section items.
Context {A : Type}.

Definition pack (encoder : A → result bytes) (value : A) (max_item_bytes : Z) : result string :=
  _ ← check_limit_positive max_item_bytes;
  data ← reraise_as (encoder value) [StorageCorruptionError] ProtocolError;
  _ ← raise_if (max_item_bytes <? Z.of_nat (length data)) PolicyLimitError;
  Ok (b64encode data).

Definition unpack (decoder : bytes → result A) (value : string) (max_item_bytes : Z) : result A :=
  _ ← check_limit_positive max_item_bytes;
  _ ← raise_if (bool_decide (value = EmptyString)) ProtocolError;
  _ ← raise_if (4 * ((max_item_bytes + 2) / 3) <? Z.of_nat (str_len value)) PolicyLimitError;
  data ← reraise_as
           (_ ← raise_if (negb (str_forall (λ c, (code c <? 128)%N) value)) ValueError; b64decode value)
           [ValueError] ProtocolError;
  _ ← raise_if (max_item_bytes <? Z.of_nat (length data)) PolicyLimitError;
  _ ← raise_if (bool_decide (b64encode data ≠ value)) ProtocolError;
  _ ← check_depth data;
  reraise_as (decoder data) [StorageCorruptionError] ProtocolError.
End items.

Definition pack_transaction (tx : Transaction) (max_item_bytes : Z) : result string :=
  pack encode_transaction tx max_item_bytes.
Definition unpack_transaction (value : string) (max_item_bytes : Z) : result Transaction :=
  unpack decode_transaction value max_item_bytes.
Definition pack_block (b : Block) (max_item_bytes : Z) : result string := pack encode_block b max_item_bytes.
Definition unpack_block (value : string) (max_item_bytes : Z) : result Block :=
  unpack decode_block value max_item_bytes.
