(* ===== verification/ProtocolFacts.v ===== *)
(** * Facts about frames and signed items *)

From Stdlib Require Import Strings.Byte Strings.Ascii DecimalString.
From S2P Require Import Prelude Bytes Sha256 Json JsonParse JsonFacts Crypto Transaction Utxo TxValidation.
From S2P Require Import Merkle Block Consensus ChainState.
From S2P Require Import Codec CodecFacts NetConfig Messages Protocol.
#[local] Open Scope Z_scope.

#[local] Ltac Zify.zify_post_hook ::= Z.to_euclidean_division_equations.

(** ** base64 *)

(** The alphabet, checked on its 64 values. *)
Lemma base64_char_spec n :
  (n < 64)%N → base64_value (base64_char n) = Some n ∧ (code (base64_char n) <? 128)%N = true.
Proof.
  intros Hn. assert (∀ k, (k < 64)%nat → base64_value (base64_char (N.of_nat k)) = Some (N.of_nat k) ∧
    (code (base64_char (N.of_nat k)) <? 128)%N = true) as H.
  { intros k Hk. do 64 (destruct k as [|k]; [by split|]). lia. }
  specialize (H (N.to_nat n) ltac:(lia)). by rewrite N2Nat.id in H.
Qed.

Lemma base64_value_char n : (n < 64)%N → base64_value (base64_char n) = Some n.
Proof. intros Hn. by destruct (base64_char_spec n Hn). Qed.

Lemma byte_of_to_N (b : byte) n : (n mod 256 = Byte.to_N b)%N → byte_of n = b.
Proof. intros H. unfold byte_of. by rewrite H, Byte.of_to_N. Qed.

Lemma byte_bound (b : byte) : (Byte.to_N b < 256)%N.
Proof. pose proof (Byte.to_N_bounded b). lia. Qed.

Ltac byte_bounds :=
  repeat match goal with
  | x : byte |- _ =>
      lazymatch goal with H : (Byte.to_N x < 256)%N |- _ => fail | _ => pose proof (byte_bound x) end
  end.

Lemma base64_padding_value : base64_value "=" = None.
Proof. reflexivity. Qed.

Lemma triple_ind (P : bytes → Prop) :
  P [] → (∀ a, P [a]) → (∀ a b, P [a; b]) → (∀ a b c l, P l → P (a :: b :: c :: l)) → ∀ l, P l.
Proof.
  intros H0 H1 H2 H3 l. remember (length l) as n eqn:Hn. revert l Hn.
  induction (lt_wf n) as [n _ IH]. intros [|a [|b [|c l]]] ->; [done..|]. apply H3. eapply IH; [|reflexivity].
  cbn. lia.
Qed.

Lemma b64decode_encode d : b64decode (b64encode d) = Ok d.
Proof.
  induction d as [|a|a b|a b c d IH] using triple_ind; cbn [b64encode b64decode]; [done|..];
    byte_bounds;
    repeat (rewrite base64_value_char by lia; cbv beta iota zeta); rewrite ?base64_padding_value.
  - cbv beta iota zeta. rewrite bool_decide_eq_true_2 by done. do 2 f_equal. apply byte_of_to_N. lia.
  - cbv beta iota zeta. rewrite bool_decide_eq_true_2 by done.
    do 2 f_equal; [|f_equal]; apply byte_of_to_N; lia.
  - rewrite IH, Ok_bind. do 2 f_equal; [|do 1 f_equal; [|f_equal]]; apply byte_of_to_N; lia.
Qed.

Lemma base64_char_ascii n : (n < 64)%N → (code (base64_char n) <? 128)%N = true.
Proof. intros Hn. by destruct (base64_char_spec n Hn). Qed.

Lemma b64encode_ascii d : str_forall (λ c, (code c <? 128)%N) (b64encode d) = true.
Proof.
  induction d as [|a|a b|a b c d IH] using triple_ind; cbn [b64encode str_forall]; [done|..];
    byte_bounds;
    rewrite !base64_char_ascii by lia; [done|done|exact IH].
Qed.

(** Four characters for three bytes, the last group padded. *)
Lemma b64encode_len d : Z.of_nat (str_len (b64encode d)) = 4 * ((Z.of_nat (length d) + 2) / 3).
Proof.
  induction d as [|a|a b|a b c d IH] using triple_ind; [done..|].
  cbn [b64encode]. unfold str_len in *. cbn [String.length length].
  replace (Z.of_nat (S (S (S (length d)))) + 2) with (Z.of_nat (length d) + 2 + 1 * 3) by lia.
  rewrite Z.div_add by lia. lia.
Qed.

(** ** Nesting *)

Fixpoint json_depth (j : json) : Z :=
  match j with
  | JList l => 1 + foldr (λ x d, Z.max (json_depth x) d) 0 l
  | JObj m => 1 + foldr (λ p d, Z.max (json_depth p.2) d) 0 m
  | _ => 0
  end.

(** A character outside strings that the scan skips. *)
Definition plain (c : ascii) : bool :=
  let n := code c in
  (negb (n =? 34) && negb (n =? 91) && negb (n =? 93) && negb (n =? 123) && negb (n =? 125))%N.

Abbreviation B := list_byte_of_string.

Lemma bytes_app s t : B (s +:+ t) = B s ++ B t.
Proof. induction s as [|c s IH]; [done|]. rewrite str_app_cons. change (B (String c ?x)) with (byte_of_ascii c :: B x). by rewrite IH. Qed.

Lemma byte_of_ascii_code c : Byte.to_N (byte_of_ascii c) = code c.
Proof. by destruct c as [[] [] [] [] [] [] [] []]. Qed.

Lemma scan_depth_plain s rest d :
  str_forall plain s = true → scan_depth (B s ++ rest) d false false = scan_depth rest d false false.
Proof.
  induction s as [|c s IH]; [done|]. cbn [str_forall]. intros [Hc Hs]%andb_true_iff.
  change (B (String c s)) with (byte_of_ascii c :: B s). cbn [app scan_depth]. rewrite byte_of_ascii_code.
  unfold plain in Hc. repeat (apply andb_true_iff in Hc as [Hc ?]). rewrite negb_true_iff in *.
  repeat match goal with H : (_ =? _)%N = false |- _ => rewrite H; clear H end. by apply IH.
Qed.

Lemma scan_depth_escape s rest d : scan_depth (B (escape s) ++ rest) d true false = scan_depth rest d true false.
Proof.
  induction s as [|c s IH]; [done|]. cbn [escape]. rewrite bytes_app, <- app_assoc.
  rewrite <- IH. generalize (B (escape s) ++ rest). intros t.
  by destruct c as [[] [] [] [] [] [] [] []].
Qed.

Lemma scan_depth_quote s rest d : scan_depth (B (quote s) ++ rest) d false false = scan_depth rest d false false.
Proof.
  unfold quote. rewrite !bytes_app, <- !app_assoc. change (B quote_char ++ ?t) with (Byte.x22 :: t).
  cbn [scan_depth]. change (Byte.to_N Byte.x22) with 34%N. cbn -[app]. rewrite scan_depth_escape. reflexivity.
Qed.

Lemma plain_int z : str_forall plain (str_of_int z) = true.
Proof.
  assert (∀ d, str_forall plain (NilEmpty.string_of_uint d) = true) as He by (by induction d).
  assert (∀ d, str_forall plain (NilZero.string_of_uint d) = true) as Hz by (intros []; [done|apply He..]).
  unfold str_of_int. destruct (Z.to_int z); cbn [NilZero.string_of_int]; apply Hz.
Qed.

Definition scans (d : Z) (s : string) : Prop :=
  ∀ rest, scan_depth (B s ++ rest) d false false = scan_depth rest d false false.

Lemma scans_app d s t : scans d s → scans d t → scans d (s +:+ t).
Proof. intros Hs Ht rest. by rewrite bytes_app, <- app_assoc, Hs, Ht. Qed.

Lemma scans_join d l : Forall (scans d) l → scans d (comma_join l).
Proof.
  induction 1 as [|s l Hs Hl IH]; [done|]. destruct l as [|t l]; [exact Hs|].
  change (comma_join (s :: t :: l)) with (s +:+ "," +:+ comma_join (t :: l)).
  apply scans_app; [exact Hs|]. apply scans_app; [|exact IH]. intros rest. by apply (scan_depth_plain ",").
Qed.

Lemma scan_depth_open b rest d : Byte.to_N b = 91%N ∨ Byte.to_N b = 123%N → d + 1 <= MAX_JSON_DEPTH →
  scan_depth (b :: rest) d false false = scan_depth rest (d + 1) false false.
Proof.
  intros Hb Hd. cbn [scan_depth]. rewrite (proj2 (Z.ltb_ge MAX_JSON_DEPTH (d + 1))) by done. by destruct Hb as [-> | ->].
Qed.

Lemma scan_depth_close b rest d : Byte.to_N b = 93%N ∨ Byte.to_N b = 125%N → 0 < d →
  scan_depth (b :: rest) d false false = scan_depth rest (d - 1) false false.
Proof.
  intros Hb Hd. cbn [scan_depth]. rewrite (proj2 (Z.ltb_ge (d - 1) 0)) by lia. by destruct Hb as [-> | ->].
Qed.

(** A bracketed text nests one level deeper. *)
Lemma scans_bracket d a b s :
  (a = "["%char ∧ b = "]"%char ∨ a = "{"%char ∧ b = "}"%char) → 0 <= d → d + 1 <= MAX_JSON_DEPTH →
  scans (d + 1) s → scans d (String a EmptyString +:+ s +:+ String b EmptyString).
Proof.
  intros Hab Hd Hmax Hs rest. rewrite !bytes_app, <- !app_assoc.
  assert (∀ x t, B (String x EmptyString) ++ t = byte_of_ascii x :: t) as Hb by done. rewrite !Hb.
  rewrite scan_depth_open, Hs, scan_depth_close by (destruct Hab as [[-> ->]|[-> ->]]; (by left) || (by right) || lia).
  by replace (d + 1 - 1) with d by lia.
Qed.

Lemma json_depth_nonneg j : 0 <= json_depth j.
Proof.
  destruct j as [| | | |l|m]; cbn [json_depth]; try lia.
  - enough (0 <= foldr (λ x d, Z.max (json_depth x) d) 0 l) by lia. induction l; cbn; lia.
  - enough (0 <= foldr (λ p d, Z.max (json_depth p.2) d) 0 m) by lia. induction m as [|p m IH]; cbn; lia.
Qed.

Lemma foldr_max_le {A} (f : A → Z) l n :
  1 + foldr (λ x d, Z.max (f x) d) 0 l <= n ↔ 1 <= n ∧ Forall (λ x, f x <= n - 1) l.
Proof.
  induction l as [|x l IH]; cbn [foldr]; [split; [intros; split; [lia|constructor]|lia]|].
  rewrite Forall_cons. assert (∀ a b, 1 + Z.max a b <= n ↔ a <= n - 1 ∧ 1 + b <= n) as -> by lia.
  rewrite IH. tauto.
Qed.

Lemma json_depth_list l n : json_depth (JList l) <= n ↔ 1 <= n ∧ Forall (λ j, json_depth j <= n - 1) l.
Proof. apply foldr_max_le. Qed.

Lemma json_depth_obj m n : json_depth (JObj m) <= n ↔ 1 <= n ∧ Forall (λ p, json_depth p.2 <= n - 1) m.
Proof. apply foldr_max_le. Qed.

Lemma scans_dumps j : ∀ d, 0 <= d → json_depth j <= MAX_JSON_DEPTH - d → scans d (dumps j).
Proof.
  induction j as [|b|z|s|l IH|m IH] using json_nested_ind; intros d Hd Hj; cbn [dumps].
  - intros rest. by apply (scan_depth_plain "null").
  - intros rest. destruct b; [by apply (scan_depth_plain "true")|by apply (scan_depth_plain "false")].
  - intros rest. apply scan_depth_plain, plain_int.
  - intros rest. apply scan_depth_quote.
  - apply json_depth_list in Hj as [H1 Hl]. apply scans_bracket; [by left|done|lia|]. apply scans_join, Forall_map.
    rewrite Forall_forall in *. intros x Hx. apply IH; [done|lia|]. specialize (Hl x Hx). cbn in Hl. lia.
  - apply json_depth_obj in Hj as [H1 Hl]. apply scans_bracket; [by right|done|lia|]. apply scans_join, Forall_map.
    unfold sort_members. rewrite (merge_sort_Permutation key_le). apply Forall_map.
    rewrite Forall_forall in *. intros [k v] Hx. cbn [fst snd].
    apply scans_app; [intros rest; apply scan_depth_quote|].
    apply scans_app; [intros rest; by apply (scan_depth_plain ":")|].
    apply (IH _ Hx); [lia|]. specialize (Hl _ Hx). cbn in *. lia.
Qed.

Lemma check_depth_serialize j : json_depth j <= MAX_JSON_DEPTH → check_depth (serialize j) = Ok tt.
Proof.
  intros Hj. unfold check_depth, serialize. pose proof (scans_dumps j 0 ltac:(lia) ltac:(lia) []) as H.
  by rewrite app_nil_r in H.
Qed.

(** ** Signed items *)

Section items.
Context {A : Type} (encoder : A → result bytes) (decoder : bytes → result A).
Hypothesis inverse : ∀ v d, encoder v = Ok d ↔ decoder d = Ok v.
Hypothesis shallow : ∀ v d, decoder d = Ok v → d ≠ [] ∧ check_depth d = Ok tt.

(** The two directions are inverse, at any limit. *)
Lemma unpack_pack v s n : pack encoder v n = Ok s ↔ unpack decoder s n = Ok v.
Proof.
  unfold pack, unpack. split.
  - intros (? & Hn%raise_if_Ok & (d & Hd%reraise_as_Ok & (? & Hlen%raise_if_Ok & [= <-])%bind_Ok)%bind_Ok)%bind_Ok.
    to_prop. apply inverse in Hd as Hv. destruct (shallow _ _ Hv) as [Hne Hdep].
    unfold check_limit_positive. rewrite (proj2 (Z.leb_gt n 0)), raise_if_false by lia.
    rewrite bool_decide_eq_false_2, raise_if_false.
    2: { intros He. apply (f_equal (Z.of_nat ∘ str_len)) in He. cbn in He. rewrite b64encode_len in He.
         destruct d; [done|]. cbn [length] in He. lia. }
    rewrite b64encode_len, (proj2 (Z.ltb_ge _ _)), raise_if_false by lia.
    rewrite b64encode_ascii. change (negb true) with false. rewrite raise_if_false, b64decode_encode.
    cbn [reraise_as]. rewrite Ok_bind, (proj2 (Z.ltb_ge _ _)), raise_if_false by lia.
    rewrite bool_decide_eq_false_2, raise_if_false by (intros Hne'; by apply Hne').
    by rewrite Hdep, Ok_bind, Hv.
  - intros (? & Hn & (? & _ & (? & _ & (d & Hd%reraise_as_Ok & (? & Hlen & (? & Heq%raise_if_Ok & (? & _ & Hv%reraise_as_Ok)%bind_Ok)%bind_Ok)%bind_Ok)%bind_Ok)%bind_Ok)%bind_Ok)%bind_Ok.
    apply inverse in Hv as He. to_prop. apply dec_stable in Heq. subst s.
    rewrite Hn, Ok_bind, He. cbn [reraise_as]. by rewrite Ok_bind, Hlen, Ok_bind.
Qed.
End items.

Lemma depth_transaction tx : json_depth (transaction_to_dict tx true) <= 3.
Proof.
  apply json_depth_obj. split; [done|]. repeat constructor; cbn [snd]; try (cbn; lia);
    apply json_depth_list; (split; [done|]); apply Forall_map, Forall_true; intros x; apply json_depth_obj;
    (split; [done|]); repeat constructor; cbn; lia.
Qed.

Lemma depth_block b : json_depth (block_to_dict b) <= 5.
Proof.
  apply json_depth_obj. split; [done|]. repeat constructor; cbn [snd].
  - apply json_depth_obj. split; [done|]. repeat constructor; cbn; lia.
  - apply json_depth_list. split; [done|]. apply Forall_map, Forall_true. intros tx. apply depth_transaction.
Qed.

Lemma serialize_nonempty j : serialize j ≠ [].
Proof.
  unfold serialize. destruct (value_start_print j) as (c & t & -> & _). done.
Qed.

Lemma unpack_pack_transaction tx s n : pack_transaction tx n = Ok s ↔ unpack_transaction s n = Ok tx.
Proof.
  apply unpack_pack.
  - intros v d. by rewrite encode_transaction_Ok, decode_transaction_Ok.
  - intros v d [_ ->]%decode_transaction_Ok. split; [apply serialize_nonempty|].
    apply check_depth_serialize. pose proof (depth_transaction v). unfold MAX_JSON_DEPTH. lia.
Qed.

Lemma unpack_pack_block b s n : pack_block b n = Ok s ↔ unpack_block s n = Ok b.
Proof.
  apply unpack_pack.
  - intros v d. by rewrite encode_block_Ok, decode_block_Ok.
  - intros v d [_ ->]%decode_block_Ok. split; [apply serialize_nonempty|].
    apply check_depth_serialize. pose proof (depth_block v). unfold MAX_JSON_DEPTH. lia.
Qed.

(** ** Dicts up to the order of their members *)

Lemma table_get_Some {A} (l : list (string * A)) k v :
  NoDup l.*1 → table_get l k = Some v ↔ (k, v) ∈ l.
Proof.
  intros Hnd. unfold table_get. split.
  - destruct (list_find _ l) as [[i [k' v']]|] eqn:Hf; [|done]. intros [= <-].
    apply list_find_Some in Hf as (Hi & <- & _). by eapply list_elem_of_lookup_2.
  - intros Hin. destruct (list_find _ l) as [[i [k' v']]|] eqn:Hf.
    + apply list_find_Some in Hf as (Hi & Hk & _). cbn in *. subst k'. f_equal.
      apply list_elem_of_lookup_2 in Hi. eapply (NoDup_fst_inj l) in Hin; [|exact Hnd|exact Hi|done]. by injection Hin.
    + apply list_find_None in Hf. eapply Forall_forall in Hf; [|exact Hin]. done.
Qed.

Lemma table_get_None {A} (l : list (string * A)) k : table_get l k = None ↔ k ∉ l.*1.
Proof.
  unfold table_get. destruct (list_find _ l) as [[i [k' v']]|] eqn:Hf; cbn.
  - split; [done|]. intros Hk. exfalso. apply Hk. apply list_find_Some in Hf as (Hi & <- & _).
    apply list_elem_of_lookup_2 in Hi. by apply (list_elem_of_fmap_2 fst) in Hi.
  - split; [|done]. intros _ (p & -> & Hp)%list_elem_of_fmap. apply list_find_None in Hf.
    eapply Forall_forall in Hf; [|exact Hp]. done.
Qed.

Lemma member_table m k : member m k = match table_get m k with Some v => Ok v | None => Raise KeyError end.
Proof.
  induction m as [|[k' v] m IH]; [done|]. cbn [member]. rewrite IH. unfold table_get. cbn.
  case_bool_decide as Hk; case_decide; try done; cbn. by destruct (list_find _ m) as [[? ?]|].
Qed.

Definition canon_members (m : list (string * json)) : list (string * json) :=
  sort_members (map (λ p, (p.1, canon p.2)) m).

Lemma canon_members_keys m : (canon_members m).*1 ≡ₚ m.*1.
Proof. unfold canon_members, sort_members. by rewrite (merge_sort_Permutation key_le), canon_keys. Qed.

Lemma table_get_canon m k : NoDup m.*1 → table_get (canon_members m) k = canon <$> table_get m k.
Proof.
  intros Hnd. assert (NoDup (canon_members m).*1) as Hnd' by (by rewrite canon_members_keys).
  destruct (table_get m k) as [v|] eqn:Hk; cbn.
  - apply table_get_Some; [done|]. apply table_get_Some in Hk; [|done].
    unfold canon_members, sort_members. rewrite (merge_sort_Permutation key_le).
    by apply (list_elem_of_fmap_2 (λ p : string * json, (p.1, canon p.2))) in Hk.
  - apply table_get_None. apply table_get_None in Hk. by rewrite canon_members_keys.
Qed.

Lemma member_canon m k : NoDup m.*1 → member (canon_members m) k = canon <$> member m k.
Proof. intros Hnd. rewrite !member_table, table_get_canon by done. by destruct (table_get m k). Qed.

Lemma has_keys_perm m m' keys : m.*1 ≡ₚ m'.*1 → has_keys m keys = has_keys m' keys.
Proof.
  intros Hp. unfold has_keys. f_equal; apply bool_decide_ext; [by rewrite Hp|].
  by setoid_rewrite Hp.
Qed.

Lemma has_keys_canon m keys : has_keys (canon_members m) keys = has_keys m keys.
Proof. apply has_keys_perm, canon_members_keys. Qed.
