(* ===== verification/FrameFacts.v ===== *)
(** * Facts about frames: validation, encoding and decoding of messages *)

From Stdlib Require Import Strings.Byte Strings.Ascii.
From S2P Require Import Prelude Bytes Json JsonParse JsonFacts Crypto Codec CodecFacts.
From S2P Require Import NetConfig Messages Protocol ProtocolFacts.
#[local] Open Scope Z_scope.

(** ** Validation does not depend on the order of members *)

Lemma check_integer_canon v lo hi : check_integer (canon v) lo hi = check_integer v lo hi.
Proof. by destruct v. Qed.
Lemma check_hex_canon v t : check_hex (canon v) t = check_hex v t.
Proof. by destruct v. Qed.
Lemma check_item_canon v : check_item (canon v) = check_item v.
Proof. by destruct v. Qed.
Lemma check_list_canon v n : check_list (canon v) n = map canon <$> check_list v n.
Proof. destruct v as [| | | |l|m]; try done. cbn [canon check_list]. rewrite length_map. by destruct (expect _). Qed.

Lemma check_each_canon (check : json → result unit) l :
  Forall (λ v, check (canon v) = check v) l → check_each check (map canon l) = check_each check l.
Proof. induction 1 as [|v l Hv Hl IH]; [done|]. cbn [map check_each]. by rewrite Hv, IH. Qed.

Lemma check_peer_canon v : keys_distinct v = true → check_peer (canon v) = check_peer v.
Proof.
  destruct v as [| | | |l|m]; try done. intros [Hnd _]%keys_distinct_obj. cbn [canon].
  fold (canon_members m). unfold check_peer. rewrite has_keys_canon, !member_canon by done.
  destruct (expect _); [|done]. rewrite !Ok_bind. destruct (member m "host") as [h|]; [|done]. cbn [fmap result_fmap].
  rewrite !Ok_bind. destruct (member m "port") as [p|]; cbn [fmap result_fmap].
  - rewrite !Ok_bind. by destruct h, p.
  - by destruct h.
Qed.

Lemma check_present_canon (check : json → result unit) names p :
  NoDup p.*1 → (∀ v, check (canon v) = check v) →
  check_present check names (canon_members p) = check_present check names p.
Proof.
  intros Hnd Hc. induction names as [|n names IH]; [done|]. cbn [check_present].
  rewrite table_get_canon, IH by done. destruct (table_get p n); cbn; [by rewrite Hc|done].
Qed.

Lemma check_payload_canon kind p :
  keys_distinct (JObj p) = true → check_payload kind (canon_members p) = check_payload kind p.
Proof.
  intros [Hnd Hk]%keys_distinct_obj. unfold check_payload. rewrite !member_canon by done.
  assert (∀ k l, member p k = Ok (JList l) → Forall (λ v, keys_distinct v = true) l) as Hlist.
  { intros k l Hl. rewrite member_table in Hl. destruct (table_get p k) as [v|] eqn:Hv; [|done]. injection Hl as ->.
    apply table_get_Some in Hv; [|done]. eapply Forall_forall in Hk; [|exact Hv]. by apply keys_distinct_list. }
  repeat case_bool_decide; try done.
  - destruct (member p "network_id") as [n|]; [|done]. cbn [fmap result_fmap]. rewrite !Ok_bind.
    assert ((match canon n with JStr s => bool_decide (s = NETWORK_ID) | _ => false end) =
      (match n with JStr s => bool_decide (s = NETWORK_ID) | _ => false end)) as -> by by destruct n.
    destruct (expect _); [|done]. rewrite !Ok_bind.
    destruct (member p "listen_port"); [|done]. cbn [fmap result_fmap]. by rewrite !Ok_bind, check_integer_canon.
  - destruct (member p "limit"); [|done]. cbn [fmap result_fmap]. by rewrite !Ok_bind, check_integer_canon.
  - destruct (member p "blocks") as [v|]; [|done]. cbn [fmap result_fmap]. rewrite !Ok_bind, check_list_canon.
    destruct (check_list v _) as [l|]; [|done]. cbn [fmap result_fmap]. rewrite !Ok_bind.
    apply check_each_canon, Forall_true, check_item_canon.
  - destruct (member p "limit"); [|done]. cbn [fmap result_fmap]. rewrite !Ok_bind, check_integer_canon.
    destruct (check_integer _ _ _); [|done]. rewrite !Ok_bind.
    destruct (member p "snapshot_id") as [s|]; [|done]. cbn [fmap result_fmap]. rewrite !Ok_bind.
    destruct s; try done. cbn [canon]. destruct (member p "cursor") as [c|]; [|done]. cbn [fmap result_fmap].
    rewrite !Ok_bind. by destruct c.
  - destruct (member p "snapshot_id") as [s|]; [|done]. cbn [fmap result_fmap]. rewrite !Ok_bind, check_hex_canon.
    destruct (check_hex _ _); [|done]. rewrite !Ok_bind.
    destruct (member p "transactions") as [v|] eqn:Ht; [|done]. cbn [fmap result_fmap]. rewrite !Ok_bind, check_list_canon.
    destruct (check_list v _) as [l|]; [|done]. cbn [fmap result_fmap]. rewrite !Ok_bind.
    rewrite check_each_canon by apply Forall_true, check_item_canon.
    destruct (check_each _ _); [|done]. rewrite !Ok_bind.
    destruct (member p "cursor") as [c|]; [|done]. cbn [fmap result_fmap]. rewrite !Ok_bind.
    destruct (member p "next_cursor") as [n|]; [|done]. cbn [fmap result_fmap]. rewrite !Ok_bind, length_map.
    assert ((match canon n, canon c with JInt n, JInt c => n =? c + Z.of_nat (length l) | _, _ => false end) =
      (match n, c with JInt n, JInt c => n =? c + Z.of_nat (length l) | _, _ => false end)) as -> by by destruct n, c.
    destruct (expect _); [|done]. rewrite !Ok_bind.
    destruct (member p "done") as [d|]; [|done]. cbn [fmap result_fmap]. rewrite !Ok_bind.
    by destruct d, l.
  - destruct (member p "peers") as [v|] eqn:Hv; [|done]. cbn [fmap result_fmap]. rewrite !Ok_bind, check_list_canon.
    destruct (check_list v _) as [l|] eqn:Hl; [|done]. cbn [fmap result_fmap]. rewrite !Ok_bind.
    apply check_each_canon. assert (v = JList l) as ->.
    { destruct v as [| | | |l'|]; try done. cbn in Hl. by apply bind_Ok in Hl as (? & _ & [= ->]). }
    eapply Forall_impl; [by eapply Hlist|]. intros x. apply check_peer_canon.
  - destruct (member p "code") as [c|]; [|done]. cbn [fmap result_fmap]. rewrite !Ok_bind.
    assert ((match canon c with JStr s => bool_decide (s ∈ ERROR_CODES) | _ => false end) =
      (match c with JStr s => bool_decide (s ∈ ERROR_CODES) | _ => false end)) as -> by by destruct c.
    destruct (expect _); [|done]. rewrite !Ok_bind.
    destruct (member p "message") as [m|]; [|done]. cbn [fmap result_fmap]. rewrite !Ok_bind. by destruct m.
Qed.

Definition canon_message (m : Message) : Message :=
  MkMessage (message_type m) (canon (payload m)) (request_id m) (message_version m).

Lemma validate_canon m : keys_distinct (payload m) = true → validate_message (canon_message m) = validate_message m.
Proof.
  destruct m as [t p r v]. unfold validate_message, canon_message. cbn [payload message_type request_id message_version].
  intros Hk. destruct (expect _); [|done]. rewrite !Ok_bind. destruct t as [| | |kind| |]; try done.
  destruct (table_get SCHEMAS kind) as [keys|]; [|done]. destruct p as [| | | | |p]; try done.
  pose proof Hk as [Hnd _]%keys_distinct_obj. cbn [canon]. fold (canon_members p). rewrite has_keys_canon.
  rewrite !check_present_canon by (done || (intros []; done)). by rewrite check_payload_canon.
Qed.

(** ** A valid message is shallow *)

Lemma expect_Ok b u : expect b = Ok u ↔ b = true.
Proof. unfold expect. rewrite raise_if_Ok. by rewrite negb_false_iff. Qed.

Definition flat (v : json) : Prop := json_depth v = 0.

Lemma check_integer_flat v lo hi : check_integer v lo hi = Ok tt → flat v.
Proof. destruct v; by intros ?%expect_Ok. Qed.
Lemma check_hex_flat v t : check_hex v t = Ok tt → flat v.
Proof. destruct v; by intros ?%expect_Ok. Qed.
Lemma check_item_flat v : check_item v = Ok tt → flat v.
Proof. destruct v; by intros ?%expect_Ok. Qed.

Lemma check_bool_flat v : expect match v with JBool _ => true | _ => false end = Ok tt → flat v.
Proof. destruct v; by intros ?%expect_Ok. Qed.

Lemma check_each_Ok (check : json → result unit) l : check_each check l = Ok tt → Forall (λ v, check v = Ok tt) l.
Proof.
  induction l as [|v l IH]; cbn [check_each]; [constructor|]. intros ([] & Hv & Hl)%bind_Ok. constructor; auto.
Qed.

Lemma check_list_Ok v n l : check_list v n = Ok l → v = JList l ∧ Z.of_nat (length l) <= n.
Proof. destruct v; try done. cbn. intros (? & H%expect_Ok & [= ->])%bind_Ok. by apply Z.leb_le in H. Qed.

Lemma check_items_depth v n l : check_list v n = Ok l → check_each check_item l = Ok tt → json_depth v <= 1.
Proof.
  intros [-> _]%check_list_Ok Hl%check_each_Ok. apply json_depth_list. split; [done|].
  eapply Forall_impl; [exact Hl|]. intros x Hx%check_item_flat. unfold flat in Hx. lia.
Qed.

Lemma member_In m k v : NoDup m.*1 → (k, v) ∈ m → member m k = Ok v.
Proof. intros Hnd Hin. by rewrite member_table, (proj2 (table_get_Some m k v Hnd) Hin). Qed.

Lemma has_keys_In m keys k v : has_keys m keys = true → (k, v) ∈ m → k ∈ keys.
Proof.
  unfold has_keys. intros [H _]%andb_true_iff Hin. apply bool_decide_eq_true in H.
  eapply Forall_forall in H; [exact H|]. by apply (list_elem_of_fmap_2 fst) in Hin.
Qed.

Lemma check_peer_depth v : keys_distinct v = true → check_peer v = Ok tt → json_depth v <= 1.
Proof.
  destruct v as [| | | | |m]; try done. intros [Hnd _]%keys_distinct_obj.
  intros (? & Hk%expect_Ok & (h & Hh & (? & Hs & (q & Hq & Hi%check_integer_flat)%bind_Ok)%bind_Ok)%bind_Ok)%bind_Ok.
  apply json_depth_obj. split; [done|]. apply Forall_forall. intros [k w] Hin.
  pose proof (has_keys_In _ _ _ _ Hk Hin) as Hkk. apply (member_In m k w Hnd) in Hin. cbn [snd].
  apply elem_of_cons in Hkk as [->|[->|Hn%elem_of_nil]%elem_of_cons]; [| |done].
  - assert (w = h) as -> by congruence. by destruct h.
  - assert (w = q) as -> by congruence. unfold flat in Hi. lia.
Qed.

Lemma check_peers_depth v n l :
  keys_distinct v = true → check_list v n = Ok l → check_each check_peer l = Ok tt → json_depth v <= 2.
Proof.
  intros Hk [-> _]%check_list_Ok Hl%check_each_Ok. apply json_depth_list. split; [done|].
  apply keys_distinct_list in Hk. rewrite Forall_forall in *. intros x Hx. by apply check_peer_depth; auto.
Qed.

Lemma check_present_Ok (check : json → result unit) names p n v :
  check_present check names p = Ok tt → n ∈ names → table_get p n = Some v → check v = Ok tt.
Proof.
  induction names as [|n' names IH]; cbn [check_present]; [by intros _ ?%elem_of_nil|].
  intros ([] & Hc & Hr)%bind_Ok [->|Hin]%elem_of_cons Hv; [by rewrite Hv in Hc|by apply IH].
Qed.

Definition GENERIC_KEYS : list string :=
  ["height"; "anchor_height"; "tip_height"; "cursor"; "next_cursor"; "genesis_hash"; "tip_hash"; "anchor_hash";
   "node_id"; "connection_nonce"; "nonce"; "more"; "done"; "transaction"; "block"].

(** What [check_payload] guarantees about the keys that are not generic. *)
Lemma check_payload_depth kind keys p k v :
  table_get SCHEMAS kind = Some keys → keys_distinct (JObj p) = true → check_payload kind p = Ok tt →
  k ∈ keys → k ∉ GENERIC_KEYS → (k, v) ∈ p → json_depth v <= 2.
Proof.
  intros Hsch [Hnd Hkd]%keys_distinct_obj Hp Hk Hng Hin.
  assert (keys_distinct v = true) as Hdv by exact (proj1 (Forall_forall _ _) Hkd (k, v) Hin).
  apply (member_In p k v Hnd) in Hin.
  apply table_get_Some in Hsch; [|apply (bool_decide_unpack _); vm_compute; exact I].
  unfold SCHEMAS in Hsch.
  repeat (apply elem_of_cons in Hsch as [[= -> ->]|Hsch]); [..|by apply elem_of_nil in Hsch];
    repeat (apply elem_of_cons in Hk as [->|Hk]); try (by apply elem_of_nil in Hk);
    try (exfalso; apply Hng, (bool_decide_unpack _); vm_compute; exact I);
    unfold check_payload in Hp; repeat case_bool_decide; simplify_eq;
    repeat match type of Hp with _ ≫= _ = Ok _ => apply bind_Ok in Hp as (? & ? & Hp) end;
    repeat match goal with H : member p ?k = Ok ?x, H' : member p ?k = Ok ?y |- _ =>
      assert (x = y) as -> by congruence; clear H end;
    try (match goal with H : check_integer _ _ _ = Ok ?u |- _ => destruct u; apply check_integer_flat in H; unfold flat in H; lia end);
    try (match goal with H : check_hex _ _ = Ok ?u |- _ => destruct u; apply check_hex_flat in H; unfold flat in H; lia end);
    try (match goal with H : check_list v _ = Ok _, H' : check_each check_item _ = Ok ?u |- _ =>
      destruct u; pose proof (check_items_depth _ _ _ H H'); lia end);
    try (eapply check_peers_depth; eassumption);
    try (by destruct v).
Qed.

Lemma valid_message_depth m :
  validate_message m = Ok tt → keys_distinct (payload m) = true → json_depth (envelope m) <= MAX_JSON_DEPTH.
Proof.
  destruct m as [t p r v]. unfold validate_message, envelope. cbn [payload message_type request_id message_version].
  intros (? & Hv%expect_Ok & H)%bind_Ok Hk. destruct t as [| | |kind| |]; try done.
  destruct (table_get SCHEMAS kind) as [keys|] eqn:Hsch; [|done]. destruct p as [| | | | |p]; try done.
  apply bind_Ok in H as (? & Hkeys%expect_Ok & ([] & Hrid & ([] & H1 & ([] & H2 & ([] & H3 & ([] & H4 &
    ([] & H5 & Hp)%bind_Ok)%bind_Ok)%bind_Ok)%bind_Ok)%bind_Ok)%bind_Ok).
  assert (json_depth r = 0) as Hr.
  { unfold check_request_id in Hrid. destruct (_ || _); [by apply check_hex_flat in Hrid|].
    destruct r; by apply expect_Ok in Hrid. }
  assert (json_depth v = 0) as Hdv by by destruct v.
  assert (json_depth (JObj p) <= 3) as Hdp.
  { apply json_depth_obj. split; [done|]. apply Forall_forall. intros [k w] Hin. cbn [snd].
    pose proof (has_keys_In _ _ _ _ Hkeys Hin) as Hkk. pose proof Hk as [Hnd _]%keys_distinct_obj.
    destruct (decide (k ∈ GENERIC_KEYS)) as [Hg|Hg]; [|by eapply check_payload_depth].
    pose proof (proj2 (table_get_Some p k w Hnd) Hin) as Hw.
    enough (flat w) as Hf by (unfold flat in Hf; lia). unfold GENERIC_KEYS in Hg.
    repeat (apply elem_of_cons in Hg as [->|Hg]); [..|by apply elem_of_nil in Hg].
    1-5: eapply check_integer_flat, (check_present_Ok _ _ _ _ _ H1); [|exact Hw].
    6-8: eapply check_hex_flat, (check_present_Ok _ _ _ _ _ H2); [|exact Hw].
    9-11: eapply check_hex_flat, (check_present_Ok _ _ _ _ _ H3); [|exact Hw].
    14-15: eapply check_item_flat, (check_present_Ok _ _ _ _ _ H5); [|exact Hw].
    12-13: eapply check_bool_flat, (check_present_Ok _ _ _ _ _ H4); [|exact Hw].
    all: apply (bool_decide_unpack _); vm_compute; exact I. }
  apply json_depth_obj. split; [done|]. unfold MAX_JSON_DEPTH. rewrite !Forall_cons. cbn [snd].
  change (json_depth (JStr kind)) with 0. split_and!; [lia|lia|lia|lia|constructor].
Qed.

(** ** Frames *)

Lemma unique_pairs_inv e pairs : ∀ acc j,
  NoDup acc.*1 → unique_pairs e acc pairs = Ok j → j = JObj (acc ++ pairs) ∧ NoDup (acc ++ pairs).*1.
Proof.
  induction pairs as [|[k v] pairs IH]; intros acc j Hnd; cbn [unique_pairs].
  - intros [= <-]. by rewrite app_nil_r.
  - intros (? & Hk%raise_if_Ok & Hj)%bind_Ok. apply bool_decide_eq_false in Hk.
    rewrite cons_middle, app_assoc. apply IH; [|exact Hj]. rewrite fmap_app. apply NoDup_app.
    split_and!; [done| |apply NoDup_singleton]. by intros y Hy ->%list_elem_of_singleton.
Qed.

(** An object that is parsed has passed through the hook. *)
Lemma loads_object on_object on_number s m :
  loads on_object on_number s = Ok (JObj m) → ∃ l, on_object l = Ok (JObj m).
Proof.
  unfold loads. intros ([j r] & Hs & H)%bind_Ok. apply bind_Ok in H as (? & _ & [= ->]).
  rewrite Nat.add_1_r in Hs. cbn [scan_once] in Hs. destruct (skip_space s) as [|c t]; [done|].
  destruct (_ =? 34)%N; [by apply bind_Ok in Hs as ([? ?] & _ & [=])|].
  destruct (_ =? 123)%N.
  { destruct (skip_space t) as [|d u]; [done|]. destruct (_ =? 125)%N.
    - apply bind_Ok in Hs as (j & Hj & [= -> _]). by exists [].
    - apply bind_Ok in Hs as ([l r'] & _ & (j & Hj & [= -> _])%bind_Ok). by exists l. }
  destruct (_ =? 91)%N.
  { destruct (skip_space t) as [|d u]; [done|]. destruct (_ =? 93)%N; [done|].
    by apply bind_Ok in Hs as ([l r'] & _ & [=]). }
  destruct (String.prefix "null" _); [done|]. destruct (String.prefix "true" _); [done|].
  destruct (String.prefix "false" _); [done|]. destruct (_ || _); [done|].
  unfold scan_number in Hs. repeat case_match; by inv_result.
Qed.

Lemma canon_flat v : flat v → canon v = v.
Proof.
  unfold flat. destruct v as [| | | |l|m]; try done; intros H; exfalso.
  - pose proof (proj1 (json_depth_list l 0) ltac:(lia)). lia.
  - pose proof (proj1 (json_depth_obj m 0) ltac:(lia)). lia.
Qed.

Lemma flat_keys v : flat v → keys_distinct v = true.
Proof.
  unfold flat. destruct v as [| | | |l|m]; try done; intros H; exfalso.
  - pose proof (proj1 (json_depth_list l 0) ltac:(lia)). lia.
  - pose proof (proj1 (json_depth_obj m 0) ltac:(lia)). lia.
Qed.

Lemma valid_message_flat m :
  validate_message m = Ok tt → flat (message_type m) ∧ flat (request_id m) ∧ flat (message_version m).
Proof.
  destruct m as [t p r v]. unfold validate_message. cbn [payload message_type request_id message_version].
  intros (? & Hv%expect_Ok & H)%bind_Ok. destruct t as [| | |kind| |]; try done.
  destruct (table_get SCHEMAS kind) as [keys|]; [|done]. destruct p as [| | | | |p]; try done.
  apply bind_Ok in H as (? & _ & ([] & Hrid & _)%bind_Ok). split_and!; [done| |by destruct v].
  unfold check_request_id in Hrid. destruct (_ || _); [by apply check_hex_flat in Hrid|].
  destruct r; by apply expect_Ok in Hrid.
Qed.

Lemma canon_envelope m :
  validate_message m = Ok tt → canon (envelope m) = envelope (canon_message m).
Proof.
  intros (Ht & Hr & Hv)%valid_message_flat. destruct m as [t p r v]. cbn in Ht, Hr, Hv. unfold envelope, canon_message.
  cbn [payload message_type request_id message_version canon map fst snd].
  rewrite (canon_flat t), (canon_flat r), (canon_flat v) by done. reflexivity.
Qed.

Lemma keys_distinct_envelope m :
  validate_message m = Ok tt → keys_distinct (payload m) = true → keys_distinct (envelope m) = true.
Proof.
  intros (Ht & Hr & Hv)%valid_message_flat Hp. apply keys_distinct_obj. split.
  - cbn. apply (bool_decide_unpack _). vm_compute. exact I.
  - rewrite !Forall_cons. split_and!; [done|by apply flat_keys..|constructor].
Qed.

Lemma serialize_perm m m' : NoDup m.*1 → m ≡ₚ m' → serialize (JObj m) = serialize (JObj m').
Proof.
  intros Hnd Hp. unfold serialize. rewrite !dumps_obj by (done || by rewrite <- Hp).
  enough (sort_members m = sort_members m') as -> by done.
  apply sort_members_unique; [apply StronglySorted_merge_sort; apply _| |done].
  unfold sort_members. by rewrite (merge_sort_Permutation key_le).
Qed.

Lemma message_of_envelope m : message_of [("payload", payload m); ("request_id", request_id m);
  ("type", message_type m); ("version", message_version m)] = Ok m.
Proof. by destruct m. Qed.

(** A member list with the four keys is the envelope of the message it makes. *)
Lemma message_of_inv l m :
  NoDup l.*1 → has_keys l ENVELOPE_KEYS = true → message_of l = Ok m → serialize (JObj l) = serialize (envelope m).
Proof.
  intros Hnd Hk (t & Ht & (p & Hp & (r & Hr & (v & Hv & [= <-])%bind_Ok)%bind_Ok)%bind_Ok)%bind_Ok.
  apply serialize_perm; [done|]. apply NoDup_Permutation.
  - by eapply NoDup_fmap_1.
  - eapply (NoDup_fmap_1 fst). cbn. apply (bool_decide_unpack _). vm_compute. exact I.
  - intros [k w]. rewrite <- (table_get_Some l k w Hnd). cbn [payload message_type request_id message_version].
    rewrite !member_table in *.
    destruct (table_get l "type") eqn:E1; [|done]. destruct (table_get l "payload") eqn:E2; [|done].
    destruct (table_get l "request_id") eqn:E3; [|done]. destruct (table_get l "version") eqn:E4; [|done].
    simplify_eq. split.
    + intros Hw. apply (table_get_Some l k w Hnd) in Hw as Hin. pose proof (has_keys_In _ _ _ _ Hk Hin) as Hkk.
      repeat (apply elem_of_cons in Hkk as [->|Hkk]); [..|by apply elem_of_nil in Hkk]; simplify_eq;
        repeat first [apply list_elem_of_here | apply list_elem_of_further].
    + intros Hin. repeat (apply elem_of_cons in Hin as [[= -> ->]|Hin]); [done..|by apply elem_of_nil in Hin].
Qed.

(** [int.from_bytes(prefix, "big")] *)
Lemma byte_of_spec n : Byte.to_N (byte_of n) = (n mod 256)%N.
Proof.
  unfold byte_of. destruct (Byte.of_N (n mod 256)) as [x|] eqn:Hx; cbn; [by apply Byte.to_of_N in Hx|].
  apply Byte.of_N_None_iff in Hx. pose proof (N.mod_upper_bound n 256). lia.
Qed.

#[local] Ltac Zify.zify_post_hook ::= Z.to_euclidean_division_equations.

Lemma int_of_be32 n : 0 <= n < 2 ^ 32 → int_of_be (be32 n) = n.
Proof.
  intros Hn. unfold be32, int_of_be. cbn [map foldl]. rewrite !byte_of_spec.
  rewrite !N2Z.inj_mod, !Z2N.id by (apply Z.div_pos; lia).
  lia.
Qed.

Lemma encode_decode m max frame :
  keys_distinct (payload m) = true → encode_message m max = Ok frame →
  ∃ body, frame = be32 (Z.of_nat (length body)) ++ body ∧ 1 <= Z.of_nat (length body) <= Z.min max (2 ^ 32 - 1) ∧
    decode_message body max = Ok (canon_message m).
Proof.
  intros Hk (? & Hmax & ([] & Hv & (? & Hlen%raise_if_Ok & [= <-])%bind_Ok)%bind_Ok)%bind_Ok.
  exists (serialize (envelope m)). to_prop. pose proof (serialize_nonempty (envelope m)) as Hne.
  split_and!; [done|destruct (serialize _); [done|cbn; lia]|lia|]. unfold decode_message.
  rewrite Hmax, Ok_bind, bool_decide_eq_false_2, raise_if_false by done.
  rewrite (proj2 (Z.ltb_ge _ _)), raise_if_false by lia.
  rewrite check_depth_serialize, Ok_bind by by apply valid_message_depth.
  change (utf8_decode (serialize ?j)) with (utf8_decode (B (dumps j))). rewrite utf8_decode_ascii, Ok_bind by apply ascii_text_dumps.
  rewrite (loads_dumps envelope_object ProtocolError), Ok_bind.
  2: intros l Hnd; by apply (unique_pairs_Ok _ l []).
  2: by apply keys_distinct_envelope.
  rewrite canon_envelope by done. unfold envelope at 1.
  assert (∀ a b c d, has_keys [("payload", a); ("request_id", b); ("type", c); ("version", d)] ENVELOPE_KEYS = true)
    as Hkeys by done.
  rewrite Hkeys. change (negb true) with false. rewrite raise_if_false, message_of_envelope, Ok_bind.
  rewrite validate_canon, Hv, Ok_bind by done. fold (envelope (canon_message m)).
  rewrite <- canon_envelope by done. unfold serialize. rewrite dumps_canon by by apply keys_distinct_envelope.
  by rewrite bool_decide_eq_false_2 by (intros Hn; by apply Hn).
Qed.

Lemma decode_encode body max m :
  max <= 2 ^ 32 - 1 → decode_message body max = Ok m →
  encode_message m max = Ok (be32 (Z.of_nat (length body)) ++ body) ∧ validate_message m = Ok tt.
Proof.
  intros Hmax (? & Hlim & (? & _ & (? & Hlen%raise_if_Ok & (? & _ & H%reraise_as_Ok)%bind_Ok)%bind_Ok)%bind_Ok)%bind_Ok.
  apply bind_Ok in H as (s & _ & (j & Hj & H)%bind_Ok). destruct j as [| | | | |l]; try done.
  apply bind_Ok in H as (? & Hk%raise_if_Ok & (msg & Hm & ([] & Hv & (? & Hs%raise_if_Ok & [= <-])%bind_Ok)%bind_Ok)%bind_Ok).
  to_prop. apply dec_stable in Hs.
  apply loads_object in Hj as (l' & Hl). apply unique_pairs_inv in Hl as [[= ->] Hnd]; [|constructor]. cbn [app] in *.
  split; [|done]. unfold encode_message. rewrite Hlim, Ok_bind, Hv, Ok_bind.
  rewrite <- (message_of_inv l' msg Hnd Hk Hm), Hs. rewrite (proj2 (Z.ltb_ge _ _)) by lia. done.
Qed.

(** ** What untrusted bytes can raise *)

Lemma raises_in_expect b : raises_in [ProtocolError] (expect b).
Proof. intros e [_ <-]%raise_if_Raise. by left. Qed.

Lemma raises_in_check_integer v lo hi : raises_in [ProtocolError] (check_integer v lo hi).
Proof. apply raises_in_expect. Qed.
Lemma raises_in_check_hex v t : raises_in [ProtocolError] (check_hex v t).
Proof. apply raises_in_expect. Qed.
Lemma raises_in_check_item v : raises_in [ProtocolError] (check_item v).
Proof. apply raises_in_expect. Qed.

Lemma raises_in_check_list v n : raises_in [ProtocolError] (check_list v n).
Proof.
  destruct v; try (intros e [= <-]; by left). apply raises_in_bind; [apply raises_in_expect|intros; apply raises_in_Ok].
Qed.

Lemma raises_in_check_each es (check : json → result unit) l :
  (∀ v, raises_in es (check v)) → raises_in es (check_each check l).
Proof.
  intros Hc. induction l as [|v l IH]; cbn [check_each]; [apply raises_in_Ok|].
  by apply raises_in_bind; [apply Hc|intros].
Qed.

Lemma raises_in_check_present es (check : json → result unit) names p :
  (∀ v, raises_in es (check v)) → raises_in es (check_present check names p).
Proof.
  intros Hc. induction names as [|n names IH]; cbn [check_present]; [apply raises_in_Ok|].
  apply raises_in_bind; [|by intros]. destruct (table_get p n); [apply Hc|apply raises_in_Ok].
Qed.

Lemma member_has m keys k : has_keys m keys = true → k ∈ keys → ∃ v, member m k = Ok v.
Proof.
  unfold has_keys. intros [_ H]%andb_true_iff Hk. apply bool_decide_eq_true in H.
  eapply Forall_forall in H; [|exact Hk]. rewrite member_table.
  destruct (table_get m k) as [v|] eqn:Hv; [by exists v|]. by apply table_get_None in Hv.
Qed.

Ltac untrusted_step :=
  first
    [ apply raises_in_Ok | apply raises_in_expect | apply raises_in_check_integer | apply raises_in_check_hex
    | apply raises_in_check_item | apply raises_in_check_list
    | (apply raises_in_check_each; intros ?)
    | match goal with
      | Hk : has_keys ?p ?keys = true |- raises_in _ (member ?p ?k ≫= _) =>
          let v := fresh "v" in
          destruct (member_has p keys k Hk ltac:(apply (bool_decide_unpack _); vm_compute; exact I)) as [v ->];
          rewrite Ok_bind
      end
    | (apply raises_in_bind; [|intros ? ?])
    | (intros ? [= <-]; by left) ].

Lemma raises_in_check_peer v : raises_in [ProtocolError] (check_peer v).
Proof.
  destruct v as [| | | | |m]; try (intros e [= <-]; by left).
  apply raises_in_bind; [apply raises_in_expect|intros ? Hk%expect_Ok]. repeat untrusted_step.
  destruct v; try (intros e [= <-]; by left).
  intros e. unfold reraise_as. destruct (_ ≫= _) as [|x] eqn:Hx; [done|].
  assert (x = ValueError) as ->.
  { unfold local_ipv4 in Hx. destruct (parse_ipv4 s); [|by injection Hx].
    apply bind_Raise in Hx as [[[_ <-]%raise_if_Raise|(? & _ & [[_ <-]%raise_if_Raise|(? & _ & [=])]%bind_Raise)]%bind_Raise|(? & _ & [=])];
      done. }
  rewrite bool_decide_eq_true_2 by by left. intros [= <-]. by left.
Qed.

Lemma raises_in_check_payload kind keys p :
  table_get SCHEMAS kind = Some keys → has_keys p keys = true → raises_in [ProtocolError] (check_payload kind p).
Proof.
  intros Hsch Hk. apply table_get_Some in Hsch; [|apply (bool_decide_unpack _); vm_compute; exact I].
  unfold SCHEMAS in Hsch.
  repeat (apply elem_of_cons in Hsch as [[= -> ->]|Hsch]); [..|by apply elem_of_nil in Hsch];
    unfold check_payload; repeat case_bool_decide; simplify_eq; repeat untrusted_step;
    try apply raises_in_check_peer; destruct v0; repeat untrusted_step.
Qed.

Lemma raises_in_validate m : raises_in [ProtocolError] (validate_message m).
Proof.
  unfold validate_message. apply raises_in_bind; [apply raises_in_expect|intros _ _].
  destruct (message_type m) as [| | |kind| |]; try (intros e [= <-]; by left).
  destruct (table_get SCHEMAS kind) as [keys|] eqn:Hs, (payload m) as [| | | | |p]; try (intros e [= <-]; by left).
  apply raises_in_bind; [apply raises_in_expect|intros ? Hk%expect_Ok].
  apply raises_in_bind; [unfold check_request_id; destruct (_ || _); apply raises_in_expect|intros ? _].
  do 5 (apply raises_in_bind; [apply raises_in_check_present; intros; apply raises_in_expect|intros ? _]).
  by eapply raises_in_check_payload.
Qed.

(** What decoding raises on bytes from a peer; the limit is the caller's. *)
Definition FRAME_ERRORS : list exn := [ProtocolError; BeyondLatin1].
Definition UNTRUSTED_ERRORS : list exn := [ProtocolError; BeyondLatin1; PolicyLimitError].

Lemma raises_in_weaken {A} es es' (r : result A) : (∀ e, e ∈ es → e ∈ es') → raises_in es r → raises_in es' r.
Proof. intros Hs Hr e He. by apply Hs, Hr. Qed.

Lemma frame_untrusted {A} (r : result A) : raises_in FRAME_ERRORS r → raises_in UNTRUSTED_ERRORS r.
Proof. apply raises_in_weaken. unfold FRAME_ERRORS, UNTRUSTED_ERRORS. intros e. rewrite !elem_of_cons. tauto. Qed.

Lemma raises_in_check_depth d : raises_in FRAME_ERRORS (check_depth d).
Proof.
  unfold check_depth. enough (∀ n s x, raises_in FRAME_ERRORS (scan_depth d n s x)) as H by apply H.
  induction d as [|b d IH]; intros n s x; cbn [scan_depth].
  - intros e [_ <-]%raise_if_Raise. by left.
  - repeat case_match; try apply IH; (apply raises_in_bind; [intros e [_ <-]%raise_if_Raise; by left|intros; apply IH]).
Qed.

Lemma reraise_frame {A} (m : result A) caught :
  (∀ e, m = Raise e → e ∈ caught ∨ e ∈ FRAME_ERRORS) → raises_in FRAME_ERRORS (reraise_as m caught ProtocolError).
Proof.
  intros Hm e. destruct m as [a|x]; cbn [reraise_as]; [done|]. case_bool_decide as Hc; intros [= <-]; [by left|].
  by destruct (Hm x eq_refl).
Qed.

(** Of a body within the limit only [ProtocolError] is raised. *)
Lemma decode_message_raises body max :
  0 < max → Z.of_nat (length body) <= max → raises_in FRAME_ERRORS (decode_message body max).
Proof.
  intros Hmax Hlen. unfold decode_message, check_limit_positive.
  rewrite (proj2 (Z.leb_gt _ _)), raise_if_false by done.
  apply raises_in_bind; [intros e [_ <-]%raise_if_Raise; by left|intros _ _].
  rewrite (proj2 (Z.ltb_ge _ _)), raise_if_false by done.
  apply raises_in_bind; [apply raises_in_check_depth|intros _ _].
  apply reraise_frame. intros e [H|(s & _ & [H|(j & Hj & H)]%bind_Raise)]%bind_Raise.
  - apply utf8_decode_raises in H as [->| ->]; [left; by left|right; by right; left].
  - pose proof (loads_ends envelope_object ProtocolError (λ e, e ∈ ENVELOPE_ERRORS ∨ e ∈ FRAME_ERRORS)) as Hl.
    specialize (Hl ltac:(left; by left) ltac:(right; by right; left) ltac:(right; by left)).
    specialize (Hl ltac:(intros m x ->%unique_pairs_Raise; right; by left) s). by rewrite H in Hl.
  - destruct j as [| | | | |l]; try (injection H as <-; right; by left).
    apply bind_Raise in H as [[_ <-]%raise_if_Raise|(? & Hk%raise_if_Ok & H)]; [right; by left|]. to_prop.
    assert (∃ msg, message_of l = Ok msg) as [msg Hm].
    { unfold message_of. repeat (match goal with |- context [member l ?k ≫= _] =>
        destruct (member_has l _ k Hk ltac:(apply (bool_decide_unpack _); vm_compute; exact I)) as [? ->];
        rewrite Ok_bind end). by eexists. }
    rewrite Hm, Ok_bind in H. apply bind_Raise in H as [Hv%raises_in_validate|(? & _ & Hs)].
    + apply list_elem_of_singleton in Hv as ->. right; by left.
    + apply bind_Raise in Hs as [[_ <-]%raise_if_Raise|(? & _ & [=])]. right; by left.
Qed.

Lemma decode_message_over body max :
  0 < max → max < Z.of_nat (length body) → decode_message body max = Raise PolicyLimitError.
Proof.
  intros Hmax Hlen. unfold decode_message, check_limit_positive.
  rewrite (proj2 (Z.leb_gt _ _)), raise_if_false by done.
  rewrite bool_decide_eq_false_2, raise_if_false by (destruct body; [cbn in Hlen; lia|done]).
  by rewrite (proj2 (Z.ltb_lt _ _)), raise_if_true.
Qed.

Lemma b64decode_raises s e : b64decode s = Raise e → e = ValueError.
Proof.
  remember (str_len s) as n eqn:Hn. revert s Hn. induction (lt_wf n) as [n _ IH].
  intros [|c1 [|c2 [|c3 [|c4 rest]]]] ->; cbn [b64decode]; try by intros [= <-].
  repeat case_match; try by intros [= <-]. intros [Hrest|(t & _ & [=])]%bind_Raise.
  eapply IH; [|reflexivity|exact Hrest]. unfold str_len. cbn. lia.
Qed.

Lemma unpack_raises {A} (decoder : bytes → result A) s max :
  0 < max → (∀ d e, decoder d = Raise e → e = StorageCorruptionError ∨ e = BeyondLatin1) →
  raises_in UNTRUSTED_ERRORS (unpack decoder s max).
Proof.
  intros Hmax Hdec. unfold unpack, check_limit_positive. rewrite (proj2 (Z.leb_gt _ _)), raise_if_false by done.
  apply raises_in_bind; [intros e [_ <-]%raise_if_Raise; by left|intros _ _].
  apply raises_in_bind; [intros e [_ <-]%raise_if_Raise; by right; right; left|intros _ _].
  apply raises_in_bind.
  { apply frame_untrusted, reraise_frame. intros e [[_ <-]%raise_if_Raise|(? & _ & ->%b64decode_raises)]%bind_Raise; left; by left. }
  intros d _. apply raises_in_bind; [intros e [_ <-]%raise_if_Raise; by right; right; left|intros _ _].
  apply raises_in_bind; [intros e [_ <-]%raise_if_Raise; by left|intros _ _].
  apply frame_untrusted, raises_in_bind; [apply raises_in_check_depth|intros _ _].
  apply reraise_frame. intros e [->| ->]%Hdec; [left; by left|right; by right; left].
Qed.
