(* ===== verification/ConfigFacts.v ===== *)
(** * Facts about network/config.py

    The text of an address is determined by its value, the masks are ranges,
    and the checks of the configuration are what they say. *)

From Stdlib Require Import Strings.Ascii DecimalString.
From S2P Require Import Prelude Bytes Json JsonParse JsonFacts Codec CodecFacts NetConfig.
#[local] Open Scope Z_scope.

Lemma raise_if_not {A} (b : bool) e (k : unit → result A) : b = false → (raise_if b e ≫= k) = k tt.
Proof. by intros ->. Qed.

(** ** Splitting *)

Fixpoint str_join (c : ascii) (l : list string) : string :=
  match l with
  | [] => EmptyString
  | [x] => x
  | x :: l => x +:+ String c (str_join c l)
  end.

Lemma str_split_cons c s : ∃ x l, str_split c s = x :: l.
Proof.
  induction s as [|d s (x & l & IH)]; cbn [str_split]; [by do 2 eexists|].
  case_bool_decide; [by do 2 eexists|]. rewrite IH. by do 2 eexists.
Qed.

Lemma str_join_split c s : str_join c (str_split c s) = s.
Proof.
  induction s as [|d s IH]; [done|]. cbn [str_split]. destruct (str_split_cons c s) as (x & l & Hs).
  case_bool_decide as Hc.
  - subst d. rewrite Hs in IH |- *. cbn [str_join] in IH |- *. by rewrite str_app_nil, IH.
  - rewrite Hs in IH |- *. destruct l as [|y l]; cbn [str_join] in IH |- *.
    + by rewrite IH.
    + rewrite str_app_cons. by rewrite IH.
Qed.

Definition free_of (c : ascii) (s : string) : bool := str_forall (λ d, negb (bool_decide (c = d))) s.

Lemma str_split_free c s : free_of c s = true → str_split c s = [s].
Proof.
  unfold free_of. induction s as [|d s IH]; [done|]. cbn [str_forall str_split].
  rewrite andb_true_iff, negb_true_iff. intros [-> Hs]. by rewrite (IH Hs).
Qed.

Lemma str_split_app c s t : free_of c s = true → str_split c (s +:+ String c t) = s :: str_split c t.
Proof.
  unfold free_of. induction s as [|d s IH]; intros Hf.
  - rewrite str_app_nil. cbn [str_split]. by rewrite bool_decide_eq_true_2.
  - cbn [str_forall] in Hf. rewrite andb_true_iff, negb_true_iff in Hf. destruct Hf as [Hd Hs].
    rewrite str_app_cons. cbn [str_split]. by rewrite Hd, (IH Hs).
Qed.

Lemma digits_str_of_int z : 0 <= z → digits (str_of_int z) = true.
Proof.
  intros Hz. destruct (decide (z = 0)) as [->|Hne]; [reflexivity|].
  assert (canonical_decimal (str_of_int z) = true) as Hc by (apply canonical_decimal_spec; exists z; split; [lia|done]).
  unfold digits. destruct (str_of_int z) as [|c s]; [done|]. cbn [canonical_decimal] in Hc.
  apply andb_true_iff in Hc as [_ ->]. done.
Qed.

Lemma free_of_digits c s : is_digit c = false → digits s = true → free_of c s = true.
Proof.
  intros Hc [Hd _]%andb_true_iff. unfold free_of. induction s as [|d s IH]; [done|].
  cbn [str_forall] in Hd |- *. apply andb_true_iff in Hd as [Hd Hs]. rewrite (IH Hs), andb_true_r.
  case_bool_decide; [subst; congruence|done].
Qed.

(** ** Addresses *)

Lemma digits_value s :
  digits s = true → (String.prefix "0" s && (1 <? str_len s)%nat) = false → s = str_of_int (int_of_decimal s) ∧ 0 <= int_of_decimal s.
Proof.
  intros [Hd Hne]%andb_true_iff Hz. destruct (canonical_decimal s) eqn:Hc.
  - apply canonical_decimal_spec in Hc as (a & Ha & ->). rewrite int_of_str_of_int. split; [done|lia].
  - destruct s as [|c s]; [done|]. cbn [canonical_decimal] in Hc. rewrite Hd, andb_true_r in Hc.
    apply negb_false_iff, N.eqb_eq in Hc.
    assert (c = "0"%char) as -> by (rewrite <- (ascii_N_embedding c); unfold code in Hc; by rewrite Hc).
    destruct s as [|c s]; [split; [done|vm_compute; discriminate]|]. by cbn in Hz.
Qed.

Lemma octets_parse : forallb (λ n, bool_decide (parse_octet (str_of_int n) = Some n)) (seqZ 0 256) = true.
Proof. vm_compute. reflexivity. Qed.

Lemma parse_octet_Some s n : parse_octet s = Some n ↔ 0 <= n <= 255 ∧ s = str_of_int n.
Proof.
  split.
  - unfold parse_octet. destruct (digits s) eqn:Hd; [|done]. destruct (str_len s <=? 3)%nat; [|done].
    destruct (String.prefix "0" s && _) eqn:Hz; [done|]. destruct (int_of_decimal s <=? 255) eqn:Hle; [|done].
    intros [= <-]. apply Z.leb_le in Hle. destruct (digits_value s Hd Hz). done.
  - intros [Hn ->]. pose proof octets_parse as Ha. rewrite forallb_forall in Ha.
    specialize (Ha n). rewrite <- list_elem_of_In, elem_of_seqZ in Ha. specialize (Ha ltac:(lia)).
    by apply bool_decide_eq_true in Ha.
Qed.

#[local] Ltac Zify.zify_post_hook ::= Z.to_euclidean_division_equations.

Lemma octets_of a b c d :
  0 <= a <= 255 → 0 <= b <= 255 → 0 <= c <= 255 → 0 <= d <= 255 →
  let v := a * 2 ^ 24 + b * 2 ^ 16 + c * 2 ^ 8 + d in
  v / 2 ^ 24 mod 256 = a ∧ v / 2 ^ 16 mod 256 = b ∧ v / 2 ^ 8 mod 256 = c ∧ v / 2 ^ 0 mod 256 = d.
Proof. cbv zeta. intros. lia. Qed.

Lemma octets_value v : 0 <= v < 2 ^ 32 →
  v = (v / 2 ^ 24 mod 256) * 2 ^ 24 + (v / 2 ^ 16 mod 256) * 2 ^ 16 + (v / 2 ^ 8 mod 256) * 2 ^ 8 + v / 2 ^ 0 mod 256.
Proof. intros. lia. Qed.

Lemma octet_range v k : 0 <= v / 2 ^ k mod 256 <= 255.
Proof. pose proof (Z.mod_pos_bound (v / 2 ^ k) 256). lia. Qed.
#[local] Ltac Zify.zify_post_hook ::= idtac.

Lemma free_octet c v k : is_digit c = false → free_of c (str_of_int (v / 2 ^ k mod 256)) = true.
Proof. intros Hc. apply free_of_digits; [done|]. apply digits_str_of_int. apply octet_range. Qed.

Lemma ipv4_str_app v :
  ipv4_str v = str_of_int (v / 2 ^ 24 mod 256) +:+ String "." (str_of_int (v / 2 ^ 16 mod 256) +:+
    String "." (str_of_int (v / 2 ^ 8 mod 256) +:+ String "." (str_of_int (v / 2 ^ 0 mod 256)))).
Proof. reflexivity. Qed.

Lemma split_ipv4 v :
  str_split "." (ipv4_str v) = map (λ k, str_of_int (v / 2 ^ k mod 256)) [24; 16; 8; 0].
Proof. rewrite ipv4_str_app, !str_split_app, str_split_free by (by apply free_octet). reflexivity. Qed.

Lemma parse_ipv4_Some h v : parse_ipv4 h = Some v ↔ 0 <= v < 2 ^ 32 ∧ h = ipv4_str v.
Proof.
  unfold parse_ipv4. split.
  - destruct (str_split "." h) as [|s1 [|s2 [|s3 [|s4 [|]]]]] eqn:Hs; try done.
    pose proof (str_join_split "." h) as Hj. rewrite Hs in Hj. cbn [str_join] in Hj.
    intros (a & [Ha ->]%parse_octet_Some & (b & [Hb ->]%parse_octet_Some & (c & [Hc ->]%parse_octet_Some &
      (d & [Hd ->]%parse_octet_Some & [= <-])%bind_Some)%bind_Some)%bind_Some)%bind_Some.
    split; [lia|]. rewrite ipv4_str_app.
    destruct (octets_of a b c d Ha Hb Hc Hd) as (-> & -> & -> & ->). by rewrite <- Hj.
  - intros [Hv ->]. rewrite split_ipv4. cbn [map].
    rewrite !(proj2 (parse_octet_Some _ _) (conj (octet_range v _) eq_refl)). cbn [mbind option_bind].
    by rewrite <- octets_value.
Qed.

Lemma parse_ipv4_str v : 0 <= v < 2 ^ 32 → parse_ipv4 (ipv4_str v) = Some v.
Proof. intros Hv. by apply parse_ipv4_Some. Qed.

(** ** Networks *)

Lemma land_netmask a p : 0 <= a < 2 ^ 32 → 0 <= p <= 32 → Z.land a (netmask p) = a - a mod 2 ^ (32 - p).
Proof.
  intros Ha Hp. set (k := 32 - p). assert (0 <= k <= 32) as Hk by (unfold k; lia).
  assert (netmask p = Z.shiftl (Z.ones (32 - k)) k) as ->.
  { unfold netmask. fold k. rewrite Z.shiftl_mul_pow2, Z.ones_equiv by lia.
    rewrite <- Z.sub_1_r, Z.mul_sub_distr_r, <- Z.pow_add_r by lia. f_equal; [f_equal; lia|lia]. }
  assert (a - a mod 2 ^ k = Z.shiftl (Z.shiftr a k) k) as ->.
  { rewrite Z.shiftl_mul_pow2, Z.shiftr_div_pow2 by lia. pose proof (Z.div_mod a (2 ^ k) ltac:(lia)). lia. }
  apply Z.bits_inj_iff'. intros n Hn. rewrite Z.land_spec, !Z.shiftl_spec by lia.
  destruct (decide (n < k)) as [Hlt|Hge].
  - rewrite !(Z.testbit_neg_r _ (n - k)) by lia. by rewrite andb_false_r.
  - rewrite Z.shiftr_spec by lia. replace (n - k + k) with n by lia.
    destruct (decide (n < 32)) as [H32|H32].
    + by rewrite Z.ones_spec_low, andb_true_r by lia.
    + rewrite (Z.bits_above_log2 a n); [done|lia|]. destruct (decide (a = 0)) as [->|]; [cbn; lia|].
      assert (Z.log2 a < 32); [apply Z.log2_lt_pow2; lia|lia].
Qed.

Definition wf_network (n : Ipv4Network) : Prop :=
  0 <= network_address n < 2 ^ 32 ∧ 0 <= prefixlen n <= 32 ∧
  Z.land (network_address n) (netmask (prefixlen n)) = network_address n.

Lemma network_aligned n : wf_network n → network_address n mod 2 ^ (32 - prefixlen n) = 0.
Proof. intros (Ha & Hp & Hl). rewrite land_netmask in Hl by done. lia. Qed.

Lemma in_network_range a n :
  wf_network n → 0 <= a < 2 ^ 32 →
  in_network a n = true ↔ network_address n <= a <= broadcast_address n.
Proof.
  intros Hn Ha. pose proof (network_aligned n Hn) as Hal. destruct Hn as (Hna & Hp & _).
  unfold in_network, broadcast_address. rewrite Z.eqb_eq, land_netmask by done.
  set (m := 2 ^ (32 - prefixlen n)) in *. assert (0 < m) as Hm by (unfold m; lia).
  pose proof (Z.mod_pos_bound a m Hm). split; [lia|]. intros Hr.
  apply Z.mod_divide in Hal as [q Hq]; [|lia].
  assert (a mod m = a - network_address n) as ->; [|lia].
  symmetry. apply (Z.mod_unique_pos _ _ q); nia.
Qed.

Lemma prefix_range s p : parse_prefix s = Some p → 0 <= p <= 32.
Proof.
  unfold parse_prefix. destruct (digits s) eqn:Hd.
  - destruct (int_of_decimal s <=? 32) eqn:H; [|done]. intros [= <-]. apply Z.leb_le in H. split; [|done].
    apply andb_true_iff in Hd as [Hd _]. destruct (uint_of_digits _ Hd) as [d Hu].
    unfold int_of_decimal. destruct (NilZero.int_of_string s) as [[u|u]|] eqn:Hi; [| |done].
    + unfold Z.of_int, Z.of_uint. lia.
    + exfalso. destruct s as [|c s]; [done|]. cbn [str_forall] in Hd. apply andb_true_iff in Hd as [Hc _].
      cbn [NilZero.int_of_string] in Hi. destruct (Ascii.eqb c "-") eqn:He; [apply Ascii.eqb_eq in He; by subst|].
      destruct (NilZero.uint_of_string (String c s)); done.
  - assert (∀ mask : Z, snd <$> list_find (λ p, netmask p = mask) (seqZ 0 33) = Some p → 0 <= p <= 32) as Hf.
    { intros mask ([i q] & (Hq & _)%list_find_Some & ->)%fmap_Some. cbn.
      apply list_elem_of_lookup_2, elem_of_seqZ in Hq. lia. }
    intros (ip & _ & Hp)%bind_Some. destruct (snd <$> list_find (λ p, netmask p = ip) _) eqn:Hi.
    + injection Hp as ->. by apply (Hf ip).
    + by apply (Hf _) in Hp.
Qed.

Lemma parse_network_wf cidr n : parse_network cidr = Some n → wf_network n.
Proof.
  unfold parse_network. destruct (str_split "/" cidr) as [|a [|p [|]]]; try done.
  intros (x & [Hx _]%parse_ipv4_Some & (q & Hq%prefix_range & H)%bind_Some)%bind_Some.
  destruct (Z.land x (netmask q) =? x) eqn:Hl; [|done]. injection H as <-. apply Z.eqb_eq in Hl. done.
Qed.

Lemma free_ipv4 v : free_of "/" (ipv4_str v) = true.
Proof.
  rewrite ipv4_str_app. unfold free_of.
  assert (∀ k, str_forall (λ d, negb (bool_decide ("/"%char = d))) (str_of_int (v / 2 ^ k mod 256)) = true) as H.
  { intros k. by apply free_octet. }
  repeat (rewrite str_forall_app, H; cbn [str_forall]; rewrite bool_decide_eq_false_2 by done; cbn [negb andb]).
  apply H.
Qed.

Lemma split_network n :
  0 <= prefixlen n → str_split "/" (network_str n) = [ipv4_str (network_address n); str_of_int (prefixlen n)].
Proof.
  intros Hp. unfold network_str. 
  change (ipv4_str (network_address n) +:+ "/" +:+ str_of_int (prefixlen n))
    with (ipv4_str (network_address n) +:+ String "/" (str_of_int (prefixlen n))).
  rewrite str_split_app by apply free_ipv4. rewrite str_split_free; [done|].
  apply free_of_digits; [done|]. by apply digits_str_of_int.
Qed.

Lemma parse_network_str n : wf_network n → parse_network (network_str n) = Some n.
Proof.
  intros (Ha & Hp & Hl). unfold parse_network. rewrite split_network by lia.
  rewrite parse_ipv4_str by done. cbn [mbind option_bind]. unfold parse_prefix.
  rewrite digits_str_of_int, int_of_str_of_int by lia. rewrite (proj2 (Z.leb_le _ _)) by lia. cbn [mbind option_bind].
  rewrite Hl, Z.eqb_refl. by destruct n.
Qed.

(** ** The policy on endpoints *)

(** Loopback and the private ranges, their broadcast addresses excluded. *)
Definition local_address (a : Z) : Prop :=
  127 * 2 ^ 24 <= a < 128 * 2 ^ 24 - 1 ∨ 10 * 2 ^ 24 <= a < 11 * 2 ^ 24 - 1 ∨
  172 * 2 ^ 24 + 16 * 2 ^ 16 <= a < 172 * 2 ^ 24 + 32 * 2 ^ 16 - 1 ∨
  192 * 2 ^ 24 + 168 * 2 ^ 16 <= a < 192 * 2 ^ 24 + 169 * 2 ^ 16 - 1.

Lemma local_networks_wf : Forall wf_network LOCAL_NETWORKS.
Proof. unfold LOCAL_NETWORKS, wf_network. repeat constructor; vm_compute; (discriminate || reflexivity). Qed.

Lemma local_ipv4_Ok h a : local_ipv4 h = Ok a ↔ h = ipv4_str a ∧ local_address a.
Proof.
  assert (∀ v, 0 <= v < 2 ^ 32 → (existsb (in_network v) LOCAL_NETWORKS = true ∧
    existsb (λ n, v =? broadcast_address n) LOCAL_NETWORKS = false) ↔ local_address v) as Hr.
  { intros v Hv. pose proof local_networks_wf as Hw. unfold LOCAL_NETWORKS in *. cbn [existsb].
    rewrite !orb_true_iff, !orb_false_iff, !Z.eqb_neq.
    inversion Hw as [|? ? W1 Hw1]; subst. inversion Hw1 as [|? ? W2 Hw2]; subst.
    inversion Hw2 as [|? ? W3 Hw3]; subst. inversion Hw3 as [|? ? W4 _]; subst.
    rewrite !(in_network_range _ _) by done. unfold broadcast_address, local_address. cbn [network_address prefixlen].
    change (32 - 8) with 24. change (32 - 12) with 20. change (32 - 16) with 16. lia. }
  unfold local_ipv4. split.
  - destruct (parse_ipv4 h) as [v|] eqn:Hp; [|done]. apply parse_ipv4_Some in Hp as [Hv ->].
    intros (? & H1%raise_if_Ok & (? & H2%raise_if_Ok & [= <-])%bind_Ok)%bind_Ok.
    split; [done|]. apply Hr; [done|]. split; [by apply negb_false_iff|done].
  - intros [-> Hl]. assert (0 <= a < 2 ^ 32) as Ha by (unfold local_address in Hl; lia).
    rewrite parse_ipv4_str by done. apply Hr in Hl as [-> ->]; [|done]. done.
Qed.

Lemma most_specific_spec n l :
  most_specific n l ∈ n :: l ∧ ∀ m, m ∈ n :: l → prefixlen m <= prefixlen (most_specific n l).
Proof.
  unfold most_specific. revert n. induction l as [|x l IH]; intros n; cbn [foldl].
  - split; [apply list_elem_of_here|]. intros m ->%list_elem_of_singleton. lia.
  - destruct (IH (if prefixlen n <? prefixlen x then x else n)) as [Hin Hmax]. split.
    + destruct (prefixlen n <? prefixlen x); set_solver.
    + intros m Hm. pose proof (Hmax _ (list_elem_of_here _ _)) as Hh.
      assert (m = n ∨ m = x ∨ m ∈ l) as [->|[->|Hl]] by set_solver; [| |apply Hmax; set_solver];
        destruct (prefixlen n <? prefixlen x) eqn:Hlt;
        rewrite ?Z.ltb_lt, ?Z.ltb_ge in Hlt; lia.
Qed.

(** The address may be used: local, in an allowed network, and a host of the
    most specific one. *)
Definition usable (nets : list Ipv4Network) (a : Z) : Prop :=
  local_address a ∧
  ∃ n, n ∈ nets ∧ in_network a n = true ∧
    (∀ m, m ∈ nets → in_network a m = true → prefixlen m <= prefixlen n) ∧
    (prefixlen n < 31 → a ≠ network_address n ∧ a ≠ broadcast_address n).

Lemma in_network_unique a n m :
  in_network a n = true → in_network a m = true → prefixlen n = prefixlen m → n = m.
Proof. destruct n, m. unfold in_network. cbn. intros Hn%Z.eqb_eq Hm%Z.eqb_eq ->. congruence. Qed.

Lemma validate_host_Ok nets h s :
  validate_host nets h = Ok s ↔ s = h ∧ ∃ a, h = ipv4_str a ∧ usable nets a.
Proof.
  unfold validate_host, usable. split.
  - intros (a & [-> Hl]%local_ipv4_Ok & H)%bind_Ok.
    destruct (filter _ nets) as [|n l] eqn:Hf; [done|]. cbv zeta in H.
    destruct (most_specific_spec n l) as [Hin Hmax]. set (b := most_specific n l) in *.
    apply bind_Ok in H as (? & Hb%raise_if_Ok & [= <-]). split; [done|]. exists a. split_and!; [done..|]. exists b.
    rewrite <- Hf in Hin, Hmax. apply list_elem_of_filter in Hin as [Hba Hbn]. split_and!; [done..| |].
    + intros m Hm Hma. apply Hmax. by apply list_elem_of_filter.
    + intros Hp. rewrite (proj2 (Z.ltb_lt _ _) Hp) in Hb. cbn [andb] in Hb.
      apply orb_false_iff in Hb as [?%Z.eqb_neq ?%Z.eqb_neq]. done.
  - intros (-> & a & -> & Hl & n & Hn & Hna & Hmax & Hp).
    rewrite (proj2 (local_ipv4_Ok _ a)) by done. rewrite Ok_bind.
    assert (n ∈ filter (λ n, in_network a n = true) nets) as Hin by (by apply list_elem_of_filter).
    destruct (filter _ nets) as [|m l] eqn:Hf; [by apply not_elem_of_nil in Hin|]. cbv zeta.
    destruct (most_specific_spec m l) as [Hb Hbmax].
    assert (most_specific m l = n) as ->.
    { rewrite <- Hf in Hb. apply list_elem_of_filter in Hb as [Hba Hbn]. apply (in_network_unique a); [done..|].
      pose proof (Hmax _ Hbn Hba). pose proof (Hbmax n Hin). lia. }
    rewrite raise_if_not; [done|]. destruct (prefixlen n <? 31) eqn:Hlt; [|done].
    apply Z.ltb_lt in Hlt. destruct (Hp Hlt). cbn [andb]. by rewrite !(proj2 (Z.eqb_neq _ _)).
Qed.

Lemma validate_endpoint_Ok nets h p e :
  validate_endpoint nets h p = Ok e ↔
    e = (h, p) ∧ 1 <= p <= 65535 ∧ ∃ a, h = ipv4_str a ∧ usable nets a.
Proof.
  unfold validate_endpoint. split.
  - intros (? & Hp%raise_if_Ok & (s & [-> Hu]%validate_host_Ok & [= <-])%bind_Ok)%bind_Ok.
    apply negb_false_iff, andb_true_iff in Hp as [?%Z.leb_le ?%Z.leb_le]. done.
  - intros (-> & Hp & Hu). rewrite raise_if_not; [|apply negb_false_iff, andb_true_iff; rewrite !Z.leb_le; lia].
    by rewrite (proj2 (validate_host_Ok nets h h) (conj eq_refl Hu)).
Qed.

Lemma validate_host_Raise nets h x : validate_host nets h = Raise x → x = ValueError.
Proof.
  unfold validate_host, local_ipv4. intros [H|(a & _ & H)]%bind_Raise.
  - destruct (parse_ipv4 h); [|by injection H as <-].
    apply bind_Raise in H as [[_ <-]%raise_if_Raise|(? & _ & [[_ <-]%raise_if_Raise|(? & _ & [=])]%bind_Raise)]; done.
  - destruct (filter _ _); [by injection H as <-|]. cbv zeta in H.
    apply bind_Raise in H as [[_ <-]%raise_if_Raise|(? & _ & [=])]; done.
Qed.

Lemma validate_endpoint_Raise nets h p x : validate_endpoint nets h p = Raise x → x = ValueError.
Proof.
  intros [[_ <-]%raise_if_Raise|(? & _ & [H%validate_host_Raise|(? & _ & [=])]%bind_Raise)]%bind_Raise; done.
Qed.

(** ** The configuration *)

Definition allowed_network (n : Ipv4Network) : Prop :=
  wf_network n ∧ existsb (subnet_of n) LOCAL_NETWORKS = true.

Lemma parse_cidr_spec n : allowed_network n ↔ ∃ cidr, parse_cidr cidr = Ok n.
Proof.
  unfold parse_cidr. split.
  - intros [Hw Hs]. exists (network_str n). rewrite split_network by (destruct Hw; lia).
    rewrite raise_if_not by done. rewrite parse_network_str by done. by rewrite Hs.
  - intros (cidr & (? & _ & H)%bind_Ok). destruct (parse_network cidr) as [m|] eqn:Hm; [|done].
    apply bind_Ok in H as (? & Hs%raise_if_Ok & [= <-]).
    split; [by eapply parse_network_wf|by apply negb_false_iff].
Qed.

Lemma parse_cidr_str n : allowed_network n → parse_cidr (network_str n) = Ok n.
Proof.
  intros [Hw Hs]. unfold parse_cidr. rewrite split_network by (destruct Hw; lia).
  rewrite raise_if_not by done. rewrite parse_network_str by done. by rewrite Hs.
Qed.

Lemma map_parse_cidr l nets :
  map_result parse_cidr l = Ok nets → Forall allowed_network nets ∧ (l = [] ↔ nets = []).
Proof.
  revert nets. induction l as [|c l IH]; intros nets; cbn [map_result].
  - intros [= <-]. split; [constructor|done].
  - intros (n & Hn & (t & Ht & [= <-])%bind_Ok)%bind_Ok. destruct (IH _ Ht).
    split; [constructor; [apply parse_cidr_spec; by exists c|done]|done].
Qed.

Lemma map_parse_cidr_str nets : Forall allowed_network nets → map_result parse_cidr (map network_str nets) = Ok nets.
Proof.
  induction 1 as [|n nets Hn _ IH]; [done|]. cbn [map map_result]. by rewrite (parse_cidr_str n Hn), IH.
Qed.

Definition good_seeds (nets : list Ipv4Network) (l : list Endpoint) : Prop :=
  NoDup l ∧ Forall (λ e, validate_endpoint nets e.1 e.2 = Ok e) l.

Lemma normalize_seeds_good nets l acc s :
  normalize_seeds nets l acc = Ok s → good_seeds nets acc → good_seeds nets s.
Proof.
  revert acc. induction l as [|[h p] l IH]; intros acc; cbn [normalize_seeds]; [by intros [= <-]|].
  intros (e & He & H)%bind_Ok [Hd Hv]. apply (IH _ H). case_bool_decide as Hin; [done|].
  apply validate_endpoint_Ok in He as He'. destruct He' as (-> & _). split.
  - apply NoDup_app. split_and!; [done| |apply NoDup_singleton]. intros x Hx ->%list_elem_of_singleton. done.
  - apply Forall_app. split; [done|]. by constructor; [|constructor].
Qed.

Lemma normalize_seeds_id nets l acc :
  NoDup (acc ++ l) → Forall (λ e, validate_endpoint nets e.1 e.2 = Ok e) l →
  normalize_seeds nets l acc = Ok (acc ++ l).
Proof.
  revert acc. induction l as [|[h p] l IH]; intros acc Hd Hv; cbn [normalize_seeds]; [by rewrite app_nil_r|].
  inversion Hv as [|? ? Hh Ht]; subst. cbn [fst snd] in Hh. rewrite Hh, Ok_bind.
  rewrite bool_decide_eq_false_2.
  - rewrite IH, <- app_assoc; [done| |done]. by rewrite <- app_assoc.
  - apply NoDup_app in Hd as (_ & Hd & _). intros Hin. by apply (Hd _ Hin), list_elem_of_here.
Qed.

(** What the constructor checks besides its addresses. *)
Definition config_limits (c : NodeConfig) : Prop :=
  0 <= port c <= 65535 ∧
  match db_path c with
  | Some path => path ≠ EmptyString ∧ str_forall (λ ch, negb (code ch =? 0)%N) path = true
  | None => True
  end ∧
  Forall (λ d, (0 < d)%Q) (durations c) ∧ Forall (λ n, 0 < n) (counts c) ∧
  max_frame_bytes c <= 2 ^ 32 - 1 ∧ max_requests c <= 4 ∧ block_batch_size c <= MAX_BLOCK_BATCH ∧
  mempool_page_size c <= MAX_MEMPOOL_PAGE ∧ (reconnect_initial c <= reconnect_max c)%Q.

Lemma forallb_Forall {A} (f : A → bool) (P : A → Prop) l :
  (∀ x, f x = true ↔ P x) → forallb f l = true ↔ Forall P l.
Proof.
  intros HP. rewrite forallb_forall, Forall_forall.
  split; intros H x Hx; [apply HP, H; by apply list_elem_of_In|apply HP, H; by apply list_elem_of_In].
Qed.

Lemma positive_durations l : forallb (λ d, negb (Qle_bool d 0)) l = true ↔ Forall (λ d, (0 < d)%Q) l.
Proof.
  apply forallb_Forall. intros d. rewrite negb_true_iff, <- not_true_iff_false, Qle_bool_iff.
  split; [apply Qnot_le_lt|]. intros Hl Hd. by apply (Qlt_irrefl 0), (Qlt_le_trans _ d).
Qed.

Lemma positive_counts l : forallb (λ n, 0 <? n) l = true ↔ Forall (λ n, 0 < n) l.
Proof. apply forallb_Forall. intros n. apply Z.ltb_lt. Qed.

Lemma node_config_Ok c c' :
  node_config c = Ok c' ↔
    ∃ nets s, allowed_cidrs c ≠ [] ∧ map_result parse_cidr (allowed_cidrs c) = Ok nets ∧
      validate_host nets (host c) = Ok (host c) ∧ normalize_seeds nets (seeds c) [] = Ok s ∧
      config_limits c ∧ Z.of_nat (length s) <= max_candidates c ∧ c' = normalized c (host c) s nets.
Proof.
  unfold node_config, config_limits. split.
  - intros (? & Hc%raise_if_Ok%bool_decide_eq_false & (nets & Hn & (h & Hh & (? & Hp%raise_if_Ok & (? & Hd%raise_if_Ok &
      (s & Hs & (? & Hdur%raise_if_Ok & (? & Hcnt%raise_if_Ok & (? & Hov%raise_if_Ok & (? & Hm%raise_if_Ok &
      (? & Hr%raise_if_Ok & [= <-])%bind_Ok)%bind_Ok)%bind_Ok)%bind_Ok)%bind_Ok)%bind_Ok)%bind_Ok)%bind_Ok)%bind_Ok)%bind_Ok)%bind_Ok.
    pose proof Hh as [-> _]%validate_host_Ok. exists nets, s.
    apply negb_false_iff, andb_true_iff in Hp as [?%Z.leb_le ?%Z.leb_le].
    apply negb_false_iff, positive_durations in Hdur. apply negb_false_iff, positive_counts in Hcnt.
    unfold over_limit in Hov. rewrite !orb_false_iff, !Z.ltb_ge in Hov. apply Z.ltb_ge in Hm.
    apply negb_false_iff, Qle_bool_iff in Hr. split_and!; try done; try tauto.
    destruct (db_path c) as [path|]; [|done]. apply orb_false_iff in Hd as [Hd%bool_decide_eq_false Hf%negb_false_iff]. done.
  - intros (nets & s & Hc & Hn & Hh & Hs & (Hp & Hd & Hdur%positive_durations & Hcnt%positive_counts & H1 & H2 & H3 & H4 & Hr) & Hm & ->).
    rewrite raise_if_not by (by apply bool_decide_eq_false_2). rewrite Hn, Ok_bind, Hh, Ok_bind.
    rewrite raise_if_not by (rewrite negb_false_iff, andb_true_iff, !Z.leb_le; lia).
    rewrite raise_if_not by (destruct (db_path c) as [path|]; [|done]; destruct Hd as [Hne ->]; by rewrite bool_decide_eq_false_2).
    rewrite Hs, Ok_bind, Hdur, Hcnt, !raise_if_false.
    rewrite raise_if_not by (unfold over_limit; rewrite !orb_false_iff, !Z.ltb_ge; tauto).
    rewrite raise_if_not by (by apply Z.ltb_ge).
    by rewrite raise_if_not by (by apply negb_false_iff, Qle_bool_iff).
Qed.
