(* ===== verification/Effects.v ===== *)
(** * Objects with state: methods, dictionaries, and the world

    A method of a mutable object takes the object to a result or an exception
    and the object it leaves: an exception does not undo what was done before
    it.  [keeps] is what such a method guarantees of an invariant and of the
    exceptions it raises; its rules follow the structure of the code.  A Python
    [dict] that is iterated is an association list in insertion order.  The
    [World] supplies what the program reads from outside: the monotonic clock,
    the wall clock, random tokens and random numbers, each a sequence of which
    every reading takes the next element. *)

From Stdlib Require Export QArith.
From S2P Require Import Prelude.
#[local] Open Scope Z_scope.

(** ** Methods *)

Definition call (S A : Type) : Type := S → result A * S.

#[export] Instance call_ret {S} : MRet (call S) := λ A a s, (Ok a, s).
#[export] Instance call_bind {S} : MBind (call S) := λ A B f m s,
  match m s with
  | (Ok a, s') => f a s'
  | (Raise e, s') => (Raise e, s')
  end.

Lemma call_run {S A B} (m : call S A) (f : A → call S B) s :
  @mbind (call S) _ A B f m s = match m s with (Ok a, s') => f a s' | (Raise e, s') => (Raise e, s') end.
Proof. done. Qed.

Section methods.
Context {S : Type}.

Definition raise {A} (e : exn) : call S A := λ s, (Raise e, s).
Definition lift {A} (r : result A) : call S A := λ s, (r, s).
Definition gets {A} (f : S → A) : call S A := λ s, (Ok (f s), s).
Definition modify (f : S → S) : call S unit := λ s, (Ok tt, f s).
Definition when (b : bool) (m : call S unit) : call S unit := if b then m else mret tt.

(** [try: m; except <caught>: h] *)
Definition try_call {A} (m : call S A) (caught : exn → bool) (h : exn → call S A) : call S A := λ s,
  match m s with
  | (Ok a, s') => (Ok a, s')
  | (Raise e, s') => if caught e then h e s' else (Raise e, s')
  end.

(** [for x in l: f(x)] *)
Fixpoint for_each {X} (l : list X) (f : X → call S unit) : call S unit :=
  match l with
  | [] => mret tt
  | x :: l => _ ← f x; for_each l f
  end.

(** What no turn of the loop changes. *)
Lemma for_each_same {X T} (g : S → T) (l : list X) (f : X → call S unit) :
  (∀ x s, x ∈ l → g (f x s).2 = g s) → ∀ s, g (for_each l f s).2 = g s.
Proof.
  induction l as [|x l IH]; intros Hf s; [done|]. cbn [for_each]. rewrite call_run.
  pose proof (Hf x s (list_elem_of_here _ _)) as Hx. destruct (f x s) as [[u|e] s']; cbn in Hx; [|done].
  rewrite IH; [done|]. intros y t Hy. by apply Hf, list_elem_of_further.
Qed.

(** A method of a part of the object. *)
Definition zoom {T A} (get : S → T) (put : T → S → S) (m : call T A) : call S A := λ s,
  let (r, t) := m (get s) in (r, put t s).

(** ** What a method guarantees *)

(** Started where [I] holds, [m] leaves a state where [I] holds; what it
    returns satisfies [Q], and what it raises satisfies [X]. *)
Definition keeps (I : S → Prop) {A} (m : call S A) (Q : A → Prop) (X : exn → Prop) : Prop :=
  ∀ s, I s → match m s with
             | (Ok a, s') => I s' ∧ Q a
             | (Raise e, s') => I s' ∧ X e
             end.

Context (I : S → Prop) (X : exn → Prop).

Lemma keeps_ret {A} (a : A) (Q : A → Prop) : Q a → keeps I (mret a) Q X.
Proof. intros Ha s Hs. done. Qed.

Lemma keeps_bind {A B} (m : call S A) (f : A → call S B) (P : A → Prop) (Q : B → Prop) :
  keeps I m P X → (∀ a, P a → keeps I (f a) Q X) → keeps I (m ≫= f) Q X.
Proof.
  intros Hm Hf s Hs. specialize (Hm s Hs). unfold mbind, call_bind.
  destruct (m s) as [[a|e] s'], Hm as [Hs' Ha]; [by apply Hf|done].
Qed.

Lemma keeps_seq {A B} (m : call S A) (f : A → call S B) (Q : B → Prop) :
  keeps I m (λ _, True) X → (∀ a, keeps I (f a) Q X) → keeps I (m ≫= f) Q X.
Proof. intros Hm Hf. eapply keeps_bind; [exact Hm|]. intros a _. apply Hf. Qed.

Lemma keeps_weaken {A} (m : call S A) (P Q : A → Prop) (Y : exn → Prop) :
  keeps I m P Y → (∀ a, P a → Q a) → (∀ e, Y e → X e) → keeps I m Q X.
Proof.
  intros Hm HQ HX s Hs. specialize (Hm s Hs). destruct (m s) as [[a|e] s'], Hm; split; auto.
Qed.

Lemma keeps_any {A} (m : call S A) (P : A → Prop) : keeps I m P X → keeps I m (λ _, True) X.
Proof. intros Hm. by eapply keeps_weaken. Qed.

Lemma keeps_raise {A} e (Q : A → Prop) : X e → keeps I (raise e) Q X.
Proof. intros He s Hs. done. Qed.

Lemma keeps_lift {A} (r : result A) (Q : A → Prop) :
  (∀ a, r = Ok a → Q a) → (∀ e, r = Raise e → X e) → keeps I (lift r) Q X.
Proof. intros HQ HX s Hs. cbn. destruct r; split; auto. Qed.

Lemma keeps_gets {A} (f : S → A) (Q : A → Prop) : (∀ s, I s → Q (f s)) → keeps I (gets f) Q X.
Proof. intros HQ s Hs. cbn. auto. Qed.

Lemma keeps_modify (f : S → S) (Q : unit → Prop) : Q tt → (∀ s, I s → I (f s)) → keeps I (modify f) Q X.
Proof. intros HQ Hf s Hs. cbn. auto. Qed.

Lemma keeps_when b (m : call S unit) (Q : unit → Prop) :
  Q tt → (b = true → keeps I m Q X) → keeps I (when b m) Q X.
Proof. intros HQ Hm. destruct b; cbn; [auto|by apply keeps_ret]. Qed.

Lemma keeps_try {A} (m : call S A) caught h (Q : A → Prop) (Y : exn → Prop) :
  keeps I m Q Y → (∀ e, Y e → caught e = true → keeps I (h e) Q X) →
  (∀ e, Y e → caught e = false → X e) → keeps I (try_call m caught h) Q X.
Proof.
  intros Hm Hh HX s Hs. specialize (Hm s Hs). unfold try_call.
  destruct (m s) as [[a|e] s'], Hm as [Hs' Ha]; [done|].
  destruct (caught e) eqn:Hc; [by apply Hh|split; auto].
Qed.

Lemma keeps_for {Y} (l : list Y) (f : Y → call S unit) :
  (∀ x, x ∈ l → keeps I (f x) (λ _, True) X) → keeps I (for_each l f) (λ _, True) X.
Proof.
  induction l as [|x l IH]; intros Hf; cbn [for_each]; [by apply keeps_ret|].
  apply keeps_seq; [apply Hf, list_elem_of_here|]. intros _. apply IH.
  intros y Hy. by apply Hf, list_elem_of_further.
Qed.
End methods.

Lemma keeps_zoom {S T A} (I : S → Prop) (J : T → Prop) (get : S → T) put (m : call T A) (Q : A → Prop) X :
  keeps J m Q X → (∀ s, I s → J (get s)) → (∀ s t, I s → J t → I (put t s)) → keeps I (zoom get put m) Q X.
Proof.
  intros Hm Hget Hput s Hs. specialize (Hm _ (Hget _ Hs)). unfold zoom.
  destruct (m (get s)) as [[a|e] t], Hm; split; auto.
Qed.

(** The general form: what [m] needs, and what holds of the state it leaves in
    either case. *)
Definition hoare {S A} (P : S → Prop) (m : call S A) (Q : A → S → Prop) (X : exn → S → Prop) : Prop :=
  ∀ s, P s → match m s with (Ok a, s') => Q a s' | (Raise e, s') => X e s' end.

Section hoare.
Context {S : Type} (X : exn → S → Prop).

Lemma hoare_ret {A} (a : A) (P : S → Prop) (Q : A → S → Prop) : (∀ s, P s → Q a s) → hoare P (mret a) Q X.
Proof. intros HQ s Hs. by apply HQ. Qed.

Lemma hoare_bind {A B} (m : call S A) (f : A → call S B) P R Q :
  hoare P m R X → (∀ a, hoare (R a) (f a) Q X) → hoare P (m ≫= f) Q X.
Proof.
  intros Hm Hf s Hs. specialize (Hm s Hs). unfold mbind, call_bind.
  destruct (m s) as [[a|e] s']; [by apply Hf|done].
Qed.

Lemma hoare_pre {A} (m : call S A) (P P' : S → Prop) Q :
  hoare P' m Q X → (∀ s, P s → P' s) → hoare P m Q X.
Proof. intros Hm HP s Hs. apply Hm; auto. Qed.

Lemma hoare_post {A} (m : call S A) P (Q Q' : A → S → Prop) :
  hoare P m Q' X → (∀ a s, Q' a s → Q a s) → hoare P m Q X.
Proof. intros Hm HQ s Hs. specialize (Hm s Hs). destruct (m s) as [[a|e] s']; auto. Qed.

Lemma keeps_hoare {A} (I : S → Prop) (m : call S A) (Q : A → Prop) (Y : exn → Prop) :
  keeps I m Q Y ↔ hoare I m (λ a s, I s ∧ Q a) (λ e s, I s ∧ Y e).
Proof. done. Qed.
End hoare.

(** The structure of a method, down to its primitive steps. *)
Ltac keeps_step :=
  lazymatch goal with
  | |- keeps _ (mret _) _ _ => apply keeps_ret; try done
  | |- keeps _ (raise _) _ _ => apply keeps_raise; try done
  | |- keeps _ (when _ _) _ _ => apply keeps_when; [done|intros ?]
  | |- keeps _ (gets _ ≫= _) _ _ => eapply keeps_bind; [by apply (keeps_gets _ _ _ (λ _, True))|intros ? _]
  | |- keeps _ (_ ≫= _) _ _ => apply keeps_seq; [|intros ?]
  | |- keeps _ (for_each _ _) _ _ => apply keeps_for; intros ? ?
  | |- keeps _ (if ?b then _ else _) _ _ => destruct b eqn:?
  | |- keeps _ (match ?x with _ => _ end) _ _ => destruct x eqn:?
  end.

(** ** Dictionaries *)

Section dict.
Context {K V : Type} `{EqDecision K}.

Definition dict_get (d : list (K * V)) (k : K) : option V := snd <$> (snd <$> list_find (λ p, p.1 = k) d).

(** [d[k] = v]: in place, or at the end. *)
Fixpoint dict_set (d : list (K * V)) (k : K) (v : V) : list (K * V) :=
  match d with
  | [] => [(k, v)]
  | (k', v') :: d => if bool_decide (k' = k) then (k', v) :: d else (k', v') :: dict_set d k v
  end.

(** [d.pop(k, None)]: what remains. *)
Definition dict_del (d : list (K * V)) (k : K) : list (K * V) := filter (λ p, p.1 ≠ k) d.

Definition dict_keys (d : list (K * V)) : list K := d.*1.

(** Changing the object stored under a key. *)
Definition dict_map (f : V → V) (k : K) (d : list (K * V)) : list (K * V) :=
  map (λ p, if bool_decide (p.1 = k) then (p.1, f p.2) else p) d.

Lemma dict_get_nil k : dict_get [] k = None.
Proof. done. Qed.

Lemma dict_get_cons k' v d k : dict_get ((k', v) :: d) k = if bool_decide (k' = k) then Some v else dict_get d k.
Proof.
  unfold dict_get. cbn [list_find]. case_decide as Hk; cbn in Hk; case_bool_decide; try done.
  by destruct (list_find _ d) as [[]|].
Qed.

Lemma dict_get_elem d k v : dict_get d k = Some v → (k, v) ∈ d.
Proof.
  induction d as [|[k' v'] d IH]; [done|]. rewrite dict_get_cons. case_bool_decide as Hk.
  - intros [= <-]. subst. apply list_elem_of_here.
  - intros Hd. by apply list_elem_of_further, IH.
Qed.

Lemma dict_elem_get d k v : NoDup (dict_keys d) → (k, v) ∈ d → dict_get d k = Some v.
Proof.
  unfold dict_keys. induction d as [|[k' v'] d IH]; [by intros _ ?%not_elem_of_nil|].
  rewrite fmap_cons, NoDup_cons, dict_get_cons. intros [Hk Hd] [[= -> ->]|Hin]%elem_of_cons.
  - by rewrite bool_decide_eq_true_2.
  - rewrite bool_decide_eq_false_2; [by apply IH|]. intros Hne. cbn in Hne. subst k'.
    apply Hk. apply list_elem_of_fmap. by exists (k, v).
Qed.

Lemma dict_get_None d k : dict_get d k = None ↔ k ∉ dict_keys d.
Proof.
  unfold dict_keys. induction d as [|[k' v'] d IH]; [split; [by intros _ ?%not_elem_of_nil|done]|].
  rewrite dict_get_cons, fmap_cons, not_elem_of_cons. cbn [fst].
  case_bool_decide as Hk; [|rewrite IH]; split.
  - done.
  - intros [Hne _]. by destruct Hne.
  - intros Hd. split; [intros ->; by apply Hk|exact Hd].
  - by intros [_ Hd].
Qed.

Lemma dict_keys_set d k v :
  dict_keys (dict_set d k v) = if bool_decide (k ∈ dict_keys d) then dict_keys d else dict_keys d ++ [k].
Proof.
  unfold dict_keys. induction d as [|[k' v'] d IH]; [done|]. cbn [dict_set].
  destruct (decide (k' = k)) as [->|Hk].
  - rewrite bool_decide_eq_true_2 by done. rewrite !fmap_cons. cbn [fst].
    rewrite bool_decide_eq_true_2; [done|]. apply list_elem_of_here.
  - rewrite bool_decide_eq_false_2 by done. rewrite !fmap_cons, IH. cbn [fst].
    destruct (decide (k ∈ d.*1)) as [Hin|Hin].
    + rewrite !bool_decide_eq_true_2; [done|by apply list_elem_of_further|exact Hin].
    + rewrite !bool_decide_eq_false_2; [done| |exact Hin]. rewrite not_elem_of_cons.
      split; [intros ->; by apply Hk|exact Hin].
Qed.

Lemma dict_set_new d k v : k ∉ dict_keys d → dict_set d k v = d ++ [(k, v)].
Proof.
  unfold dict_keys. induction d as [|[k' v'] d IH]; [done|]. rewrite fmap_cons, not_elem_of_cons. cbn [dict_set app fst].
  intros [Hne Hk]. rewrite bool_decide_eq_false_2 by congruence. by rewrite IH.
Qed.

Lemma dict_get_set d k v k' : dict_get (dict_set d k v) k' = if bool_decide (k = k') then Some v else dict_get d k'.
Proof.
  induction d as [|[k1 v1] d IH]; cbn [dict_set]; [apply dict_get_cons|].
  destruct (decide (k1 = k)) as [->|Hne].
  - rewrite bool_decide_eq_true_2, !dict_get_cons by done. by case_bool_decide.
  - rewrite bool_decide_eq_false_2, !dict_get_cons, IH by done. destruct (decide (k1 = k')) as [->|Hk].
    2: { by rewrite (bool_decide_eq_false_2 (k1 = k')). }
    by rewrite (bool_decide_eq_true_2 (k' = k')), (bool_decide_eq_false_2 (k = k')) by congruence.
Qed.

Lemma dict_set_NoDup d k v : NoDup (dict_keys d) → NoDup (dict_keys (dict_set d k v)).
Proof.
  intros Hd. rewrite dict_keys_set. case_bool_decide as Hk; [done|]. apply NoDup_app. split_and!; [done| |apply NoDup_singleton].
  intros x Hx ->%list_elem_of_singleton. done.
Qed.

Lemma dict_set_elem d k v p : p ∈ dict_set d k v → p = (k, v) ∨ p ∈ d.
Proof.
  induction d as [|[k' v'] d IH]; cbn [dict_set].
  - intros ->%list_elem_of_singleton. by left.
  - case_bool_decide as Hk; rewrite !elem_of_cons; [subst; naive_solver|naive_solver].
Qed.

Lemma dict_set_Forall (P : K * V → Prop) d k v : P (k, v) → Forall P d → Forall P (dict_set d k v).
Proof.
  rewrite !Forall_forall. intros Hv Hd p [->|Hp]%dict_set_elem; auto.
Qed.

Lemma dict_del_elem d k p : p ∈ dict_del d k ↔ p.1 ≠ k ∧ p ∈ d.
Proof. unfold dict_del. by rewrite list_elem_of_filter. Qed.

Lemma dict_del_Forall (P : K * V → Prop) d k : Forall P d → Forall P (dict_del d k).
Proof. rewrite !Forall_forall. intros Hd p [_ Hp]%dict_del_elem. auto. Qed.

Lemma dict_del_keys d k : dict_keys (dict_del d k) = filter (λ x, x ≠ k) (dict_keys d).
Proof.
  unfold dict_keys, dict_del. induction d as [|[k' v'] d IH]; [done|].
  rewrite fmap_cons, !filter_cons. cbn [fst]. case_decide; [by rewrite fmap_cons, IH|done].
Qed.

Lemma dict_del_NoDup d k : NoDup (dict_keys d) → NoDup (dict_keys (dict_del d k)).
Proof. intros Hd. rewrite dict_del_keys. by apply NoDup_filter. Qed.

Lemma dict_del_notin d k : k ∉ dict_keys d → dict_del d k = d.
Proof.
  unfold dict_keys, dict_del. induction d as [|[k' v'] d IH]; [done|].
  rewrite fmap_cons, not_elem_of_cons, filter_cons. cbn [fst]. intros [Hk Hd].
  rewrite decide_True by done. by rewrite IH.
Qed.

Lemma not_elem_of_dict_map f k d : k ∉ dict_keys d → dict_map f k d = d.
Proof.
  unfold dict_keys, dict_map. induction d as [|[k' v] d IH]; [done|]. rewrite fmap_cons, not_elem_of_cons. cbn [map fst].
  intros [Hne Hk]. rewrite bool_decide_eq_false_2 by congruence. by rewrite IH.
Qed.

Lemma dict_map_keys f k d : dict_keys (dict_map f k d) = dict_keys d.
Proof.
  unfold dict_keys, dict_map. induction d as [|[k' v'] d IH]; [done|]. cbn. f_equal; [by case_bool_decide|done].
Qed.

Lemma dict_map_Forall (P : K * V → Prop) f k d :
  (∀ v, P (k, v) → P (k, f v)) → Forall P d → Forall P (dict_map f k d).
Proof.
  intros Hf Hd. unfold dict_map. apply Forall_map. eapply Forall_impl; [exact Hd|]. intros [k' v'] Hp. cbn.
  case_bool_decide; [subst; auto|done].
Qed.

Lemma dict_map_get f k d k' :
  dict_get (dict_map f k d) k' = if bool_decide (k' = k) then f <$> dict_get d k' else dict_get d k'.
Proof.
  unfold dict_map. induction d as [|[k1 v] d IH]; [by case_bool_decide|]. cbn [map fst snd].
  destruct (decide (k1 = k)) as [->|Hne].
  - rewrite bool_decide_eq_true_2, !dict_get_cons, IH by done. destruct (decide (k = k')) as [->|Hk].
    + by rewrite !bool_decide_eq_true_2.
    + by rewrite !(bool_decide_eq_false_2 (k = k')).
  - rewrite (bool_decide_eq_false_2 (k1 = k)), !dict_get_cons, IH by done. destruct (decide (k1 = k')) as [->|Hk].
    + by rewrite bool_decide_eq_true_2, bool_decide_eq_false_2.
    + by rewrite !(bool_decide_eq_false_2 (k1 = k')).
Qed.

Lemma dict_map_get_Forall (P : K * V → Prop) f k d v :
  NoDup (dict_keys d) → dict_get d k = Some v → P (k, f v) → Forall P d → Forall P (dict_map f k d).
Proof.
  intros Hnd Hv Hf Hd. unfold dict_map. apply Forall_map, Forall_forall. intros [k' v'] Hin. cbn.
  case_bool_decide as Hk; cbn.
  - subst k'. apply (dict_elem_get d k v' Hnd) in Hin. congruence.
  - rewrite Forall_forall in Hd. by apply Hd.
Qed.
End dict.

(** ** The world *)

Record World := MkWorld {
  clock_at : nat → Q;
  clock_reads : nat;
  wall_at : nat → Z;
  wall_reads : nat;
  token_at : nat → string;
  token_reads : nat;
  uniform_at : nat → Q;
  uniform_reads : nat
}.

(** [clock()] *)
Definition read_clock : call World Q := λ w,
  (Ok (clock_at w (clock_reads w)),
   MkWorld (clock_at w) (S (clock_reads w)) (wall_at w) (wall_reads w)
     (token_at w) (token_reads w) (uniform_at w) (uniform_reads w)).

(** [int(time.time())] *)
Definition read_wall : call World Z := λ w,
  (Ok (wall_at w (wall_reads w)),
   MkWorld (clock_at w) (clock_reads w) (wall_at w) (S (wall_reads w))
     (token_at w) (token_reads w) (uniform_at w) (uniform_reads w)).

(** [secrets.token_hex(16)] *)
Definition draw_token : call World string := λ w,
  (Ok (token_at w (token_reads w)),
   MkWorld (clock_at w) (clock_reads w) (wall_at w) (wall_reads w)
     (token_at w) (S (token_reads w)) (uniform_at w) (uniform_reads w)).

(** [rng.uniform(0.8, 1.2)] *)
Definition draw_uniform : call World Q := λ w,
  (Ok (uniform_at w (uniform_reads w)),
   MkWorld (clock_at w) (clock_reads w) (wall_at w) (wall_reads w)
     (token_at w) (token_reads w) (uniform_at w) (S (uniform_reads w))).

(** What the sources are documented to supply: the monotonic clock never goes
    back, the wall clock is after the epoch and not past [limit], a token is
    32 hexadecimal digits, a random number is in its interval. *)
Record world_ok (is_token : string → bool) (limit : Z) (w : World) : Prop := {
  clock_monotonic : ∀ i j, (i <= j)%nat → (clock_at w i <= clock_at w j)%Q;
  wall_in_range : ∀ i, 0 <= wall_at w i <= limit;
  tokens_are_tokens : ∀ i, is_token (token_at w i) = true;
  uniforms_in_range : ∀ i, (8 # 10 <= uniform_at w i <= 12 # 10)%Q
}.

Lemma keeps_world {A} f limit (m : call World A) (Q : A → Prop) X :
  (∀ w, world_ok f limit w → ∃ a, (m w).1 = Ok a ∧ Q a) →
  (∀ w, clock_at (m w).2 = clock_at w ∧ wall_at (m w).2 = wall_at w ∧ token_at (m w).2 = token_at w ∧
    uniform_at (m w).2 = uniform_at w) →
  keeps (world_ok f limit) m Q X.
Proof.
  intros Hr Hsame w Hw. destruct (Hr w Hw) as (a & Ha & HQ), (Hsame w) as (H1 & H2 & H3 & H4).
  destruct (m w) as [r w']. cbn in *. subst r. split; [|done].
  destruct Hw. constructor; [rewrite H1|rewrite H2|rewrite H3|rewrite H4]; done.
Qed.

Lemma keeps_read_clock f limit X : keeps (world_ok f limit) read_clock (λ _, True) X.
Proof. apply keeps_world; [intros w Hw; by eexists|done]. Qed.
Lemma keeps_read_wall f limit X : keeps (world_ok f limit) read_wall (λ t, 0 <= t <= limit) X.
Proof. apply keeps_world; [intros w Hw; eexists; split; [done|apply Hw]|done]. Qed.
Lemma keeps_draw_token f limit X : keeps (world_ok f limit) draw_token (λ t, f t = true) X.
Proof. apply keeps_world; [intros w Hw; eexists; split; [done|by eapply tokens_are_tokens]|done]. Qed.
Lemma keeps_draw_uniform f limit X :
  keeps (world_ok f limit) draw_uniform (λ u, (8 # 10 <= u <= 12 # 10)%Q) X.
Proof. apply keeps_world; [intros w Hw; eexists; split; [done|by eapply uniforms_in_range]|done]. Qed.
