(* ===== verification/Peer.v ===== *)
(** * network/peer.py: rate limits and one connection

    The token bucket, and the state of a connection with the steps its reader
    and its writer take.  A step of a task is what it does between two
    [await]s; the socket's answers are arguments.  The bodies a reader waits
    for are reserved with the owner, so the reader's second half is in
    [Node]. *)

From coqutil Require Import Datatypes.RecordSetters.
Import DoubleBraceUpdate.
From S2P Require Import Prelude Bytes Json NetConfig Messages Protocol Effects.
#[local] Open Scope Z_scope.

(** ** [TokenBucket] *)

Record TokenBucket := MkBucket {
  rate : Q;
  capacity : Q;
  tokens : Q;
  updated : Q
}.

Definition Qmin2 (a b : Q) : Q := if Qle_bool a b then a else b.
Definition Qmax2 (a b : Q) : Q := if Qle_bool a b then b else a.

(** [now] is what the clock reads during the call. *)
Definition token_bucket (rate capacity now : Q) : result TokenBucket :=
  _ ← raise_if (Qle_bool rate 0 || Qle_bool capacity 0) ValueError;
  Ok (MkBucket rate capacity capacity now).

Definition consume (b : TokenBucket) (amount now : Q) : result (bool * TokenBucket) :=
  _ ← raise_if (negb (Qle_bool 0 amount)) ValueError;
  let elapsed := Qmax2 0 (now - updated b) in
  let b := b {{ updated := Qmax2 (updated b) now;
                tokens := Qmin2 (capacity b) (tokens b + elapsed * rate b) }} in
  if negb (Qle_bool amount (tokens b)) then Ok (false, b)
  else Ok (true, b {{ tokens := (tokens b - amount)%Q }}).

Example consume_refills :
  (b ← token_bucket 2 3 10; r ← consume b 3 10; s ← consume r.2 2 (21 # 2); t ← consume s.2 2 11; Ok (r.1, s.1, t.1))
  = Ok (true, false, true).
Proof. vm_compute. reflexivity. Qed.

(** ** [PeerConnection] *)

Record PeerConnection := MkPeer {
  connection_id : string;
  connection_nonce : string;
  remote_nonce : option string;
  peer_node_id : option string;
  outbound : bool;
  peer_address : option Endpoint;
  established : bool;
  peer_closed : bool;
  close_reason : option string;
  unexpected_error : option exn;
  last_received : Q;
  last_sent : Q;
  outbound_queue : list bytes;
  writing : option bytes;
  outbound_frames : Z;
  outbound_bytes : Z;
  reading : option Z;
  started : bool;
  close_begun : bool;
  close_notified : bool;
  message_bucket : TokenBucket;
  byte_bucket : TokenBucket
}.

(** [writing] is the frame the writer task holds, [reading] the reservation
    the reader task holds; [close_begun] says that the close task exists. *)
Definition peer_connection (c : NodeConfig) (cid nonce : string) (out : bool) (address : option Endpoint)
    (now1 now2 now3 : Q) : result PeerConnection :=
  mb ← token_bucket (inject_Z (message_rate c)) (inject_Z (message_burst c)) now2;
  bb ← token_bucket (inject_Z (byte_rate c)) (inject_Z (byte_burst c)) now3;
  Ok (MkPeer cid nonce None None out address false false None None now1 now1 [] None 0 0 None false false false mb bb).

Definition peer_start (p : PeerConnection) : PeerConnection :=
  if peer_closed p || started p then p else p {{ started := true }}.

Definition frame_len (f : bytes) : Z := Z.of_nat (length f).

(** [_begin_close]: a second call changes nothing. *)
Definition begin_close (p : PeerConnection) : PeerConnection :=
  if close_begun p then p else p {{ peer_closed := true; established := false; close_begun := true }}.

Definition put_nowait (c : NodeConfig) (f : bytes) (p : PeerConnection) : result PeerConnection :=
  _ ← raise_if (outbound_max_frames c <=? Z.of_nat (length (outbound_queue p))) QueueFull;
  Ok (p {{ outbound_queue := outbound_queue p ++ [f] }}).

Definition peer_send (c : NodeConfig) (m : Message) : call PeerConnection bool := λ p,
  if peer_closed p then (Ok false, p)
  else
    match encode_message m (max_frame_bytes c) with
    | Raise e => (Raise e, p)
    | Ok frame =>
        if (outbound_max_frames c <=? outbound_frames p)
           || (outbound_max_bytes c <? outbound_bytes p + frame_len frame)
        then (Ok false, begin_close (p {{ close_reason := Some "outbound queue limit" }}))
        else
          match put_nowait c frame p with
          | Raise e => (Raise e, p)
          | Ok p => (Ok true, p {{ outbound_frames := outbound_frames p + 1;
                                   outbound_bytes := outbound_bytes p + frame_len frame }})
          end
    end.

(** *** The writer *)

(** [frame = await self._outbound.get()] *)
Definition writer_get (p : PeerConnection) : option PeerConnection :=
  match writing p, outbound_queue p with
  | None, f :: q => Some (p {{ writing := Some f; outbound_queue := q }})
  | _, _ => None
  end.

(** The [finally] of one frame. *)
Definition writer_release (p : PeerConnection) : PeerConnection :=
  match writing p with
  | Some f => p {{ writing := None; outbound_frames := outbound_frames p - 1;
                   outbound_bytes := outbound_bytes p - frame_len f }}
  | None => p
  end.

(** The drain succeeded, at [now]. *)
Definition writer_drained (now : Q) (p : PeerConnection) : PeerConnection := writer_release (p {{ last_sent := now }}).

Definition set_reason (r : string) (p : PeerConnection) : PeerConnection :=
  p {{ close_reason := match close_reason p with Some old => Some old | None => Some r end }}.

Definition exn_name (e : exn) : string :=
  match e with
  | ProtocolError => "ProtocolError"
  | IncompleteReadError => "IncompleteReadError"
  | OSError => "OSError"
  | TimeoutError => "TimeoutError"
  | PolicyLimitError => "PolicyLimitError"
  | _ => "ValueError"
  end.

(** Writing the frame raised: the handlers around the loop. *)
Definition writer_failed (e : exn) (p : PeerConnection) : PeerConnection :=
  let p := writer_release p in
  begin_close
    (if bool_decide (e ∈ [OSError; TimeoutError]) then set_reason (exn_name e) p
     else p {{ unexpected_error := Some e; close_reason := Some "unexpected writer error" }}).

(** *** The reader *)

(** From the prefix to the size that is to be reserved. *)
Definition read_header (c : NodeConfig) (prefix : bytes) (now1 now2 : Q) : call PeerConnection Z := λ p,
  let body_size := int_of_be prefix in
  if negb ((1 <=? body_size) && (body_size <=? max_frame_bytes c)) then (Raise ProtocolError, p)
  else
    match consume (message_bucket p) 1 now1 with
    | Raise e => (Raise e, p)
    | Ok (ok1, b) =>
        let p := p {{ message_bucket := b }} in
        if negb ok1 then (Raise ProtocolError, p)
        else
          match consume (byte_bucket p) (inject_Z (body_size + 4)) now2 with
          | Raise e => (Raise e, p)
          | Ok (ok2, b) =>
              let p := p {{ byte_bucket := b }} in
              if negb ok2 then (Raise ProtocolError, p) else (Ok (body_size + 4), p)
          end
    end.

(** The handlers around the reader's loop. *)
Definition reader_failed (e : exn) (p : PeerConnection) : PeerConnection :=
  begin_close
    (if bool_decide (e ∈ [ProtocolError; IncompleteReadError; OSError; TimeoutError])
     then set_reason (exn_name e) p
     else p {{ unexpected_error := Some e; close_reason := Some "unexpected reader error" }}).

(** *** Closing *)

(** The loop of [_cleanup] over the queue. *)
Fixpoint drop_frames (q : list bytes) (p : PeerConnection) : PeerConnection :=
  match q with
  | [] => p
  | f :: q => drop_frames q (p {{ outbound_queue := q; outbound_frames := outbound_frames p - 1;
                                  outbound_bytes := outbound_bytes p - frame_len f }})
  end.

(** [_cleanup] after the socket: both tasks are cancelled, which runs their
    [finally] clauses, and the queue is emptied.  [failed] is an error of
    [writer.close] or [wait_closed] other than [OSError]. *)
Definition cleanup (failed : option exn) (p : PeerConnection) : PeerConnection :=
  let p := match failed with
           | Some e => p {{ unexpected_error := match unexpected_error p with Some x => Some x | None => Some e end }}
           | None => p
           end in
  let p := writer_release p in
  let p := drop_frames (outbound_queue p) p in
  p {{ reading := None; close_notified := true }}.
