(* ===== verification/PeerFacts.v ===== *)
(** * Facts about network/peer.py

    A bucket never lets more through than its capacity and what time has
    refilled; the counters of a connection count the frames it holds. *)

From Stdlib Require Import Lqa.
From coqutil Require Import Datatypes.RecordSetters.
Import DoubleBraceUpdate.
From S2P Require Import Prelude Bytes Json NetConfig Messages Protocol Effects Peer ConfigFacts.
#[local] Open Scope Z_scope.

(** ** The bucket *)

Record bucket_ok (b : TokenBucket) : Prop := {
  bucket_rate : (0 < rate b)%Q;
  bucket_tokens : (0 <= tokens b <= capacity b)%Q
}.

Lemma Qmin2_spec a b : (Qmin2 a b <= a ∧ Qmin2 a b <= b ∧ (Qmin2 a b = a ∨ Qmin2 a b = b))%Q.
Proof.
  unfold Qmin2. destruct (Qle_bool a b) eqn:H; [apply Qle_bool_iff in H|apply not_true_iff_false in H; rewrite Qle_bool_iff in H].
  - split_and!; [lra|done|by left].
  - apply Qnot_le_lt in H. split_and!; [lra|lra|by right].
Qed.

Lemma Qmax2_spec a b : (a <= Qmax2 a b ∧ b <= Qmax2 a b ∧ (Qmax2 a b = a ∨ Qmax2 a b = b))%Q.
Proof.
  unfold Qmax2. destruct (Qle_bool a b) eqn:H; [apply Qle_bool_iff in H|apply not_true_iff_false in H; rewrite Qle_bool_iff in H].
  - split_and!; [done|lra|by right].
  - apply Qnot_le_lt in H. split_and!; [lra|lra|by left].
Qed.

Lemma token_bucket_ok r c now b :
  token_bucket r c now = Ok b → bucket_ok b ∧ rate b = r ∧ capacity b = c ∧ tokens b = c ∧ updated b = now.
Proof.
  intros (? & Hrc%raise_if_Ok & [= <-])%bind_Ok. apply orb_false_iff in Hrc as [Hr Hc].
  apply not_true_iff_false in Hr, Hc. rewrite Qle_bool_iff in Hr, Hc. apply Qnot_le_lt in Hr, Hc.
  split; [|done]. constructor; cbn; [done|]. lra.
Qed.

(** One call: what it takes comes out of the tokens and the refill. *)
Lemma consume_spec b amount now granted b' :
  bucket_ok b → consume b amount now = Ok (granted, b') →
  bucket_ok b' ∧ rate b' = rate b ∧ capacity b' = capacity b ∧ (updated b <= updated b')%Q ∧
  (tokens b' + (if granted then amount else 0) <= tokens b + rate b * (updated b' - updated b))%Q.
Proof.
  intros [Hr Ht] (? & Ha%raise_if_Ok & H)%bind_Ok. apply negb_false_iff, Qle_bool_iff in Ha.
  set (e := Qmax2 0 (now - updated b)) in *. set (u := Qmax2 (updated b) now) in *.
  set (t := Qmin2 (capacity b) (tokens b + e * rate b)) in *.
  assert (0 <= e)%Q as He by apply (Qmax2_spec 0 (now - updated b)).
  assert (e <= u - updated b)%Q as Heu.
  { subst e u. destruct (Qmax2_spec 0 (now - updated b)) as (_ & _ & [-> | ->]), (Qmax2_spec (updated b) now) as (? & ? & _); lra. }
  assert (t <= capacity b ∧ t <= tokens b + e * rate b ∧ 0 <= t)%Q as (Htc & Htt & Ht0).
  { subst t. destruct (Qmin2_spec (capacity b) (tokens b + e * rate b)) as (H1 & H2 & H3). split_and!; [done..|].
    assert (0 <= e * rate b)%Q by (apply Qmult_le_0_compat; lra). destruct H3 as [-> | ->]; lra. }
  assert (e * rate b <= rate b * (u - updated b))%Q as Her by (rewrite (Qmult_comm (rate b)); apply Qmult_le_compat_r; lra).
  assert (updated b <= u)%Q by apply (Qmax2_spec (updated b) now).
  change ((if negb (Qle_bool amount t) then Ok (false, MkBucket (rate b) (capacity b) t u)
           else Ok (true, MkBucket (rate b) (capacity b) (t - amount) u)) = Ok (granted, b')) in H.
  destruct (negb (Qle_bool amount t)) eqn:Hle; injection H as <- <-.
  - split_and!; [constructor; cbn; lra|done..|cbn; lra].
  - apply negb_false_iff, Qle_bool_iff in Hle. split_and!; [constructor; cbn; lra|done..|cbn; lra].
Qed.

Lemma consume_cases b amount now :
  consume b amount now = Raise ValueError ∨ ∃ g b', consume b amount now = Ok (g, b').
Proof.
  unfold consume. destruct (negb (Qle_bool 0 amount)); [by left|right]. rewrite raise_if_false. cbv zeta.
  destruct (negb _); by do 2 eexists.
Qed.

(** A run of calls: an amount and the reading of the clock for each; what was
    granted in total, and the bucket that is left. *)
Fixpoint consume_all (b : TokenBucket) (calls : list (Q * Q)) : result (Q * TokenBucket) :=
  match calls with
  | [] => Ok (0%Q, b)
  | (amount, now) :: calls =>
      r ← consume b amount now;
      s ← consume_all r.2 calls;
      Ok ((if (r.1 : bool) then amount + s.1 else s.1)%Q, s.2)
  end.

Lemma consume_all_spec calls : ∀ b total b',
  bucket_ok b → consume_all b calls = Ok (total, b') →
  bucket_ok b' ∧ rate b' = rate b ∧ capacity b' = capacity b ∧ (updated b <= updated b')%Q ∧
  (tokens b' + total <= tokens b + rate b * (updated b' - updated b))%Q.
Proof.
  induction calls as [|[amount now] calls IH]; intros b total b' Hb; cbn [consume_all].
  - intros [= <- <-]. split_and!; [done..|lra|lra].
  - intros ([g b1] & H1 & ([t b2] & H2 & [= <- <-])%bind_Ok)%bind_Ok. cbn [fst snd] in *.
    apply consume_spec in H1 as (Hb1 & Hr & Hc & Hu & Ht); [|done].
    apply IH in H2 as (Hb2 & Hr2 & Hc2 & Hu2 & Ht2); [|done]. rewrite Hr2, Hc2, Hr, Hc. rewrite Hr in Ht2.
    split_and!; [done..|lra|]. destruct g; lra.
Qed.

(** ** The connection *)

(** The frames a connection still has to write. *)
Definition held (p : PeerConnection) : list bytes := option_list (writing p) ++ outbound_queue p.

Record peer_inv (c : NodeConfig) (p : PeerConnection) : Prop := {
  peer_frames : outbound_frames p = Z.of_nat (length (held p));
  peer_bytes : outbound_bytes p = sumZ_with frame_len (held p);
  peer_max_frames : outbound_frames p <= outbound_max_frames c;
  peer_max_bytes : outbound_bytes p <= outbound_max_bytes c;
  peer_close : close_begun p = true → peer_closed p = true ∧ established p = false
}.

Lemma peer_inv_intro c q l frames total :
  held q = l → outbound_frames q = frames → outbound_bytes q = total →
  frames = Z.of_nat (length l) → total = sumZ_with frame_len l →
  frames <= outbound_max_frames c → total <= outbound_max_bytes c →
  (close_begun q = true → peer_closed q = true ∧ established q = false) → peer_inv c q.
Proof. intros <- <- <-. by constructor. Qed.

(** What [peer_inv] reads. *)
Definition same_writer (p q : PeerConnection) : Prop :=
  writing p = writing q ∧ outbound_queue p = outbound_queue q ∧
  outbound_frames p = outbound_frames q ∧ outbound_bytes p = outbound_bytes q.

Lemma peer_inv_same c p q :
  same_writer p q → (close_begun q = true → peer_closed q = true ∧ established q = false) → peer_inv c p → peer_inv c q.
Proof.
  intros (Hw & Hq & Hf & Hb) Hc []. unfold held in *. constructor; unfold held; rewrite <- ?Hw, <- ?Hq, <- ?Hf, <- ?Hb; done.
Qed.

Lemma begin_close_inv c p : peer_inv c p → peer_inv c (begin_close p).
Proof. intros Hp. unfold begin_close. destruct (close_begun p); [done|]. by apply (peer_inv_same c p). Qed.

Lemma begin_close_closed c p : peer_inv c p → peer_closed (begin_close p) = true ∧ established (begin_close p) = false.
Proof. intros Hp. unfold begin_close. destruct (close_begun p) eqn:Hc; [by apply Hp|done]. Qed.

Lemma peer_connection_inv c cid nonce out a n1 n2 n3 p :
  0 < outbound_max_frames c → 0 < outbound_max_bytes c →
  peer_connection c cid nonce out a n1 n2 n3 = Ok p →
  peer_inv c p ∧ bucket_ok (message_bucket p) ∧ bucket_ok (byte_bucket p).
Proof.
  intros Hf Hb (mb & [Hm _]%token_bucket_ok & (bb & [Hbb _]%token_bucket_ok & [= <-])%bind_Ok)%bind_Ok.
  split; [|done]. constructor; cbn; try done; lia.
Qed.

(** The outcomes of [peer_send]. *)
Inductive sent (c : NodeConfig) (m : Message) (p : PeerConnection) : result bool → PeerConnection → Prop :=
  | sent_closed : peer_closed p = true → sent c m p (Ok false) p
  | sent_raise e : peer_closed p = false → encode_message m (max_frame_bytes c) = Raise e → sent c m p (Raise e) p
  | sent_overflow frame :
      peer_closed p = false → encode_message m (max_frame_bytes c) = Ok frame →
      outbound_max_frames c <= outbound_frames p ∨ outbound_max_bytes c < outbound_bytes p + frame_len frame →
      sent c m p (Ok false) (begin_close (p {{ close_reason := Some "outbound queue limit" }}))
  | sent_queued frame :
      peer_closed p = false → encode_message m (max_frame_bytes c) = Ok frame →
      outbound_frames p + 1 <= outbound_max_frames c → outbound_bytes p + frame_len frame <= outbound_max_bytes c →
      sent c m p (Ok true) (p {{ outbound_queue := outbound_queue p ++ [frame];
                                 outbound_frames := outbound_frames p + 1;
                                 outbound_bytes := outbound_bytes p + frame_len frame }}).

Lemma send_sent c m p r p' : peer_inv c p → peer_send c m p = (r, p') → sent c m p r p'.
Proof.
  intros Hp. unfold peer_send. destruct (peer_closed p) eqn:Hc; [intros [= <- <-]; by constructor|].
  destruct (encode_message m (max_frame_bytes c)) as [frame|e] eqn:He; [|intros [= <- <-]; by constructor].
  destruct ((outbound_max_frames c <=? outbound_frames p) || _) eqn:Hlim.
  - intros [= <- <-]. apply (sent_overflow c m p frame); [done..|].
    apply orb_true_iff in Hlim as [?%Z.leb_le|?%Z.ltb_lt]; [by left|by right].
  - apply orb_false_iff in Hlim as [Hf%Z.leb_gt Hb%Z.ltb_ge]. unfold put_nowait.
    rewrite (proj2 (Z.leb_gt _ _)); [cbn; intros [= <- <-]; apply sent_queued; [done..|lia|done]|].
    pose proof (peer_frames _ _ Hp) as Hl. unfold held in Hl. rewrite length_app in Hl. lia.
Qed.

Lemma sent_inv c m p r p' : peer_inv c p → sent c m p r p' → peer_inv c p'.
Proof.
  intros Hp []; [done|done| |].
  - apply begin_close_inv. by apply (peer_inv_same c p); [|apply Hp|].
  - destruct Hp as [Hf Hb Hmf Hmb Hc].
    apply (peer_inv_intro c _ (held p ++ [frame]) (outbound_frames p + 1) (outbound_bytes p + frame_len frame)); [exact (app_assoc _ _ _)|done|done| | |done|done|exact Hc].
    + rewrite length_app. cbn. lia.
    + rewrite sumZ_with_app. cbn. lia.
Qed.

Lemma writer_release_inv c p :
  peer_inv c p → peer_inv c (writer_release p) ∧ writing (writer_release p) = None ∧
  outbound_queue (writer_release p) = outbound_queue p.
Proof.
  intros Hp. unfold writer_release. destruct (writing p) as [f|] eqn:Hw; [|by split_and!].
  destruct Hp as [Hf Hb Hmf Hmb Hc]. unfold held in *. rewrite Hw in *. cbn in Hf, Hb.
  assert (0 <= frame_len f) by (unfold frame_len; lia).
  split_and!; [|done|done]. apply (peer_inv_intro c _ (outbound_queue p) (outbound_frames p - 1) (outbound_bytes p - frame_len f)); [done..|lia|lia|lia|lia|done].
Qed.

Lemma writer_get_inv c p p' : peer_inv c p → writer_get p = Some p' → peer_inv c p' ∧ held p' = held p.
Proof.
  intros Hp. unfold writer_get. destruct (writing p) as [|] eqn:Hw; [done|].
  destruct (outbound_queue p) as [|f q] eqn:Hq; [done|]. intros [= <-].
  assert (held (p {{ writing := Some f; outbound_queue := q }}) = held p) as Hh by (unfold held; cbn; by rewrite Hw, Hq).
  split; [|done]. destruct Hp as [Hf Hb Hmf Hmb Hc]. rewrite <- Hh in Hf, Hb. by constructor.
Qed.

Lemma drop_frames_inv c q : ∀ p,
  peer_inv c p → writing p = None → outbound_queue p = q →
  peer_inv c (drop_frames q p) ∧ held (drop_frames q p) = [] ∧
  close_begun (drop_frames q p) = close_begun p.
Proof.
  induction q as [|f q IH]; intros p Hp Hw Hq; cbn [drop_frames].
  - split_and!; [done| |done]. unfold held. by rewrite Hw, Hq.
  - match goal with |- context [drop_frames q ?p'] => set (p1 := p') end.
    destruct (IH p1) as (H1 & H2 & H3); [|done|done|split_and!; [done..|by rewrite H3]].
    destruct Hp as [Hf Hb Hmf Hmb Hc]. unfold held in *. rewrite Hw, Hq in *. cbn in Hf, Hb.
    assert (0 <= frame_len f) by (unfold frame_len; lia).
    apply (peer_inv_intro c _ q (outbound_frames p - 1) (outbound_bytes p - frame_len f)); [|done|done|lia|lia|lia|lia|done]. unfold held. change (option_list (writing p) ++ q = q). by rewrite Hw.
Qed.

(** After [_cleanup] nothing is held and the counters are zero. *)
Lemma cleanup_inv c failed p :
  peer_inv c p →
  peer_inv c (cleanup failed p) ∧ outbound_frames (cleanup failed p) = 0 ∧ outbound_bytes (cleanup failed p) = 0.
Proof.
  intros Hp. unfold cleanup. cbv zeta.
  match goal with |- context [writer_release ?q] => set (p1 := q) end.
  assert (peer_inv c p1) as Hp1 by (subst p1; destruct failed; [|done]; by apply (peer_inv_same c p); [|apply Hp|]).
  destruct (writer_release_inv c p1 Hp1) as (Hp2 & Hw & _). set (p2 := writer_release p1) in *.
  destruct (drop_frames_inv c (outbound_queue p2) p2 Hp2 Hw eq_refl) as (Hp3 & Hh & _).
  set (p3 := drop_frames (outbound_queue p2) p2) in *.
  assert (peer_inv c (p3 {{ reading := None; close_notified := true }})) as Hp4 by (apply (peer_inv_same c p3); [done|apply Hp3|done]).
  split; [done|]. pose proof (peer_frames _ _ Hp3) as Hf. pose proof (peer_bytes _ _ Hp3) as Hb. rewrite Hh in Hf, Hb. done.
Qed.

Lemma writer_failed_inv c e p : peer_inv c p → peer_inv c (writer_failed e p).
Proof.
  intros Hp. destruct (writer_release_inv c p Hp) as (Hp1 & _). unfold writer_failed. cbv zeta.
  apply begin_close_inv. case_bool_decide; by apply (peer_inv_same c (writer_release p)); [|apply Hp1|].
Qed.

Lemma reader_failed_inv c e p : peer_inv c p → peer_inv c (reader_failed e p).
Proof.
  intros Hp. unfold reader_failed. apply begin_close_inv.
  case_bool_decide; by apply (peer_inv_same c p); [|apply Hp|].
Qed.

Lemma read_header_inv c prefix n1 n2 p r p' :
  peer_inv c p → read_header c prefix n1 n2 p = (r, p') →
  peer_inv c p' ∧ same_writer p p' ∧ reading p' = reading p ∧ peer_closed p' = peer_closed p ∧ close_begun p' = close_begun p ∧
  match r with Ok n => n = int_of_be prefix + 4 ∧ 1 <= int_of_be prefix <= max_frame_bytes c | Raise e => e = ProtocolError ∨ e = ValueError end.
Proof.
  intros Hp. unfold read_header. cbv zeta.
  assert (∀ q, same_writer p q → peer_closed q = peer_closed p → established q = established p → close_begun q = close_begun p → peer_inv c q) as Hq.
  { intros q Hs H1 H2 H3. apply (peer_inv_same c p); [done| |done]. rewrite H1, H2, H3. apply Hp. }
  destruct (negb _) eqn:Hsize; [intros [= <- <-]; split_and!; try done; by left|].
  apply negb_false_iff, andb_true_iff in Hsize as [?%Z.leb_le ?%Z.leb_le].
  destruct (consume_cases (message_bucket p) 1 n1) as [->|(g & b & ->)]; [intros [= <- <-]; split_and!; try done; by right|].
  destruct g; cbn [negb]; [|intros [= <- <-]; split_and!; try done; [by apply Hq|by left]].
  match goal with |- context [consume ?x ?y ?z] => destruct (consume_cases x y z) as [->|(g & b' & ->)] end;
    [intros [= <- <-]; split_and!; try done; [by apply Hq|by right]|].
  destruct g; cbn [negb]; intros [= <- <-]; split_and!; try done; try (by apply Hq); by left.
Qed.
