(* ===== verification/PeerManager.v ===== *)
(** * network/peer_manager.py: discovery candidates

    Every method of [PeerManager].  The manager reads the clock and a random
    generator, so its state comes with the [World]. *)

From coqutil Require Import Datatypes.RecordSetters.
Import DoubleBraceUpdate.
From S2P Require Import Prelude Bytes NetConfig Effects Peer.
#[local] Open Scope Z_scope.

(** [next_attempt = None] is [float("inf")]. *)
Record Candidate := MkCandidate {
  candidate_endpoint : Endpoint;
  seed : bool;
  seen_at : Q;
  next_attempt : option Q;
  attempts : Z;
  cycle_started : option Q;
  dialing : bool;
  connected : bool;
  verified : bool
}.

Record PeerManager := MkManager {
  manager_config : NodeConfig;
  candidates_of : list (Endpoint * Candidate);
  self_endpoint : option Endpoint
}.

Definition MAX_ATTEMPTS : Z := 3.
Definition COOLDOWN : Q := 300.

Definition manager_call (A : Type) : Type := call (PeerManager * World) A.

Definition manager_clock : manager_call Q := zoom snd (λ w s, (s.1, w)) read_clock.
Definition manager_uniform : manager_call Q := zoom snd (λ w s, (s.1, w)) draw_uniform.
Definition with_manager (f : PeerManager → PeerManager) : manager_call unit := modify (λ s, (f s.1, s.2)).

(** [self._entries[endpoint]] when it is there. *)
Definition entry_of (e : Endpoint) : manager_call (option Candidate) := gets (λ s, dict_get (candidates_of s.1) e).
Definition set_entry (e : Endpoint) (x : Candidate) : manager_call unit :=
  with_manager (λ m, m {{ candidates_of := dict_set (candidates_of m) e x }}).
Definition del_entry (e : Endpoint) : manager_call unit :=
  with_manager (λ m, m {{ candidates_of := dict_del (candidates_of m) e }}).

Definition manager_validate (e : Endpoint) : manager_call Endpoint := λ s,
  (config_validate_endpoint (manager_config s.1) e, s).

(** A comparison with [float("inf")] on the left. *)
Definition due (at_ : option Q) (now : Q) : bool := match at_ with Some t => Qle_bool t now | None => false end.

(** [max(next_attempt, t)] *)
Definition later (at_ : option Q) (t : Q) : option Q := (λ x, Qmax2 x t) <$> at_.

Definition expired_hint (c : NodeConfig) (now : Q) (x : Candidate) : bool :=
  negb (seed x) && negb (connected x) && negb (dialing x) && Qle_bool (candidate_ttl c) (now - seen_at x).

Definition expire : manager_call unit :=
  now ← manager_clock;
  with_manager (λ m, m {{ candidates_of :=
    filter (λ p, expired_hint (manager_config m) now p.2 = false) (candidates_of m) }}).

Definition set_self_endpoint (e : Endpoint) : manager_call unit :=
  e ← manager_validate e;
  _ ← with_manager (λ m, m {{ self_endpoint := Some e }});
  del_entry e.

Definition candidates : manager_call (list Endpoint) :=
  _ ← expire; gets (λ s, dict_keys (candidates_of s.1)).

Definition known_endpoints : manager_call (list Endpoint) :=
  _ ← expire;
  gets (λ s, map (λ p, candidate_endpoint p.2) (filter (λ p, verified p.2 = true) (candidates_of s.1))).

(** [min(removable, key=seen_at)]: the first of the oldest. *)
Definition oldest (x : Endpoint * Candidate) (l : list (Endpoint * Candidate)) : Endpoint * Candidate :=
  foldl (λ best y, if Qle_bool (seen_at best.2) (seen_at y.2) then best else y) x l.

Definition removable (x : Candidate) : bool := negb (seed x) && negb (connected x) && negb (dialing x).

Definition add_candidate (e : Endpoint) (is_seed : bool) : manager_call bool :=
  e ← manager_validate e;
  self ← gets (λ s, self_endpoint s.1);
  if bool_decide (Some e = self) then mret false
  else
    _ ← expire;
    now ← manager_clock;
    entry ← entry_of e;
    match entry with
    | Some x =>
        _ ← set_entry e (x {{ seen_at := now; seed := seed x || is_seed }});
        mret false
    | None =>
        m ← gets fst;
        let fresh := MkCandidate e is_seed now (Some now) 0 None false false false in
        if max_candidates (manager_config m) <=? Z.of_nat (length (candidates_of m)) then
          match filter (λ p, removable p.2 = true) (candidates_of m) with
          | [] => mret false
          | x :: l =>
              if negb is_seed then mret false
              else
                _ ← del_entry (candidate_endpoint (oldest x l).2);
                _ ← set_entry e fresh;
                mret true
          end
        else
          _ ← set_entry e fresh;
          mret true
    end.

(** The two [continue] guards of [due_candidates]. *)
Definition may_dial (now : Q) (x : Candidate) : bool :=
  negb (connected x || dialing x || negb (due (next_attempt x) now))
  && negb (negb (seed x) && (MAX_ATTEMPTS <=? attempts x)
           && match cycle_started x with Some t => negb (Qle_bool (t + COOLDOWN) now) | None => false end).

(** The sort key [(not seed, next_attempt, endpoint)]. *)
Definition dial_le (p q : Endpoint * Candidate) : Prop :=
  let x := p.2 in let y := q.2 in
  if eqb (seed x) (seed y) then
    match next_attempt x, next_attempt y with
    | Some a, Some b =>
        (a < b)%Q ∨ (a == b)%Q ∧
          (p.1.1 ≠ q.1.1 ∧ String.le p.1.1 q.1.1 ∨ p.1.1 = q.1.1 ∧ p.1.2 <= q.1.2)
    | None, _ => False
    | _, None => True
    end
  else seed x = true.

#[export] Instance dial_le_dec : RelDecision dial_le.
Proof.
  intros p q. unfold dial_le. cbv zeta. destruct (eqb _ _); [|apply _].
  destruct (next_attempt p.2) as [a|], (next_attempt q.2) as [b|]; try apply _.
  assert (Decision (a < b)%Q) by (destruct (Qlt_le_dec a b); [by left|right; by apply Qle_not_lt]).
  assert (Decision (a == b)%Q) by apply Qeq_dec.
  apply _.
Defined.

Definition due_candidates (limit : option Z) : manager_call (list Endpoint) :=
  _ ← expire;
  now ← manager_clock;
  m ← gets fst;
  let endpoints := map (λ p, candidate_endpoint p.2)
                     (merge_sort dial_le (filter (λ p, may_dial now p.2 = true) (candidates_of m))) in
  mret match limit with
       | None => endpoints
       | Some n => take (Z.to_nat (Z.max 0 n)) endpoints
       end.

Definition backoff (x : Candidate) : manager_call Q :=
  m ← gets fst;
  let c := manager_config m in
  let exponent := Z.min (Z.max 0 (attempts x - 1)) 32 in
  let nominal := Qmin2 (reconnect_max c) (reconnect_initial c * inject_Z (2 ^ exponent)) in
  u ← manager_uniform;
  mret (Qmin2 (reconnect_max c) (nominal * u)).

(** Adding an unknown endpoint first, as [mark_attempt] and [mark_connected] do. *)
Definition entry_or_add (e : Endpoint) : manager_call (option Candidate) :=
  entry ← entry_of e;
  match entry with
  | Some x => mret (Some x)
  | None =>
      added ← add_candidate e false;
      if negb added then mret None
      else
        entry ← entry_of e;
        match entry with Some x => mret (Some x) | None => raise KeyError end
  end.

Definition cycle_over (x : Candidate) (now : Q) : bool :=
  match cycle_started x with None => true | Some t => Qle_bool (t + COOLDOWN) now end.

Definition mark_attempt (e : Endpoint) : manager_call bool :=
  e ← manager_validate e;
  _ ← expire;
  entry ← entry_or_add e;
  match entry with
  | None => mret false
  | Some x =>
      now ← manager_clock;
      if connected x || dialing x || negb (due (next_attempt x) now) then mret false
      else
        let x := if cycle_over x now
                 then x {{ attempts := if seed x then attempts x else 0; cycle_started := Some now }} else x in
        _ ← set_entry e x;
        if negb (seed x) && (MAX_ATTEMPTS <=? attempts x) then mret false
        else
          let x := x {{ attempts := Z.min (attempts x + 1) (2 ^ 31 - 1); dialing := true }} in
          _ ← set_entry e x;
          b ← backoff x;
          let x := x {{ next_attempt := Some (now + b)%Q }} in
          let x := if negb (seed x) && (MAX_ATTEMPTS <=? attempts x)
                   then match cycle_started x with
                        | Some t => x {{ next_attempt := later (next_attempt x) (t + COOLDOWN) }}
                        | None => x
                        end
                   else x in
          _ ← set_entry e x;
          mret true
  end.

Definition mark_connected (e : Endpoint) : manager_call bool :=
  e ← manager_validate e;
  self ← gets (λ s, self_endpoint s.1);
  if bool_decide (Some e = self) then mret false
  else
    entry ← entry_or_add e;
    match entry with
    | None => mret false
    | Some x =>
        now ← manager_clock;
        _ ← set_entry e (x {{ connected := true; dialing := false; verified := true; seen_at := now;
                              attempts := 0; cycle_started := None; next_attempt := None }});
        mret true
    end.

Definition mark_disconnected (e : Endpoint) : manager_call unit :=
  e ← manager_validate e;
  entry ← entry_of e;
  match entry with
  | None => mret tt
  | Some x =>
      let was_connected := connected x in
      let x := x {{ connected := false; dialing := false }} in
      now ← manager_clock;
      b ← backoff x;
      set_entry e (if (was_connected : bool)
                   then x {{ seen_at := now; next_attempt := Some (now + b)%Q }}
                   else x {{ next_attempt := later (next_attempt x) (now + b) }})
  end.

(** [PeerManager(config)]: the seeds are the first candidates. *)
Definition new_manager (c : NodeConfig) : PeerManager := MkManager c [] None.
Definition add_seeds (seeds : list Endpoint) : manager_call unit :=
  for_each seeds (λ e, _ ← add_candidate e true; mret tt).
Definition peer_manager (c : NodeConfig) (w : World) : result unit * (PeerManager * World) :=
  add_seeds (seeds c) (new_manager c, w).
