(* ===== verification/PeerManagerFacts.v ===== *)
(** * Facts about network/peer_manager.py

    The invariant of the candidates, and that every method keeps it. *)

From Stdlib Require Import Lqa.
From coqutil Require Import Datatypes.RecordSetters.
Import DoubleBraceUpdate.
From S2P Require Import Prelude Bytes NetConfig Messages Effects ConfigFacts Peer PeerFacts PeerManager.
#[local] Open Scope Z_scope.

Lemma dict_set_length {K V} `{EqDecision K} (d : list (K * V)) k v :
  length (dict_set d k v) = if bool_decide (k ∈ dict_keys d) then length d else S (length d).
Proof.
  pose proof (f_equal length (dict_keys_set d k v)) as H. unfold dict_keys in *. rewrite length_fmap in H. rewrite H.
  case_bool_decide; [by rewrite length_fmap|]. rewrite length_app, length_fmap. cbn. lia.
Qed.

(** ** The invariant *)

Record candidate_ok (c : NodeConfig) (e : Endpoint) (x : Candidate) : Prop := {
  cand_key : candidate_endpoint x = e;
  cand_valid : config_validate_endpoint c e = Ok e;
  cand_attempts : 0 <= attempts x <= 2 ^ 31 - 1;
  cand_bounded : seed x = false → attempts x <= MAX_ATTEMPTS;
  cand_finite : connected x = false → next_attempt x ≠ None;
  cand_connected : connected x = true → verified x = true ∧ dialing x = false
}.

Record manager_inv (c : NodeConfig) (m : PeerManager) : Prop := {
  manager_same : manager_config m = c;
  manager_keys : NoDup (dict_keys (candidates_of m));
  manager_count : Z.of_nat (length (candidates_of m)) <= max_candidates c;
  manager_self : ∀ e, self_endpoint m = Some e → e ∉ dict_keys (candidates_of m);
  manager_cands : Forall (λ p, candidate_ok c p.1 p.2) (candidates_of m)
}.

Definition managed (c : NodeConfig) (limit : Z) (s : PeerManager * World) : Prop :=
  manager_inv c s.1 ∧ world_ok is_token limit s.2.

Lemma manager_get c m e x : manager_inv c m → dict_get (candidates_of m) e = Some x → candidate_ok c e x.
Proof.
  intros Hm Hx%dict_get_elem. pose proof (manager_cands _ _ Hm) as Hc. rewrite Forall_forall in Hc.
  apply (Hc _ Hx).
Qed.

(** Removing entries keeps the invariant. *)
Lemma manager_filter c m (P : Endpoint * Candidate → Prop) `{∀ p, Decision (P p)} :
  manager_inv c m → manager_inv c (m {{ candidates_of := filter P (candidates_of m) }}).
Proof.
  intros [Hs Hk Hn Hself Hc].
  assert (sublist (filter P (candidates_of m)) (candidates_of m)) as Hsub by apply sublist_filter.
  constructor; [exact Hs| | | |].
  - change (NoDup (dict_keys (filter P (candidates_of m)))). unfold dict_keys. eapply sublist_NoDup; [exact Hk|].
    by apply fmap_sublist.
  - change (Z.of_nat (length (filter P (candidates_of m))) <= max_candidates c). apply sublist_length in Hsub. lia.
  - intros e He. change (e ∉ dict_keys (filter P (candidates_of m))). intros Hin. apply (Hself e He).
    unfold dict_keys in *. apply list_elem_of_fmap in Hin as (p & -> & Hp). apply list_elem_of_fmap. exists p.
    split; [done|]. by apply list_elem_of_filter in Hp as [_ ?].
  - change (Forall (λ p, candidate_ok c p.1 p.2) (filter P (candidates_of m))). apply Forall_forall. intros p [_ Hp]%list_elem_of_filter. rewrite Forall_forall in Hc. by apply Hc.
Qed.

(** Setting an entry keeps it, when there is room and the entry is well formed. *)
Lemma manager_set c m e x :
  manager_inv c m → candidate_ok c e x → self_endpoint m ≠ Some e →
  (e ∈ dict_keys (candidates_of m) ∨ Z.of_nat (length (candidates_of m)) < max_candidates c) →
  manager_inv c (m {{ candidates_of := dict_set (candidates_of m) e x }}).
Proof.
  intros [Hs Hk Hn Hself Hc] Hx Hne Hroom. constructor; [exact Hs| | | |].
  - by apply (dict_set_NoDup (candidates_of m)).
  - change (Z.of_nat (length (dict_set (candidates_of m) e x)) <= max_candidates c).
    rewrite dict_set_length. case_bool_decide; [done|]. destruct Hroom; [done|lia].
  - intros e' He'. change (self_endpoint m = Some e') in He'. change (e' ∉ dict_keys (dict_set (candidates_of m) e x)). rewrite dict_keys_set.
    case_bool_decide; [by apply Hself|]. rewrite not_elem_of_app, list_elem_of_singleton.
    split; [by apply Hself|]. intros ->. done.
  - by apply (dict_set_Forall _ (candidates_of m)).
Qed.

(** An entry that is there may be replaced. *)
Lemma manager_update c m e x y :
  manager_inv c m → dict_get (candidates_of m) e = Some x → candidate_ok c e y →
  manager_inv c (m {{ candidates_of := dict_set (candidates_of m) e y }}).
Proof.
  intros Hm Hx Hy. assert (e ∈ dict_keys (candidates_of m)) as Hin.
  { destruct (decide (e ∈ dict_keys (candidates_of m))) as [|Hn]; [done|]. apply dict_get_None in Hn. congruence. }
  apply manager_set; [done..| |by left]. intros He. by apply (manager_self _ _ Hm) in He.
Qed.

(** ** Rules for the steps of the methods *)

Section rules.
Context (c : NodeConfig) (limit : Z).

(** Between two steps the manager is well formed and satisfies [R]. *)
Definition pre (R : PeerManager → Prop) (s : PeerManager * World) : Prop := managed c limit s ∧ R s.1.
Definition fails (e : exn) (s : PeerManager * World) : Prop := managed c limit s ∧ e = ValueError.

Lemma hoare_clock R : hoare (pre R) manager_clock (λ _, pre R) fails.
Proof.
  intros [m w] [[Hm Hw] HR]. split; [|done]. split; [done|].
  by pose proof (keeps_read_clock is_token limit (λ _, False) w Hw) as [? _].
Qed.

Lemma hoare_uniform R : hoare (pre R) manager_uniform (λ u, pre (λ m, R m ∧ (8 # 10 <= u <= 12 # 10)%Q)) fails.
Proof.
  intros [m w] [[Hm Hw] HR].
  pose proof (keeps_draw_uniform is_token limit (λ _, False) w Hw) as [? ?]. split; [|done]. split; done.
Qed.

Lemma hoare_validate e R :
  hoare (pre R) (manager_validate e) (λ v, pre (λ m, R m ∧ v = e ∧ config_validate_endpoint c e = Ok e)) fails.
Proof.
  intros s [Hs HR]. unfold manager_validate. rewrite (manager_same _ _ (proj1 Hs)).
  destruct (config_validate_endpoint c e) as [v|x] eqn:Hv.
  - pose proof Hv as Hv'. apply validate_endpoint_Ok in Hv' as (-> & _).
    rewrite <- surjective_pairing in *. split; [done|]. done.
  - split; [done|]. by apply validate_endpoint_Raise in Hv.
Qed.

Lemma hoare_gets {A} (f : PeerManager * World → A) R (Q : A → PeerManager → Prop) :
  (∀ s, pre R s → Q (f s) s.1) → hoare (pre R) (gets f) (λ a, pre (λ m, R m ∧ Q a m)) fails.
Proof. intros HQ s Hs. split; [apply Hs|]. split; [apply Hs|by apply HQ]. Qed.

Lemma hoare_with f R :
  (∀ m, manager_inv c m → R m → manager_inv c (f m)) →
  hoare (pre R) (with_manager f) (λ _, pre (λ m, ∃ m0, R m0 ∧ manager_inv c m0 ∧ m = f m0)) fails.
Proof. intros Hf [m w] [[Hm Hw] HR]. split; [split; [by apply Hf|done]|]. by exists m. Qed.

Lemma hoare_expire R :
  (∀ m l, R m → R (m {{ candidates_of := l }})) → hoare (pre R) expire (λ _, pre R) fails.
Proof.
  intros HR. unfold expire. eapply hoare_bind; [apply hoare_clock|]. intros now.
  eapply hoare_post; [apply hoare_with|].
  - intros m Hm _. by apply manager_filter.
  - intros ? s [Hs (m0 & Hm0 & _ & Heq)]. split; [done|]. rewrite Heq. by apply HR.
Qed.

(** The endpoint has an entry. *)
Definition present (e : Endpoint) (m : PeerManager) : Prop := dict_get (candidates_of m) e ≠ None.

Lemma present_keys e m : present e m ↔ e ∈ dict_keys (candidates_of m).
Proof.
  unfold present. rewrite dict_get_None. split; [|tauto].
  intros H. destruct (decide (e ∈ dict_keys (candidates_of m))); [done|]. by destruct H.
Qed.

Lemma hoare_entry e R :
  hoare (pre R) (entry_of e)
    (λ o, pre (λ m, R m ∧ match o with Some x => candidate_ok c e x ∧ present e m | None => ¬ present e m end)) fails.
Proof.
  apply hoare_gets. intros s [[Hm _] _]. unfold present. destruct (dict_get _ e) as [x|] eqn:Hx; [|tauto].
  split; [by eapply manager_get|done].
Qed.

Lemma hoare_set e x R :
  candidate_ok c e x →
  (∀ m, manager_inv c m → R m →
     self_endpoint m ≠ Some e ∧ (present e m ∨ Z.of_nat (length (candidates_of m)) < max_candidates c)) →
  hoare (pre R) (set_entry e x) (λ _, pre (present e)) fails.
Proof.
  intros Hx HR. eapply hoare_post; [apply hoare_with|].
  - intros m Hm Hr. destruct (HR m Hm Hr) as [Hself Hroom]. apply manager_set; [done..|].
    destruct Hroom as [Hin%present_keys|Hlt]; [by left|by right].
  - intros ? s [Hs (m0 & _ & _ & Heq)]. split; [done|]. rewrite Heq. apply present_keys.
    change (e ∈ dict_keys (dict_set (candidates_of m0) e x)). rewrite dict_keys_set.
    case_bool_decide; [done|]. apply elem_of_app. right. by apply list_elem_of_singleton.
Qed.

Lemma hoare_update e x : candidate_ok c e x → hoare (pre (present e)) (set_entry e x) (λ _, pre (present e)) fails.
Proof.
  intros Hx. apply hoare_set; [done|]. intros m Hm Hp. split; [|by left].
  intros Hs. apply (manager_self _ _ Hm) in Hs. by apply present_keys in Hp.
Qed.

Definition any (m : PeerManager) : Prop := True.

Lemma manager_weak {A} (m : manager_call A) P Q :
  hoare P m (λ a, pre (Q a)) fails → hoare P m (λ _, pre any) fails.
Proof. intros Hm. eapply hoare_post; [exact Hm|]. by intros a s [? _]. Qed.

Lemma hoare_any_ret {A} (a : A) R : hoare (pre R) (mret a) (λ _, pre any) fails.
Proof. apply hoare_ret. by intros s [? _]. Qed.

(** ** The methods *)

Lemma set_self_endpoint_keeps e : hoare (pre any) (set_self_endpoint e) (λ _, pre any) fails.
Proof.
  unfold set_self_endpoint. eapply hoare_bind; [apply hoare_validate|]. intros v s [[Hm Hw] _].
  split; [|done]. split; [|done]. cbn.
  destruct Hm as [Hs Hk Hn Hself Hc].
  assert (manager_inv c (s.1 {{ self_endpoint := None }})) as Hm' by (by constructor).
  apply (manager_filter c _ (λ p, p.1 ≠ v)) in Hm' as [Hs' Hk' Hn' _ Hc']. constructor; try done.
  intros e' [= <-]. change (v ∉ dict_keys (dict_del (candidates_of s.1) v)). rewrite dict_del_keys.
  rewrite list_elem_of_filter. tauto.
Qed.

Lemma known_endpoints_keeps :
  hoare (pre any) known_endpoints
    (λ l, pre (λ m, ∀ e, e ∈ l → ∃ x, (e, x) ∈ candidates_of m ∧ verified x = true ∧ candidate_ok c e x)) fails.
Proof.
  unfold known_endpoints. eapply hoare_bind; [by apply hoare_expire|]. intros _ s [[Hm Hw] _].
  split; [done|]. intros e (p & -> & [Hp Hin]%list_elem_of_filter)%list_elem_of_fmap.
  pose proof (manager_cands _ _ Hm) as Hc. rewrite Forall_forall in Hc. pose proof (Hc p Hin) as Hok.
  rewrite (cand_key _ _ _ Hok). exists p.2. by rewrite <- surjective_pairing.
Qed.

Lemma candidates_keeps : hoare (pre any) candidates (λ _, pre any) fails.
Proof.
  unfold candidates. eapply hoare_bind; [by apply hoare_expire|]. intros _ s [Hs _]. done.
Qed.

Lemma fresh_candidate_ok e b now :
  config_validate_endpoint c e = Ok e →
  candidate_ok c e (MkCandidate e b now (Some now) 0 None false false false).
Proof. intros Hv. constructor; cbn; try done. Qed.

Lemma oldest_elem x l : oldest x l ∈ x :: l.
Proof.
  unfold oldest. revert x. induction l as [|y l IH]; intros x; cbn [foldl]; [apply list_elem_of_here|].
  specialize (IH (if Qle_bool (seen_at x.2) (seen_at y.2) then x else y)).
  apply elem_of_cons in IH as [IH|IH]; rewrite !elem_of_cons; [|by right; right].
  rewrite IH. destruct (Qle_bool _ _); [by left|by right; left].
Qed.

(** A fact that does not depend on the state. *)
Lemma manager_pure {A} (P : Prop) R (m : manager_call A) Q :
  (P → hoare (pre R) m Q fails) → hoare (pre (λ m, R m ∧ P)) m Q fails.
Proof. intros Hm s [Hs [HR HP]]. by apply Hm. Qed.

Lemma add_candidate_keeps e b :
  hoare (pre any) (add_candidate e b) (λ r, pre (λ m, r = true → present e m)) fails.
Proof.
  unfold add_candidate. eapply hoare_bind; [apply hoare_validate|]. intros v.
  apply manager_pure. intros [-> Hval].
  eapply hoare_bind; [apply (hoare_gets _ _ (λ self m, self_endpoint m = self)); done|]. intros self. cbn beta.
  apply hoare_pre with (pre (λ m, self_endpoint m = self)); [|by intros s [? [_ ?]]].
  case_bool_decide as Hself; [apply hoare_ret; by intros s [? _]|].
  eapply hoare_bind; [by apply hoare_expire|]. intros ?.
  eapply hoare_bind; [apply hoare_clock|]. intros now.
  eapply hoare_bind; [apply hoare_entry|]. intros [x|]; cbn beta iota.
  - apply hoare_pre with (pre (λ m, present e m ∧ candidate_ok c e x)); [|by intros s [? [_ [? ?]]]].
    apply manager_pure. intros Hx. eapply hoare_bind; [apply hoare_update|].
    + destruct Hx as [H1 H2 H3 H4 H5 H6]. constructor; try done.
      change (seed x || b = false → attempts x <= MAX_ATTEMPTS). intros [Hs _]%orb_false_iff. auto.
    + intros ?. apply hoare_ret. by intros s [? _].
  - eapply hoare_bind; [apply (hoare_gets _ _ (λ m0 m, m0 = m)); done|]. intros m0. cbn beta zeta.
    set (fresh := MkCandidate e b now (Some now) 0 None false false false).
    assert (candidate_ok c e fresh) as Hfresh by by apply fresh_candidate_ok.
    assert (∀ R : PeerManager → Prop, (∀ m, manager_inv c m → R m → self_endpoint m ≠ Some e ∧
       (present e m ∨ Z.of_nat (length (candidates_of m)) < max_candidates c)) →
       hoare (pre R) (_ ← set_entry e fresh; mret true) (λ r, pre (λ m, r = true → present e m)) fails) as Hset.
    { intros R HR. eapply hoare_bind; [by apply hoare_set|]. intros ?. apply hoare_ret. by intros s [? ?]. }
    destruct (max_candidates (manager_config m0) <=? _) eqn:Hfull.
    + destruct (filter _ (candidates_of m0)) as [|x l] eqn:Hrem; [apply hoare_ret; by intros s [? _]|].
      destruct (negb b); [apply hoare_ret; by intros s [? _]|].
      assert (oldest x l ∈ candidates_of m0) as Hold.
      { pose proof (oldest_elem x l) as H. rewrite <- Hrem in H. by apply list_elem_of_filter in H as [_ ?]. }
      eapply hoare_bind.
      * apply hoare_with. intros m Hm _. by apply (manager_filter c m (λ p, p.1 ≠ candidate_endpoint (oldest x l).2)).
      * intros ?. apply Hset. intros m Hm (m1 & ((Hse & Hne) & <-) & Hm1 & ->).
        split; [change (self_endpoint m0 ≠ Some e); by rewrite Hse|]. right.
        change (Z.of_nat (length (dict_del (candidates_of m0) (candidate_endpoint (oldest x l).2))) < max_candidates c).
        pose proof (manager_count _ _ Hm1) as Hcount.
        enough (length (dict_del (candidates_of m0) (candidate_endpoint (oldest x l).2)) < length (candidates_of m0))%nat by lia.
        apply length_filter_lt with (oldest x l); [done|].
        pose proof (manager_cands _ _ Hm1) as Hc. rewrite Forall_forall in Hc. rewrite (cand_key _ _ _ (Hc _ Hold)). tauto.
    + apply Hset. intros m Hm ((Hse & _) & <-). split; [by rewrite Hse|]. right.
      rewrite (manager_same _ _ Hm) in Hfull. by apply Z.leb_gt in Hfull.
Qed.

Lemma entry_or_add_keeps e :
  hoare (pre any) (entry_or_add e)
    (λ o, pre (λ m, match o with Some x => candidate_ok c e x ∧ present e m | None => True end)) fails.
Proof.
  unfold entry_or_add. eapply hoare_bind; [apply hoare_entry|]. intros [x|]; cbn beta iota.
  - apply hoare_ret. by intros s [? [_ ?]].
  - apply hoare_pre with (pre any); [|by intros s [? _]].
    eapply hoare_bind; [apply add_candidate_keeps|]. intros [|]; cbn [negb].
    + eapply hoare_bind; [apply hoare_entry|]. intros [x|]; cbn beta iota.
      * apply hoare_ret. by intros s [? [_ ?]].
      * intros s [_ [Hp Hn]]. destruct Hn. by apply Hp.
    + apply hoare_ret. by intros s [? _].
Qed.

(** The delay before the next attempt. *)
Definition delay_ok (b : Q) : Prop := ((8 # 10) * reconnect_initial c <= b <= reconnect_max c)%Q.

Context (Hinitial : (0 < reconnect_initial c <= reconnect_max c)%Q).

Lemma backoff_keeps x R : hoare (pre R) (backoff x) (λ b, pre (λ m, R m ∧ delay_ok b)) fails.
Proof.
  unfold backoff. eapply hoare_bind; [apply (hoare_gets _ _ (λ m0 m, m0 = m)); done|]. intros m0. cbn beta zeta.
  eapply hoare_bind; [apply hoare_uniform|]. intros u. cbn beta. apply hoare_ret. intros s [Hs [[HR Hm0] Hu]].
  split; [done|]. split; [done|].
  assert (manager_config m0 = c) as -> by (rewrite Hm0; apply Hs).
  unfold delay_ok.
  set (k := 2 ^ Z.min (Z.max 0 (attempts x - 1)) 32).
  assert (1 <= k) as Hk by (unfold k; apply (Z.pow_le_mono_r 2 0); lia).
  assert (1 <= inject_Z k)%Q as Hk' by (change 1%Q with (inject_Z 1); by rewrite <- Zle_Qle).
  assert (reconnect_initial c <= reconnect_initial c * inject_Z k)%Q as Hi.
  { rewrite <- (Qmult_1_r (reconnect_initial c)) at 1. rewrite !(Qmult_comm (reconnect_initial c)).
    apply Qmult_le_compat_r; lra. }
  destruct (Qmin2_spec (reconnect_max c) (reconnect_initial c * inject_Z k)) as (Hn1 & Hn2 & Hn3).
  set (nominal := Qmin2 (reconnect_max c) (reconnect_initial c * inject_Z k)) in *.
  assert (reconnect_initial c <= nominal)%Q as Hn by (destruct Hn3 as [-> | ->]; lra).
  assert ((8 # 10) * nominal <= nominal * u)%Q as Hnu.
  { rewrite (Qmult_comm nominal). apply Qmult_le_compat_r; lra. }
  destruct (Qmin2_spec (reconnect_max c) (nominal * u)) as (H1 & H2 & H3). clearbody nominal.
  destruct H3 as [H3|H3]; rewrite H3 in *; lra.
Qed.

Lemma due_candidates_keeps n :
  hoare (pre any) (due_candidates n)
    (λ l, pre (λ m, ∀ e, e ∈ l → ∃ x now, (e, x) ∈ candidates_of m ∧ candidate_ok c e x ∧ may_dial now x = true)) fails.
Proof.
  unfold due_candidates. eapply hoare_bind; [by apply hoare_expire|]. intros ?; cbn beta.
  eapply hoare_bind; [apply hoare_clock|]. intros now; cbn beta.
  eapply hoare_bind; [apply (hoare_gets _ _ (λ m0 m, m0 = m)); done|]. intros m0. cbn beta zeta.
  apply hoare_ret. intros s [Hs [_ ->]]. split; [done|]. intros e He.
  assert (e ∈ map (λ p, candidate_endpoint p.2)
     (merge_sort dial_le (filter (λ p, may_dial now p.2 = true) (candidates_of s.1)))) as Hin.
  { destruct n; [|done]. apply elem_of_take in He as (i & He & _). by apply list_elem_of_lookup_2 in He. }
  apply list_elem_of_fmap in Hin as (p & -> & Hp). rewrite merge_sort_Permutation in Hp.
  apply list_elem_of_filter in Hp as [Hdue Hp]. pose proof (manager_cands _ _ (proj1 Hs)) as Hc.
  rewrite Forall_forall in Hc. pose proof (Hc p Hp) as Hok. rewrite (cand_key _ _ _ Hok).
  exists p.2, now. by rewrite <- surjective_pairing.
Qed.

Lemma mark_attempt_keeps e : hoare (pre any) (mark_attempt e) (λ _, pre any) fails.
Proof.
  unfold mark_attempt. eapply hoare_bind; [apply hoare_validate|]. intros v. apply manager_pure. intros [-> Hval].
  eapply hoare_bind; [by apply hoare_expire|]. intros ?; cbn beta.
  eapply hoare_bind; [apply entry_or_add_keeps|]. intros [x|]; cbn beta iota; [|apply hoare_any_ret].
  apply hoare_pre with (pre (λ m, present e m ∧ candidate_ok c e x)); [|by intros s [? [? ?]]].
  apply manager_pure. intros Hx. eapply hoare_bind; [apply hoare_clock|]. intros now; cbn beta.
  destruct (connected x || _ || _) eqn:Hbusy; [apply hoare_any_ret|]. cbv zeta.
  apply orb_false_iff in Hbusy as [[Hconn Hdial]%orb_false_iff Hdue%negb_false_iff].
  set (y := if cycle_over x now then _ else x).
  assert (candidate_ok c e y ∧ connected y = false ∧ seed y = seed x) as (Hy & Hyc & Hys).
  { unfold y. destruct (cycle_over x now); [|done]. destruct Hx as [H1 H2 H3 H4 H5 H6]. split; [|done].
    constructor; try done.
    - change (0 <= (if seed x then attempts x else 0) <= 2 ^ 31 - 1). destruct (seed x); [done|lia].
    - change (seed x = false → (if seed x then attempts x else 0) <= MAX_ATTEMPTS). intros ->. done. }
  eapply hoare_bind; [by apply hoare_update|]. intros ?; cbn beta.
  destruct (negb (seed y) && _) eqn:Hmax; [apply hoare_any_ret|].
  set (z := y {{ attempts := _; dialing := _ }}).
  assert (candidate_ok c e z) as Hz.
  { destruct Hy as [H1 H2 H3 H4 H5 H6]. constructor; try done.
    - change (0 <= Z.min (attempts y + 1) (2 ^ 31 - 1) <= 2 ^ 31 - 1). lia.
    - change (seed y = false → Z.min (attempts y + 1) (2 ^ 31 - 1) <= MAX_ATTEMPTS). intros Hns. rewrite Hns in Hmax.
      cbn [negb andb] in Hmax. apply Z.leb_gt in Hmax. lia.
    - change (connected y = true → verified y = true ∧ true = false). congruence. }
  eapply hoare_bind; [by apply hoare_update|]. intros ?; cbn beta.
  eapply hoare_bind; [apply backoff_keeps|]. intros b; cbn beta.
  apply hoare_pre with (pre (present e)); [|by intros s [? [? _]]].
  set (t := z {{ next_attempt := _ }}).
  assert (∀ a, a ≠ None → candidate_ok c e (z {{ next_attempt := a }})) as Hset.
  { intros na Hna. destruct Hz as [H1 H2 H3 H4 H5 H6]. by constructor. }
  eapply hoare_bind; [|intros ?; apply hoare_any_ret]. apply hoare_update.
  destruct (negb (seed t) && _); [|by apply Hset]. destruct (cycle_started t) as [q|]; [|by apply Hset].
  by apply (Hset (later (next_attempt t) (q + COOLDOWN))).
Qed.

Lemma mark_connected_keeps e : hoare (pre any) (mark_connected e) (λ _, pre any) fails.
Proof.
  unfold mark_connected. eapply hoare_bind; [apply hoare_validate|]. intros v. apply manager_pure. intros [-> Hval].
  eapply hoare_bind; [apply (hoare_gets _ _ (λ _ _, True)); done|]. intros self; cbn beta.
  case_bool_decide; [apply hoare_any_ret|]. apply hoare_pre with (pre any); [|by intros s [? _]].
  eapply hoare_bind; [apply entry_or_add_keeps|]. intros [x|]; cbn beta iota; [|apply hoare_any_ret].
  apply hoare_pre with (pre (λ m, present e m ∧ candidate_ok c e x)); [|by intros s [? [? ?]]].
  apply manager_pure. intros [H1 H2 H3 H4 H5 H6]. eapply hoare_bind; [apply hoare_clock|]. intros now; cbn beta.
  eapply hoare_bind; [apply hoare_update|intros ?; apply hoare_any_ret]. by constructor.
Qed.

Lemma mark_disconnected_keeps e : hoare (pre any) (mark_disconnected e) (λ _, pre any) fails.
Proof.
  unfold mark_disconnected. eapply hoare_bind; [apply hoare_validate|]. intros v. apply manager_pure. intros [-> Hval].
  eapply hoare_bind; [apply hoare_entry|]. intros [x|]; cbn beta iota zeta; [|apply hoare_any_ret].
  apply hoare_pre with (pre (λ m, present e m ∧ candidate_ok c e x)); [|by intros s [? [_ [? ?]]]].
  apply manager_pure. intros [H1 H2 H3 H4 H5 H6]. eapply hoare_bind; [apply hoare_clock|]. intros now; cbn beta.
  eapply hoare_bind; [apply backoff_keeps|]. intros b; cbn beta.
  apply hoare_pre with (pre (present e)); [|by intros s [? [? _]]].
  eapply hoare_post; [apply hoare_update|by intros ? s [? _]].
  destruct (connected x) eqn:Hc; [by constructor|]. constructor; try done. intros _.
  change (later (next_attempt x) (now + b) ≠ None). specialize (H5 eq_refl). by destruct (next_attempt x).
Qed.

(** Of an endpoint that passes the checks, none of its steps raises. *)
Lemma mark_disconnected_total e m w :
  manager_config m = c → config_validate_endpoint c e = Ok e → ∃ s, mark_disconnected e (m, w) = (Ok tt, s).
Proof.
  intros Hm He. unfold mark_disconnected, mbind, call_bind, manager_validate, entry_of, gets. cbn [fst]. rewrite Hm, He.
  destruct (dict_get (candidates_of m) e) as [x|]; [|by eexists]. cbv zeta. by eexists.
Qed.

Lemma new_manager_inv : 0 <= max_candidates c → manager_inv c (new_manager c).
Proof. intros Hc. constructor; cbn; [done|constructor|lia|done|constructor]. Qed.

Lemma add_seeds_keeps l : hoare (pre any) (add_seeds l) (λ _, pre any) fails.
Proof.
  unfold add_seeds. induction l as [|e l IH]; cbn [for_each]; [apply hoare_any_ret|].
  eapply hoare_bind; [|intros ?; exact IH]. eapply hoare_bind; [apply add_candidate_keeps|]. intros ?. apply hoare_any_ret.
Qed.
End rules.
