(* ===== verification/NodeState.v ===== *)
(** * network/node.py: the node's state and what both halves of it use

    The fields of [Node], [Session] and [SyncManager], and the methods below
    the handlers: sending, requesting, relaying, and committing to the chain.
    One record holds the whole state because the code's objects point to each
    other.  A session is named by its [connection_id]. *)

From coqutil Require Import Datatypes.RecordSetters.
Import DoubleBraceUpdate.
From S2P Require Import Prelude Bytes Json JsonParse Crypto Transaction Block Mempool Blockchain Codec.
From S2P Require Import NetConfig Messages Protocol Effects Peer PeerManager.
#[local] Open Scope Z_scope.

(** ** Reading a message that was validated *)

Definition message_kind (m : Message) : string := match message_type m with JStr k => k | _ => EmptyString end.
Definition message_rid (m : Message) : option string := match request_id m with JStr r => Some r | _ => None end.
Definition message_fields (m : Message) : list (string * json) := match payload m with JObj p => p | _ => [] end.

Definition field_int (p : list (string * json)) (k : string) : result Z :=
  v ← member p k; match v with JInt z => Ok z | _ => Raise TypeError end.
Definition field_str (p : list (string * json)) (k : string) : result string :=
  v ← member p k; match v with JStr s => Ok s | _ => Raise TypeError end.
Definition field_bool (p : list (string * json)) (k : string) : result bool :=
  v ← member p k; match v with JBool b => Ok b | _ => Raise TypeError end.
Definition field_items (p : list (string * json)) (k : string) : result (list json) :=
  v ← member p k; match v with JList l => Ok l | _ => Raise TypeError end.
Definition item_str (v : json) : result string := match v with JStr s => Ok s | _ => Raise TypeError end.

(** ** State *)

Record PendingRequest := MkRequest {
  request_kind : string;
  request_payload : list (string * json);
  deadline : Q
}.

(** [ready] is the future: unset, or its value. *)
Record Session := MkSession {
  peer : PeerConnection;
  ready : option bool;
  created : Q;
  service_bucket : TokenBucket;
  session_endpoint : option Endpoint;
  dial_endpoint : option Endpoint;
  version_received : bool;
  ack_received : bool;
  remote_height : Z;
  remote_tip : string;
  pending : list (string * PendingRequest);
  expired : list (string * Q);
  next_status : Q;
  next_discovery : Q;
  next_mempool : Q;
  next_export : Q;
  next_ping : Q;
  ping_nonce : option string;
  ping_deadline : Q;
  sync_after : Q;
  sync_state : string;
  session_error : option string;
  rejected_anchor : option (Z * string)
}.

Record ExportSnapshot := MkExport {
  export_token : string;
  export_tip : string;
  export_items : list bytes;
  export_size : Z;
  export_cursor : Z;
  export_created : Q;
  touched : Q
}.

Record PendingDownload := MkDownload {
  download_tip : string;
  download_token : option string;
  download_cursor : Z;
  download_size : Z;
  download_count : Z
}.

Record SyncManager := MkSync {
  exports : list (string * ExportSnapshot);
  downloads : list (string * PendingDownload);
  snapshot_bytes : Z;
  source : option string
}.

Inductive RunState := CREATED | STARTING | RUNNING | STOPPING | STOPPED | FAILED.

#[export] Instance run_state_eq_dec : EqDecision RunState.
Proof. solve_decision. Defined.

(** A call of the node's interface, by its kind and argument. *)
Inductive Command :=
  | CmdSubmit (tx : Transaction)
  | CmdBlock (b : Block)
  | CmdStatus
  | CmdGetBlock (h : Z)
  | CmdLatestBlock
  | CmdLatestBlockInfo
  | CmdBlockByHash (hash : string)
  | CmdBlockInfoByHash (hash : string)
  | CmdUtxos (address : string)
  | CmdAddressInfo (address : string)
  | CmdWalletState (address : string)
  | CmdWalletHistory (address : string) (start limit : Z)
  | CmdBlocks (start limit : Z)
  | CmdFindTransaction (tid : string)
  | CmdBalance (address : string)
  | CmdPending
  | CmdPendingEntries
  | CmdValidate
  | CmdTemplate (miner_address : string) (timestamp : option Z) (max_tx max_b : Z).

Inductive EventKind :=
  | EvTick
  | EvRemote (session_id : string) (m : Message)
  | EvCommand (cmd : Command).

Record Event := MkEvent {
  event_kind : EventKind;
  event_size : Z
}.

Record Counters := MkCounters {
  transactions_accepted : Z;
  blocks_accepted : Z;
  messages_received : Z;
  messages_enqueued : Z
}.

Section node.
Context {EL : EcdsaLib} {CS : ChainStore}.

Record Node := MkNode {
  config : NodeConfig;
  node_id : string;
  run_state : RunState;
  node_endpoint : option Endpoint;
  node_chain : Blockchain;
  failure : option exn;
  events : list Event;
  inbound_events : Z;
  inbound_bytes : Z;
  sessions : list (string * Session);
  dial_tasks : list Endpoint;
  peer_closers : list string;
  closed_peers : list string;
  manager : PeerManager;
  sync : SyncManager;
  tick_queued : bool;
  counters : Counters;
  world : World
}.

Definition node_call (A : Type) : Type := call Node A.

Definition node_world {A} (m : call World A) : node_call A := zoom world (λ w n, n {{ world := w }}) m.
Definition node_clock : node_call Q := node_world read_clock.
Definition node_token : node_call string := node_world draw_token.
Definition on_chain {A} (m : method A) : node_call A := zoom node_chain (λ c n, n {{ node_chain := c }}) m.
Definition ask_chain {A} (f : Blockchain → result A) : node_call A := λ n, (f (node_chain n), n).
Definition ask_node {A} (f : Node → result A) : node_call A := λ n, (f n, n).
Definition on_manager {A} (m : manager_call A) : node_call A :=
  zoom (λ n, (manager n, world n)) (λ s n, n {{ manager := s.1; world := s.2 }}) m.
Definition with_sync (f : SyncManager → SyncManager) : node_call unit := modify (λ n, n {{ sync := f (sync n) }}).
Definition count (f : Counters → Counters) : node_call unit := modify (λ n, n {{ counters := f (counters n) }}).

(** The object a handler was given; it is in the dictionary while handlers run. *)
Definition session_of (sid : string) : node_call Session := λ n,
  (match dict_get (sessions n) sid with Some s => Ok s | None => Raise KeyError end, n).
Definition with_session (sid : string) (f : Session → Session) : node_call unit :=
  modify (λ n, n {{ sessions := dict_map f sid (sessions n) }}).

(** A method of the session's connection. *)
Definition on_peer {A} (sid : string) (m : call PeerConnection A) : node_call A := λ n,
  match dict_get (sessions n) sid with
  | None => (Raise KeyError, n)
  | Some s =>
      let (r, p) := m (peer s) in
      (r, n {{ sessions := dict_map (λ s, s {{ peer := p }}) sid (sessions n) }})
  end.

(** ** Inbound reservations *)

Definition reserve (size : Z) : node_call bool := λ n,
  if negb (bool_decide (run_state n = RUNNING)) || (inbound_max_events (config n) <=? inbound_events n)
     || (inbound_max_bytes (config n) <? inbound_bytes n + size)
  then (Ok false, n)
  else (Ok true, n {{ inbound_events := inbound_events n + 1; inbound_bytes := inbound_bytes n + size }}).

Definition release (size : Z) : node_call unit := λ n,
  let n := n {{ inbound_events := inbound_events n - 1; inbound_bytes := inbound_bytes n - size }} in
  if (inbound_events n <? 0) || (inbound_bytes n <? 0) then (Raise RuntimeError, n) else (Ok tt, n).

(** ** Sending *)

Definition send (sid : string) (m : Message) : node_call bool :=
  st ← gets run_state;
  s ← session_of sid;
  if negb (bool_decide (st = RUNNING)) || peer_closed (peer s) then mret false
  else
    c ← gets config;
    result ← on_peer sid (peer_send c m);
    _ ← when result (count (λ k, k {{ messages_enqueued := messages_enqueued k + 1 }}));
    mret result.

Definition broadcast (m : Message) (source : option string) : node_call unit :=
  sids ← gets (λ n, dict_keys (sessions n));
  for_each sids (λ sid,
    s ← session_of sid;
    if negb (bool_decide (Some sid = source)) && established (peer s)
    then try_call (_ ← send sid m; mret tt) (λ e, bool_decide (e = PolicyLimitError)) (λ _, mret tt)
    else mret tt).

(** ** Requests *)

Definition has_request (kind : string) (s : Session) : bool :=
  existsb (λ p, bool_decide (request_kind p.2 = kind)) (pending s).

Definition request (sid : string) (kind : string) (members : list (string * json)) : node_call (option string) :=
  s ← session_of sid;
  c ← gets config;
  if negb (established (peer s)) || peer_closed (peer s) || (max_requests c <=? Z.of_nat (length (pending s)))
     || has_request kind s
  then mret None
  else
    rid ← node_token;
    ok ← send sid (message kind members (Some rid));
    if negb ok then mret None
    else
      now ← node_clock;
      _ ← with_session sid (λ s, s {{ pending :=
            dict_set (pending s) rid (MkRequest kind members (now + request_timeout c)%Q) }});
      mret (Some rid).

Definition send_error (sid : string) (rid : option string) (code : string) : node_call unit :=
  _ ← send sid (message "ERROR" [("code", JStr code); ("message", JStr code)] rid); mret tt.

Definition MAX_EXPIRED : nat := 64.

Definition expire_request (sid : string) (rid : string) : node_call unit :=
  now ← node_clock;
  with_session sid (λ s,
    let l := dict_set (expired s) rid (now + 60)%Q in
    s {{ expired := drop (length l - MAX_EXPIRED) l }}).

(** ** The chain *)

Definition node_tip : node_call (Z * string) :=
  h ← ask_chain height;
  b ← ask_chain get_latest_block;
  mret (h, block_hash b).

Definition status_payload : node_call (list (string * json)) :=
  t ← node_tip;
  mret [("height", JInt t.1); ("tip_hash", JStr t.2)].

(** ** [SyncManager]: dropping what is stale *)

Definition drop_export (cid : string) : node_call unit :=
  with_sync (λ y, match dict_get (exports y) cid with
                  | Some snapshot => y {{ exports := dict_del (exports y) cid;
                                          snapshot_bytes := snapshot_bytes y - export_size snapshot }}
                  | None => y
                  end).

Definition sync_disconnected (cid : string) : node_call unit :=
  _ ← drop_export cid;
  with_sync (λ y, y {{ downloads := dict_del (downloads y) cid;
                       source := if bool_decide (source y = Some cid) then None else source y }}).

Definition sync_clear : node_call unit := with_sync (λ _, MkSync [] [] 0 None).

Definition tip_changed : node_call unit :=
  cids ← gets (λ n, dict_keys (exports (sync n)));
  _ ← for_each cids drop_export;
  _ ← with_sync (λ y, y {{ downloads := [] }});
  modify (λ n, n {{ sessions := map (λ p, (p.1, p.2 {{ next_mempool := 0%Q }})) (sessions n) }}).

(** ** Committing, then relaying *)

Definition ignore_policy_limit (m : node_call unit) : node_call unit :=
  try_call m (λ e, bool_decide (e = PolicyLimitError)) (λ _, mret tt).

Definition node_submit_transaction (tx : Transaction) (source : option string) : node_call bool :=
  accepted ← on_chain (submit_transaction tx);
  _ ← when accepted (
    _ ← count (λ k, k {{ transactions_accepted := transactions_accepted k + 1 }});
    ignore_policy_limit (
      c ← gets config;
      encoded ← lift (pack_transaction tx (max_item_bytes c));
      broadcast (message "NEW_TRANSACTION" [("transaction", JStr encoded)] None) source));
  mret accepted.

(** [Blockchain.add_block] reads the wall clock. *)
Definition node_add_block (b : Block) : node_call bool :=
  now ← node_world read_wall;
  on_chain (add_block b now None).

Definition node_accept_block (b : Block) (source : option string) : node_call bool :=
  t ← node_tip;
  if negb (bool_decide (previous_block_hash b = t.2)) then
    match source with
    | Some sid =>
        known ← ask_chain (λ bc, get_block_by_hash bc (block_hash b));
        _ ← when (bool_decide (known = None)) (_ ← request sid "GET_STATUS" []; mret tt);
        mret false
    | None => mret false
    end
  else
    accepted ← node_add_block b;
    _ ← when accepted (
      _ ← count (λ k, k {{ blocks_accepted := blocks_accepted k + 1 }});
      _ ← tip_changed;
      _ ← ignore_policy_limit (
            c ← gets config;
            encoded ← lift (pack_block b (max_item_bytes c));
            broadcast (message "NEW_BLOCK" [("block", JStr encoded)] None) source);
      st ← status_payload;
      broadcast (message "STATUS" st None) None);
    mret accepted.
End node.
