(* ===== verification/Sync.v ===== *)
(** * network/sync.py: block and pool synchronisation

    The methods of [SyncManager], on the node they belong to.  All are called
    by the dispatcher. *)

From Stdlib Require Import Strings.Ascii.
From coqutil Require Import Datatypes.RecordSetters.
Import DoubleBraceUpdate.
From S2P Require Import Prelude Bytes Json JsonParse Crypto Transaction Block Mempool Blockchain Codec.
From S2P Require Import NetConfig Messages Protocol Effects Peer PeerManager NodeState.
#[local] Open Scope Z_scope.

(** [len(s) - len(s.rstrip("="))]: the run of [=] at the end. *)
Fixpoint trailing_equals (s : string) (run : nat) : nat :=
  match s with
  | EmptyString => run
  | String c s => trailing_equals s (if (code c =? 61)%N then S run else O)
  end.

Definition raw_size (encoded : string) : Z :=
  Z.of_nat (str_len encoded) / 4 * 3 - Z.of_nat (trailing_equals encoded 0).

Example raw_sizes : map raw_size ["Zg=="; "Zm8="; "Zm9vYmFy"] = [1; 2; 6].
Proof. reflexivity. Qed.

Section sync.
Context {EL : EcdsaLib} {CS : ChainStore}.

(** ** Choosing what to ask for *)

Definition snapshot_over (c : NodeConfig) (now : Q) (x : ExportSnapshot) : bool :=
  Qle_bool (snapshot_idle_timeout c) (now - touched x) || Qle_bool (snapshot_lifetime c) (now - export_created x).

Definition live (s : Session) : bool := established (peer s) && negb (peer_closed (peer s)).

Definition sync_candidate (height : Z) (now : Q) (s : Session) : bool :=
  (height <? remote_height s) && Qle_bool (sync_after s) now
  && negb (bool_decide (sync_state s = "DIVERGED")) && negb (has_request "GET_BLOCKS" s).

(** The key [(-remote_height, node_id)]; an established peer has an id. *)
Definition sync_before (s t : Session) : bool :=
  (remote_height t <? remote_height s)
  || ((remote_height s =? remote_height t)
      && bool_decide (String.le (default EmptyString (peer_node_id (peer s)))
                                (default EmptyString (peer_node_id (peer t))))).

(** [min(candidates, key=...)]: the first of the least. *)
Definition best_candidate (p : string * Session) (l : list (string * Session)) : string * Session :=
  foldl (λ best q, if sync_before best.2 q.2 then best else q) p l.

Definition request_blocks (height : Z) (tip : string) (now : Q) (sids : list string) : node_call unit :=
  all ← gets sessions;
  c ← gets config;
  match filter (λ p, p.1 ∈ sids ∧ sync_candidate height now p.2 = true) all with
  | [] => mret tt
  | p :: l =>
      let sid := (best_candidate p l).1 in
      r ← request sid "GET_BLOCKS" [("anchor_height", JInt height); ("anchor_hash", JStr tip);
                                    ("limit", JInt (block_batch_size c))];
      match r with
      | None => mret tt
      | Some _ =>
          _ ← with_sync (λ y, y {{ source := Some sid }});
          with_session sid (λ s, s {{ sync_state := "BLOCK_SYNC" }})
      end
  end.

Definition request_mempool (height : Z) (tip : string) (now : Q) (sid : string) : node_call unit :=
  s ← session_of sid;
  _ ← when ((remote_height s =? height) && negb (bool_decide (remote_tip s = tip)))
        (with_session sid (λ s, s {{ sync_state := "DIVERGED"; session_error := Some "FORK_UNSUPPORTED" }}));
  s ← session_of sid;
  if (remote_height s =? height) && bool_decide (remote_tip s = tip)
     && negb (bool_decide (sync_state s = "DIVERGED")) && Qle_bool (next_mempool s) now
     && negb (has_request "GET_MEMPOOL" s)
  then
    y ← gets sync;
    c ← gets config;
    let download := default (MkDownload tip None 0 0 0) (dict_get (downloads y) sid) in
    r ← request sid "GET_MEMPOOL"
          [("tip_hash", JStr (download_tip download));
           ("snapshot_id", match download_token download with Some t => JStr t | None => JNull end);
           ("cursor", JInt (download_cursor download)); ("limit", JInt (mempool_page_size c))];
    match r with
    | None => mret tt
    | Some _ =>
        _ ← with_sync (λ y, y {{ downloads := dict_set (downloads y) sid download }});
        with_session sid (λ s, s {{ sync_state := "MEMPOOL_SYNC" }})
    end
  else mret tt.

Definition sync_tick (now : Q) : node_call unit :=
  y ← gets sync;
  c ← gets config;
  _ ← for_each (exports y) (λ p, when (snapshot_over c now p.2) (drop_export p.1));
  t ← node_tip;
  all ← gets sessions;
  let sids := map fst (filter (λ p, live p.2 = true) all) in
  _ ← with_sync (λ y, match source y with
                      | Some src => if bool_decide (src ∈ sids) then y else y {{ source := None }}
                      | None => y
                      end);
  y ← gets sync;
  _ ← when (bool_decide (source y = None)) (request_blocks t.1 t.2 now sids);
  for_each sids (request_mempool t.1 t.2 now).

Definition failed_request (sid : string) (r : PendingRequest) (code : string) : node_call unit :=
  now ← node_clock;
  c ← gets config;
  _ ← with_session sid (λ s, s {{ session_error := Some code }});
  if bool_decide (request_kind r = "GET_BLOCKS") then
    _ ← with_sync (λ y, y {{ source := None }});
    _ ← with_session sid (λ s, s {{ sync_after := (now + retry_delay c)%Q; sync_state := "IDLE" }});
    _ ← when (bool_decide (code = "FORK_UNSUPPORTED")) (with_session sid (λ s, s {{ sync_state := "DIVERGED" }}));
    when (bool_decide (code = "UNKNOWN_ANCHOR")) (
      h ← lift (field_int (request_payload r) "anchor_height");
      a ← lift (field_str (request_payload r) "anchor_hash");
      _ ← with_session sid (λ s, s {{ rejected_anchor := Some (h, a) }});
      _ ← request sid "GET_STATUS" [];
      mret tt)
  else if bool_decide (request_kind r = "GET_MEMPOOL") then
    _ ← with_sync (λ y, y {{ downloads := dict_del (downloads y) sid }});
    _ ← with_session sid (λ s, s {{ next_mempool := (now + retry_delay c)%Q; sync_state := "IDLE" }});
    when (bool_decide (code = "STALE_TIP")) (_ ← request sid "GET_STATUS" []; mret tt)
  else mret tt.

(** ** Blocks *)

Definition blocks_payload (anchor_height : Z) (anchor_hash : string) (height : Z) (tip : string)
    (blocks : list json) (more : bool) : list (string * json) :=
  [("anchor_height", JInt anchor_height); ("anchor_hash", JStr anchor_hash); ("tip_height", JInt height);
   ("tip_hash", JStr tip); ("blocks", JList blocks); ("more", JBool more)].

(** The loop over the indices: the blocks that fit, or [None] when the first
    does not. *)
Fixpoint fill_blocks (rid : option string) (anchor_height : Z) (anchor_hash : string) (height : Z) (tip : string)
    (indices : list Z) (acc : list json) : node_call (option (list json)) :=
  match indices with
  | [] => mret (Some acc)
  | index :: indices =>
      c ← gets config;
      r ← gets (λ n,
        b ← get_block_by_height (node_chain n) index;
        b ← match b with Some b => Ok b | None => Raise ProtocolError (* [encode_block(None)] *) end;
        encoded ← pack_block b (max_item_bytes c);
        let trial := acc ++ [JStr encoded] in
        _ ← encode_message
              (message "BLOCKS" (blocks_payload anchor_height anchor_hash height tip trial (index <? height)) rid)
              (max_frame_bytes c);
        Ok trial);
      match r with
      | Ok trial => fill_blocks rid anchor_height anchor_hash height tip indices trial
      | Raise e =>
          if bool_decide (e = PolicyLimitError)
          then mret (if bool_decide (acc = []) then None else Some acc)
          else raise e
      end
  end.

Definition serve_blocks (sid : string) (m : Message) : node_call unit :=
  let p := message_fields m in
  anchor_height ← lift (field_int p "anchor_height");
  anchor_hash ← lift (field_str p "anchor_hash");
  limit ← lift (field_int p "limit");
  anchor ← ask_chain (λ bc, get_block_by_height bc anchor_height);
  if match anchor with Some b => negb (bool_decide (block_hash b = anchor_hash)) | None => true end
  then send_error sid (message_rid m) "UNKNOWN_ANCHOR"
  else
    t ← node_tip;
    let last := Z.min t.1 (anchor_height + limit) in
    blocks ← fill_blocks (message_rid m) anchor_height anchor_hash t.1 t.2
               (seqZ (anchor_height + 1) (last - anchor_height)) [];
    match blocks with
    | None => send_error sid (message_rid m) "POLICY_LIMIT"
    | Some l =>
        _ ← send sid (message "BLOCKS"
              (blocks_payload anchor_height anchor_hash t.1 t.2 l (anchor_height + Z.of_nat (length l) <? t.1))
              (message_rid m));
        mret tt
    end.

(** The loop over the received blocks: whether all were accepted. *)
Fixpoint accept_blocks (sid : string) (items : list json) : node_call bool :=
  match items with
  | [] => mret true
  | item :: items =>
      c ← gets config;
      encoded ← lift (item_str item);
      b ← lift (unpack_block encoded (max_item_bytes c));
      t ← node_tip;
      if negb (bool_decide (previous_block_hash b = t.2)) then raise ProtocolError
      else
        accepted ← node_accept_block b (Some sid);
        if negb accepted then mret false else accept_blocks sid items
  end.

Definition receive_blocks (sid : string) (r : PendingRequest) (m : Message) : node_call unit :=
  let p := message_fields m in
  _ ← with_sync (λ y, y {{ source := None }});
  _ ← with_session sid (λ s, s {{ sync_state := "IDLE" }});
  anchor_height ← lift (field_int p "anchor_height");
  anchor_hash ← lift (field_str p "anchor_hash");
  expected_height ← lift (field_int (request_payload r) "anchor_height");
  expected_hash ← lift (field_str (request_payload r) "anchor_hash");
  if negb (anchor_height =? expected_height) || negb (bool_decide (anchor_hash = expected_hash))
  then raise ProtocolError
  else
    t ← node_tip;
    if negb (bool_decide (t = (expected_height, expected_hash))) then mret tt
    else
      items ← lift (field_items p "blocks");
      limit ← lift (field_int (request_payload r) "limit");
      tip_height ← lift (field_int p "tip_height");
      tip_hash ← lift (field_str p "tip_hash");
      more ← lift (field_bool p "more");
      let end_height := t.1 + Z.of_nat (length items) in
      if (limit <? Z.of_nat (length items)) || (tip_height <? end_height) || (tip_height <? t.1)
         || negb (eqb more (end_height <? tip_height)) || (more && bool_decide (items = []))
      then raise ProtocolError
      else
        complete ← accept_blocks sid items;
        if negb complete then failed_request sid r "BAD_MESSAGE"
        else
          t ← node_tip;
          if negb more && negb (bool_decide (t.2 = tip_hash)) then raise ProtocolError
          else
            _ ← with_session sid (λ s, s {{ remote_height := tip_height; remote_tip := tip_hash }});
            c ← gets config;
            _ ← (if bool_decide (items = [])
                 then now ← node_clock;
                      with_session sid (λ s, s {{ sync_after := (now + retry_delay c)%Q;
                                                  session_error := Some "NO_PROGRESS" }})
                 else with_session sid (λ s, s {{ sync_after := 0%Q; session_error := None }}));
            when (negb more) (_ ← request sid "GET_STATUS" []; mret tt).

(** ** The pool *)

Definition mempool_payload (tip token : string) (cursor : Z) (txs : list json) (next : Z) (done : bool) :
    list (string * json) :=
  [("tip_hash", JStr tip); ("snapshot_id", JStr token); ("cursor", JInt cursor); ("transactions", JList txs);
   ("next_cursor", JInt next); ("done", JBool done)].

(** The items of a new snapshot: every one fits a frame. *)
Fixpoint pack_snapshot (c : NodeConfig) (tip token : string) (count : Z) (rid : option string)
    (txs : list Transaction) : result (list bytes) :=
  match txs with
  | [] => Ok []
  | tx :: txs =>
      encoded ← pack_transaction tx (max_item_bytes c);
      _ ← encode_message
            (message "MEMPOOL" (mempool_payload tip token count [JStr encoded] (count + 1) false) rid)
            (max_frame_bytes c);
      item ← b64decode encoded;
      items ← pack_snapshot c tip token count rid txs;
      Ok (item :: items)
  end.

(** From the reservation of the bytes on: the [try] gives them back when it
    raises. *)
Definition reserve_snapshot (sid : string) (rid : option string) (tip : string) (now : Q) (stats : Z * Z) :
    node_call (option ExportSnapshot) :=
  c ← gets config;
  _ ← with_sync (λ y, y {{ snapshot_bytes := snapshot_bytes y + stats.2 }});
  token ← node_token;
  items ← gets (λ n, mp ← mempool_snapshot (node_chain n);
                     pack_snapshot c tip token stats.1 rid (get_transactions mp));
  match items with
  | Ok items =>
      let x := MkExport token tip items stats.2 0 now now in
      _ ← with_sync (λ y, y {{ exports := dict_set (exports y) sid x }});
      mret (Some x)
  | Raise e =>
      _ ← with_sync (λ y, y {{ snapshot_bytes := snapshot_bytes y - stats.2 }});
      if bool_decide (e = PolicyLimitError) then _ ← send_error sid rid "POLICY_LIMIT"; mret None
      else raise e
  end.

(** The [snapshot_id is None] branch: the new snapshot, or [None] when an
    error was sent instead. *)
Definition create_snapshot (sid : string) (rid : option string) (tip : string) (now : Q)
    (snapshot : option ExportSnapshot) : node_call (option ExportSnapshot) :=
  s ← session_of sid;
  c ← gets config;
  if match snapshot with Some _ => true | None => negb (Qle_bool (next_export s) now) end then
    _ ← send_error sid rid "BUSY"; mret None
  else
    _ ← with_session sid (λ s, s {{ next_export := (now + snapshot_cooldown c)%Q }});
    stats ← ask_chain get_mempool_stats;
    if (snapshot_max_transactions c <? stats.1) || (snapshot_max_bytes c <? stats.2) then
      _ ← send_error sid rid "POLICY_LIMIT"; mret None
    else
      y ← gets sync;
      if snapshot_global_bytes c <? snapshot_bytes y + stats.2 then
        _ ← send_error sid rid "BUSY"; mret None
      else reserve_snapshot sid rid tip now stats.

(** The loop over the page: the items that fit, and their number. *)
Fixpoint fill_page (c : NodeConfig) (tip token : string) (start total : Z) (rid : option string)
    (items : list bytes) (acc : list json) : result (list json) :=
  match items with
  | [] => Ok acc
  | item :: items =>
      let trial := acc ++ [JStr (b64encode item)] in
      let next := start + Z.of_nat (length trial) in
      match encode_message (message "MEMPOOL" (mempool_payload tip token start trial next (next =? total)) rid)
              (max_frame_bytes c) with
      | Ok _ => fill_page c tip token start total rid items trial
      | Raise e => if bool_decide (e = PolicyLimitError) then Ok acc else Raise e
      end
  end.

(** From the cursor check on. *)
Definition serve_page (sid : string) (rid : option string) (tip : string) (cursor limit : Z) (now : Q)
    (x : ExportSnapshot) : node_call unit :=
  c ← gets config;
  if negb (cursor =? export_cursor x) then raise ProtocolError
  else
    let start := export_cursor x in
    let total := Z.of_nat (length (export_items x)) in
    txs ← lift (fill_page c tip (export_token x) start total rid
                  (take (Z.to_nat limit) (drop (Z.to_nat start) (export_items x))) []);
    let next := start + Z.of_nat (length txs) in
    let done := next =? total in
    if bool_decide (txs = []) && negb done then
      _ ← drop_export sid; send_error sid rid "POLICY_LIMIT"
    else
      _ ← with_sync (λ y, y {{ exports := dict_map (λ x, x {{ export_cursor := next; touched := now }}) sid (exports y) }});
      _ ← send sid (message "MEMPOOL" (mempool_payload tip (export_token x) start txs next done) rid);
      when done (drop_export sid).

Definition serve_mempool (sid : string) (m : Message) : node_call unit :=
  let p := message_fields m in
  let rid := message_rid m in
  now ← node_clock;
  t ← node_tip;
  tip_hash ← lift (field_str p "tip_hash");
  if negb (bool_decide (tip_hash = t.2)) then _ ← drop_export sid; send_error sid rid "STALE_TIP"
  else
    y ← gets sync;
    c ← gets config;
    let stale := match dict_get (exports y) sid with Some x => snapshot_over c now x | None => false end in
    _ ← when stale (drop_export sid);
    let snapshot := if (stale : bool) then None else dict_get (exports y) sid in
    snapshot_id ← lift (member p "snapshot_id");
    cursor ← lift (field_int p "cursor");
    limit ← lift (field_int p "limit");
    if is_none snapshot_id then
      x ← create_snapshot sid rid t.2 now snapshot;
      match x with
      | None => mret tt
      | Some x => serve_page sid rid t.2 cursor limit now x
      end
    else
      match snapshot with
      | Some x =>
          if match snapshot_id with JStr i => bool_decide (i = export_token x) | _ => false end then serve_page sid rid t.2 cursor limit now x
          else send_error sid rid "SNAPSHOT_EXPIRED"
      | None => send_error sid rid "SNAPSHOT_EXPIRED"
      end.

Definition submit_items (sid : string) (items : list json) : node_call unit :=
  for_each items (λ item,
    c ← gets config;
    encoded ← lift (item_str item);
    tx ← lift (unpack_transaction encoded (max_item_bytes c));
    _ ← node_submit_transaction tx (Some sid);
    mret tt).

Definition receive_mempool (sid : string) (r : PendingRequest) (m : Message) : node_call unit :=
  let p := message_fields m in
  y ← gets sync;
  t ← node_tip;
  asked_tip ← lift (field_str (request_payload r) "tip_hash");
  match dict_get (downloads y) sid with
  | None => mret tt
  | Some d =>
      if negb (bool_decide (t.2 = asked_tip)) then mret tt
      else
        tip_hash ← lift (field_str p "tip_hash");
        cursor ← lift (field_int p "cursor");
        snapshot_id ← lift (field_str p "snapshot_id");
        if negb (bool_decide (tip_hash = download_tip d)) || negb (cursor =? download_cursor d)
           || match download_token d with Some t => negb (bool_decide (snapshot_id = t)) | None => false end
        then raise ProtocolError
        else
          items ← lift (field_items p "transactions");
          limit ← lift (field_int (request_payload r) "limit");
          next ← lift (field_int p "next_cursor");
          done ← lift (field_bool p "done");
          let n := Z.of_nat (length items) in
          if (limit <? n) || negb (next =? download_cursor d + n) || (bool_decide (items = []) && negb done)
          then raise ProtocolError
          else
            sizes ← lift (map_result (λ i, s ← item_str i; Ok (raw_size s)) items);
            let page_size := foldr Z.add 0 sizes in
            c ← gets config;
            if (snapshot_max_transactions c <? download_count d + n)
               || (snapshot_max_bytes c <? download_size d + page_size)
            then raise PolicyLimitError
            else
              _ ← submit_items sid items;
              _ ← with_sync (λ y, y {{ downloads := dict_map (λ d, d {{
                    download_token := Some snapshot_id; download_cursor := next;
                    download_count := download_count d + n; download_size := download_size d + page_size }})
                    sid (downloads y) }});
              _ ← with_session sid (λ s, s {{ session_error := None }});
              when done (
                _ ← with_sync (λ y, y {{ downloads := dict_del (downloads y) sid }});
                now ← node_clock;
                with_session sid (λ s, s {{ next_mempool := (now + mempool_refresh_interval c)%Q;
                                            sync_state := "IDLE" }}))
  end.
End sync.
