(* ===== verification/Node.v ===== *)
(** * network/node.py: handlers, the dispatcher and the transport's callbacks

    The handshake, the handler of a peer's message, the local commands, the
    timer, and what connections and dials do to the node's state.  What is
    awaited between two steps (a socket, a timer, a cancelled future) is an
    argument of the step that follows. *)

From coqutil Require Import Datatypes.RecordSetters.
Import DoubleBraceUpdate.
From S2P Require Import Prelude Bytes Json JsonParse Crypto Transaction Utxo Block Mempool Blockchain Codec.
From S2P Require Import NetConfig Messages Protocol Effects Peer PeerManager NodeState Sync.
#[local] Open Scope Z_scope.

(** Where a call of [connect] stands when it first awaits or returns. *)
Inductive Connecting :=
  | Connected (session_id : string)
  | AwaitReady (session_id : string)
  | AwaitDial.

Record PeerStatus := MkPeerStatus {
  status_node_id : option string;
  status_endpoint : option Endpoint;
  status_sync_state : string;
  status_error : option string;
  status_remote_height : Z;
  status_remote_tip : string
}.

Record NodeStatus := MkStatus {
  status_height : Z;
  status_tip : string;
  status_state : RunState;
  status_pending : Z;
  status_peers : list PeerStatus;
  status_counters : Counters;
  status_inbound_events : Z;
  status_inbound_bytes : Z
}.

(** What a command's future is set to. *)
Inductive Reply :=
  | RepBool (b : bool)
  | RepStatus (s : NodeStatus)
  | RepBlock (b : option Block)
  | RepBlockInfo (b : option (Block * Z))
  | RepUtxos (u : UTXOSet)
  | RepAddress (a : AddressInfo)
  | RepWallet (a : AddressInfo) (pending : list Transaction)
  | RepHistory (l : list HistoryRecord)
  | RepBlocks (l : list Block)
  | RepLocated (l : option Located)
  | RepBalance (z : Z)
  | RepPending (l : list Transaction)
  | RepEntries (l : list (Transaction * Z * Z)).

Section node.
Context {EL : EcdsaLib} {CS : ChainStore}.

(** ** Sessions *)

(** [_begin_stop], up to starting the cleanup task. *)
Definition begin_stop (n : Node) : Node :=
  if bool_decide (run_state n = FAILED) then n else n {{ run_state := STOPPING }}.

Definition fatal (e : exn) : node_call unit := modify (λ n,
  if bool_decide (run_state n ∈ [STOPPING; STOPPED; FAILED]) then n
  else n {{ failure := Some e; run_state := FAILED }}).

(** [if not session.ready.done(): session.ready.set_result(value)] *)
Definition resolve (value : bool) (s : Session) : Session :=
  s {{ ready := match ready s with Some v => Some v | None => Some value end }}.

(** [_close_peer]: the connection is closed at once, its close task follows. *)
Definition close_peer (sid : string) : node_call unit :=
  s ← session_of sid;
  if peer_closed (peer s) then mret tt
  else
    _ ← with_session sid (λ s, s {{ peer := (peer s) {{ peer_closed := true }} }});
    modify (λ n, n {{ peer_closers := peer_closers n ++ [sid] }}).

(** [_on_close], the callback of the connection's cleanup. *)
Definition on_close (sid : string) : node_call unit :=
  _ ← modify (λ n, n {{ closed_peers := if bool_decide (sid ∈ closed_peers n) then closed_peers n
                                        else closed_peers n ++ [sid] }});
  _ ← with_session sid (resolve false);
  all ← gets sessions;
  match s ← dict_get all sid; unexpected_error (peer s) with
  | Some e => fatal e
  | None => mret tt
  end.

Definition reap_peers : node_call unit :=
  cids ← gets closed_peers;
  for_each cids (λ cid,
    _ ← modify (λ n, n {{ closed_peers := filter (λ x, x ≠ cid) (closed_peers n) }});
    all ← gets sessions;
    match dict_get all cid with
    | None => mret tt
    | Some s =>
        _ ← modify (λ n, n {{ sessions := dict_del (sessions n) cid }});
        _ ← sync_disconnected cid;
        rest ← gets sessions;
        match session_endpoint s with
        | None => mret tt
        | Some e =>
            if existsb (λ p, bool_decide (session_endpoint p.2 = Some e) && live p.2) rest then mret tt
            else on_manager (mark_disconnected e)
        end
    end).

Definition occupied_slots (n : Node) : Z :=
  let attached := omap (λ p, dial_endpoint p.2) (sessions n) in
  Z.of_nat (length (sessions n)) + Z.of_nat (length (filter (λ e, e ∉ attached) (dial_tasks n))).

(** [_attach]: [address] is what the socket reports. *)
Definition attach (out : bool) (e : option Endpoint) (address : option Endpoint) : node_call string :=
  c ← gets config;
  cid ← node_token;
  nonce ← node_token;
  now1 ← node_clock; now2 ← node_clock; now3 ← node_clock;
  p ← lift (peer_connection c cid nonce out address now1 now2 now3);
  now ← node_clock;
  now4 ← node_clock;
  service ← lift (token_bucket (inject_Z (service_rate c)) (inject_Z (service_burst c)) now4);
  _ ← modify (λ n, n {{ sessions := dict_set (sessions n) cid
        (MkSession p None now service e (if (out : bool) then e else None) false false 0 GENESIS_HASH [] []
           0 0 0 0 (now + ping_interval c) None 0 0 "IDLE" None None) }});
  t ← node_tip;
  me ← gets node_id;
  listen ← gets node_endpoint;
  port ← lift (match listen with Some x => Ok x.2 | None => Raise TypeError end);
  _ ← send cid (message "VERSION"
        [("network_id", JStr NETWORK_ID); ("genesis_hash", JStr GENESIS_HASH); ("node_id", JStr me);
         ("connection_nonce", JStr nonce); ("listen_port", JInt port); ("height", JInt t.1);
         ("tip_hash", JStr t.2)] None);
  _ ← with_session cid (λ s, s {{ peer := peer_start (peer s) }});
  mret cid.

(** [_accepted_socket]: whether the socket was kept. *)
Definition accepted_socket (remote : option Endpoint) : node_call bool :=
  n ← gets id;
  match remote with
  | Some a =>
      if negb (bool_decide (run_state n = RUNNING)) || (max_peers (config n) <=? occupied_slots n) then mret false
      else
        match config_validate_host (config n) a.1 with
        | Raise e => if bool_decide (e = ValueError) then mret false else raise e
        | Ok _ => try_call (_ ← attach false None remote; mret true) (λ _, true) (λ e, _ ← fatal e; mret false)
        end
  | None => mret false
  end.

(** The part of [connect] and [_tick] that starts a dial. *)
Definition dial_slots_full (n : Node) : bool :=
  (max_peers (config n) <=? occupied_slots n)
  || (max_concurrent_dials (config n) <=? Z.of_nat (length (dial_tasks n))).

Definition begin_dial (e : Endpoint) : node_call unit :=
  _ ← on_manager (mark_attempt e);
  modify (λ n, n {{ dial_tasks := dial_tasks n ++ [e] }}).

Definition ensure_running (n : Node) : result unit :=
  if bool_decide (run_state n = CREATED) then Raise NodeClosedError
  else if bool_decide (run_state n = FAILED) && match failure n with Some e => is_storage_error e | None => false end
  then Raise StorageError
  else raise_if (negb (bool_decide (run_state n = RUNNING))) NodeClosedError.

(** [connect]: a session to the endpoint whose future is done or awaited, or
    the dial that exists or is started. *)
Definition connect (host : string) (port : Z) : node_call Connecting :=
  _ ← ask_node ensure_running;
  c ← gets config;
  e ← lift (config_validate_endpoint c (host, port));
  me ← gets node_endpoint;
  if bool_decide (Some e = me) then raise PeerDisconnectedError
  else
    all ← gets sessions;
    match filter (λ p, session_endpoint p.2 = Some e ∧ peer_closed (peer p.2) = false ∧ ready p.2 ≠ Some false) all with
    | (sid, s) :: _ => mret (match ready s with Some _ => Connected sid | None => AwaitReady sid end)
    | [] =>
        n ← gets id;
        if bool_decide (e ∈ dial_tasks n) then mret AwaitDial
        else if dial_slots_full n then raise NodeBusyError
        else
          _ ← on_manager (add_candidate e false);
          _ ← begin_dial e;
          mret AwaitDial
    end.

(** [_dial] when it fails, and the callback that ends every dial. *)
Definition dial_failed (e : Endpoint) (sid : option string) : node_call unit :=
  _ ← on_manager (mark_disconnected e);
  match sid with
  | Some sid => with_session sid (λ s, s {{ peer := begin_close (peer s) }})
  | None => mret tt
  end.
Definition dial_done (e : Endpoint) : node_call unit :=
  modify (λ n, n {{ dial_tasks := filter (λ x, x ≠ e) (dial_tasks n) }}).

(** ** The handshake *)

(** [_connection_rank]; comparing with an unset name raises. *)
Definition connection_rank (me : string) (s : Session) : result (string * (string * string)) :=
  match (if outbound (peer s) then Some me else peer_node_id (peer s)), remote_nonce (peer s) with
  | Some initiator, Some r =>
      let l := connection_nonce (peer s) in
      Ok (initiator, if bool_decide (String.le l r) then (l, r) else (r, l))
  | _, _ => Raise TypeError
  end.

Definition rank_before (a b : string * (string * string)) : bool :=
  let lt (x y : string) := bool_decide (String.le x y) && negb (bool_decide (x = y)) in
  lt a.1 b.1 || bool_decide (a.1 = b.1) &&
    (lt a.2.1 b.2.1 || bool_decide (a.2.1 = b.2.1) && lt a.2.2 b.2.2).

(** [min(..., key=self._connection_rank)] *)
Definition lowest_rank (x : string * (string * (string * string))) (l : list (string * (string * (string * string)))) : string :=
  (foldl (λ best y, if rank_before y.2 best.2 then y else best) x l).1.

Definition receive_version (sid : string) (m : Message) : node_call unit :=
  let p := message_fields m in
  s ← session_of sid;
  me ← gets node_id;
  c ← gets config;
  network ← lift (field_str p "network_id");
  genesis ← lift (field_str p "genesis_hash");
  remote ← lift (field_str p "node_id");
  h ← lift (field_int p "height");
  tip ← lift (field_str p "tip_hash");
  listen ← lift (field_int p "listen_port");
  nonce ← lift (field_str p "connection_nonce");
  if version_received s then raise ProtocolError
  else if negb (bool_decide (network = NETWORK_ID)) || negb (bool_decide (genesis = GENESIS_HASH)) then raise ProtocolError
  else if bool_decide (remote = me) then raise ProtocolError
  else if (h =? 0) && negb (bool_decide (tip = GENESIS_HASH)) then raise ProtocolError
  else
    host ← lift (match peer_address (peer s) with Some a => Ok a.1 | None => Raise TypeError end);
    e ← lift (config_validate_endpoint c (host, listen));
    if outbound (peer s) && negb (bool_decide (dial_endpoint s = Some e)) then raise ProtocolError
    else
      _ ← with_session sid (λ s, s {{ session_endpoint := Some e;
            peer := (peer s) {{ peer_node_id := Some remote; remote_nonce := Some nonce }};
            remote_height := h; remote_tip := tip; version_received := true }});
      _ ← send sid (message "VERACK" [] None);
      mret tt.

(** Both sides have seen both messages: one connection to the peer stays. *)
Definition complete_handshake (sid : string) : node_call unit :=
  s ← session_of sid;
  if version_received s && ack_received s && negb (peer_closed (peer s)) then
    me ← gets node_id;
    all ← gets sessions;
    let duplicates := filter (λ p, p.1 ≠ sid ∧ peer_node_id (peer p.2) = peer_node_id (peer s)
                                   ∧ version_received p.2 = true ∧ peer_closed (peer p.2) = false) all in
    ranked ← lift (map_result (λ p, r ← connection_rank me p.2; Ok (p.1, r)) ((sid, s) :: duplicates));
    let winner := match ranked with x :: l => lowest_rank x l | [] => sid end in
    _ ← for_each (sid :: map fst duplicates) (λ d, if bool_decide (d = winner) then mret tt else close_peer d);
    if negb (bool_decide (winner = sid)) then mret tt
    else
      _ ← with_session sid (λ s, s {{ peer := (peer s) {{ established := true }} }});
      s ← session_of sid;
      e ← lift (match session_endpoint s with Some e => Ok e | None => Raise ValueError end);
      _ ← on_manager (mark_connected e);
      with_session sid (resolve true)
  else mret tt.

Definition handshake (sid : string) (m : Message) : node_call unit :=
  s ← session_of sid;
  _ ← (if bool_decide (message_kind m = "VERSION") then receive_version sid m
       else if bool_decide (message_kind m = "VERACK") then
         if negb (version_received s) || ack_received s then raise ProtocolError
         else with_session sid (λ s, s {{ ack_received := true }})
       else raise ProtocolError);
  complete_handshake sid.

(** ** A message of an established peer *)

Definition RESPONSES : list (string * string) :=
  [("GET_STATUS", "STATUS"); ("GET_PEERS", "PEERS"); ("GET_BLOCKS", "BLOCKS"); ("GET_MEMPOOL", "MEMPOOL")].

(** [session.service_bucket.consume()] *)
Definition consume_service (sid : string) : node_call bool :=
  s ← session_of sid;
  now ← node_clock;
  r ← lift (consume (service_bucket s) 1 now);
  _ ← with_session sid (λ s, s {{ service_bucket := r.2 }});
  mret r.1.

Definition over_service (sid : string) (kind : string) : node_call bool :=
  if bool_decide (kind ∈ ["GET_BLOCKS"; "GET_MEMPOOL"]) then ok ← consume_service sid; mret (negb ok)
  else mret false.

Definition endpoint_json (e : Endpoint) : json := JObj [("host", JStr e.1); ("port", JInt e.2)].

Definition serve_request (sid : string) (m : Message) : node_call unit :=
  let kind := message_kind m in
  limited ← over_service sid kind;
  if (limited : bool) then send_error sid (message_rid m) "BUSY"
  else if bool_decide (kind = "GET_STATUS") then
    st ← status_payload; _ ← send sid (message "STATUS" st (message_rid m)); mret tt
  else if bool_decide (kind = "GET_PEERS") then
    known ← on_manager known_endpoints;
    me ← gets node_endpoint;
    s ← session_of sid;
    let endpoints := take 32 (filter (λ e, Some e ≠ me ∧ Some e ≠ session_endpoint s) known) in
    _ ← send sid (message "PEERS" [("peers", JList (map endpoint_json endpoints))] (message_rid m)); mret tt
  else if bool_decide (kind = "GET_BLOCKS") then serve_blocks sid m
  else if bool_decide (kind = "GET_MEMPOOL") then serve_mempool sid m
  else mret tt.

(** The request a response answers: [None] for an announcement, and
    [Some None] for an answer that came too late. *)
Definition correlate (sid : string) (m : Message) : node_call (option (option PendingRequest)) :=
  match message_rid m with
  | None => mret None
  | Some rid =>
      s ← session_of sid;
      match dict_get (pending s) rid with
      | None =>
          if bool_decide (rid ∈ dict_keys (expired s)) then mret (Some None) else raise ProtocolError
      | Some r =>
          _ ← with_session sid (λ s, s {{ pending := dict_del (pending s) rid }});
          _ ← expire_request sid rid;
          expected ← lift (match dict_get RESPONSES (request_kind r) with Some k => Ok k | None => Raise KeyError end);
          if bool_decide (message_kind m ∈ [expected; "ERROR"]) then mret (Some (Some r)) else raise ProtocolError
      end
  end.

Definition receive_status (sid : string) (answers : bool) (m : Message) : node_call unit :=
  let p := message_fields m in
  h ← lift (field_int p "height");
  tip ← lift (field_str p "tip_hash");
  if (h =? 0) && negb (bool_decide (tip = GENESIS_HASH)) then raise ProtocolError
  else
    _ ← with_session sid (λ s, s {{ remote_height := h; remote_tip := tip }});
    s ← session_of sid;
    match rejected_anchor s with
    | Some anchor =>
        if answers then
          t ← node_tip;
          _ ← when (bool_decide (t = anchor) && (anchor.1 <=? h))
                (with_session sid (λ s, s {{ sync_state := "DIVERGED"; session_error := Some "FORK_UNSUPPORTED" }}));
          with_session sid (λ s, s {{ rejected_anchor := None }})
        else mret tt
    | None => mret tt
    end.

Definition endpoint_of (v : json) : result Endpoint :=
  match v with
  | JObj p => h ← field_str p "host"; port ← field_int p "port"; Ok (h, port)
  | _ => Raise TypeError
  end.

Definition receive_peers (m : Message) : node_call unit :=
  items ← lift (field_items (message_fields m) "peers");
  for_each items (λ v,
    try_call (e ← lift (endpoint_of v); _ ← on_manager (add_candidate e false); mret tt)
      (λ e, bool_decide (e = ValueError)) (λ _, mret tt)).

(** What follows the correlation. *)
Definition receive (sid : string) (r : option PendingRequest) (m : Message) : node_call unit :=
  let kind := message_kind m in
  let p := message_fields m in
  c ← gets config;
  if bool_decide (kind = "ERROR") then
    match r with
    | Some r => code ← lift (field_str p "code"); failed_request sid r code
    | None => mret tt
    end
  else if bool_decide (kind = "STATUS") then receive_status sid (bool_decide (r ≠ None)) m
  else if bool_decide (kind = "PEERS") then receive_peers m
  else if bool_decide (kind = "NEW_TRANSACTION") then
    v ← lift (field_str p "transaction");
    tx ← lift (unpack_transaction v (max_item_bytes c));
    _ ← node_submit_transaction tx (Some sid); mret tt
  else if bool_decide (kind = "NEW_BLOCK") then
    v ← lift (field_str p "block");
    b ← lift (unpack_block v (max_item_bytes c));
    _ ← node_accept_block b (Some sid); mret tt
  else if bool_decide (kind = "BLOCKS") then
    match r with Some r => receive_blocks sid r m | None => raise AttributeError end
  else if bool_decide (kind = "MEMPOOL") then
    match r with Some r => receive_mempool sid r m | None => raise AttributeError end
  else raise ProtocolError.

Definition remote (sid : string) (m : Message) : node_call unit :=
  let kind := message_kind m in
  _ ← count (λ k, k {{ messages_received := messages_received k + 1 }});
  s ← session_of sid;
  if negb (established (peer s)) then handshake sid m
  else if bool_decide (kind ∈ ["VERSION"; "VERACK"]) then raise ProtocolError
  else if bool_decide (kind = "PING") then
    _ ← send sid (message "PONG" (message_fields m) None); mret tt
  else if bool_decide (kind = "PONG") then
    nonce ← lift (field_str (message_fields m) "nonce");
    if negb (bool_decide (ping_nonce s = Some nonce)) then raise ProtocolError
    else with_session sid (λ s, s {{ ping_nonce := None }})
  else if bool_decide (kind ∈ dict_keys RESPONSES) then serve_request sid m
  else
    r ← correlate sid m;
    match r with
    | None => receive sid None m
    | Some None => mret tt
    | Some (Some r) => receive sid (Some r) m
    end.

(** ** Local commands *)

Definition node_status (n : Node) : result NodeStatus :=
  let bc := node_chain n in
  h ← height bc;
  b ← get_latest_block bc;
  stats ← get_mempool_stats bc;
  Ok (MkStatus h (block_hash b) (run_state n) stats.1
        (map (λ p, let s := p.2 in
                   MkPeerStatus (peer_node_id (peer s)) (session_endpoint s) (sync_state s) (session_error s)
                     (remote_height s) (remote_tip s))
             (filter (λ p, live p.2 = true) (sessions n)))
        (counters n) (inbound_events n) (inbound_bytes n)).

Definition answer {A} (f : A → Reply) (m : node_call A) : node_call Reply := a ← m; mret (f a).

Definition command (cmd : Command) : node_call Reply :=
  match cmd with
  | CmdSubmit tx => answer RepBool (node_submit_transaction tx None)
  | CmdBlock b => answer RepBool (node_accept_block b None)
  | CmdStatus => answer RepStatus (ask_node node_status)
  | CmdGetBlock h => answer RepBlock (ask_chain (λ bc, get_block_by_height bc h))
  | CmdLatestBlock => answer (λ b, RepBlock (Some b)) (ask_chain get_latest_block)
  | CmdLatestBlockInfo => answer RepBlockInfo (ask_chain get_latest_block_info)
  | CmdBlockByHash hash => answer RepBlock (ask_chain (λ bc, get_block_by_hash bc hash))
  | CmdBlockInfoByHash hash => answer RepBlockInfo (ask_chain (λ bc, get_block_info_by_hash bc hash))
  | CmdUtxos a => answer RepUtxos (ask_chain (λ bc, chain_get_utxos_for_address bc a))
  | CmdAddressInfo a => answer RepAddress (ask_chain (λ bc, get_address_info bc a))
  | CmdWalletState a =>
      view ← ask_chain (λ bc, get_address_info bc a);
      mp ← ask_chain mempool_snapshot;
      mret (RepWallet view (get_transactions mp))
  | CmdWalletHistory a start limit => answer RepHistory (ask_chain (λ bc, get_wallet_history bc a start limit))
  | CmdBlocks start limit => answer RepBlocks (ask_chain (λ bc, get_blocks bc start limit))
  | CmdFindTransaction tid => answer RepLocated (ask_chain (λ bc, find_transaction bc tid))
  | CmdBalance a => answer RepBalance (ask_chain (λ bc, chain_get_balance bc a))
  | CmdPending => answer (λ mp, RepPending (get_transactions mp)) (ask_chain mempool_snapshot)
  | CmdPendingEntries =>
      answer (λ mp, RepEntries (map (λ p, (entry_transaction p.2, entry_fee p.2, entry_size_bytes p.2)) (entries mp)))
        (ask_chain mempool_snapshot)
  | CmdValidate =>
      now ← node_world read_wall;
      answer RepBool (ask_chain (λ bc, validate_blockchain bc now None))
  | CmdTemplate miner ts max_tx max_b =>
      now ← node_world read_wall;
      answer (λ b, RepBlock (Some b)) (ask_chain (λ bc, create_mempool_block_template bc miner now ts max_tx max_b))
  end.

(** ** The timer *)

Definition expire_pending (sid : string) (now : Q) : node_call unit :=
  s ← session_of sid;
  for_each (pending s) (λ p,
    if Qle_bool (deadline p.2) now then
      _ ← with_session sid (λ s, s {{ pending := dict_del (pending s) p.1 }});
      _ ← expire_request sid p.1;
      failed_request sid p.2 "TIMEOUT"
    else mret tt).

Definition tick_session (now : Q) (sid : string) : node_call unit :=
  c ← gets config;
  s ← session_of sid;
  if peer_closed (peer s) then mret tt
  else if negb (established (peer s)) then
    when (Qle_bool (handshake_timeout c) (now - created s)) (close_peer sid)
  else
    _ ← expire_pending sid now;
    _ ← with_session sid (λ s, s {{ expired := filter (λ p, Qle_bool p.2 now = false) (expired s) }});
    s ← session_of sid;
    if bool_decide (ping_nonce s ≠ None) && Qle_bool (ping_deadline s) now then close_peer sid
    else
      _ ← when (bool_decide (ping_nonce s = None) && Qle_bool (next_ping s) now) (
            nonce ← node_token;
            _ ← with_session sid (λ s, s {{ ping_nonce := Some nonce; ping_deadline := (now + pong_timeout c)%Q;
                                            next_ping := (now + ping_interval c)%Q }});
            _ ← send sid (message "PING" [("nonce", JStr nonce)] None); mret tt);
      _ ← when (Qle_bool (next_status s) now) (
            _ ← request sid "GET_STATUS" [];
            with_session sid (λ s, s {{ next_status := (now + status_interval c)%Q }}));
      when (Qle_bool (next_discovery s) now) (
        _ ← request sid "GET_PEERS" [];
        with_session sid (λ s, s {{ next_discovery := (now + discovery_interval c)%Q }})).

(** The loop over the due candidates, with its [continue] and [break]. *)
Fixpoint dial_due (l : list Endpoint) : node_call unit :=
  match l with
  | [] => mret tt
  | e :: l =>
      n ← gets id;
      if bool_decide (node_endpoint n = Some e) || bool_decide (e ∈ dial_tasks n)
         || existsb (λ p, bool_decide (session_endpoint p.2 = Some e) && negb (peer_closed (peer p.2))) (sessions n)
      then dial_due l
      else if dial_slots_full n then mret tt
      else _ ← begin_dial e; dial_due l
  end.

Definition tick : node_call unit :=
  now ← node_clock;
  all ← gets sessions;
  _ ← for_each (dict_keys all) (tick_session now);
  _ ← sync_tick now;
  due ← on_manager (due_candidates None);
  dial_due due.

(** ** The dispatcher *)

Definition peer_fault (e : exn) : bool := bool_decide (e ∈ [ProtocolError; PolicyLimitError; ValueError]).
Definition caller_fault (e : exn) : bool := bool_decide (e ∈ [TypeError; ValueError]) || is_network_error e.

(** A message of a session that is still there. *)
Definition dispatch_remote (sid : string) (m : Message) : node_call unit :=
  all ← gets sessions;
  match dict_get all sid with
  | None => mret tt
  | Some s =>
      if peer_closed (peer s) then mret tt
      else
        try_call (remote sid m) peer_fault (λ e,
          _ ← with_session sid (λ s, s {{ session_error := Some (exn_name e) }});
          close_peer sid)
  end.

(** What the body of the loop does for an event, and what the event's future
    is set to, if it has one that is still waited for. *)
Definition dispatch_body (ev : Event) (cancelled : bool) : node_call (option (result Reply)) :=
  _ ← reap_peers;
  match event_kind ev with
  | EvTick => _ ← modify (λ n, n {{ tick_queued := false }}); _ ← tick; mret None
  | EvRemote sid m => _ ← dispatch_remote sid m; mret None
  | EvCommand cmd =>
      if cancelled then mret None
      else try_call (r ← command cmd; mret (Some (Ok r))) caller_fault (λ e, mret (Some (Raise e)))
  end.

(** With the handler of unexpected errors, and the [finally] clause. *)
Definition dispatch (ev : Event) (cancelled : bool) : node_call (option (result Reply)) :=
  r ← try_call (dispatch_body ev cancelled) (λ _, true) (λ e,
        _ ← fatal e;
        mret (match event_kind ev with EvCommand _ => Some (Raise e) | _ => None end));
  _ ← release (event_size ev);
  mret r.

(** [event = await self._events.get()], then the body. *)
Definition dispatch_next (cancelled : bool) : node_call (option (result Reply)) := λ n,
  match events n with
  | ev :: rest =>
      if bool_decide (run_state n = RUNNING) then dispatch ev cancelled (n {{ events := rest }}) else (Ok None, n)
  | [] => (Ok None, n)
  end.

(** ** Putting events *)

Definition put_event (ev : Event) : node_call unit := λ n,
  if inbound_max_events (config n) <=? Z.of_nat (length (events n)) then (Raise QueueFull, n)
  else (Ok tt, n {{ events := events n ++ [ev] }}).

(** [_call], up to awaiting the future. *)
Definition call_node (cmd : Command) (size : Z) : node_call unit :=
  _ ← ask_node ensure_running;
  ok ← reserve size;
  if negb ok then raise NodeBusyError
  else try_call (put_event (MkEvent (EvCommand cmd) size)) (λ _, true) (λ e, _ ← release size; raise e).

(** [submit_transaction] and [accept_block]: [Some false] at once, or an event. *)
Definition ENCODING_ERRORS : list exn :=
  [StorageCorruptionError; TypeError; ValueError; AttributeError; RecursionError].

Definition call_submit (tx : Transaction) : node_call (option bool) :=
  _ ← ask_node ensure_running;
  match try_except (d ← encode_transaction tx; Ok (Some d)) ENCODING_ERRORS None with
  | Ok (Some data) => _ ← call_node (CmdSubmit tx) (frame_len data + 4); mret None
  | Ok None => mret (Some false)
  | Raise e => raise e
  end.

Definition call_block (b : Block) : node_call (option bool) :=
  _ ← ask_node ensure_running;
  match try_except (d ← encode_block b; Ok (Some d)) ENCODING_ERRORS None with
  | Ok (Some data) => _ ← call_node (CmdBlock b) (frame_len data + 4); mret None
  | Ok None => mret (Some false)
  | Raise e => raise e
  end.

Definition call_wallet_history (address : string) (start limit : Z) : node_call unit :=
  if (start <? 0) || negb ((1 <=? limit) && (limit <=? 100)) then raise ValueError
  else call_node (CmdWalletHistory address start limit) 1.

(** One turn of [_maintenance_loop]. *)
Definition maintenance : node_call unit := λ n,
  if negb (bool_decide (run_state n = RUNNING)) || tick_queued n then (Ok tt, n)
  else (ok ← reserve 1;
        if (ok : bool) then _ ← modify (λ n, n {{ tick_queued := true }}); put_event (MkEvent EvTick 1)
        else mret tt) n.

(** ** Connections *)

(** [_on_message]: whether the event takes over the reservation. *)
Definition on_message (sid : string) (m : Message) (size : Z) : node_call bool :=
  n ← gets id;
  if negb (bool_decide (run_state n = RUNNING)) || bool_decide (sid ∉ dict_keys (sessions n)) then mret false
  else _ ← put_event (MkEvent (EvRemote sid m) size); mret true.

Definition with_peer (sid : string) (f : PeerConnection → PeerConnection) : node_call unit :=
  with_session sid (λ s, s {{ peer := f (peer s) }}).

(** The [finally] of the body, when the reader still owns the reservation. *)
Definition release_reading (sid : string) : node_call unit :=
  s ← session_of sid;
  match reading (peer s) with
  | Some size => _ ← with_peer sid (λ p, p {{ reading := None }}); release size
  | None => mret tt
  end.

(** The reader has a prefix. *)
Definition read_prefix (sid : string) (prefix : bytes) : node_call unit :=
  c ← gets config;
  now1 ← node_clock; now2 ← node_clock;
  try_call
    (size ← on_peer sid (read_header c prefix now1 now2);
     ok ← reserve size;
     if (ok : bool) then with_peer sid (λ p, p {{ reading := Some size }})
     else with_peer sid (λ p, begin_close (p {{ close_reason := Some "global inbound queue limit" }})))
    (λ _, true) (λ e, with_peer sid (reader_failed e)).

(** The reader has the body it reserved room for. *)
Definition read_body (sid : string) (body : bytes) : node_call unit :=
  c ← gets config;
  s ← session_of sid;
  match reading (peer s) with
  | None => mret tt
  | Some size =>
      match decode_message body (max_frame_bytes c) with
      | Raise e => _ ← release_reading sid; with_peer sid (reader_failed e)
      | Ok m =>
          now ← node_clock;
          _ ← with_peer sid (λ p, p {{ last_received := now }});
          try_call
            (owned ← on_message sid m size;
             if (owned : bool) then with_peer sid (λ p, p {{ reading := None }}) else release_reading sid)
            (λ _, true)
            (λ e, _ ← release_reading sid; with_peer sid (reader_failed e))
      end
  end.

(** The stream ended, failed or timed out. *)
Definition read_failed (sid : string) (e : exn) : node_call unit :=
  _ ← release_reading sid; with_peer sid (reader_failed e).

(** The close task has run: [_cleanup], whose last act is the callback. *)
Definition finish_close (sid : string) (failed : option exn) : node_call unit :=
  _ ← release_reading sid;
  _ ← with_peer sid (cleanup failed);
  on_close sid.

(** ** Starting *)

(** [__init__], and the [Blockchain] that [_startup] opens; the table of
    candidates holds the configured seeds. *)
Definition new_node (c : NodeConfig) (bc : Blockchain) (w : World) : result Node :=
  match draw_token w with
  | (Raise e, _) => Raise e
  | (Ok me, w) =>
      match peer_manager c w with
      | (Raise e, _) => Raise e
      | (Ok _, (m, w)) =>
          Ok (MkNode c me CREATED None bc None [] 0 0 [] [] [] [] m (MkSync [] [] 0 None) false
                (MkCounters 0 0 0 0) w)
      end
  end.

Definition begin_start : node_call unit :=
  st ← gets run_state;
  if negb (bool_decide (st = CREATED)) then raise NodeClosedError
  else modify (λ n, n {{ run_state := STARTING }}).

(** [_startup] once the server's socket is bound to [listen]. *)
Definition startup_listening (listen : Endpoint) : node_call unit :=
  st ← gets run_state;
  if negb (bool_decide (st = STARTING)) then raise NodeClosedError
  else
    _ ← modify (λ n, n {{ node_endpoint := Some listen }});
    _ ← on_manager (set_self_endpoint listen);
    modify (λ n, n {{ run_state := RUNNING }}).

(** [_startup] once the server serves. *)
Definition startup_serving : node_call unit :=
  n ← gets id;
  if negb (bool_decide (run_state n = RUNNING)) then raise NodeClosedError
  else for_each (seeds (config n)) (λ e, _ ← on_manager (add_candidate e true); mret tt).

(** [start] when [_startup] raised: [_begin_stop] follows. *)
Definition start_failed (e : exn) : node_call unit := modify (λ n,
  if bool_decide (run_state n ∈ [STOPPING; STOPPED]) then n
  else begin_stop (n {{ failure := match failure n with Some x => Some x | None => Some e end; run_state := FAILED }})).

(** ** Stopping *)

(** [_cleanup] from the queue on: its tasks are joined and its peers closed. *)
Definition finish_stop : node_call unit :=
  evs ← gets events;
  _ ← for_each evs (λ ev, _ ← release (event_size ev); modify (λ n, n {{ events := tail (events n) }}));
  _ ← modify (λ n, n {{ sessions := []; closed_peers := []; dial_tasks := [] }});
  _ ← sync_clear;
  _ ← modify (λ n, n {{ tick_queued := false }});
  _ ← try_call (on_chain close) (λ _, true) (λ e, modify (λ n,
        n {{ failure := match failure n with Some x => Some x | None => Some e end; run_state := FAILED }}));
  modify (λ n, if bool_decide (run_state n = FAILED) then n else n {{ run_state := STOPPED }}).
End node.
