(* ===== verification/NodeInv.v ===== *)
(** * The node's invariant, and the methods below the handlers

    [node_ok] is what holds between two steps of the node: its chain was
    reached by the methods of [Blockchain], the candidates, the exports and the
    sessions are within their bounds, and every reservation of inbound budget
    is owned by a queued event, by a reader, or by the event being handled.
    [contained] are the exceptions a handler may end with when nothing but the
    peer, the configuration or the storage is at fault. *)

From coqutil Require Import Datatypes.RecordSetters.
Import DoubleBraceUpdate.
From S2P Require Import Prelude Bytes Json JsonParse Crypto Transaction Mempool MempoolFacts.
From S2P Require Import Block Consensus ChainState Blockchain BlockchainFacts Codec.
From S2P Require Import CodecFacts NetConfig Messages Protocol ProtocolFacts FrameFacts.
From S2P Require Import ConfigFacts Effects Peer PeerFacts PeerManager PeerManagerFacts.
From S2P Require Import NodeState.
#[local] Open Scope Z_scope.

(** * The fields of a validated message

    What [validate_message] has checked is what the handlers read: the field is
    there and has its type. *)

(** Reading succeeds. *)
Definition reads {A} (r : result A) : Prop := ∃ a, r = Ok a.

Record valid_message (m : Message) (kind : string) (keys : list string) : Prop := {
  vm_schema : table_get SCHEMAS kind = Some keys;
  vm_keys : has_keys (message_fields m) keys = true;
  vm_request : check_request_id kind (request_id m) = Ok tt;
  vm_ints : check_present (λ v, check_integer v 0 MAX_HEIGHT)
              ["height"; "anchor_height"; "tip_height"; "cursor"; "next_cursor"] (message_fields m) = Ok tt;
  vm_hashes : check_present (λ v, check_hex v false) ["genesis_hash"; "tip_hash"; "anchor_hash"] (message_fields m) = Ok tt;
  vm_tokens : check_present (λ v, check_hex v true) ["node_id"; "connection_nonce"; "nonce"] (message_fields m) = Ok tt;
  vm_bools : check_present (λ v, expect match v with JBool _ => true | _ => false end) ["more"; "done"] (message_fields m) = Ok tt;
  vm_items : check_present check_item ["transaction"; "block"] (message_fields m) = Ok tt;
  vm_payload : check_payload kind (message_fields m) = Ok tt
}.

Lemma validate_inv m : validate_message m = Ok tt → ∃ keys, valid_message m (message_kind m) keys.
Proof.
  unfold validate_message, message_kind. intros (? & _ & H)%bind_Ok.
  destruct (message_type m) as [| | |kind| |]; try done.
  destruct (table_get SCHEMAS kind) as [keys|] eqn:Hs; [|done].
  destruct (payload m) as [| | | | |p] eqn:Hp; try done.
  apply bind_Ok in H as ([] & Hk%expect_Ok & H). apply bind_Ok in H as ([] & Hr & H).
  apply bind_Ok in H as ([] & H1 & H). apply bind_Ok in H as ([] & H2 & H). apply bind_Ok in H as ([] & H3 & H).
  apply bind_Ok in H as ([] & H4 & H). apply bind_Ok in H as ([] & H5 & H6).
  assert (message_fields m = p) as Hf by (unfold message_fields; by rewrite Hp).
  exists keys. constructor; rewrite ?Hf; done.
Qed.

Lemma check_present_member check names p k v :
  check_present check names p = Ok tt → k ∈ names → member p k = Ok v → check v = Ok tt.
Proof.
  induction names as [|n names IH]; [by intros _ ?%not_elem_of_nil|]. cbn [check_present].
  intros ([] & Hn & H)%bind_Ok Hk Hv. rewrite member_table in Hv. apply elem_of_cons in Hk as [->|Hk].
  - destruct (table_get p n); [|done]. by injection Hv as ->.
  - apply IH; [done..|]. by rewrite member_table.
Qed.

Section fields.
Context {m : Message} {kind : string} {keys : list string} (Hm : valid_message m kind keys).

Lemma reads_member k : k ∈ keys → reads (member (message_fields m) k).
Proof. intros Hk. by eapply member_has; [apply Hm|]. Qed.

Lemma reads_int k :
  k ∈ keys → k ∈ ["height"; "anchor_height"; "tip_height"; "cursor"; "next_cursor"] →
  ∃ z, field_int (message_fields m) k = Ok z ∧ 0 <= z.
Proof.
  intros [v Hv]%reads_member Hk. unfold field_int. rewrite Hv, Ok_bind.
  pose proof (check_present_member _ _ _ _ _ (vm_ints _ _ _ Hm) Hk Hv) as Hc. cbn beta in Hc.
  destruct v; try by apply expect_Ok in Hc. apply expect_Ok, andb_true_iff in Hc as [?%Z.leb_le _]. by eexists.
Qed.

Lemma reads_str k :
  k ∈ keys →
  k ∈ ["genesis_hash"; "tip_hash"; "anchor_hash"] ∨ k ∈ ["node_id"; "connection_nonce"; "nonce"] ∨ k ∈ ["transaction"; "block"] →
  reads (field_str (message_fields m) k).
Proof.
  intros [v Hv]%reads_member Hk. unfold field_str. rewrite Hv, Ok_bind.
  assert (check_hex v false = Ok tt ∨ check_hex v true = Ok tt ∨ check_item v = Ok tt) as Hc.
  { destruct Hk as [Hk|[Hk|Hk]]; [left|right; left|right; right].
    - apply (check_present_member _ _ _ _ _ (vm_hashes _ _ _ Hm) Hk Hv).
    - apply (check_present_member _ _ _ _ _ (vm_tokens _ _ _ Hm) Hk Hv).
    - apply (check_present_member _ _ _ _ _ (vm_items _ _ _ Hm) Hk Hv). }
  destruct v; [by destruct Hc as [Hc|[Hc|Hc]]; apply expect_Ok in Hc..|by eexists| |];
    by destruct Hc as [Hc|[Hc|Hc]]; apply expect_Ok in Hc.
Qed.

Lemma reads_bool k : k ∈ keys → k ∈ ["more"; "done"] → reads (field_bool (message_fields m) k).
Proof.
  intros [v Hv]%reads_member Hk. unfold field_bool. rewrite Hv, Ok_bind.
  pose proof (check_present_member _ _ _ _ _ (vm_bools _ _ _ Hm) Hk Hv) as Hc. cbn beta in Hc.
  destruct v; try by apply expect_Ok in Hc. by eexists.
Qed.
End fields.

(** ** The branches of [check_payload] *)

Lemma check_each_Forall (check : json → result unit) l : check_each check l = Ok tt → Forall (λ v, check v = Ok tt) l.
Proof.
  induction l as [|v l IH]; cbn [check_each]; [constructor|]. intros ([] & Hv & Hl)%bind_Ok. constructor; auto.
Qed.

Lemma check_item_str v : check_item v = Ok tt → reads (item_str v).
Proof. destruct v; intros Hv%expect_Ok; try done. by eexists. Qed.

Lemma check_integer_int v lo hi : check_integer v lo hi = Ok tt → ∃ z, v = JInt z ∧ lo <= z <= hi.
Proof. destruct v; intros H%expect_Ok; try done. apply andb_true_iff in H as [?%Z.leb_le ?%Z.leb_le]. by eexists. Qed.

Lemma field_int_member p k z : member p k = Ok (JInt z) → field_int p k = Ok z.
Proof. unfold field_int. by intros ->. Qed.

Definition items_ok (p : list (string * json)) (k : string) (maximum : Z) : Prop :=
  ∃ l, field_items p k = Ok l ∧ Z.of_nat (length l) <= maximum ∧ Forall (λ v, reads (item_str v)) l.

Lemma check_items_ok p k v l maximum :
  member p k = Ok v → check_list v maximum = Ok l → check_each check_item l = Ok tt → items_ok p k maximum.
Proof.
  intros Hv Hl Hc. destruct v as [| | | |l'|]; try done. cbn in Hl. apply bind_Ok in Hl as ([] & Hn%expect_Ok & [= ->]).
  exists l. unfold field_items. rewrite Hv. split; [done|]. split; [by apply Z.leb_le|].
  eapply Forall_impl; [by apply check_each_Forall|]. intros x Hx. by apply check_item_str.
Qed.

Lemma payload_version p :
  check_payload "VERSION" p = Ok tt → reads (field_str p "network_id") ∧ reads (field_int p "listen_port").
Proof.
  unfold check_payload. rewrite bool_decide_eq_true_2 by done.
  intros (n & Hn & ([] & Hs%expect_Ok & (l & Hl & Hc)%bind_Ok)%bind_Ok)%bind_Ok.
  destruct n; try done. apply check_integer_int in Hc as (z & -> & _). unfold field_str, field_int, reads.
  rewrite Hn, Hl. split; by eexists.
Qed.

Lemma payload_get_blocks p :
  check_payload "GET_BLOCKS" p = Ok tt → ∃ l, field_int p "limit" = Ok l ∧ 1 <= l <= MAX_BLOCK_BATCH.
Proof.
  unfold check_payload. rewrite bool_decide_eq_false_2, bool_decide_eq_true_2 by done.
  intros (v & Hv & (z & -> & Hz)%check_integer_int)%bind_Ok. exists z. split; [by apply field_int_member|done].
Qed.

Lemma payload_blocks p : check_payload "BLOCKS" p = Ok tt → items_ok p "blocks" MAX_BLOCK_BATCH.
Proof.
  unfold check_payload. rewrite !bool_decide_eq_false_2, bool_decide_eq_true_2 by done.
  intros (v & Hv & (l & Hl & Hc)%bind_Ok)%bind_Ok. by eapply check_items_ok.
Qed.

Lemma payload_get_mempool p :
  check_payload "GET_MEMPOOL" p = Ok tt → ∃ l, field_int p "limit" = Ok l ∧ 1 <= l <= MAX_MEMPOOL_PAGE.
Proof.
  unfold check_payload. rewrite !bool_decide_eq_false_2, bool_decide_eq_true_2 by done.
  intros (v & Hv & ([] & (z & -> & Hz)%check_integer_int & _)%bind_Ok)%bind_Ok.
  exists z. split; [by apply field_int_member|done].
Qed.

Lemma payload_mempool p :
  check_payload "MEMPOOL" p = Ok tt → reads (field_str p "snapshot_id") ∧ items_ok p "transactions" MAX_MEMPOOL_PAGE.
Proof.
  unfold check_payload. rewrite !bool_decide_eq_false_2, bool_decide_eq_true_2 by done.
  intros (s & Hs & (? & Hx & (t & Ht & (l & Hl & ([] & Hc & _)%bind_Ok)%bind_Ok)%bind_Ok)%bind_Ok)%bind_Ok. split.
  - destruct s; try (by apply bind_Ok in Hx as (? & ?%expect_Ok & _)); try by apply expect_Ok in Hx.
    unfold field_str. rewrite Hs. by eexists.
  - by eapply check_items_ok.
Qed.

Lemma payload_error p : check_payload "ERROR" p = Ok tt → reads (field_str p "code").
Proof.
  unfold check_payload. rewrite !bool_decide_eq_false_2, bool_decide_eq_true_2 by done.
  intros (v & Hv & ([] & Hc%expect_Ok & _)%bind_Ok)%bind_Ok. destruct v; try done. unfold field_str. rewrite Hv. by eexists.
Qed.

(** One entry of [peers], as the handler reads it. *)
Definition peer_reads (v : json) : Prop :=
  match v with JObj q => reads (field_str q "host") ∧ reads (field_int q "port") | _ => False end.

Lemma payload_peers p :
  check_payload "PEERS" p = Ok tt →
  ∃ l, field_items p "peers" = Ok l ∧ Z.of_nat (length l) <= MAX_PEER_ENDPOINTS ∧ Forall peer_reads l.
Proof.
  unfold check_payload. rewrite !bool_decide_eq_false_2, bool_decide_eq_true_2 by done.
  intros (v & Hv & (l & Hl & Hc)%bind_Ok)%bind_Ok. destruct v as [| | | |l'|]; try done.
  cbn in Hl. apply bind_Ok in Hl as ([] & Hn%expect_Ok & [= ->]).
  exists l. unfold field_items. rewrite Hv. split; [done|]. split; [by apply Z.leb_le|].
  eapply Forall_impl; [by apply check_each_Forall|]. intros [| | | | |q] Hq; try done.
  cbn in Hq. apply bind_Ok in Hq as ([] & _ & (h & Hh & ([] & Hs & (z & Hz & (n & -> & _)%check_integer_int)%bind_Ok)%bind_Ok)%bind_Ok).
  destruct h; try done. unfold peer_reads, field_str, field_int, reads. rewrite Hh, Hz. split; by eexists.
Qed.

(** ** Exceptions *)

Definition contained (e : exn) : Prop :=
  e ∈ [ProtocolError; PolicyLimitError; ValueError; BeyondLatin1] ∨ is_storage_error e = true.

Lemma contained_in e : e ∈ [ProtocolError; PolicyLimitError; ValueError; BeyondLatin1] → contained e.
Proof. by left. Qed.

Lemma contained_protocol : contained ProtocolError. Proof. left; by left. Qed.
Lemma contained_policy : contained PolicyLimitError. Proof. left; right; by left. Qed.
Lemma contained_value : contained ValueError. Proof. left; right; right; by left. Qed.
#[export] Hint Resolve contained_protocol contained_policy contained_value : pychain.

Lemma encode_transaction_raises tx : raises_in [StorageCorruptionError; BeyondLatin1] (encode_transaction tx).
Proof.
  apply raises_in_reraise. intros e H%fmap_Raise. revert e H. unfold transaction_data.
  apply raises_in_bind; [apply raises_in_transaction_from_dict|intros ? _; apply raises_in_Ok].
Qed.

Lemma encode_block_raises b : raises_in [StorageCorruptionError; BeyondLatin1] (encode_block b).
Proof.
  apply raises_in_reraise. apply raises_in_bind.
  - apply raises_in_map_result. intros tx. unfold transaction_data.
    apply raises_in_bind; [apply raises_in_transaction_from_dict|intros ? _; apply raises_in_Ok].
  - intros ? _. apply raises_in_bind; [apply raises_in_block_from_dict|intros ? _; apply raises_in_Ok].
Qed.

Lemma pack_contained {A} (encoder : A → result bytes) v n e :
  (∀ v, raises_in [StorageCorruptionError; BeyondLatin1] (encoder v)) → pack encoder v n = Raise e → contained e.
Proof.
  intros Henc [[_ <-]%raise_if_Raise|(? & _ & [H|(d & _ & [[_ <-]%raise_if_Raise|(? & _ & [=])]%bind_Raise)]%bind_Raise)]%bind_Raise;
    [auto with pychain| |auto with pychain].
  destruct (encoder v) as [d|err] eqn:Hx; cbn [reraise_as] in H; [done|]. apply Henc in Hx.
  case_bool_decide as Hin; injection H as <-; [auto with pychain|].
  rewrite !elem_of_cons in Hx. destruct Hx as [->|[->|Hx]]; [..|by apply not_elem_of_nil in Hx].
  - destruct Hin. by apply list_elem_of_singleton.
  - left. right; right; right; by left.
Qed.

Lemma pack_transaction_contained tx n e : pack_transaction tx n = Raise e → contained e.
Proof. apply pack_contained, encode_transaction_raises. Qed.
Lemma pack_block_contained b n e : pack_block b n = Raise e → contained e.
Proof. apply pack_contained, encode_block_raises. Qed.

Lemma unpack_contained {A} (decoder : bytes → result A) s n e :
  (∀ d x, decoder d = Raise x → x = StorageCorruptionError ∨ x = BeyondLatin1) →
  unpack decoder s n = Raise e → contained e.
Proof.
  intros Hdec He. destruct (decide (0 < n)) as [Hn|Hn].
  - apply (unpack_raises decoder s n Hn Hdec) in He. left. revert He. unfold UNTRUSTED_ERRORS.
    rewrite !elem_of_cons. tauto.
  - unfold unpack, check_limit_positive in He. rewrite (proj2 (Z.leb_le n 0)), raise_if_true in He by lia.
    injection He as <-. auto with pychain.
Qed.

Lemma unpack_transaction_contained s n e : unpack_transaction s n = Raise e → contained e.
Proof. apply unpack_contained, decode_transaction_raises. Qed.
Lemma unpack_block_contained s n e : unpack_block s n = Raise e → contained e.
Proof. apply unpack_contained, decode_block_raises. Qed.

Lemma encode_message_contained m n e : encode_message m n = Raise e → contained e.
Proof.
  intros [[_ <-]%raise_if_Raise|(? & _ & [H|(? & _ & H)]%bind_Raise)]%bind_Raise; [auto with pychain| |].
  - apply raises_in_validate, list_elem_of_singleton in H as ->. auto with pychain.
  - cbv zeta in H. apply bind_Raise in H as [[_ <-]%raise_if_Raise|(? & _ & [=])]. auto with pychain.
Qed.

(** ** The chain's methods raise storage errors only *)

Section chain.
Context {EL : EcdsaLib} {CS : ChainStore}.

Definition storage_only {A} (r : result A) : Prop := ∀ e, r = Raise e → is_storage_error e = true.

Lemma ensure_usable_storage bc : storage_only (ensure_usable bc).
Proof. intros e [[_ <-]%raise_if_Raise|(? & _ & [_ <-]%raise_if_Raise)]%bind_Raise; done. Qed.

(** A query raises only when the object is not usable. *)
Lemma query_storage {A} bc (f : unit → result A) : (∀ u e, f u ≠ Raise e) → storage_only (ensure_usable bc ≫= f).
Proof. intros Hf e [H|(u & _ & H)]%bind_Raise; [by eapply ensure_usable_storage|by apply Hf in H]. Qed.

Lemma get_latest_block_storage limit bc : bc_inv limit bc → storage_only (get_latest_block bc).
Proof. intros Hbc. apply query_storage. intros u e. destruct (bc_inv_tip _ _ Hbc) as (l & t & _ & ->). done. Qed.

Lemma mempool_snapshot_storage limit bc : bc_inv limit bc → storage_only (mempool_snapshot bc).
Proof. intros Hbc. apply query_storage. intros u e. by rewrite mempool_copy_id by apply Hbc. Qed.

Lemma submit_transaction_storage limit tx bc r bc' :
  bc_inv limit bc → submit_transaction tx bc = (r, bc') → storage_only r.
Proof.
  intros Hbc. unfold submit_transaction, pool_change.
  assert (∀ m, ∃ v m', add_transaction m tx = Ok (v, m')) as Hadd.
  { intros m. destruct (add_transaction_cases m tx) as [(? & ? & _ & _ & ->)|[-> _]]; by do 2 eexists. }
  destruct (ensure_usable bc) as [u|e] eqn:Hu.
  - destruct (store bc).
    + rewrite mempool_copy_id by apply Hbc. rewrite Ok_bind. destruct (Hadd (mempool bc)) as ([|] & m' & ->).
      * destruct (commit _ _ _ _ bc) as [[|e] bc1] eqn:Hcm; intros [= <- <-]; [done|].
        apply commit_cases in Hcm as [(? & ? & ? & _)|(? & ? & Heq & He & _)]; [done|].
        injection Heq as ->. by intros ? [= <-].
      * by intros [= <- <-].
    + destruct (Hadd (mempool bc)) as (v & m' & ->). by intros [= <- <-].
  - intros [= <- <-]. intros x [= <-]. by eapply ensure_usable_storage.
Qed.

Lemma add_block_storage limit clock b bc r bc' :
  bc_inv limit bc → add_block b clock None bc = (r, bc') → storage_only r.
Proof.
  intros Hbc Ha. destruct (add_block_cases clock clock None _ _ _ _ _ Hbc eq_refl Ha) as
    [(e & Hu & -> & _)|[(-> & _)|(next & mp & _ & _ & _ & [(s & rev & -> & _)|(s & e & -> & He & _)])]].
  - intros x [= <-]. by eapply ensure_usable_storage.
  - done.
  - done.
  - by intros x [= <-].
Qed.
End chain.

(** ** The invariant *)

(** What a request carries, for the handlers of its answer. *)
Definition request_ok (r : PendingRequest) : Prop :=
  let p := request_payload r in
  (request_kind r = "GET_STATUS" ∨ request_kind r = "GET_PEERS") ∨
  (request_kind r = "GET_BLOCKS" ∧ (∃ h, field_int p "anchor_height" = Ok h) ∧
     (∃ a, field_str p "anchor_hash" = Ok a) ∧ ∃ l, field_int p "limit" = Ok l) ∨
  (request_kind r = "GET_MEMPOOL" ∧ (∃ t, field_str p "tip_hash" = Ok t) ∧ ∃ l, field_int p "limit" = Ok l).

Record session_ok (c : NodeConfig) (sid : string) (s : Session) : Prop := {
  so_id : connection_id (peer s) = sid;
  so_peer : peer_inv c (peer s);
  so_pending : Z.of_nat (length (pending s)) <= max_requests c;
  so_kinds : NoDup (map (λ p, request_kind p.2) (pending s));
  so_requests : Forall (λ p, request_ok p.2) (pending s);
  so_expired : (length (expired s) <= MAX_EXPIRED)%nat;
  so_version : version_received s = true →
    session_endpoint s ≠ None ∧ peer_node_id (peer s) ≠ None ∧ remote_nonce (peer s) ≠ None;
  so_established : established (peer s) = true → version_received s = true;
  so_address : peer_address (peer s) ≠ None;
  so_endpoint : ∀ e, session_endpoint s = Some e → config_validate_endpoint c e = Ok e
}.

Record export_ok (c : NodeConfig) (x : ExportSnapshot) : Prop := {
  xo_size : 0 <= export_size x <= snapshot_max_bytes c;
  xo_exact : sumZ_with frame_len (export_items x) = export_size x;
  xo_count : Z.of_nat (length (export_items x)) <= snapshot_max_transactions c;
  xo_cursor : 0 <= export_cursor x <= Z.of_nat (length (export_items x))
}.

Record sync_ok (c : NodeConfig) (y : SyncManager) : Prop := {
  yo_bytes : snapshot_bytes y = sumZ_with (λ p, export_size p.2) (exports y);
  yo_global : snapshot_bytes y <= snapshot_global_bytes c;
  yo_keys : NoDup (dict_keys (exports y));
  yo_exports : Forall (λ p, export_ok c p.2) (exports y);
  yo_download_keys : NoDup (dict_keys (downloads y));
  yo_downloads : Forall (λ p, 0 <= download_count p.2 <= snapshot_max_transactions c ∧
                              download_size p.2 <= snapshot_max_bytes c) (downloads y)
}.

Section invariant.
Context {EL : EcdsaLib} {CS : ChainStore}.

Definition readings (l : list (string * Session)) : list Z := omap (λ p, reading (peer p.2)) l.

(** A message is put into the queue after it was checked. *)
Definition event_ok (ev : Event) : Prop :=
  match event_kind ev with EvRemote _ m => validate_message m = Ok tt | _ => True end.

(** Who owns the reserved budget; [owed] is the event being handled. *)
Record inbound_ok (c : NodeConfig) (owed : list Z) (n : Node) : Prop := {
  io_events : inbound_events n = Z.of_nat (length (events n) + length (readings (sessions n)) + length owed);
  io_bytes : inbound_bytes n = sumZ_with event_size (events n) + sumZ_with id (readings (sessions n)) + sumZ_with id owed;
  io_sizes : Forall (λ z, 0 <= z) (map event_size (events n) ++ readings (sessions n) ++ owed);
  io_max_events : inbound_events n <= inbound_max_events c;
  io_max_bytes : inbound_bytes n <= inbound_max_bytes c;
  io_messages : Forall event_ok (events n)
}.

(** At most one live connection to a peer. *)
Definition is_live (p : PeerConnection) : Prop := established p = true ∧ peer_closed p = false.
Definition unique_live (n : Node) : Prop := ∀ i j s t,
  dict_get (sessions n) i = Some s → dict_get (sessions n) j = Some t → is_live (peer s) → is_live (peer t) →
  peer_node_id (peer s) = peer_node_id (peer t) → i = j.

(** What a change of a connection leaves as it was. *)
Definition steady (p q : PeerConnection) : Prop :=
  reading q = reading p ∧ (is_live q → is_live p ∧ peer_node_id q = peer_node_id p).

Lemma steady_refl p : steady p p.
Proof. done. Qed.

Lemma steady_closed p q : reading q = reading p → peer_closed q = true → steady p q.
Proof. intros Hr Hc. split; [done|]. intros [_ Ho]. congruence. Qed.

Lemma steady_down p q : reading q = reading p → established q = false → steady p q.
Proof. intros Hr Hc. split; [done|]. intros [Ho _]. congruence. Qed.

(** A connection whose callback was called has no reader. *)
Definition closed_reading (n : Node) : Prop :=
  ∀ sid s, sid ∈ closed_peers n → dict_get (sessions n) sid = Some s → reading (peer s) = None.

Record node_ok (c : NodeConfig) (limit : Z) (c0 : Blockchain) (owed : list Z) (keys : list string) (n : Node) : Prop := {
  no_config : config n = c;
  no_chain : rtc (bc_step limit) c0 (node_chain n);
  no_world : world_ok is_token limit (world n);
  no_manager : manager_inv c (manager n);
  no_sync : sync_ok c (sync n);
  no_keys : dict_keys (sessions n) = keys;
  no_sessions : Forall (λ p, session_ok c p.1 p.2) (sessions n);
  no_dials : Forall (λ e, config_validate_endpoint c e = Ok e) (dial_tasks n);
  no_unique : unique_live n;
  no_closed : closed_reading n;
  no_inbound : inbound_ok c owed n
}.

(** The hypotheses of a node's life: a checked configuration and a chain that
    started well; at a point between two changes of the table of sessions. *)
Context (c : NodeConfig) (limit : Z) (c0 : Blockchain) (owed : list Z) (keys : list string).
Context (Hconfig : config_limits c) (Hchain : bc_inv limit c0) (Hkeys : NoDup keys).

Definition ok : Node → Prop := node_ok c limit c0 owed keys.

Lemma ok_chain n : ok n → bc_inv limit (node_chain n).
Proof. intros Hn. eapply bc_steps_inv; [apply Hn|exact Hchain]. Qed.

Lemma ok_session n sid s : ok n → dict_get (sessions n) sid = Some s → session_ok c sid s.
Proof.
  intros Hn Hs%dict_get_elem. pose proof (no_sessions _ _ _ _ _ _ Hn) as Ho.
  rewrite Forall_forall in Ho. apply (Ho _ Hs).
Qed.

(** A change of a field the invariant does not read. *)
Lemma ok_same n n' :
  ok n → config n' = config n → node_chain n' = node_chain n → world n' = world n → manager n' = manager n →
  sync n' = sync n → sessions n' = sessions n → events n' = events n → inbound_events n' = inbound_events n →
  inbound_bytes n' = inbound_bytes n → closed_peers n' = closed_peers n →
  dial_tasks n' = dial_tasks n → ok n'.
Proof.
  intros [H1 H2 H3 H4 H5 H6 H7 HD HU HC [I1 I2 I3 I4 I5 I6]] E1 E2 E3 E4 E5 E6 E7 E8 E9 E10 E11.
  constructor; [..|constructor]; unfold closed_reading, unique_live; rewrite ?E1, ?E2, ?E3, ?E4, ?E5, ?E6, ?E7, ?E8, ?E9, ?E10, ?E11; done.
Qed.

(** The accounting reads the queue, the counters and the readers' reservations. *)
Lemma inbound_same n n' extra :
  inbound_ok c extra n → events n' = events n → readings (sessions n') = readings (sessions n) →
  inbound_events n' = inbound_events n → inbound_bytes n' = inbound_bytes n → inbound_ok c extra n'.
Proof. intros [I1 I2 I3 I4 I5 I6] E1 E2 E3 E4. constructor; rewrite ?E1, ?E2, ?E3, ?E4; done. Qed.

Lemma readings_ext (g : string * Session → string * Session) l :
  (∀ p, p ∈ l → reading (peer (g p).2) = reading (peer p.2)) → readings (map g l) = readings l.
Proof.
  intros Hg. unfold readings. induction l as [|p l IH]; [done|].
  pose proof (Hg p (list_elem_of_here _ _)) as Hp. specialize (IH (λ q Hq, Hg q (list_elem_of_further _ _ _ Hq))).
  cbn [map omap list_omap]. rewrite Hp. by destruct (reading (peer p.2)); rewrite IH.
Qed.

(** ** Rules for the primitive steps *)

Context (X : exn → Prop).

Lemma keeps_node_world {A} (m : call World A) (Q : A → Prop) :
  keeps (world_ok is_token limit) m Q X → keeps ok (node_world m) Q X.
Proof.
  intros Hm. eapply keeps_zoom; [exact Hm|apply no_world|].
  intros n w [H1 H2 H3 H4 H5 H6 H7 HD HU HC [I1 I2 I3 I4 I5 I6]] Hw. by constructor; [..|constructor].
Qed.

Lemma keeps_clock : keeps ok node_clock (λ _, True) X.
Proof. apply keeps_node_world, keeps_read_clock. Qed.
Lemma keeps_token : keeps ok node_token (λ t, is_token t = true) X.
Proof. apply keeps_node_world, keeps_draw_token. Qed.
Lemma keeps_wall : keeps ok (node_world read_wall) (λ t, 0 <= t <= limit) X.
Proof. apply keeps_node_world, keeps_read_wall. Qed.

Lemma keeps_config : keeps ok (gets config) (λ x, x = c) X.
Proof. apply keeps_gets. intros n Hn. apply Hn. Qed.

Lemma keeps_session sid : sid ∈ keys → keeps ok (session_of sid) (session_ok c sid) X.
Proof.
  intros Hsid n Hn. unfold session_of. destruct (dict_get (sessions n) sid) as [s|] eqn:Hs.
  - split; [done|]. by eapply ok_session.
  - apply dict_get_None in Hs. by rewrite (no_keys _ _ _ _ _ _ Hn) in Hs.
Qed.

(** Changing one session keeps the live connections apart when no other one
    that is live has the name the changed one is live under. *)
Lemma unique_map n n' sid s (f : Session → Session) :
  unique_live n → dict_get (sessions n) sid = Some s → sessions n' = dict_map f sid (sessions n) →
  (is_live (peer (f s)) → ∀ j t, j ≠ sid → dict_get (sessions n) j = Some t → is_live (peer t) →
     peer_node_id (peer (f s)) ≠ peer_node_id (peer t)) → unique_live n'.
Proof.
  intros HU Hs Hn' Hf i j s1 s2. rewrite Hn', !dict_map_get. intros H1 H2 L1 L2 Hid.
  destruct (decide (i = sid)) as [->|Hi], (decide (j = sid)) as [->|Hj]; [done|..|].
  - rewrite bool_decide_eq_true_2, Hs in H1 by done. injection H1 as <-. rewrite bool_decide_eq_false_2 in H2 by done.
    by destruct (Hf L1 j s2 Hj H2 L2).
  - rewrite bool_decide_eq_true_2, Hs in H2 by done. injection H2 as <-. rewrite bool_decide_eq_false_2 in H1 by done.
    by destruct (Hf L2 i s1 Hi H1 L1).
  - rewrite bool_decide_eq_false_2 in H1, H2 by done. by eapply HU.
Qed.

(** Changing one session. *)
Lemma ok_set_session n sid s f :
  ok n → dict_get (sessions n) sid = Some s → session_ok c sid (f s) → steady (peer s) (peer (f s)) →
  ok (n {{ sessions := dict_map f sid (sessions n) }}).
Proof.
  intros [H1 H2 H3 H4 H5 H6 H7 HD HU HC H8] Hs Hok [Hread Hlive].
  assert (NoDup (dict_keys (sessions n))) as Hnd by (by rewrite H6).
  constructor; [done|done|done|done|done| | |done| | |].
  - change (dict_keys (dict_map f sid (sessions n)) = keys). by rewrite dict_map_keys.
  - by apply (dict_map_get_Forall _ _ _ _ s).
  - apply (unique_map n _ sid s f HU Hs); [done|]. intros [Ls Hid]%Hlive j t Hj Ht Lt Heq.
    rewrite Hid in Heq. apply Hj. by eapply HU.
  - intros k s' Hk Hs'. change (dict_get (dict_map f sid (sessions n)) k = Some s') in Hs'.
    rewrite dict_map_get in Hs'. case_bool_decide as Heq; [subst k|by eapply HC].
    rewrite Hs in Hs'. injection Hs' as <-. rewrite Hread. by eapply HC.
  - apply (inbound_same n); [done|done| |done|done].
    apply readings_ext. intros [k s'] Hin. case_bool_decide as Hk; [|done]. cbn [fst snd] in *. subst k.
    apply dict_elem_get in Hin; [|done]. assert (s' = s) as -> by congruence. exact Hread.
Qed.

Lemma ok_get n sid : ok n → sid ∈ keys → ∃ s, dict_get (sessions n) sid = Some s.
Proof.
  intros Hn Hsid. destruct (dict_get (sessions n) sid) as [s|] eqn:Hs; [by exists s|].
  apply dict_get_None in Hs. by rewrite (no_keys _ _ _ _ _ _ Hn) in Hs.
Qed.

Lemma keeps_with_session sid (f : Session → Session) :
  sid ∈ keys →
  (∀ s, session_ok c sid s → session_ok c sid (f s) ∧ steady (peer s) (peer (f s))) →
  keeps ok (with_session sid f) (λ _, True) X.
Proof.
  intros Hsid Hf. apply keeps_modify; [done|]. intros n Hn.
  destruct (ok_get n sid Hn Hsid) as [s Hs]. destruct (Hf s (ok_session _ _ _ Hn Hs)). by eapply ok_set_session.
Qed.

Lemma keeps_on_peer {A} sid (m : call PeerConnection A) (Q : A → Prop) :
  sid ∈ keys →
  (∀ s r p, session_ok c sid s → m (peer s) = (r, p) →
     session_ok c sid (s {{ peer := p }}) ∧ steady (peer s) p ∧
     match r with Ok a => Q a | Raise e => X e end) →
  keeps ok (on_peer sid m) Q X.
Proof.
  intros Hsid Hm n Hn. unfold on_peer. destruct (ok_get n sid Hn Hsid) as [s Hs]. rewrite Hs.
  destruct (m (peer s)) as [r p] eqn:Hr. destruct (Hm s r p (ok_session _ _ _ Hn Hs) Hr) as (Hok & Hread & Hres).
  assert (ok (n {{ sessions := dict_map (λ s, s {{ peer := p }}) sid (sessions n) }})) as Hn'
    by (by eapply (ok_set_session n sid s)).
  by destruct r.
Qed.

Lemma keeps_with_sync (f : SyncManager → SyncManager) :
  (∀ y, sync_ok c y → sync_ok c (f y)) → keeps ok (with_sync f) (λ _, True) X.
Proof.
  intros Hf. apply keeps_modify; [done|]. intros n [H1 H2 H3 H4 H5 H6 H7 HD HU HC [I1 I2 I3 I4 I5 I6]].
  constructor; [..|constructor]; try done. by apply Hf.
Qed.

Lemma keeps_count f : keeps ok (count f) (λ _, True) X.
Proof. apply keeps_modify; [done|]. intros n Hn. by apply (ok_same n). Qed.

Lemma keeps_ask_chain {A} (f : Blockchain → result A) (Q : A → Prop) :
  (∀ bc e, bc_inv limit bc → f bc = Raise e → X e) → (∀ bc a, bc_inv limit bc → f bc = Ok a → Q a) →
  keeps ok (ask_chain f) Q X.
Proof.
  intros HX HQ n Hn. unfold ask_chain. pose proof (ok_chain n Hn) as Hbc.
  destruct (f (node_chain n)) as [a|e] eqn:Hf; split; eauto.
Qed.

Lemma keeps_on_chain {A} (m : method A) (Q : A → Prop) :
  (∀ bc r bc', bc_inv limit bc → m bc = (r, bc') →
     rtc (bc_step limit) bc bc' ∧ match r with Ok a => Q a | Raise e => X e end) →
  keeps ok (on_chain m) Q X.
Proof.
  intros Hm n Hn. unfold on_chain, zoom. destruct (m (node_chain n)) as [r bc'] eqn:Hr.
  destruct (Hm _ _ _ (ok_chain n Hn) Hr) as [Hsteps Hres].
  destruct Hn as [H1 H2 H3 H4 H5 H6 H7 HD HU HC [I1 I2 I3 I4 I5 I6]].
  assert (ok (n {{ node_chain := bc' }})) as Hn'.
  { constructor; [..|constructor]; try done. change (rtc (bc_step limit) c0 bc'). by etrans. }
  by destruct r.
Qed.

Lemma keeps_on_manager {A} (m : manager_call A) (R : A → PeerManager → Prop) :
  hoare (pre c limit any) m (λ a, pre c limit (R a)) (fails c limit) → X ValueError →
  keeps ok (on_manager m) (λ a, ∃ m', R a m') X.
Proof.
  intros Hm HX n Hn. unfold on_manager, zoom.
  assert (pre c limit any (manager n, world n)) as Hp by (split; [split; apply Hn|done]).
  specialize (Hm _ Hp). destruct (m (manager n, world n)) as [r [mg w]].
  destruct Hn as [H1 H2 H3 H4 H5 H6 H7 HD HU HC [I1 I2 I3 I4 I5 I6]]. destruct r as [a|e].
  - destruct Hm as [[Hmg Hw] HR]. split; [|by exists mg]. by constructor; [..|constructor].
  - destruct Hm as [[Hmg Hw] ->]. split; [|done]. by constructor; [..|constructor].
Qed.
End invariant.
