(* ===== verification/NodeSteps.v ===== *)
(** * The methods below the handlers keep the invariant

    Sending, requesting, relaying and committing, each with the exceptions it
    may end with. *)

From coqutil Require Import Datatypes.RecordSetters.
Import DoubleBraceUpdate.
From S2P Require Import Prelude Bytes Json JsonParse Crypto Transaction Block Mempool Blockchain BlockchainFacts.
From S2P Require Import Codec CodecFacts NetConfig ConfigFacts Messages Protocol Effects Peer PeerFacts.
From S2P Require Import PeerManager PeerManagerFacts NodeState NodeInv.
#[local] Open Scope Z_scope.

Section steps.
Context {EL : EcdsaLib} {CS : ChainStore}.
Context (c : NodeConfig) (limit : Z) (c0 : Blockchain) (owed : list Z) (keys : list string).
Context (Hconfig : config_limits c) (Hchain : bc_inv limit c0) (Hkeys : NoDup keys).

Definition guards {A} (m : node_call A) (Q : A → Prop) : Prop := keeps (ok c limit c0 owed keys) m Q contained.
Definition safe {A} (m : node_call A) : Prop := guards m (λ _, True).

Lemma guards_bind {A B} (m : node_call A) (f : A → node_call B) P Q :
  guards m P → (∀ a, P a → guards (f a) Q) → guards (m ≫= f) Q.
Proof. apply keeps_bind. Qed.
Lemma safe_bind {A B} (m : node_call A) (f : A → node_call B) Q :
  safe m → (∀ a, guards (f a) Q) → guards (m ≫= f) Q.
Proof. apply keeps_seq. Qed.
Lemma guards_safe {A} (m : node_call A) P : guards m P → safe m.
Proof. apply keeps_any. Qed.
Lemma guards_ret {A} (a : A) (Q : A → Prop) : Q a → guards (mret a) Q.
Proof. apply keeps_ret. Qed.
Lemma safe_ret {A} (a : A) : safe (mret a).
Proof. by apply guards_ret. Qed.
Lemma guards_raise {A} e (Q : A → Prop) : contained e → guards (raise e) Q.
Proof. apply keeps_raise. Qed.
Lemma guards_lift {A} (r : result A) (Q : A → Prop) :
  (∀ a, r = Ok a → Q a) → (∀ e, r = Raise e → contained e) → guards (lift r) Q.
Proof. apply keeps_lift. Qed.
Lemma guards_Ok {A} (a : A) r (Q : A → Prop) : r = Ok a → Q a → guards (lift r) Q.
Proof. intros -> Ha. apply guards_lift; [by intros ? [= <-]|done]. Qed.
Lemma safe_when b m : (b = true → safe m) → safe (when b m).
Proof. apply keeps_when; done. Qed.
Lemma safe_gets {A} (f : Node → A) : safe (gets f).
Proof. by apply keeps_gets. Qed.
Lemma safe_for {Y} (l : list Y) f : (∀ x, x ∈ l → safe (f x)) → safe (for_each l f).
Proof. apply keeps_for. Qed.
Lemma guards_config : guards (gets config) (λ x, x = c).
Proof. apply keeps_config. Qed.
Lemma guards_session sid : sid ∈ keys → guards (session_of sid) (session_ok c sid).
Proof. apply keeps_session. Qed.
Lemma safe_clock : safe node_clock.
Proof. apply keeps_clock. Qed.
Lemma safe_with_session sid f :
  sid ∈ keys → (∀ s, session_ok c sid s → session_ok c sid (f s) ∧ steady (peer s) (peer (f s))) →
  safe (with_session sid f).
Proof. by apply keeps_with_session. Qed.
Lemma safe_with_sync f : (∀ y, sync_ok c y → sync_ok c (f y)) → safe (with_sync f).
Proof. apply keeps_with_sync. Qed.

(** A change of a session that its invariant does not read. *)
Lemma session_same sid s s' :
  session_ok c sid s → peer s' = peer s → pending s' = pending s → expired s' = expired s →
  version_received s' = version_received s → session_endpoint s' = session_endpoint s → session_ok c sid s'.
Proof. intros [] E1 E2 E3 E4 E5. constructor; rewrite ?E1, ?E2, ?E3, ?E4, ?E5; done. Qed.

Lemma safe_session_field sid f :
  sid ∈ keys →
  (∀ s, peer (f s) = peer s ∧ pending (f s) = pending s ∧ expired (f s) = expired s ∧
        version_received (f s) = version_received s ∧ session_endpoint (f s) = session_endpoint s) →
  safe (with_session sid f).
Proof.
  intros Hsid Hf. apply safe_with_session; [done|]. intros s Hs. destruct (Hf s) as (E1 & E2 & E3 & E4 & E5).
  split; [by eapply session_same|rewrite E1; apply steady_refl].
Qed.

(** ** Sending *)

(** What a connection keeps when only its writer or its flags changed. *)
Definition same_name (p q : PeerConnection) : Prop :=
  connection_id q = connection_id p ∧ peer_node_id q = peer_node_id p ∧ remote_nonce q = remote_nonce p ∧
  peer_address q = peer_address p ∧ (established q = true → established p = true) ∧
  (peer_closed q = false → peer_closed p = false).
Definition same_identity (p q : PeerConnection) : Prop := same_name p q ∧ reading q = reading p.

Lemma session_peer sid s p :
  session_ok c sid s → peer_inv c p → same_name (peer s) p → session_ok c sid (s {{ peer := p }}).
Proof.
  intros [S1 S2 S3 S4 S5 S6 S7 S8 S9 S10] Hp (E1 & E2 & E3 & E4 & E6 & _).
  constructor; try done; change (peer (s {{ peer := p }})) with p; try (by rewrite E1); try (by rewrite E4).
  - rewrite E2, E3. exact S7.
  - intros He. by apply S8, E6.
Qed.

Lemma same_steady p q : same_identity p q → steady p q.
Proof. intros [(E1 & E2 & E3 & E4 & E5 & E6) E7]. split; [done|]. intros [? ?]. split; [split|]; auto. Qed.

Lemma begin_close_identity p : same_identity p (begin_close p).
Proof. unfold begin_close. by destruct (close_begun p). Qed.

Lemma sent_identity m p r p' : sent c m p r p' → same_identity p p'.
Proof.
  intros []; try done. unfold begin_close. change (close_begun (p {{ close_reason := _ }})) with (close_begun p).
  by destruct (close_begun p).
Qed.

Lemma safe_send sid m : sid ∈ keys → safe (send sid m).
Proof.
  intros Hsid. unfold send. apply safe_bind; [apply safe_gets|intros st].
  eapply guards_bind; [by apply guards_session|intros s Hs].
  destruct (negb _ || _); [apply safe_ret|].
  eapply guards_bind; [apply guards_config|intros ? ->].
  apply safe_bind.
  - apply keeps_on_peer; [done|done|]. intros s' r p Hs' Hsend. apply send_sent in Hsend; [|apply Hs'].
    pose proof (sent_identity _ _ _ _ Hsend) as Hid. split; [|split; [by apply same_steady|]].
    + apply session_peer; [done| |apply Hid]. eapply sent_inv; [apply Hs'|exact Hsend].
    + inversion Hsend; try done. by eapply encode_message_contained.
  - intros result. apply safe_bind; [|intros ?; apply safe_ret]. apply safe_when. intros _. apply keeps_count.
Qed.

Lemma safe_send_error sid rid code : sid ∈ keys → safe (send_error sid rid code).
Proof. intros Hsid. unfold send_error. apply safe_bind; [by apply safe_send|intros; apply safe_ret]. Qed.

Lemma safe_policy m : safe m → safe (ignore_policy_limit m).
Proof. intros Hm. eapply keeps_try; [exact Hm|intros e _ _; apply safe_ret|done]. Qed.

Lemma safe_broadcast m source : safe (broadcast m source).
Proof.
  unfold broadcast. eapply guards_bind; [apply (keeps_gets _ _ _ (λ l, l = keys)); intros n Hn; apply Hn|intros ? ->].
  apply safe_for. intros sid Hsid. eapply guards_bind; [by apply guards_session|intros s Hs].
  destruct (_ && _); [|apply safe_ret].
  apply safe_policy, safe_bind; [by apply safe_send|intros; apply safe_ret].
Qed.

(** ** Requests *)

(** Sending changes the connection of a session and nothing else of it. *)
Lemma send_session sid m n r n' k s' :
  send sid m n = (r, n') → dict_get (sessions n') k = Some s' →
  ∃ s, dict_get (sessions n) k = Some s ∧ pending s' = pending s.
Proof.
  unfold send, mbind, call_bind, gets, session_of, on_peer.
  destruct (dict_get (sessions n) sid) as [s|] eqn:Hs; [|intros [= <- <-] Hk; by exists s'].
  destruct (negb _ || _); [intros [= <- <-] Hk; by exists s'|].
  rewrite Hs. destruct (peer_send (config n) m (peer s)) as [b p] eqn:Hp. intros Heq Hk.
  assert (sessions n' = dict_map (λ s, s {{ peer := p }}) sid (sessions n)) as Hn'
    by (destruct b as [[]|]; by injection Heq as _ <-).
  rewrite Hn', dict_map_get in Hk. case_bool_decide; [|by exists s'].
  apply fmap_Some in Hk as (s1 & Hs1 & ->). by exists s1.
Qed.

Lemma bind_run {A B} (m : node_call A) (f : A → node_call B) n :
  (m ≫= f) n = match m n with (Ok a, n') => f a n' | (Raise e, n') => (Raise e, n') end.
Proof. done. Qed.

Lemma has_request_spec kind s : has_request kind s = false → kind ∉ map (λ p, request_kind p.2) (pending s).
Proof.
  unfold has_request. intros Hf (p & -> & Hp)%list_elem_of_fmap. apply not_true_iff_false in Hf. apply Hf.
  apply existsb_exists. exists p. split; [by apply list_elem_of_In|by apply bool_decide_eq_true].
Qed.

(** A new request: there is room for it, and none of its kind. *)
Lemma session_add_request sid s rid kind members d :
  session_ok c sid s → has_request kind s = false → Z.of_nat (length (pending s)) < max_requests c →
  request_ok (MkRequest kind members d) →
  session_ok c sid (s {{ pending := dict_set (pending s) rid (MkRequest kind members d) }}).
Proof.
  intros [S1 S2 S3 S4 S5 S6 S7 S8 S9 S10] Hnew%has_request_spec Hroom Hreq.
  constructor; try done; change (pending (s {{ pending := ?l }})) with l.
  - change (Z.of_nat (length (dict_set (pending s) rid (MkRequest kind members d))) <= max_requests c).
    rewrite dict_set_length. case_bool_decide; lia.
  - change (NoDup (map (λ p, request_kind p.2) (dict_set (pending s) rid (MkRequest kind members d)))).
    clear - S4 Hnew. induction (pending s) as [|[k r] l IH]; cbn [dict_set map].
    + apply NoDup_singleton.
    + cbn in S4, Hnew. apply NoDup_cons in S4 as [Hr Hl]. apply not_elem_of_cons in Hnew as [Hne Hnew].
      case_bool_decide; cbn; apply NoDup_cons; split; [done|done| |by apply IH].
      intros (q & Hq & Hin)%list_elem_of_fmap. apply dict_set_elem in Hin as [->|Hin]; [by apply Hne|].
      apply Hr, list_elem_of_fmap. by exists q.
  - by apply (dict_set_Forall (λ p, request_ok p.2)).
Qed.

Lemma safe_request sid kind members :
  sid ∈ keys → (∀ d, request_ok (MkRequest kind members d)) → safe (request sid kind members).
Proof.
  intros Hsid Hreq n0 Hn0. unfold request. rewrite bind_run. unfold session_of at 1.
  destruct (ok_get _ _ _ _ _ n0 sid Hn0 Hsid) as [s0 Hs0]. rewrite Hs0, bind_run. unfold gets at 1.
  rewrite (no_config _ _ _ _ _ _ Hn0).
  destruct (_ || _) eqn:Hbusy; [done|]. apply orb_false_iff in Hbusy as [[_ Hroom%Z.leb_gt]%orb_false_iff Hkind].
  rewrite bind_run.
  pose proof (keeps_token c limit c0 owed keys contained n0 Hn0) as Ht.
  destruct (node_token n0) as [[rid|e] n1] eqn:Htok; [|done]. destruct Ht as [Hn1 _].
  assert (sessions n1 = sessions n0) as Hs1 by (by injection Htok as _ <-).
  rewrite bind_run. pose proof (safe_send sid (message kind members (Some rid)) Hsid n1 Hn1) as Hsend.
  destruct (send sid _ n1) as [[b|e] n2] eqn:Hs; [|done]. destruct Hsend as [Hn2 _].
  destruct b; cbn [negb]; [|done]. rewrite bind_run.
  pose proof (safe_clock n2 Hn2) as Hc. destruct (node_clock n2) as [[now|e] n3] eqn:Hclk; [|done].
  destruct Hc as [Hn3 _]. assert (sessions n3 = sessions n2) as Hs3 by (by injection Hclk as _ <-).
  rewrite bind_run. split; [|done].
  destruct (ok_get _ _ _ _ _ n3 sid Hn3 Hsid) as [s3 Hg3].
  assert (pending s3 = pending s0) as Hp.
  { rewrite Hs3 in Hg3. destruct (send_session _ _ _ _ _ _ _ Hs Hg3) as (s1 & Hg1 & ->).
    rewrite Hs1, Hs0 in Hg1. by injection Hg1 as <-. }
  eapply (ok_set_session _ _ _ _ _ Hkeys n3 sid s3); [done|done| |done].
  apply session_add_request; [by eapply ok_session| | |apply Hreq].
  - unfold has_request in *. by rewrite Hp.
  - by rewrite Hp.
Qed.

Lemma safe_expire_request sid rid : sid ∈ keys → safe (expire_request sid rid).
Proof.
  intros Hsid. unfold expire_request. apply safe_bind; [apply safe_clock|intros now].
  apply safe_with_session; [done|]. intros s [S1 S2 S3 S4 S5 S6 S7 S8 S9 S10]. split; [|done].
  constructor; try done. cbv zeta.
  change (length (drop (length (dict_set (expired s) rid (now + 60)%Q) - MAX_EXPIRED)
                       (dict_set (expired s) rid (now + 60)%Q)) <= MAX_EXPIRED)%nat.
  rewrite length_drop. lia.
Qed.

(** ** The chain *)

Lemma guards_tip : safe node_tip.
Proof.
  unfold node_tip. apply safe_bind.
  - apply keeps_ask_chain; [done| |done]. intros bc e _ He. right. by eapply query_storage in He.
  - intros h. apply safe_bind; [|intros b; apply safe_ret].
    apply keeps_ask_chain; [done| |done]. intros bc e Hbc He. right. by eapply get_latest_block_storage.
Qed.

Lemma guards_status_payload : safe status_payload.
Proof. unfold status_payload. apply safe_bind; [apply guards_tip|intros t; apply safe_ret]. Qed.

(** ** Synchronisation state *)

Lemma sync_del y cid x :
  sync_ok c y → dict_get (exports y) cid = Some x →
  sync_ok c (y {{ exports := dict_del (exports y) cid; snapshot_bytes := snapshot_bytes y - export_size x }}).
Proof.
  intros [Y1 Y2 Y3 Y4 Y5 Y6] Hx. constructor; try done.
  - change (snapshot_bytes y - export_size x = sumZ_with (λ p, export_size p.2) (dict_del (exports y) cid)).
    rewrite Y1. clear - Y3 Hx. induction (exports y) as [|[k v] l IH]; [done|].
    rewrite dict_get_cons in Hx. unfold dict_keys in Y3. rewrite fmap_cons, NoDup_cons in Y3. destruct Y3 as [Hk Hl].
    unfold dict_del. rewrite filter_cons. cbn [fst]. destruct (decide (k = cid)) as [->|Hne].
    + rewrite bool_decide_eq_true_2 in Hx by done. injection Hx as ->. rewrite decide_False by tauto. cbn.
      fold (dict_del l cid). rewrite (dict_del_notin l cid) by done. lia.
    + rewrite bool_decide_eq_false_2 in Hx by done. rewrite decide_True by done. cbn. specialize (IH Hl Hx).
      unfold dict_del in IH. lia.
  - change (snapshot_bytes y - export_size x <= snapshot_global_bytes c).
    apply dict_get_elem in Hx. rewrite Forall_forall in Y4. pose proof (xo_size _ _ (Y4 _ Hx)). cbn in *. lia.
  - by apply (dict_del_NoDup (exports y)).
  - by apply (dict_del_Forall (λ p, export_ok c p.2) (exports y)).
Qed.

Lemma safe_drop_export cid : safe (drop_export cid).
Proof.
  apply safe_with_sync. intros y Hy. destruct (dict_get (exports y) cid) as [x|] eqn:Hx; [by apply sync_del|done].
Qed.

Lemma sync_downloads y l :
  sync_ok c y → NoDup (dict_keys l) → Forall (λ p, 0 <= download_count p.2 <= snapshot_max_transactions c ∧
                             download_size p.2 <= snapshot_max_bytes c) l →
  sync_ok c (y {{ downloads := l }}).
Proof. intros [] Hk Hl. by constructor. Qed.

Lemma sync_source y src : sync_ok c y → sync_ok c (y {{ source := src }}).
Proof. intros []. by constructor. Qed.

Lemma safe_sync_disconnected cid : safe (sync_disconnected cid).
Proof.
  unfold sync_disconnected. apply safe_bind; [apply safe_drop_export|intros _]. apply safe_with_sync.
  intros y Hy. apply (sync_source (y {{ downloads := dict_del (downloads y) cid }})).
  apply sync_downloads; [done|apply dict_del_NoDup, Hy|apply dict_del_Forall, Hy].
Qed.

Lemma safe_tip_changed : safe tip_changed.
Proof.
  unfold tip_changed. apply safe_bind; [apply safe_gets|intros cids].
  apply safe_bind; [apply safe_for; intros; apply safe_drop_export|intros _].
  apply safe_bind; [apply safe_with_sync; intros y Hy; apply sync_downloads; [done|apply NoDup_nil_2|done]|intros _].
  apply keeps_modify; [done|]. intros n [H1 H2 H3 H4 H5 H6 H7 HD HU HC H8].
  set (g := λ p : string * Session, (p.1, p.2 {{ next_mempool := 0%Q }})).
  constructor; [done|done|done|done|done| | |done| | |].
  - change (dict_keys (map g (sessions n)) = keys). rewrite <- H6. unfold dict_keys. rewrite <- list_fmap_compose. done.
  - change (Forall (λ p, session_ok c p.1 p.2) (map g (sessions n))). apply Forall_map. eapply Forall_impl; [exact H7|].
    intros [k s] Hs. by apply (session_same _ s).
  - assert (∀ k s, dict_get (map g (sessions n)) k = Some s → ∃ t, dict_get (sessions n) k = Some t ∧ peer s = peer t) as Hback.
    { intros k s Hs. apply dict_get_elem, list_elem_of_fmap in Hs as ([k' s'] & [= -> ->] & Hin). exists s'.
      split; [|done]. apply (dict_elem_get (sessions n)); [by rewrite H6|done]. }
    intros i j s t (s' & Hs & Es)%Hback (t' & Ht & Et)%Hback. rewrite Es, Et. by apply HU.
  - intros k s Hk Hs. change (dict_get (map g (sessions n)) k = Some s) in Hs.
    apply dict_get_elem, list_elem_of_fmap in Hs as ([k' s'] & [= -> ->] & Hin). cbn.
    apply (dict_elem_get (sessions n)) in Hin; [|by rewrite H6]. by apply (HC k' s').
  - apply (inbound_same _ n); [done|done| |done|done]. by apply (readings_ext g).
Qed.

(** ** Committing, then relaying *)

Lemma safe_node_submit tx source : safe (node_submit_transaction tx source).
Proof.
  unfold node_submit_transaction. apply safe_bind.
  - apply keeps_on_chain; [done|]. intros bc r bc' Hbc Hr. split.
    + by eapply rtc_once, step_submit.
    + destruct r; [done|]. right. by eapply submit_transaction_storage.
  - intros accepted. apply safe_bind; [|intros ?; apply safe_ret]. apply safe_when. intros _.
    apply safe_bind; [apply keeps_count|intros _]. apply safe_policy.
    eapply guards_bind; [apply guards_config|intros ? ->].
    apply safe_bind; [apply guards_lift; [done|apply pack_transaction_contained]|intros encoded].
    apply safe_broadcast.
Qed.

Lemma safe_node_add_block b : safe (node_add_block b).
Proof.
  unfold node_add_block. eapply guards_bind; [apply keeps_wall|intros now Hnow].
  apply keeps_on_chain; [done|]. intros bc r bc' Hbc Hr. split.
  - eapply rtc_once, (step_add _ _ now None now); [done|apply Hnow|done].
  - destruct r; [done|]. right. by eapply add_block_storage.
Qed.

Lemma request_status_ok d : request_ok (MkRequest "GET_STATUS" [] d).
Proof. left. by left. Qed.

Lemma safe_node_accept b source : (∀ sid, source = Some sid → sid ∈ keys) → safe (node_accept_block b source).
Proof.
  intros Hsource. unfold node_accept_block. apply safe_bind; [apply guards_tip|intros t].
  destruct (negb _).
  - destruct source as [sid|]; [|apply safe_ret]. apply safe_bind.
    + apply keeps_ask_chain; [done| |done]. intros bc e _ He. right. by eapply query_storage in He.
    + intros known. apply safe_bind; [|intros ?; apply safe_ret]. apply safe_when. intros _.
      apply safe_bind; [|intros ?; apply safe_ret]. apply safe_request; [by apply Hsource|apply request_status_ok].
  - apply safe_bind; [apply safe_node_add_block|intros accepted].
    apply safe_bind; [|intros ?; apply safe_ret]. apply safe_when. intros _.
    apply safe_bind; [apply keeps_count|intros _].
    apply safe_bind; [apply safe_tip_changed|intros _].
    apply safe_bind.
    + apply safe_policy. eapply guards_bind; [apply guards_config|intros ? ->].
      apply safe_bind; [apply guards_lift; [done|apply pack_block_contained]|intros encoded]. apply safe_broadcast.
    + intros _. apply safe_bind; [apply guards_status_payload|intros st; apply safe_broadcast].
Qed.
End steps.

(** One step of a method that is run on a given state. *)
Ltac step_run := first [rewrite bind_run | rewrite call_run].
