(* ===== verification/SyncFacts.v ===== *)
(** * The synchronisation keeps the node's invariant

    Every method of [SyncManager], on messages that were validated, with the
    bounds on snapshots and downloads. *)

From coqutil Require Import Datatypes.RecordSetters.
Import DoubleBraceUpdate.
From S2P Require Import Prelude Bytes Json JsonParse Crypto Transaction Block Mempool MempoolFacts.
From S2P Require Import Blockchain BlockchainFacts Codec CodecFacts NetConfig ConfigFacts Messages.
From S2P Require Import Protocol ProtocolFacts FrameFacts Effects Peer PeerFacts PeerManager PeerManagerFacts.
From S2P Require Import NodeState NodeInv NodeSteps Sync.
#[local] Open Scope Z_scope.

Section sync.
Context {EL : EcdsaLib} {CS : ChainStore}.
Context (c : NodeConfig) (limit : Z) (c0 : Blockchain) (owed : list Z) (keys : list string).
Context (Hconfig : config_limits c) (Hchain : bc_inv limit c0) (Hkeys : NoDup keys).

Abbreviation guards := (guards c limit c0 owed keys).
Abbreviation safe := (safe c limit c0 owed keys).

Lemma guards_reads {A} (r : result A) : reads r → safe (lift r).
Proof. intros [a Ha]. by eapply guards_Ok. Qed.

Lemma safe_ignore {A} (m : node_call A) : safe m → safe (_ ← m; mret tt).
Proof. intros Hm. apply safe_bind; [done|intros; apply safe_ret]. Qed.

Lemma safe_field sid f :
  sid ∈ keys →
  (∀ s, peer (f s) = peer s ∧ pending (f s) = pending s ∧ expired (f s) = expired s ∧
        version_received (f s) = version_received s ∧ session_endpoint (f s) = session_endpoint s) →
  safe (with_session sid f).
Proof. by apply safe_session_field. Qed.

Lemma safe_sync_get : keeps (ok c limit c0 owed keys) (gets sync) (sync_ok c) contained.
Proof. apply keeps_gets. intros n Hn. apply Hn. Qed.

(** ** Requests of the timer *)

Lemma request_blocks_ok h t l d :
  request_ok (MkRequest "GET_BLOCKS" [("anchor_height", JInt h); ("anchor_hash", JStr t); ("limit", JInt l)] d).
Proof. right; left. split_and!; [done|by eexists..]. Qed.

Lemma request_mempool_ok t i k l d :
  request_ok (MkRequest "GET_MEMPOOL" [("tip_hash", JStr t); ("snapshot_id", i); ("cursor", k); ("limit", JInt l)] d).
Proof. right; right. split_and!; [done|by eexists..]. Qed.

Lemma best_candidate_elem p l : best_candidate p l ∈ p :: l.
Proof.
  unfold best_candidate. revert p. induction l as [|q l IH]; intros p; cbn [foldl]; [apply list_elem_of_here|].
  specialize (IH (if sync_before p.2 q.2 then p else q)).
  apply elem_of_cons in IH as [IH|IH]; rewrite !elem_of_cons; [|by right; right].
  rewrite IH. destruct (sync_before _ _); [by left|by right; left].
Qed.

Lemma safe_request_blocks h t now sids : safe (request_blocks h t now sids).
Proof.
  unfold request_blocks.
  eapply guards_bind; [apply (keeps_gets _ _ _ (λ l, dict_keys l = keys)); intros n Hn; apply Hn|intros all Hall; cbn beta in Hall].
  eapply guards_bind; [apply guards_config|intros ? ->].
  destruct (filter _ all) as [|p l] eqn:Hf; [apply safe_ret|]. cbv zeta.
  assert ((best_candidate p l).1 ∈ keys) as Hsid.
  { pose proof (best_candidate_elem p l) as Hin. rewrite <- Hf in Hin. apply list_elem_of_filter in Hin as [_ Hin].
    rewrite <- Hall. unfold dict_keys. by apply (list_elem_of_fmap_2 fst) in Hin. }
  apply safe_bind; [apply safe_request; [done..|intros; apply request_blocks_ok]|intros [r|]; [|apply safe_ret]].
  apply safe_bind; [apply safe_with_sync; intros y; apply sync_source|intros _]. by apply safe_field.
Qed.

Lemma sync_download y sid d :
  sync_ok c y → (0 <= download_count d <= snapshot_max_transactions c ∧ download_size d <= snapshot_max_bytes c) →
  sync_ok c (y {{ downloads := dict_set (downloads y) sid d }}).
Proof.
  intros Hy Hd. apply sync_downloads; [done|apply dict_set_NoDup, Hy|].
  apply (dict_set_Forall (λ p, 0 <= download_count p.2 <= snapshot_max_transactions c ∧
                               download_size p.2 <= snapshot_max_bytes c)); [done|apply Hy].
Qed.

Lemma config_positive n : n ∈ counts c → 0 < n.
Proof. destruct Hconfig as (_ & _ & _ & Hc & _). rewrite Forall_forall in Hc. apply Hc. Qed.

Lemma snapshot_limits : 0 < snapshot_max_transactions c ∧ 0 < snapshot_max_bytes c ∧ 0 < snapshot_global_bytes c.
Proof.
  split_and!; apply config_positive; unfold counts; rewrite !elem_of_app; right; right; rewrite !elem_of_cons; tauto.
Qed.

Lemma safe_request_mempool h t now sid : sid ∈ keys → safe (request_mempool h t now sid).
Proof.
  intros Hsid. unfold request_mempool. eapply guards_bind; [by apply guards_session|intros s Hs].
  apply safe_bind; [apply safe_when; intros _; by apply safe_field|intros _].
  eapply guards_bind; [by apply guards_session|intros s' Hs'].
  destruct (_ && _); [|apply safe_ret].
  eapply guards_bind; [apply safe_sync_get|intros y Hy]. eapply guards_bind; [apply guards_config|intros ? ->]. cbv zeta.
  set (d := default _ _).
  assert (0 <= download_count d <= snapshot_max_transactions c ∧ download_size d <= snapshot_max_bytes c) as Hd.
  { subst d. destruct (dict_get (downloads y) sid) as [d|] eqn:Hd; cbn.
    - apply dict_get_elem in Hd. pose proof (yo_downloads _ _ Hy) as Hf. rewrite Forall_forall in Hf. apply (Hf _ Hd).
    - pose proof snapshot_limits. lia. }
  apply safe_bind; [apply safe_request; [done..|intros; apply request_mempool_ok]|intros [r|]; [|apply safe_ret]].
  apply safe_bind; [apply safe_with_sync; intros y' Hy'; by apply sync_download|intros _]. by apply safe_field.
Qed.

Lemma safe_sync_tick now : safe (sync_tick now).
Proof.
  unfold sync_tick. apply safe_bind; [apply safe_gets|intros y].
  eapply guards_bind; [apply guards_config|intros ? ->].
  apply safe_bind; [apply safe_for; intros p _; apply safe_when; intros _; apply safe_drop_export|intros _].
  apply safe_bind; [apply guards_tip; done|intros t].
  eapply guards_bind; [apply (keeps_gets _ _ _ (λ l, dict_keys l = keys)); intros n Hn; apply Hn|intros all Hall; cbn beta in Hall]. cbv zeta.
  apply safe_bind.
  { apply safe_with_sync. intros z Hz. destruct (source z); [|done]. case_bool_decide; [done|by apply sync_source]. }
  intros _. apply safe_bind; [apply safe_gets|intros z].
  apply safe_bind; [apply safe_when; intros _; apply safe_request_blocks|intros _].
  apply safe_for. intros sid Hsid. apply safe_request_mempool.
  apply list_elem_of_fmap in Hsid as (p & -> & Hp). apply list_elem_of_filter in Hp as [_ Hp].
  rewrite <- Hall. unfold dict_keys. by apply (list_elem_of_fmap_2 fst) in Hp.
Qed.

Lemma safe_failed_request sid r code : sid ∈ keys → request_ok r → safe (failed_request sid r code).
Proof.
  intros Hsid Hr. unfold failed_request. apply safe_bind; [apply safe_clock|intros now].
  eapply guards_bind; [apply guards_config|intros ? ->].
  apply safe_bind; [by apply safe_field|intros _].
  case_bool_decide as Hk.
  - destruct Hr as [[Hr|Hr]|[(_ & Hh & Ha & _)|[Hr _]]]; try (by rewrite Hr in Hk).
    apply safe_bind; [apply safe_with_sync; intros y; apply sync_source|intros _].
    apply safe_bind; [by apply safe_field|intros _].
    apply safe_bind; [apply safe_when; intros _; by apply safe_field|intros _].
    apply safe_when. intros _. apply safe_bind; [by apply guards_reads|intros h].
    apply safe_bind; [by apply guards_reads|intros a].
    apply safe_bind; [by apply safe_field|intros _]. apply safe_ignore.
    apply safe_request; [done..|apply request_status_ok].
  - case_bool_decide; [|apply safe_ret].
    apply safe_bind; [apply safe_with_sync; intros y Hy; apply sync_downloads; [done|apply dict_del_NoDup, Hy|apply dict_del_Forall, Hy]|intros _].
    apply safe_bind; [by apply safe_field|intros _].
    apply safe_when. intros _. apply safe_ignore. apply safe_request; [done..|apply request_status_ok].
Qed.

(** ** Blocks *)

Lemma contained_storage e : is_storage_error e = true → contained e.
Proof. by right. Qed.

Lemma safe_fill_blocks rid ah ahash h t indices : ∀ acc, safe (fill_blocks rid ah ahash h t indices acc).
Proof.
  induction indices as [|i indices IH]; intros acc; cbn [fill_blocks]; [apply safe_ret|].
  eapply guards_bind; [apply guards_config|intros ? ->].
  eapply guards_bind with (P := λ r, ∀ e, r = Raise e → contained e).
  - apply keeps_gets. intros n Hn e [He|(b & _ & He)]%bind_Raise.
    + apply contained_storage. by eapply query_storage in He.
    + apply bind_Raise in He as [He|(b' & _ & He)]; [destruct b; [done|injection He as <-; auto with pychain]|].
      apply bind_Raise in He as [He|(enc & _ & He)]; [by eapply pack_block_contained|]. cbv zeta in He.
      apply bind_Raise in He as [He|(? & _ & [=])]. by eapply encode_message_contained.
  - intros [trial|e] He; [apply IH|]. case_bool_decide; [apply safe_ret|]. apply guards_raise. by apply He.
Qed.

Lemma safe_serve_blocks sid m keys' :
  sid ∈ keys → valid_message m "GET_BLOCKS" keys' → safe (serve_blocks sid m).
Proof.
  intros Hsid Hm. unfold serve_blocks. cbv zeta.
  assert (keys' = ["anchor_height"; "anchor_hash"; "limit"]) as -> by (pose proof (vm_schema _ _ _ Hm) as Hs; by injection Hs).
  destruct (reads_int Hm "anchor_height") as (h & Hh & _); [set_solver..|].
  destruct (payload_get_blocks _ (vm_payload _ _ _ Hm)) as (l & Hl & _).
  apply safe_bind; [by apply guards_reads; exists h|intros ah].
  apply safe_bind; [apply guards_reads, (reads_str Hm); set_solver|intros ahash].
  apply safe_bind; [by apply guards_reads; exists l|intros lim].
  apply safe_bind.
  { apply keeps_ask_chain; [done| |done]. intros bc e _ He. apply contained_storage. by eapply query_storage in He. }
  intros [b|]; [|by apply safe_send_error]. destruct (negb _); [by apply safe_send_error|].
  apply safe_bind; [apply guards_tip; done|intros t].
  apply safe_bind; [apply safe_fill_blocks|intros [blocks|]; [|by apply safe_send_error]].
  apply safe_ignore. by apply safe_send.
Qed.

Lemma safe_accept_blocks sid items :
  sid ∈ keys → Forall (λ v, reads (item_str v)) items → safe (accept_blocks sid items).
Proof.
  intros Hsid. induction 1 as [|v items Hv _ IH]; cbn [accept_blocks]; [apply safe_ret|].
  eapply guards_bind; [apply guards_config|intros ? ->].
  apply safe_bind; [by apply guards_reads|intros encoded].
  apply safe_bind; [apply guards_lift; [done|apply unpack_block_contained]|intros b].
  apply safe_bind; [apply guards_tip; done|intros t]. destruct (negb _); [apply guards_raise; auto with pychain|].
  apply safe_bind; [apply safe_node_accept; [done..|by intros ? [= <-]]|intros accepted].
  destruct (negb accepted); [apply safe_ret|apply IH].
Qed.

Lemma safe_receive_blocks sid r m keys' :
  sid ∈ keys → request_ok r → request_kind r = "GET_BLOCKS" → valid_message m "BLOCKS" keys' →
  safe (receive_blocks sid r m).
Proof.
  intros Hsid Hr Hk Hm. unfold receive_blocks. cbv zeta.
  assert (keys' = ["anchor_height"; "anchor_hash"; "tip_height"; "tip_hash"; "blocks"; "more"]) as ->
    by (pose proof (vm_schema _ _ _ Hm) as Hs; by injection Hs).
  assert (∀ k, k ∈ ["anchor_height"; "tip_height"] → reads (field_int (message_fields m) k)) as Hint.
  { intros k Hin. destruct (reads_int Hm k) as (z & Hz & _); [set_solver..|]. by exists z. }
  destruct (payload_blocks _ (vm_payload _ _ _ Hm)) as (items & Hi & _ & Hitems).
  assert (reads (field_int (request_payload r) "anchor_height") ∧ reads (field_str (request_payload r) "anchor_hash") ∧
    reads (field_int (request_payload r) "limit")) as (R1 & R2 & R3).
  { destruct Hr as [[Hr|Hr]|[(_ & Hh & Ha & Hl)|[Hr _]]]; try (by rewrite Hr in Hk). done. }
  apply safe_bind; [apply safe_with_sync; intros y; apply sync_source|intros _].
  apply safe_bind; [by apply safe_field|intros _].
  apply safe_bind; [apply guards_reads, Hint; set_solver|intros ah].
  apply safe_bind; [apply guards_reads, (reads_str Hm); set_solver|intros ahash].
  apply safe_bind; [by apply guards_reads|intros eh]. apply safe_bind; [by apply guards_reads|intros ehash].
  destruct (_ || _); [apply guards_raise; auto with pychain|].
  apply safe_bind; [apply guards_tip; done|intros t]. destruct (negb _); [apply safe_ret|].
  eapply guards_bind; [by apply (guards_Ok _ _ _ _ _ items _ (λ l, l = items))|intros ? ->].
  apply safe_bind; [by apply guards_reads|intros lim].
  apply safe_bind; [apply guards_reads, Hint; set_solver|intros th].
  apply safe_bind; [apply guards_reads, (reads_str Hm); set_solver|intros thash].
  apply safe_bind; [apply guards_reads, (reads_bool Hm); set_solver|intros more].
  destruct (_ || _); [apply guards_raise; auto with pychain|].
  apply safe_bind; [by apply safe_accept_blocks|intros complete].
  destruct (negb complete); [by apply safe_failed_request|].
  apply safe_bind; [apply guards_tip; done|intros t'].
  destruct (negb more && _); [apply guards_raise; auto with pychain|].
  apply safe_bind; [by apply safe_field|intros _].
  eapply guards_bind; [apply guards_config|intros ? ->].
  apply safe_bind.
  - case_bool_decide; [|by apply safe_field]. apply safe_bind; [apply safe_clock|intros now; by apply safe_field].
  - intros _. apply safe_when. intros _. apply safe_ignore. apply safe_request; [done..|apply request_status_ok].
Qed.

(** ** The pool: serving *)

(** What the steps that only ask leave behind. *)
Lemma tip_run n : ok c limit c0 owed keys n → ∃ r, node_tip n = (r, n) ∧ ∀ e, r = Raise e → contained e.
Proof.
  intros Hn. pose proof (guards_tip c limit c0 owed keys Hchain n Hn) as H. unfold node_tip in *.
  rewrite bind_run in *. unfold ask_chain at 1 in H. unfold ask_chain at 1.
  destruct (height (node_chain n)) as [h|e]; [|eexists; split; [done|]; intros ? [= <-]; by apply H].
  rewrite bind_run in *. unfold ask_chain in *.
  destruct (get_latest_block (node_chain n)) as [b|e]; [|eexists; split; [done|]; intros ? [= <-]; by apply H].
  by eexists.
Qed.

Lemma encode_transaction_bytes tx d : encode_transaction tx = Ok d → d = transaction_bytes tx.
Proof. by intros [_ ->]%encode_transaction_Ok. Qed.

(** A packed snapshot holds exactly the bytes of the transactions. *)
Lemma pack_snapshot_Ok t tok cnt rid txs items :
  pack_snapshot c t tok cnt rid txs = Ok items →
  length items = length txs ∧ sumZ_with frame_len items = sumZ_with transaction_size txs.
Proof.
  revert items. induction txs as [|tx txs IH]; intros items; cbn [pack_snapshot]; [by intros [= <-]|].
  intros (enc & Henc & (? & _ & (item & Hitem & (rest & Hrest & [= <-])%bind_Ok)%bind_Ok)%bind_Ok)%bind_Ok.
  apply IH in Hrest as [Hl Hs]. cbn [length sumZ_with]. rewrite Hl, Hs. split; [done|]. f_equal.
  unfold pack_transaction, pack in Henc.
  apply bind_Ok in Henc as (? & _ & (d & Hd%reraise_as_Ok & (? & _ & [= <-])%bind_Ok)%bind_Ok).
  rewrite b64decode_encode in Hitem. injection Hitem as <-. by apply encode_transaction_bytes in Hd as ->.
Qed.

Lemma pack_snapshot_contained t tok cnt rid txs e : pack_snapshot c t tok cnt rid txs = Raise e → contained e.
Proof.
  induction txs as [|tx txs IH]; cbn [pack_snapshot]; [done|].
  intros [He|(enc & Henc & [He|(? & _ & [He|(item & _ & [He|(? & _ & [=])]%bind_Raise)]%bind_Raise)]%bind_Raise)]%bind_Raise.
  - by eapply pack_transaction_contained.
  - by eapply encode_message_contained.
  - apply b64decode_raises in He as ->. auto with pychain.
  - by apply IH.
Qed.

Lemma pool_sizes m : mempool_inv m →
  sumZ_with transaction_size (get_transactions m) = total_bytes m ∧ 0 <= total_bytes m.
Proof.
  intros Hm. rewrite (inv_total _ Hm). assert (∀ p, p ∈ entries m → entry_size_bytes p.2 = transaction_size (entry_tx p)) as He.
  { intros p Hp. by eapply pending_entry; [apply Hm|]. }
  split.
  - unfold get_transactions. rewrite (sumZ_with_fmap entry_tx transaction_size).
    apply sumZ_with_ext. intros p Hp. cbn. by rewrite He.
  - apply sumZ_with_nonneg, Forall_forall. intros p Hp. cbn. rewrite He by done. unfold transaction_size. lia.
Qed.

(** Adding an export whose bytes were counted. *)
Lemma sync_add y sid x :
  sync_ok c y → export_ok c x → dict_get (exports y) sid = None →
  snapshot_bytes y + export_size x <= snapshot_global_bytes c →
  sync_ok c (y {{ snapshot_bytes := snapshot_bytes y + export_size x; exports := dict_set (exports y) sid x }}).
Proof.
  intros [Y1 Y2 Y3 Y4 Y5 Y6] Hx Hno Hmax. constructor; [|done| | |done|done].
  - change (snapshot_bytes y + export_size x = sumZ_with (λ p, export_size p.2) (dict_set (exports y) sid x)).
    rewrite Y1. clear - Hno. induction (exports y) as [|[k v] l IH]; cbn; [lia|].
    rewrite dict_get_cons in Hno. case_bool_decide; [done|]. cbn. specialize (IH Hno). lia.
  - by apply (dict_set_NoDup (exports y)).
  - by apply (dict_set_Forall (λ p, export_ok c p.2) (exports y)).
Qed.

Lemma ok_sync n y : ok c limit c0 owed keys n → sync_ok c y → ok c limit c0 owed keys (n {{ sync := y }}).
Proof. intros [H1 H2 H3 H4 H5 H6 H7 HD HU HC [I1 I2 I3 I4 I5 I6]] Hy. by constructor; [..|constructor]. Qed.

Lemma reserve_snapshot_ok sid rid t now stats n :
  ok c limit c0 owed keys n → sid ∈ keys → dict_get (exports (sync n)) sid = None →
  get_mempool_stats (node_chain n) = Ok stats →
  stats.1 <= snapshot_max_transactions c → stats.2 <= snapshot_max_bytes c →
  snapshot_bytes (sync n) + stats.2 <= snapshot_global_bytes c →
  match reserve_snapshot sid rid t now stats n with
  | (Ok o, n') => ok c limit c0 owed keys n' ∧ (∀ x, o = Some x → dict_get (exports (sync n')) sid = Some x)
  | (Raise e, n') => ok c limit c0 owed keys n' ∧ contained e
  end.
Proof.
  intros Hn Hsid Hno Hstats Hcount Hsize Hglobal.
  pose proof (ok_chain _ _ _ _ _ Hchain n Hn) as Hbc.
  assert (stats = (mempool_len (mempool (node_chain n)), total_bytes (mempool (node_chain n)))) as Hst.
  { apply bind_Ok in Hstats as (? & _ & [= <-]). done. }
  destruct (pool_sizes _ (bc_pool _ _ Hbc)) as [Hsum Hpos].
  unfold reserve_snapshot. rewrite bind_run. unfold gets at 1. rewrite (no_config _ _ _ _ _ _ Hn), bind_run.
  unfold with_sync at 1, modify at 1. rewrite bind_run.
  set (w := (draw_token (world n)).2). set (tok := token_at (world n) (token_reads (world n))).
  match goal with |- context [node_token ?m] => change (node_token m) with
    (@Ok string tok, (n {{ world := w }}) {{ sync := (sync n) {{ snapshot_bytes := snapshot_bytes (sync n) + stats.2 }} }}) end.
  cbv beta iota. rewrite bind_run. unfold gets at 1. cbv beta iota.
  assert (ok c limit c0 owed keys (n {{ world := w }})) as Hw.
  { pose proof (keeps_token c limit c0 owed keys contained n Hn) as Ht. change (node_token n) with (@Ok string tok, n {{ world := w }}) in Ht. apply Ht. }
  match goal with |- context [match ?r with Ok _ => _ | Raise _ => _ end] => change r with
    (mp ← mempool_snapshot (node_chain n); pack_snapshot c t tok stats.1 rid (get_transactions mp)) end.
  destruct (mp ← mempool_snapshot (node_chain n); _) as [items|e] eqn:Hr.
  - apply bind_Ok in Hr as (mp & Hmp & Hpack). apply bind_Ok in Hmp as (? & _ & Hmp).
    rewrite mempool_copy_id in Hmp by apply Hbc. injection Hmp as <-.
    apply pack_snapshot_Ok in Hpack as [Hlen Hbytes].
    set (snap := MkExport tok t items stats.2 0 now now).
    assert (export_ok c snap) as Hx.
    { constructor; cbn; [rewrite Hst in *; cbn in *; lia|rewrite Hbytes, Hsum, Hst; done| |lia].
      rewrite Hlen. unfold get_transactions. rewrite length_map. rewrite Hst in Hcount. exact Hcount. }
    rewrite bind_run. unfold with_sync, modify.
    match goal with |- context [mret (Some snap) ?m] => change m with
      ((n {{ world := w }}) {{ sync := (sync n) {{ snapshot_bytes := snapshot_bytes (sync n) + export_size snap;
                                                   exports := dict_set (exports (sync n)) sid snap }} }}) end.
    split.
    + apply ok_sync; [done|]. by apply sync_add; [apply Hn|..].
    + intros ? [= <-]. change (dict_get (dict_set (exports (sync n)) sid snap) sid = Some snap). by rewrite dict_get_set, bool_decide_eq_true_2.
  - assert (contained e) as He.
    { apply bind_Raise in Hr as [Hr|(mp & _ & Hr)]; [|by eapply pack_snapshot_contained].
      apply contained_storage. by eapply mempool_snapshot_storage. }
    rewrite bind_run. unfold with_sync, modify.
    match goal with |- context [(if bool_decide (e = PolicyLimitError) then ?a else ?b) ?m] =>
      assert (ok c limit c0 owed keys m) as Hm; [|set (m' := m) in *; clearbody m'] end.
    { eapply (ok_same _ _ _ _ _ (n {{ world := w }})); try done.
      change (((sync n) {{ snapshot_bytes := snapshot_bytes (sync n) + stats.2 - stats.2 }}) = sync n).
      rewrite Z.add_simpl_r. by destruct (sync n). }
    case_bool_decide; [|done].
    pose proof (safe_send_error c limit c0 owed keys Hkeys sid rid "POLICY_LIMIT" Hsid m' Hm) as Hsend.
    rewrite bind_run. destruct (send_error sid rid "POLICY_LIMIT" m') as [[u|e'] m'']; [|done]. by destruct Hsend.
Qed.

(** What is known of the exports survives the steps that leave them alone. *)
Definition still {A} (m : node_call A) : Prop := ∀ n, sync (m n).2 = sync n.
Definition failing (e : exn) (n : Node) : Prop := ok c limit c0 owed keys n ∧ contained e.

Lemma hoare_still {A} (Φ : SyncManager → Prop) (m : node_call A) Q :
  guards m Q → still m →
  hoare (λ n, ok c limit c0 owed keys n ∧ Φ (sync n)) m (λ a n, (ok c limit c0 owed keys n ∧ Φ (sync n)) ∧ Q a) failing.
Proof.
  intros Hm Hs n [Hn Hy]. specialize (Hm n Hn). specialize (Hs n). unfold failing.
  destruct (m n) as [[a|e] n'], Hm; cbn in Hs; [by rewrite Hs|done].
Qed.

Lemma hoare_safe {A} (Φ : SyncManager → Prop) (m : node_call A) Q :
  guards m Q →
  hoare (λ n, ok c limit c0 owed keys n ∧ Φ (sync n)) m (λ a n, ok c limit c0 owed keys n ∧ Q a) failing.
Proof. intros Hm n [Hn _]. exact (Hm n Hn). Qed.

Lemma hoare_with_sync (Φ : SyncManager → Prop) f :
  (∀ y, sync_ok c y → Φ y → sync_ok c (f y)) →
  hoare (λ n, ok c limit c0 owed keys n ∧ Φ (sync n)) (with_sync f) (λ _ n, ok c limit c0 owed keys n) failing.
Proof. intros Hf n [Hn Hy]. apply ok_sync; [done|]. apply Hf; [apply Hn|done]. Qed.

Lemma tip_still : still node_tip.
Proof.
  intros n. unfold node_tip. rewrite bind_run. unfold ask_chain at 1.
  destruct (height (node_chain n)); [|done]. rewrite bind_run. unfold ask_chain.
  by destruct (get_latest_block (node_chain n)).
Qed.

Lemma session_run n sid s : dict_get (sessions n) sid = Some s → session_of sid n = (Ok s, n).
Proof. intros Hs. unfold session_of. by rewrite Hs. Qed.

(** ** A new snapshot *)

Lemma stats_contained n e : ok c limit c0 owed keys n → get_mempool_stats (node_chain n) = Raise e → contained e.
Proof. intros Hn He. apply contained_storage. by eapply query_storage in He. Qed.

Definition made (sid : string) (o : option ExportSnapshot) (n : Node) : Prop :=
  ok c limit c0 owed keys n ∧ ∀ x, o = Some x → dict_get (exports (sync n)) sid = Some x.

Lemma hoare_refuse sid rid code n :
  sid ∈ keys → ok c limit c0 owed keys n →
  match (_ ← send_error sid rid code; mret (@None ExportSnapshot)) n with
  | (Ok o, n') => made sid o n'
  | (Raise e, n') => failing e n'
  end.
Proof.
  intros Hsid Hn. rewrite bind_run. pose proof (safe_send_error c limit c0 owed keys Hkeys sid rid code Hsid n Hn) as Hs.
  destruct (send_error sid rid code n) as [[u|e] n']; [|done]. split; [apply Hs|done].
Qed.

Lemma create_snapshot_ok sid rid t now :
  sid ∈ keys → ∀ snapshot,
  hoare (λ n, ok c limit c0 owed keys n ∧ (snapshot = None → dict_get (exports (sync n)) sid = None))
    (create_snapshot sid rid t now snapshot) (made sid) failing.
Proof.
  intros Hsid snapshot n [Hn Hsnap]. unfold create_snapshot. rewrite bind_run.
  destruct (ok_get _ _ _ _ _ n sid Hn Hsid) as [s Hs]. rewrite (session_run _ _ _ Hs), bind_run.
  unfold gets at 1. rewrite (no_config _ _ _ _ _ _ Hn).
  destruct (match snapshot with Some _ => true | None => _ end) eqn:Hbusy; [by apply hoare_refuse|].
  assert (dict_get (exports (sync n)) sid = None) as Hno by (apply Hsnap; by destruct snapshot).
  rewrite bind_run. set (f := λ s : Session, s {{ next_export := _ }}).
  assert (safe (with_session sid f)) as Hset by (by apply safe_field).
  specialize (Hset n Hn). destruct (with_session sid f n) as [[u|e] n1] eqn:Hn1; [|done].
  destruct Hset as [Hok1 _].
  assert (sync n1 = sync n) as Hsame by (by injection Hn1 as _ <-).
  rewrite bind_run. unfold ask_chain at 1.
  destruct (get_mempool_stats (node_chain n1)) as [stats|e] eqn:Hstats; [|split; [done|by eapply stats_contained]].
  destruct (_ || _) eqn:Hlim; [by apply hoare_refuse|]. apply orb_false_iff in Hlim as [L1%Z.ltb_ge L2%Z.ltb_ge].
  rewrite bind_run. unfold gets at 1. destruct (_ <? _) eqn:Hglob; [by apply hoare_refuse|]. apply Z.ltb_ge in Hglob.
  assert (dict_get (exports (sync n1)) sid = None) as Hno1 by (by rewrite Hsame).
  pose proof (reserve_snapshot_ok sid rid t now stats n1 Hok1 Hsid Hno1 Hstats L1 L2 Hglob) as Hres.
  destruct (reserve_snapshot sid rid t now stats n1) as [[o|e] n']; exact Hres.
Qed.

(** ** A page *)

Lemma run_safe (m : node_call unit) n :
  safe m → ok c limit c0 owed keys n →
  match m n with (Ok _, n') => ok c limit c0 owed keys n' | (Raise e, n') => failing e n' end.
Proof. intros Hm Hn. specialize (Hm n Hn). destruct (m n) as [[u|e] n']; [apply Hm|exact Hm]. Qed.

Lemma fill_page_Ok t tok start total rid items : ∀ acc txs,
  fill_page c t tok start total rid items acc = Ok txs → (length acc <= length txs <= length acc + length items)%nat.
Proof.
  induction items as [|item items IH]; intros acc txs; cbn [fill_page]; [intros [= <-]; lia|]. cbv zeta.
  destruct (encode_message _ _) as [f|e]; [|case_bool_decide; [intros [= <-]; lia|done]].
  intros Hl%IH. rewrite length_app in Hl. cbn [length] in *. lia.
Qed.

(** The page is the longest run of the items that fits a frame. *)
Lemma fill_page_exact t tok start total rid items : ∀ acc txs,
  fill_page c t tok start total rid items acc = Ok txs →
  let frame l := encode_message (message "MEMPOOL"
    (mempool_payload t tok start l (start + Z.of_nat (length l)) (start + Z.of_nat (length l) =? total)) rid)
    (max_frame_bytes c) in
  ∃ k, (k <= length items)%nat ∧ txs = acc ++ map (λ i, JStr (b64encode i)) (take k items) ∧
    (k ≠ 0%nat → ∃ f, frame txs = Ok f) ∧
    (∀ i, items !! k = Some i → frame (txs ++ [JStr (b64encode i)]) = Raise PolicyLimitError).
Proof.
  induction items as [|item items IH]; intros acc txs; cbn [fill_page]; cbv zeta.
  - intros [= <-]. exists 0%nat. cbn. rewrite app_nil_r. split_and!; [lia|done|done|done].
  - destruct (encode_message _ _) as [f|e] eqn:He.
    + intros Hf. destruct (IH _ _ Hf) as (k & Hk & Htxs & Hfit & Hnext). exists (S k). cbn [length take map lookup list_lookup].
      rewrite <- app_assoc in Htxs. split_and!; [lia|done| |done]. intros _. destruct (decide (k = 0%nat)) as [->|Hk0]; [|by apply Hfit].
      exists f. rewrite Htxs. exact He.
    + case_bool_decide as Hp; [|done]. intros [= <-]. exists 0%nat. cbn [take map]. rewrite app_nil_r.
      split_and!; [lia|done|done|]. intros i [= <-]. subst e. exact He.
Qed.

Lemma fill_page_contained t tok start total rid items : ∀ acc e,
  fill_page c t tok start total rid items acc = Raise e → contained e.
Proof.
  induction items as [|item items IH]; intros acc e; cbn [fill_page]; [done|]. cbv zeta.
  destruct (encode_message _ _) as [f|e'] eqn:He; [apply IH|].
  case_bool_decide; [done|]. intros [= <-]. by eapply encode_message_contained.
Qed.

Lemma sync_touch y sid x cursor now :
  sync_ok c y → dict_get (exports y) sid = Some x → 0 <= cursor <= Z.of_nat (length (export_items x)) →
  sync_ok c (y {{ exports := dict_map (λ x, x {{ export_cursor := cursor; touched := now }}) sid (exports y) }}).
Proof.
  intros [Y1 Y2 Y3 Y4 Y5 Y6] Hx Hcur. constructor; [|done| | |done|done].
  - change (snapshot_bytes y = sumZ_with (λ p : string * ExportSnapshot, export_size p.2)
      (map (λ p, if bool_decide (p.1 = sid) then (p.1, p.2 {{ export_cursor := cursor; touched := now }}) else p) (exports y))).
    rewrite Y1. clear. induction (exports y) as [|[k v] l IH]; [done|]. cbn [map sumZ_with]. rewrite <- IH.
    by destruct (bool_decide _).
  - change (NoDup (dict_keys (dict_map (λ x, x {{ export_cursor := cursor; touched := now }}) sid (exports y)))).
    by rewrite dict_map_keys.
  - apply (dict_map_get_Forall (λ p, export_ok c p.2) _ sid (exports y) x Y3 Hx); [|done].
    apply dict_get_elem in Hx. rewrite Forall_forall in Y4. destruct (Y4 _ Hx). by constructor.
Qed.

Lemma serve_page_ok sid rid t cursor lim now x :
  sid ∈ keys →
  hoare (λ n, ok c limit c0 owed keys n ∧ dict_get (exports (sync n)) sid = Some x)
    (serve_page sid rid t cursor lim now x) (λ _ n, ok c limit c0 owed keys n) failing.
Proof.
  intros Hsid n [Hn Hx]. unfold serve_page. step_run. unfold gets at 1. rewrite (no_config _ _ _ _ _ _ Hn).
  destruct (negb _); [split; [done|auto with pychain]|]. cbv zeta. rewrite bind_run. unfold lift at 1.
  destruct (fill_page _ _ _ _ _ _ _ _) as [txs|e] eqn:Hf; [|split; [done|by eapply fill_page_contained]].
  apply fill_page_Ok in Hf. cbn [length] in Hf. rewrite length_take, length_drop in Hf.
  assert (export_ok c x) as Hxo.
  { pose proof (yo_exports _ _ (no_sync _ _ _ _ _ _ Hn)) as Hall. rewrite Forall_forall in Hall.
    apply dict_get_elem in Hx. apply (Hall _ Hx). }
  pose proof (xo_cursor _ _ Hxo) as Hcur.
  destruct (_ && _).
  { apply (run_safe _ n); [|done]. apply safe_bind; [apply safe_drop_export; done|intros _; by apply safe_send_error]. }
  step_run. unfold with_sync, modify.
  match goal with |- context [(_ ≫= _) ?m] => assert (ok c limit c0 owed keys m) as Hm; [|set (n1 := m) in *; clearbody n1] end.
  { apply ok_sync; [done|]. apply (sync_touch (sync n) sid x); [apply Hn|done|lia]. }
  apply (run_safe _ n1); [|done].
  apply safe_bind; [by apply safe_send|intros _]. apply safe_when. intros _. by apply safe_drop_export.
Qed.

Lemma run_hoare (Φ : Node → Prop) (m : node_call unit) n :
  hoare (λ s, ok c limit c0 owed keys s ∧ Φ s) m (λ _ n, ok c limit c0 owed keys n) failing →
  ok c limit c0 owed keys n → Φ n →
  match m n with (Ok _, n') => ok c limit c0 owed keys n' ∧ True | (Raise e, n') => ok c limit c0 owed keys n' ∧ contained e end.
Proof. intros Hm Hn HΦ. specialize (Hm n (conj Hn HΦ)). destruct (m n) as [[a|e] n']; [done|exact Hm]. Qed.

Lemma hoare_page sid rid t cursor lim now x n :
  sid ∈ keys → ok c limit c0 owed keys n → dict_get (exports (sync n)) sid = Some x →
  match serve_page sid rid t cursor lim now x n with
  | (Ok _, n') => ok c limit c0 owed keys n'
  | (Raise e, n') => failing e n'
  end.
Proof. intros Hsid Hn Hx. exact (serve_page_ok sid rid t cursor lim now x Hsid n (conj Hn Hx)). Qed.

(** From the point where a snapshot that is over was dropped. *)
Lemma serve_request_page sid rid t now snapshot (i : json) cursor lim :
  sid ∈ keys →
  hoare (λ n, ok c limit c0 owed keys n ∧ dict_get (exports (sync n)) sid = snapshot)
    (if is_none i then
       x ← create_snapshot sid rid t now snapshot;
       match x with None => mret tt | Some x => serve_page sid rid t cursor lim now x end
     else
       match snapshot with
       | Some x =>
           if match i with JStr i => bool_decide (i = export_token x) | _ => false end
           then serve_page sid rid t cursor lim now x
           else send_error sid rid "SNAPSHOT_EXPIRED"
       | None => send_error sid rid "SNAPSHOT_EXPIRED"
       end) (λ _ n, ok c limit c0 owed keys n) failing.
Proof.
  intros Hsid n [Hn Hsnap]. destruct (is_none i).
  - rewrite bind_run. pose proof (create_snapshot_ok sid rid t now Hsid snapshot n) as Hc.
    assert (ok c limit c0 owed keys n ∧ (snapshot = None → dict_get (exports (sync n)) sid = None)) as Hp
      by (split; [done|by intros <-]).
    specialize (Hc Hp). destruct (create_snapshot _ _ _ _ _ n) as [[[x|]|e] n1]; [|apply Hc|done].
    destruct Hc as [Hn1 Hx]. by apply hoare_page; [..|apply Hx].
  - destruct snapshot as [x|]; [|by apply run_safe; [apply safe_send_error|]].
    destruct (match i with JStr _ => _ | _ => _ end); [by apply hoare_page|by apply run_safe; [apply safe_send_error|]].
Qed.

Lemma safe_serve_mempool sid m keys' :
  sid ∈ keys → valid_message m "GET_MEMPOOL" keys' → safe (serve_mempool sid m).
Proof.
  intros Hsid Hm. unfold serve_mempool. cbv zeta.
  assert (keys' = ["tip_hash"; "snapshot_id"; "cursor"; "limit"]) as -> by (pose proof (vm_schema _ _ _ Hm) as Hs; by injection Hs).
  destruct (reads_int Hm "cursor") as (k & Hk & _); [set_solver..|].
  destruct (payload_get_mempool _ (vm_payload _ _ _ Hm)) as (l & Hl & _).
  destruct (reads_member Hm "snapshot_id") as [i Hi]; [set_solver|].
  destruct (reads_str Hm "tip_hash") as [th Hth]; [set_solver..|].
  rewrite Hth, Hk, Hl, Hi.
  apply safe_bind; [apply safe_clock|intros now]. apply safe_bind; [apply guards_tip; done|intros t].
  apply safe_bind; [by apply guards_reads; exists th|intros tip_hash].
  destruct (negb _); [apply safe_bind; [by apply safe_drop_export|intros _; by apply safe_send_error]|].
  intros n Hn. rewrite bind_run. unfold gets at 1. rewrite bind_run. unfold gets at 1. rewrite (no_config _ _ _ _ _ _ Hn).
  set (x := dict_get (exports (sync n)) sid).
  set (stale := match x with Some x => snapshot_over c now x | None => false end).
  rewrite bind_run.
  pose proof (safe_when _ _ _ _ _ stale (drop_export sid) (λ _, safe_drop_export _ _ _ _ _ sid) n Hn) as Hd.
  destruct (when stale (drop_export sid) n) as [[u|e] n1] eqn:Hw; [|done]. destruct Hd as [Hn1 _].
  assert (dict_get (exports (sync n1)) sid = if stale then None else x) as Hx.
  { destruct stale; [|by injection Hw as _ <-]. cbn [when] in Hw. unfold drop_export, with_sync, modify in Hw.
    injection Hw as _ <-. change (sync (n {{ sync := ?y }})) with y. fold x. destruct x as [snap|] eqn:Hx; [|exact Hx].
    change (dict_get (dict_del (exports (sync n)) sid) sid = None). apply dict_get_None. rewrite dict_del_keys.
    intros [Hne _]%list_elem_of_filter. done. }
  apply (run_hoare (λ s, dict_get (exports (sync s)) sid = if stale then None else x)); [|done|done].
  by apply serve_request_page.
Qed.

(** ** The pool: receiving *)

Lemma still_bind {A B} (m : node_call A) (f : A → node_call B) : still m → (∀ a, still (f a)) → still (m ≫= f).
Proof.
  intros Hm Hf n. rewrite bind_run. specialize (Hm n). destruct (m n) as [[a|e] n']; [by rewrite Hf|done].
Qed.
Lemma still_when b m : still m → still (when b m).
Proof. destruct b; [done|by intros _ n]. Qed.
Lemma still_for {Y} (l : list Y) f : (∀ x, still (f x)) → still (for_each l f).
Proof. intros Hf. induction l as [|x l IH]; [by intros n|]. apply still_bind; [apply Hf|by intros _]. Qed.
Lemma still_try {A} (m : node_call A) caught h : still m → (∀ e, still (h e)) → still (try_call m caught h).
Proof.
  intros Hm Hh n. unfold try_call. specialize (Hm n). destruct (m n) as [[a|e] n']; [done|].
  destruct (caught e); [by rewrite Hh|done].
Qed.
Lemma still_session sid : still (session_of sid).
Proof. intros n. unfold session_of. by destruct (dict_get _ _). Qed.

Lemma still_send sid m : still (send sid m).
Proof.
  unfold send. apply still_bind; [done|intros st]. apply still_bind; [apply still_session|intros s].
  destruct (_ || _); [done|]. apply still_bind; [done|intros conf]. apply still_bind.
  - intros n. unfold on_peer. destruct (dict_get _ _) as [s'|]; [|done]. by destruct (peer_send _ _ _).
  - intros b. apply still_bind; [by apply still_when|done].
Qed.

Lemma still_broadcast m src : still (broadcast m src).
Proof.
  unfold broadcast. apply still_bind; [done|intros sids]. apply still_for. intros sid.
  apply still_bind; [apply still_session|intros s]. destruct (_ && _); [|done].
  apply still_try; [|done]. apply still_bind; [apply still_send|done].
Qed.

Lemma still_submit tx src : still (node_submit_transaction tx src).
Proof.
  unfold node_submit_transaction. apply still_bind.
  - intros n. unfold on_chain, zoom. by destruct (submit_transaction tx (node_chain n)).
  - intros b. apply still_bind; [|done]. apply still_when. apply still_bind; [done|intros _].
    apply still_try; [|done]. apply still_bind; [done|intros conf]. apply still_bind; [done|intros d].
    apply still_broadcast.
Qed.

Lemma still_submit_items sid items : still (submit_items sid items).
Proof.
  apply still_for. intros v. apply still_bind; [done|intros conf]. apply still_bind; [done|intros enc].
  apply still_bind; [done|intros tx]. apply still_bind; [apply still_submit|done].
Qed.

Lemma safe_submit_items sid items : Forall (λ v, reads (item_str v)) items → safe (submit_items sid items).
Proof.
  intros Hitems. apply safe_for. intros v Hv. rewrite Forall_forall in Hitems.
  eapply guards_bind; [apply guards_config|intros ? ->].
  apply safe_bind; [apply guards_reads, Hitems, Hv|intros enc].
  apply safe_bind; [apply guards_lift; [done|apply unpack_transaction_contained]|intros tx].
  apply safe_ignore, safe_node_submit; done.
Qed.

Lemma map_result_reads {A B} (f : A → result B) l : Forall (λ a, reads (f a)) l → reads (map_result f l).
Proof.
  induction 1 as [|a l [b Hb] _ [bs Hbs]]; [by eexists|]. exists (b :: bs). cbn [map_result]. rewrite Hb, Ok_bind, Hbs. done.
Qed.

(** What a page adds to the download: it was checked to be within the limits. *)
Lemma sync_received y sid d f :
  sync_ok c y → dict_get (downloads y) sid = Some d →
  0 <= download_count (f d) <= snapshot_max_transactions c → download_size (f d) <= snapshot_max_bytes c →
  sync_ok c (y {{ downloads := dict_map f sid (downloads y) }}).
Proof.
  intros Hy Hd Hc Hs. apply sync_downloads; [done|by rewrite dict_map_keys; apply Hy|].
  by apply (dict_map_get_Forall (λ p, 0 <= download_count p.2 <= snapshot_max_transactions c ∧
              download_size p.2 <= snapshot_max_bytes c) f sid (downloads y) d); [apply Hy|..|apply Hy].
Qed.

(** From the checks of the page on. *)
Lemma safe_keep_page sid d items tok next n sizes done' :
  sid ∈ keys → 0 <= n → Forall (λ v, reads (item_str v)) items →
  0 <= download_count d → download_count d + n <= snapshot_max_transactions c →
  download_size d + sizes <= snapshot_max_bytes c →
  hoare (λ s, ok c limit c0 owed keys s ∧ dict_get (downloads (sync s)) sid = Some d)
    (_ ← submit_items sid items;
     _ ← with_sync (λ y, y {{ downloads := dict_map (λ d, d {{
           download_token := Some tok; download_cursor := next;
           download_count := download_count d + n; download_size := download_size d + sizes }})
           sid (downloads y) }});
     _ ← with_session sid (λ s, s {{ session_error := None }});
     when done' (
       _ ← with_sync (λ y, y {{ downloads := dict_del (downloads y) sid }});
       now ← node_clock;
       with_session sid (λ s, s {{ next_mempool := (now + mempool_refresh_interval c)%Q;
                                   sync_state := "IDLE" }}))) (λ _ n, ok c limit c0 owed keys n) failing.
Proof.
  intros Hsid Hn Hitems H0 H1 H2.
  eapply hoare_bind; [by apply (hoare_still (λ y, dict_get (downloads y) sid = Some d)); [by apply safe_submit_items|apply still_submit_items]|].
  intros ?. eapply hoare_bind.
  { eapply hoare_pre; [apply (hoare_with_sync (λ y, dict_get (downloads y) sid = Some d))|intros s Hs; apply Hs].
    intros y Hy Hd. eapply (sync_received y sid d); [done|done| |exact H2].
    change (0 <= download_count d + n <= snapshot_max_transactions c). lia. }
  intros ?. apply hoare_pre with (P' := λ n, ok c limit c0 owed keys n); [|done].
  intros s Hs. apply run_safe; [|done].
  apply safe_bind; [by apply safe_field|intros _]. apply safe_when. intros _.
  apply safe_bind; [apply safe_with_sync; intros y Hy; apply sync_downloads; [done|apply dict_del_NoDup, Hy|apply dict_del_Forall, Hy]|intros _].
  apply safe_bind; [apply safe_clock|intros now; by apply safe_field].
Qed.

Lemma safe_receive_mempool sid r m keys' :
  sid ∈ keys → request_ok r → request_kind r = "GET_MEMPOOL" → valid_message m "MEMPOOL" keys' →
  safe (receive_mempool sid r m).
Proof.
  intros Hsid Hr Hk Hm. unfold receive_mempool. cbv zeta.
  assert (keys' = ["tip_hash"; "snapshot_id"; "cursor"; "transactions"; "next_cursor"; "done"]) as ->
    by (pose proof (vm_schema _ _ _ Hm) as Hs; by injection Hs).
  destruct (reads_int Hm "cursor") as (k & Hcur & _); [set_solver..|].
  destruct (reads_int Hm "next_cursor") as (nx & Hnext & _); [set_solver..|].
  destruct (reads_bool Hm "done") as [dn Hdone]; [set_solver..|].
  destruct (reads_str Hm "tip_hash") as [th Hth]; [set_solver..|].
  destruct (payload_mempool _ (vm_payload _ _ _ Hm)) as ([tok Htok] & items & Hi & _ & Hitems).
  assert (reads (field_str (request_payload r) "tip_hash") ∧ reads (field_int (request_payload r) "limit")) as ([rt R1] & [rl R2]).
  { destruct Hr as [[Hr|Hr]|[(Hr & _)|(_ & Ht & Hl)]]; try (by rewrite Hr in Hk). done. }
  rewrite R1, R2, Hcur, Hnext, Hdone, Hth, Htok, Hi.
  intros n Hn. do 2 (step_run; try unfold gets at 1).
  destruct (tip_run n Hn) as (t & Ht & Hte). rewrite Ht. destruct t as [t|e]; [|split; [done|by apply Hte]].
  step_run. unfold lift at 1.
  destruct (dict_get (downloads (sync n)) sid) as [d|] eqn:Hd; [|done].
  destruct (negb _); [done|]. do 3 (step_run; unfold lift at 1).
  destruct (_ || _); [split; [done|auto with pychain]|].
  do 4 (step_run; unfold lift at 1).
  destruct (_ || _); [split; [done|auto with pychain]|]. step_run. unfold lift at 1.
  assert (Forall (λ v, reads (s ← item_str v; Ok (raw_size s))) items) as Hsz.
  { eapply Forall_impl; [exact Hitems|]. intros v [s Hs]. exists (raw_size s). by rewrite Hs. }
  destruct (map_result_reads _ _ Hsz) as [sizes ->]. cbv beta iota. step_run. rewrite (no_config _ _ _ _ _ _ Hn).
  destruct (_ || _) eqn:Hlim; [split; [done|auto with pychain]|].
  apply orb_false_iff in Hlim as [L1%Z.ltb_ge L2%Z.ltb_ge].
  assert (0 <= download_count d) as H0.
  { pose proof (yo_downloads _ _ (no_sync _ _ _ _ _ _ Hn)) as Hall. rewrite Forall_forall in Hall.
    apply dict_get_elem in Hd. apply (Hall _ Hd). }
  apply (run_hoare (λ s, dict_get (downloads (sync s)) sid = Some d)); [|done|done].
  apply safe_keep_page; [done|lia|done..].
Qed.
End sync.
