(* ===== verification/NodeFacts.v ===== *)
(** * The handlers keep the node's invariant

    The handshake, a peer's message, the timer and the local commands, with the
    exceptions that each may end with. *)

From coqutil Require Import Datatypes.RecordSetters.
Import DoubleBraceUpdate.
From S2P Require Import Prelude Bytes Json JsonParse Crypto Transaction Utxo Block Mempool MempoolFacts.
From S2P Require Import Blockchain BlockchainFacts Codec CodecFacts NetConfig ConfigFacts Messages.
From S2P Require Import Protocol ProtocolFacts FrameFacts Effects Peer PeerFacts PeerManager PeerManagerFacts.
From S2P Require Import NodeState NodeInv NodeSteps Sync SyncFacts Node.
#[local] Open Scope Z_scope.

(** A guard whose failure is an exception of the peer's. *)
Ltac refuse :=
  lazymatch goal with
  | |- NodeSteps.guards _ _ _ _ _ (if ?b then raise _ else _) _ => destruct b; [apply guards_raise; auto with pychain|]
  | |- NodeSteps.safe _ _ _ _ _ (if ?b then raise _ else _) => destruct b; [apply guards_raise; auto with pychain|]
  end.

Section handlers.
Context {EL : EcdsaLib} {CS : ChainStore}.
Context (c : NodeConfig) (limit : Z) (c0 : Blockchain) (owed : list Z) (keys : list string).
Context (Hconfig : config_limits c) (Hchain : bc_inv limit c0) (Hkeys : NoDup keys).

Abbreviation guards := (guards c limit c0 owed keys).
Abbreviation safe := (safe c limit c0 owed keys).
Abbreviation node_good := (ok c limit c0 owed keys).

Lemma config_initial : (0 < reconnect_initial c <= reconnect_max c)%Q.
Proof.
  destruct Hconfig as (_ & _ & Hd & _ & _ & _ & _ & _ & Hr). split; [|done].
  rewrite Forall_forall in Hd. apply Hd. unfold durations. rewrite !elem_of_cons. tauto.
Qed.

Lemma safe_on_manager {A} (m : manager_call A) (R : A → PeerManager → Prop) :
  hoare (pre c limit any) m (λ a, pre c limit (R a)) (fails c limit) →
  guards (on_manager m) (λ a, ∃ m', R a m').
Proof. intros Hm. apply keeps_on_manager; [done|auto with pychain]. Qed.

Lemma safe_manager {A} (m : manager_call A) (R : A → PeerManager → Prop) :
  hoare (pre c limit any) m (λ a, pre c limit (R a)) (fails c limit) → safe (on_manager m).
Proof. intros Hm. by eapply guards_safe, safe_on_manager. Qed.

(** ** The handshake *)

Lemma keeps_close_peer X sid : sid ∈ keys → keeps node_good (close_peer sid) (λ _, True) X.
Proof.
  intros Hsid. unfold close_peer. eapply keeps_bind; [by apply keeps_session|intros s Hs].
  destruct (peer_closed (peer s)); [by apply keeps_ret|]. apply keeps_seq.
  - apply keeps_with_session; [done|done|]. intros s' Hs'. split; [|by apply steady_closed].
    apply (session_peer c sid s' ((peer s') {{ peer_closed := true }})); [done| |done].
    apply (peer_inv_same c (peer s')); [done| |apply Hs']. intros Hb. split; [done|by apply Hs'].
  - intros _. apply keeps_modify; [done|]. intros n Hn. by apply (ok_same _ _ _ _ _ n).
Qed.

Lemma safe_close_peer sid : sid ∈ keys → safe (close_peer sid).
Proof. apply keeps_close_peer. Qed.

Lemma close_peer_run d n :
  close_peer d n =
    match dict_get (sessions n) d with
    | None => (Raise KeyError, n)
    | Some s =>
        if peer_closed (peer s) then (Ok tt, n)
        else (Ok tt, n {{ sessions := dict_map (λ s, s {{ peer := (peer s) {{ peer_closed := true }} }}) d (sessions n) }}
                       {{ peer_closers := peer_closers n ++ [d] }})
    end.
Proof.
  unfold close_peer. step_run. unfold session_of. destruct (dict_get (sessions n) d) as [s|]; [|done].
  by destruct (peer_closed (peer s)).
Qed.

(** Closing one session leaves the others alone. *)
Lemma close_peer_other d sid n : d ≠ sid → dict_get (sessions (close_peer d n).2) sid = dict_get (sessions n) sid.
Proof.
  intros Hne. unfold close_peer. step_run. unfold session_of at 1.
  destruct (dict_get (sessions n) d) as [s|]; [|done]. destruct (peer_closed (peer s)); [done|].
  step_run.
  change (dict_get (dict_map (λ s, s {{ peer := (peer s) {{ peer_closed := true }} }}) d (sessions n)) sid = dict_get (sessions n) sid).
  rewrite dict_map_get. by rewrite bool_decide_eq_false_2.
Qed.

Lemma close_losers_other l winner sid : winner = sid → ∀ n,
  dict_get (sessions (for_each l (λ d, if bool_decide (d = winner) then mret tt else close_peer d) n).2) sid
  = dict_get (sessions n) sid.
Proof.
  intros -> n. apply (for_each_same (λ n, dict_get (sessions n) sid)). intros d n' _.
  case_bool_decide; [done|by apply close_peer_other].
Qed.

Lemma connection_rank_Ok me sid s : session_ok c sid s → version_received s = true → reads (connection_rank me s).
Proof.
  intros Hs Hv. destruct (so_version _ _ _ Hs Hv) as (_ & Hi & Hr). unfold connection_rank.
  destruct (remote_nonce (peer s)) as [r|]; [|done]. destruct (peer_node_id (peer s)) as [i|]; [|done].
  destruct (outbound (peer s)); by eexists.
Qed.

Lemma safe_receive_version sid m keys' : sid ∈ keys → valid_message m "VERSION" keys' → safe (receive_version sid m).
Proof.
  intros Hsid Hm. unfold receive_version. cbv zeta.
  assert (keys' = ["network_id"; "genesis_hash"; "node_id"; "connection_nonce"; "listen_port"; "height"; "tip_hash"]) as ->
    by (pose proof (vm_schema _ _ _ Hm) as Hs; by injection Hs).
  destruct (payload_version _ (vm_payload _ _ _ Hm)) as [[net Hnet] [port Hport]].
  destruct (reads_int Hm "height") as (h & Hh & _); [set_solver..|].
  destruct (reads_str Hm "genesis_hash") as [gh Hgh]; [set_solver..|].
  destruct (reads_str Hm "node_id") as [ni Hni]; [set_solver..|].
  destruct (reads_str Hm "tip_hash") as [th Hth]; [set_solver..|].
  destruct (reads_str Hm "connection_nonce") as [cn Hcn]; [set_solver..|].
  rewrite Hnet, Hport, Hh, Hgh, Hni, Hth, Hcn.
  intros n Hn. destruct (ok_get _ _ _ _ _ n sid Hn Hsid) as [s Hget].
  pose proof (ok_session _ _ _ _ _ n sid s Hn Hget) as Hs.
  assert (node_good n ∧ contained ProtocolError) as Hrefuse by auto with pychain.
  step_run. rewrite (session_run _ _ _ Hget). do 2 (step_run; unfold gets at 1). rewrite (no_config _ _ _ _ _ _ Hn).
  do 7 (step_run; unfold lift at 1). destruct (version_received s) eqn:Hv; [done|].
  do 3 (match goal with |- context [if ?b then raise _ else _] => destruct b; [done|] end).
  step_run. unfold lift at 1. destruct (peer_address (peer s)) as [a|] eqn:Ha; [|by destruct (so_address _ _ _ Hs)].
  step_run. unfold lift at 1. destruct (config_validate_endpoint c (a.1, port)) as [e|x] eqn:He; cycle 1.
  { apply validate_endpoint_Raise in He as ->. split; [done|auto with pychain]. }
  match goal with |- context [if ?b then raise _ else _] => destruct b; [done|] end.
  step_run. unfold with_session at 1, modify.
  match goal with |- context [(_ ≫= _) ?m] => assert (node_good m) as Hm1; [|set (n1 := m) in *; clearbody n1] end.
  { eapply (ok_set_session c limit c0 owed keys Hkeys n sid s); [done|done| |].
    - pose proof Hs as [S1 S2 S3 S4 S5 S6 S7 S8 S9 S10].
      constructor; try done; [by apply (peer_inv_same c (peer s)); [|apply S2|]|].
      intros x [= <-]. unfold config_validate_endpoint in *. cbn [fst snd] in He. by pose proof He as [-> _]%validate_endpoint_Ok.
    - apply steady_down; [done|]. apply not_true_iff_false. intros Hest. apply (so_established _ _ _ Hs) in Hest. congruence. }
  assert (safe (_ ← send sid (message "VERACK" [] None); mret tt)) as Hack by (apply safe_ignore; by apply safe_send).
  exact (Hack n1 Hm1).
Qed.

(** Marking the connection as established: it is live, and its version came. *)
Lemma session_establish sid s :
  session_ok c sid s → version_received s = true → peer_closed (peer s) = false →
  session_ok c sid (s {{ peer := (peer s) {{ established := true }} }}).
Proof.
  intros [S1 S2 S3 S4 S5 S6 S7 S8 S9 S10] Hv Hc. constructor; try done.
  apply (peer_inv_same c (peer s)); [done| |done]. intros Hb. apply S2 in Hb as [Hb _].
  change (peer_closed (peer s) = true) in Hb. congruence.
Qed.

(** The session becomes live: no other live one has its name. *)
Lemma ok_establish n sid s :
  node_good n → dict_get (sessions n) sid = Some s →
  session_ok c sid (s {{ peer := (peer s) {{ established := true }} }}) →
  (∀ j t, j ≠ sid → dict_get (sessions n) j = Some t → is_live (peer t) → peer_node_id (peer s) ≠ peer_node_id (peer t)) →
  node_good (n {{ sessions := dict_map (λ s, s {{ peer := (peer s) {{ established := true }} }}) sid (sessions n) }}).
Proof.
  intros [H1 H2 H3 H4 H5 H6 H7 HD HU HC H8] Hs Hok Honly.
  set (f := λ s : Session, s {{ peer := (peer s) {{ established := true }} }}).
  assert (NoDup (dict_keys (sessions n))) as Hnd by (by rewrite H6).
  constructor; [done|done|done|done|done| | |done| | |].
  - change (dict_keys (dict_map f sid (sessions n)) = keys). by rewrite dict_map_keys.
  - by apply (dict_map_get_Forall _ _ _ _ s).
  - apply (unique_map n _ sid s f HU Hs); [done|]. intros _. exact Honly.
  - intros k s' Hk Hs'. change (dict_get (dict_map f sid (sessions n)) k = Some s') in Hs'.
    rewrite dict_map_get in Hs'. case_bool_decide as Heq; [subst k|by eapply HC].
    rewrite Hs in Hs'. injection Hs' as <-. change (reading (peer s) = None). by eapply HC.
  - apply (inbound_same _ n); [done|done| |done|done]. apply readings_ext. intros [k s'] _. by case_bool_decide.
Qed.

(** Whoever is still live after the losers were closed was not among them. *)
Lemma close_peer_live d j n t :
  (close_peer d n).1 = Ok tt → dict_get (sessions (close_peer d n).2) j = Some t → is_live (peer t) →
  j ≠ d ∧ dict_get (sessions n) j = Some t.
Proof.
  rewrite close_peer_run. destruct (dict_get (sessions n) d) as [s|] eqn:Hs; [|done].
  destruct (peer_closed (peer s)) eqn:Hc.
  - intros _ Hj [_ Ho]. cbn [snd] in Hj. split; [|exact Hj]. intros ->. congruence.
  - intros _.
    change (dict_get (dict_map (λ s, s {{ peer := (peer s) {{ peer_closed := true }} }}) d (sessions n)) j = Some t
            → is_live (peer t) → j ≠ d ∧ dict_get (sessions n) j = Some t).
    rewrite dict_map_get. case_bool_decide as Hjd; [|done]. subst j. rewrite Hs. intros [= <-] [_ Ho]. done.
Qed.

Lemma close_losers_live l winner j t : ∀ n n',
  for_each l (λ d, if bool_decide (d = winner) then mret tt else close_peer d) n = (Ok tt, n') →
  dict_get (sessions n') j = Some t → is_live (peer t) →
  dict_get (sessions n) j = Some t ∧ (j ∈ l → j = winner).
Proof.
  induction l as [|d l IH]; intros n n'; cbn [for_each].
  - intros [= <-] Hj _. split; [done|by intros ?%not_elem_of_nil].
  - rewrite call_run. destruct (decide (d = winner)) as [->|Hd].
    + rewrite (bool_decide_eq_true_2 (winner = winner)) by done. cbn [mret call_ret].
      intros Hl Hj Hlive. destruct (IH _ _ Hl Hj Hlive) as [Hn Hin]. split; [done|].
      intros [->|Hl']%elem_of_cons; [done|by apply Hin].
    + rewrite (bool_decide_eq_false_2 (d = winner)) by done.
      pose proof (close_peer_live d j n t) as Hcl. destruct (close_peer d n) as [[[]|e] n1]; [|done]. cbn [fst snd] in Hcl.
      intros Hl Hj Hlive. destruct (IH _ _ Hl Hj Hlive) as [Hn1 Hin]. destruct (Hcl eq_refl Hn1 Hlive) as [Hne Hn].
      split; [done|]. intros [->|Hl']%elem_of_cons; [done|by apply Hin].
Qed.

Lemma safe_win_handshake sid s :
  session_ok c sid s → version_received s = true → peer_closed (peer s) = false → sid ∈ keys →
  ∀ n, node_good n → dict_get (sessions n) sid = Some s →
  (∀ j t, j ≠ sid → dict_get (sessions n) j = Some t → is_live (peer t) → peer_node_id (peer s) ≠ peer_node_id (peer t)) →
  match (_ ← with_session sid (λ s, s {{ peer := (peer s) {{ established := true }} }});
         s ← session_of sid;
         e ← lift (match session_endpoint s with Some e => Ok e | None => Raise ValueError end);
         _ ← on_manager (mark_connected e);
         with_session sid (resolve true)) n with
  | (Ok _, n') => node_good n' ∧ True
  | (Raise e, n') => node_good n' ∧ contained e
  end.
Proof.
  intros Hs Hv Hc Hsid n Hn Hget Honly. step_run. unfold with_session at 1, modify.
  match goal with |- context [(_ ≫= _) ?m] => assert (node_good m) as Hm; [|set (n1 := m) in *; clearbody n1] end.
  { apply (ok_establish n sid s); [done|done|by apply session_establish|exact Honly]. }
  assert (∀ m : node_call unit, safe m → match m n1 with (Ok _, n') => node_good n' ∧ True | (Raise e, n') => node_good n' ∧ contained e end) as Hgo
    by (intros m Hsafe; exact (Hsafe n1 Hm)).
  apply Hgo. eapply guards_bind; [by apply guards_session|intros s' Hs'].
  apply safe_bind.
  { apply guards_lift; [done|]. intros e He. destruct (session_endpoint s'); [done|]. injection He as <-. auto with pychain. }
  intros e. apply safe_bind; [eapply safe_manager, mark_connected_keeps|intros _]. by apply safe_field.
Qed.

Lemma safe_complete_handshake sid : sid ∈ keys → safe (complete_handshake sid).
Proof.
  intros Hsid n Hn. unfold complete_handshake. step_run.
  destruct (ok_get _ _ _ _ _ n sid Hn Hsid) as [s Hget]. rewrite (session_run _ _ _ Hget).
  pose proof (ok_session _ _ _ _ _ n sid s Hn Hget) as Hs.
  destruct (version_received s && ack_received s && negb (peer_closed (peer s))) eqn:Hready; [|done].
  apply andb_true_iff in Hready as [[Hv _]%andb_true_iff Hc%negb_true_iff].
  step_run. unfold gets at 1. step_run. unfold gets at 1. cbv zeta.
  set (dups := filter _ (sessions n)).
  assert (∀ p, p ∈ dups → p.1 ∈ keys ∧ session_ok c p.1 p.2 ∧ version_received p.2 = true) as Hdups.
  { intros p Hp. subst dups. apply list_elem_of_filter in Hp as [(_ & _ & Hpv & _) Hin]. split_and!; [| |done].
    - rewrite <- (no_keys _ _ _ _ _ _ Hn). unfold dict_keys. by apply (list_elem_of_fmap_2 fst).
    - pose proof (no_sessions _ _ _ _ _ _ Hn) as Hall. rewrite Forall_forall in Hall. by apply Hall. }
  step_run. unfold lift at 1.
  assert (reads (map_result (λ p, r ← connection_rank (node_id n) p.2; Ok (p.1, r)) ((sid, s) :: dups))) as [ranked Hr].
  { apply map_result_reads. apply Forall_forall. intros [k v] [[= -> ->]|Hin]%elem_of_cons.
    - destruct (connection_rank_Ok (node_id n) sid s Hs Hv) as [r Hr]. exists (sid, r). cbn [snd fst]. by rewrite Hr.
    - destruct (Hdups _ Hin) as (_ & Hk & Hkv). destruct (connection_rank_Ok (node_id n) k v Hk Hkv) as [r Hr].
      exists (k, r). cbn [snd fst]. by rewrite Hr. }
  rewrite Hr. set (winner := match ranked with x :: l => lowest_rank x l | [] => sid end). clearbody winner.
  step_run.
  assert (safe (for_each (sid :: map fst dups) (λ d, if bool_decide (d = winner) then mret tt else close_peer d))) as Hclose.
  { apply safe_for. intros d Hd. case_bool_decide; [apply safe_ret|]. apply safe_close_peer.
    apply elem_of_cons in Hd as [->|(p & -> & Hp)%list_elem_of_fmap]; [done|]. by apply Hdups. }
  specialize (Hclose n Hn).
  pose proof (close_losers_other (sid :: map fst dups) winner sid) as Hother. specialize (λ H, Hother H n).
  pose proof (λ j t, close_losers_live (sid :: map fst dups) winner j t n) as Hlive.
  destruct (for_each _ _ n) as [[[]|e] n1]; [|done]. cbn [snd] in Hother. destruct Hclose as [Hn1 _].
  destruct (decide (winner = sid)) as [Hw|Hw].
  - rewrite (bool_decide_eq_true_2 _ Hw). apply (safe_win_handshake sid s); [done..|by rewrite <- Hget; apply Hother|].
    intros j t Hj Ht Hlt Hid. destruct (Hlive j t n1 eq_refl Ht Hlt) as [Hjn Hin].
    apply Hj. rewrite <- Hw. apply Hin. apply list_elem_of_further. apply (list_elem_of_fmap_2' fst _ (j, t)); [|done].
    subst dups. apply list_elem_of_filter. split; [|by apply dict_get_elem]. split_and!; [done|done| |apply Hlt].
    pose proof (ok_session _ _ _ _ _ n j t Hn Hjn) as Hso. apply (so_established _ _ _ Hso), Hlt.
  - by rewrite (bool_decide_eq_false_2 _ Hw).
Qed.

Lemma safe_handshake sid m : sid ∈ keys → validate_message m = Ok tt → safe (handshake sid m).
Proof.
  intros Hsid [ks Hm]%validate_inv. unfold handshake. eapply guards_bind; [by apply guards_session|intros s Hs].
  apply safe_bind; [|intros _; by apply safe_complete_handshake].
  case_bool_decide as Hk; [rewrite Hk in Hm; by eapply safe_receive_version|].
  case_bool_decide; [|apply guards_raise; auto with pychain]. refuse. by apply safe_field.
Qed.

(** ** A message of an established peer *)

Lemma safe_consume_service sid : sid ∈ keys → safe (consume_service sid).
Proof.
  intros Hsid. unfold consume_service. eapply guards_bind; [by apply guards_session|intros s Hs].
  apply safe_bind; [apply safe_clock|intros now]. apply safe_bind.
  - apply guards_lift; [done|]. intros e He.
    destruct (consume_cases (service_bucket s) 1 now) as [Hx|(g & b & Hx)]; rewrite Hx in He; [|done].
    injection He as <-. auto with pychain.
  - intros r. apply safe_bind; [by apply safe_field|intros _; apply safe_ret].
Qed.

Lemma safe_over_service sid kind : sid ∈ keys → safe (over_service sid kind).
Proof.
  intros Hsid. unfold over_service. case_bool_decide; [|apply safe_ret].
  apply safe_bind; [by apply safe_consume_service|intros b; apply safe_ret].
Qed.

Lemma safe_serve_request sid m : sid ∈ keys → validate_message m = Ok tt → safe (serve_request sid m).
Proof.
  intros Hsid [ks Hm]%validate_inv. unfold serve_request. cbv zeta.
  apply safe_bind; [by apply safe_over_service|intros []; [by apply safe_send_error|]].
  case_bool_decide.
  { apply safe_bind; [by apply guards_status_payload|intros st]. apply safe_ignore. by apply safe_send. }
  case_bool_decide.
  { apply safe_bind; [eapply safe_manager, known_endpoints_keeps|intros known].
    apply safe_bind; [apply safe_gets|intros me]. eapply guards_bind; [by apply guards_session|intros s Hs].
    apply safe_ignore. by apply safe_send. }
  case_bool_decide as Hk; [rewrite Hk in Hm; by eapply safe_serve_blocks|].
  case_bool_decide as Hk'; [rewrite Hk' in Hm; by eapply safe_serve_mempool|apply safe_ret].
Qed.

Lemma session_pending sid s l :
  session_ok c sid s → sublist l (pending s) → session_ok c sid (s {{ pending := l }}).
Proof.
  intros [S1 S2 S3 S4 S5 S6 S7 S8 S9 S10] Hl. constructor; try done.
  - change (Z.of_nat (length l) <= max_requests c). apply sublist_length in Hl. lia.
  - change (NoDup (map (λ p, request_kind p.2) l)). eapply sublist_NoDup; [exact S4|]. by apply (fmap_sublist (λ p : string * PendingRequest, request_kind p.2)).
  - change (Forall (λ p, request_ok p.2) l). apply Forall_forall. intros p Hp. rewrite Forall_forall in S5. apply S5. by eapply (sublist_subseteq l).
Qed.

(** What the answer to a request is known to be. *)
Definition answers (m : Message) (o : option (option PendingRequest)) : Prop :=
  match o with
  | None => message_rid m = None
  | Some None => True
  | Some (Some r) => request_ok r ∧ ∃ k, dict_get RESPONSES (request_kind r) = Some k ∧ message_kind m ∈ [k; "ERROR"]
  end.

Lemma request_has_response r : request_ok r → ∃ k, dict_get RESPONSES (request_kind r) = Some k.
Proof. intros [[->| ->]|[[-> _]|[-> _]]]; by eexists. Qed.

Lemma guards_correlate sid m : sid ∈ keys → guards (correlate sid m) (answers m).
Proof.
  intros Hsid. unfold correlate. destruct (message_rid m) as [rid|] eqn:Hrid; [|by apply guards_ret].
  eapply guards_bind; [by apply guards_session|intros s Hs].
  destruct (dict_get (pending s) rid) as [r|] eqn:Hr.
  - assert (request_ok r) as Hok.
    { pose proof (so_requests _ _ _ Hs) as Hall. rewrite Forall_forall in Hall. apply dict_get_elem in Hr. apply (Hall _ Hr). }
    apply safe_bind.
    { apply safe_with_session; [done..|]. intros s' Hs'. split; [|done]. apply session_pending; [done|apply sublist_filter]. }
    intros _. apply safe_bind; [by apply safe_expire_request|intros _].
    destruct (request_has_response r Hok) as [k Hk]. rewrite Hk.
    eapply guards_bind; [by apply (guards_Ok _ _ _ _ _ k _ (λ x, x = k))|intros ? ->].
    case_bool_decide as Hin; [|apply guards_raise; auto with pychain]. apply guards_ret. split; [done|]. by exists k.
  - case_bool_decide; [by apply guards_ret|apply guards_raise; auto with pychain].
Qed.

Lemma safe_receive_status sid b m keys' : sid ∈ keys → valid_message m "STATUS" keys' → safe (receive_status sid b m).
Proof.
  intros Hsid Hm. unfold receive_status. cbv zeta.
  assert (keys' = ["height"; "tip_hash"]) as -> by (pose proof (vm_schema _ _ _ Hm) as Hs; by injection Hs).
  destruct (reads_int Hm "height") as (h & Hh & _); [set_solver..|].
  apply safe_bind; [apply guards_reads; by exists h|intros h'].
  apply safe_bind; [apply guards_reads, (reads_str Hm); set_solver|intros tip]. refuse.
  apply safe_bind; [by apply safe_field|intros _]. eapply guards_bind; [by apply guards_session|intros s Hs].
  destruct (rejected_anchor s) as [anchor|]; [|apply safe_ret]. destruct b; [|apply safe_ret].
  apply safe_bind; [by apply guards_tip|intros t].
  apply safe_bind; [apply safe_when; intros _; by apply safe_field|intros _]. by apply safe_field.
Qed.

Lemma endpoint_of_reads v : peer_reads v → reads (endpoint_of v).
Proof.
  destruct v as [| | | | |p]; try done. intros [[h Hh] [port Hp]]. exists (h, port). cbn [endpoint_of]. by rewrite Hh, Hp.
Qed.

Lemma safe_receive_peers m keys' : valid_message m "PEERS" keys' → safe (receive_peers m).
Proof.
  intros Hm. destruct (payload_peers _ (vm_payload _ _ _ Hm)) as (l & Hl & _ & Hall). unfold receive_peers.
  eapply guards_bind; [by apply (guards_Ok _ _ _ _ _ l _ (λ x, x = l))|intros ? ->].
  apply safe_for. intros v Hv. rewrite Forall_forall in Hall.
  eapply keeps_try; [|intros e _ _; apply safe_ret|done].
  apply safe_bind; [apply guards_reads, endpoint_of_reads, Hall, Hv|intros e].
  apply safe_ignore. eapply safe_manager, add_candidate_keeps.
Qed.

(** A response without an id does not pass the check. *)
Lemma response_has_id m kind keys' :
  kind ∈ ["BLOCKS"; "MEMPOOL"] → valid_message m kind keys' → message_rid m ≠ None.
Proof.
  intros Hk Hm. pose proof (vm_request _ _ _ Hm) as Hr. unfold check_request_id in Hr.
  assert (bool_decide (kind ∈ ["PEERS"; "BLOCKS"; "MEMPOOL"]) = true) as Hreq
    by (apply bool_decide_eq_true; rewrite elem_of_cons; by right).
  rewrite Hreq, orb_true_r in Hr. cbn [orb] in Hr. unfold message_rid.
  destruct (request_id m); by try (apply expect_Ok in Hr).
Qed.

Lemma response_kind m r k :
  dict_get RESPONSES (request_kind r) = Some k → message_kind m ∈ [k; "ERROR"] → request_ok r →
  (message_kind m = "BLOCKS" → request_kind r = "GET_BLOCKS") ∧ (message_kind m = "MEMPOOL" → request_kind r = "GET_MEMPOOL").
Proof.
  intros Hk Hm Hr. rewrite !elem_of_cons, elem_of_nil in Hm.
  destruct Hr as [[Hr|Hr]|[[Hr _]|[Hr _]]]; rewrite Hr in Hk |- *; injection Hk as <-;
    (split; intros He; [|]); try done; rewrite He in Hm; by destruct Hm as [|[|]].
Qed.

Lemma safe_receive sid o m :
  sid ∈ keys → validate_message m = Ok tt →
  match o with Some r => answers m (Some (Some r)) | None => message_rid m = None end →
  safe (receive sid o m).
Proof.
  intros Hsid [ks Hm]%validate_inv Ho. unfold receive. cbv zeta.
  eapply guards_bind; [apply guards_config|intros ? ->].
  case_bool_decide as He.
  { rewrite He in Hm. destruct o as [r|]; [|apply safe_ret].
    apply safe_bind; [apply guards_reads, payload_error, Hm|intros code]. apply safe_failed_request; [done..|apply Ho]. }
  case_bool_decide as Hst; [rewrite Hst in Hm; by eapply safe_receive_status|].
  case_bool_decide as Hpe; [rewrite Hpe in Hm; by eapply safe_receive_peers|].
  case_bool_decide as Hnt.
  { rewrite Hnt in Hm. assert (ks = ["transaction"]) as -> by (pose proof (vm_schema _ _ _ Hm) as Hs; by injection Hs).
    apply safe_bind; [apply guards_reads, (reads_str Hm); set_solver|intros v].
    apply safe_bind; [apply guards_lift; [done|apply unpack_transaction_contained]|intros tx].
    apply safe_ignore. by apply safe_node_submit. }
  case_bool_decide as Hnb.
  { rewrite Hnb in Hm. assert (ks = ["block"]) as -> by (pose proof (vm_schema _ _ _ Hm) as Hs; by injection Hs).
    apply safe_bind; [apply guards_reads, (reads_str Hm); set_solver|intros v].
    apply safe_bind; [apply guards_lift; [done|apply unpack_block_contained]|intros b].
    apply safe_ignore. apply safe_node_accept; [done..|by intros ? [= <-]]. }
  case_bool_decide as Hbl.
  { rewrite Hbl in Hm. destruct o as [r|].
    - destruct Ho as (Hr & k & Hk & Hin). eapply (safe_receive_blocks c limit c0 owed keys Hconfig Hchain Hkeys); [done|done|by eapply response_kind|done].
    - exfalso. by apply (response_has_id m "BLOCKS" ks); [apply list_elem_of_here|..]. }
  case_bool_decide as Hmp; [|apply guards_raise; auto with pychain].
  rewrite Hmp in Hm. destruct o as [r|].
  - destruct Ho as (Hr & k & Hk & Hin). eapply (safe_receive_mempool c limit c0 owed keys Hconfig Hchain Hkeys); [done|done|by eapply response_kind|done].
  - exfalso. by apply (response_has_id m "MEMPOOL" ks); [apply list_elem_of_further, list_elem_of_here|..].
Qed.

Lemma safe_remote sid m : sid ∈ keys → validate_message m = Ok tt → safe (remote sid m).
Proof.
  intros Hsid Hm. unfold remote. cbv zeta. apply safe_bind; [apply keeps_count|intros _].
  eapply guards_bind; [by apply guards_session|intros s Hs].
  destruct (negb (established (peer s))); [by apply safe_handshake|]. refuse.
  case_bool_decide as Hping; [apply safe_ignore; by apply safe_send|].
  case_bool_decide as Hpong.
  { destruct (validate_inv m Hm) as [ks Hv]. rewrite Hpong in Hv.
    assert (ks = ["nonce"]) as -> by (pose proof (vm_schema _ _ _ Hv) as Hx; by injection Hx).
    apply safe_bind; [apply guards_reads, (reads_str Hv); set_solver|intros nonce]. refuse. by apply safe_field. }
  case_bool_decide; [by apply safe_serve_request|].
  eapply guards_bind; [by apply guards_correlate|]. intros [[r|]|] Ho; [by apply safe_receive|apply safe_ret|by apply safe_receive].
Qed.

(** ** The timer *)

Lemma safe_node_id : safe (gets id).
Proof. apply safe_gets. Qed.

Lemma safe_expire_pending sid now : sid ∈ keys → safe (expire_pending sid now).
Proof.
  intros Hsid. unfold expire_pending. eapply guards_bind; [by apply guards_session|intros s Hs].
  apply safe_for. intros p Hp. destruct (Qle_bool (deadline p.2) now); [|apply safe_ret].
  apply safe_bind.
  { apply safe_with_session; [done..|]. intros s' Hs'. split; [|done]. apply session_pending; [done|apply sublist_filter]. }
  intros _. apply safe_bind; [by apply safe_expire_request|intros _]. apply safe_failed_request; [done..|].
  pose proof (so_requests _ _ _ Hs) as Hall. rewrite Forall_forall in Hall. by apply Hall.
Qed.

Lemma session_expired sid s l :
  session_ok c sid s → (length l <= MAX_EXPIRED)%nat → session_ok c sid (s {{ expired := l }}).
Proof. intros []. by constructor. Qed.

Lemma safe_tick_session now sid : sid ∈ keys → safe (tick_session now sid).
Proof.
  intros Hsid. unfold tick_session. eapply guards_bind; [apply guards_config|intros ? ->].
  eapply guards_bind; [by apply guards_session|intros s Hs].
  destruct (peer_closed (peer s)); [apply safe_ret|].
  destruct (negb (established (peer s))); [apply safe_when; intros _; by apply safe_close_peer|].
  apply safe_bind; [by apply safe_expire_pending|intros _]. apply safe_bind.
  { apply safe_with_session; [done..|]. intros s' Hs'. split; [|done]. apply session_expired; [done|].
    etrans; [apply length_filter|apply (so_expired _ _ _ Hs')]. }
  intros _. eapply guards_bind; [by apply guards_session|intros s' Hs'].
  destruct (_ && _); [by apply safe_close_peer|].
  apply safe_bind.
  { apply safe_when. intros _. eapply guards_bind; [apply keeps_token|intros nonce _].
    apply safe_bind; [by apply safe_field|intros _]. apply safe_ignore. by apply safe_send. }
  intros _. apply safe_bind.
  { apply safe_when. intros _. apply safe_bind; [apply safe_request; [done..|apply request_status_ok]|intros _; by apply safe_field]. }
  intros _. apply safe_when. intros _. apply safe_bind; [apply safe_request; [done..|]|intros _; by apply safe_field].
  intros d. left. by right.
Qed.

Definition dialable (e : Endpoint) : Prop := config_validate_endpoint c e = Ok e.

Lemma safe_begin_dial e : dialable e → safe (begin_dial e).
Proof.
  intros He. unfold begin_dial. apply safe_bind; [eapply safe_manager, mark_attempt_keeps, config_initial|intros _].
  apply keeps_modify; [done|]. intros n [H1 H2 H3 H4 H5 H6 H7 HD HU HC [I1 I2 I3 I4 I5 I6]].
  constructor; [done|done|done|done|done|done|done| |done|done|by constructor].
  apply Forall_app. by split; [|constructor].
Qed.

Lemma safe_dial_due l : Forall dialable l → safe (dial_due l).
Proof.
  induction 1 as [|e l He _ IH]; cbn [dial_due]; [apply safe_ret|].
  apply safe_bind; [apply safe_node_id|intros n]. destruct (_ || _); [done|].
  destruct (dial_slots_full n); [apply safe_ret|]. apply safe_bind; [by apply safe_begin_dial|by intros _].
Qed.

Lemma safe_tick : safe tick.
Proof.
  unfold tick. apply safe_bind; [apply safe_clock|intros now].
  eapply guards_bind; [apply (keeps_gets _ _ _ (λ l, dict_keys l = keys)); intros n Hn; apply Hn|intros all Hall; cbn beta in Hall].
  rewrite Hall. apply safe_bind; [apply safe_for; intros sid Hsid; by apply safe_tick_session|intros _].
  apply safe_bind; [by apply safe_sync_tick|intros _].
  eapply guards_bind; [eapply safe_on_manager, due_candidates_keeps|intros due [m Hdue]].
  apply safe_dial_due, Forall_forall. intros e He. destruct (Hdue e He) as (x & now' & _ & Hx & _). apply Hx.
Qed.

(** ** Local commands *)

(** A command keeps the invariant whatever it raises. *)
Lemma keeps_command cmd : keeps node_good (command cmd) (λ _, True) (λ _, True).
Proof.
  assert (∀ A (f : Blockchain → result A) g, keeps node_good (answer g (ask_chain f)) (λ _, True) (λ _, True)) as Hask.
  { intros A f g. unfold answer. apply keeps_seq; [by apply keeps_ask_chain|intros a; by apply keeps_ret]. }
  assert (∀ A (m : node_call A) g, safe m → keeps node_good (answer g m) (λ _, True) (λ _, True)) as Hsafe.
  { intros A m g Hm. unfold answer. apply keeps_seq; [by eapply keeps_weaken|intros a; by apply keeps_ret]. }
  assert (∀ A (m : node_call A), safe m → keeps node_good m (λ _, True) (λ _, True)) as Hweak.
  { intros A m Hm. by eapply keeps_weaken. }
  destruct cmd; cbn [command]; try apply Hask.
  - apply Hsafe, safe_node_submit; done.
  - apply Hsafe, safe_node_accept; done.
  - unfold answer. apply keeps_seq; [|intros a; by apply keeps_ret]. intros n Hn. unfold ask_node. by destruct (node_status n).
  - apply keeps_seq; [by apply keeps_ask_chain|intros view].
    apply keeps_seq; [by apply keeps_ask_chain|intros mp; by apply keeps_ret].
  - apply keeps_seq; [apply Hweak; eapply guards_safe, keeps_wall|intros now]. apply Hask.
  - apply keeps_seq; [apply Hweak; eapply guards_safe, keeps_wall|intros now]. apply Hask.
Qed.
End handlers.
