(* ===== verification/NodeLife.v ===== *)
(** * The life of a node

    [node_step] is one step of the node's tasks or of a caller, from its
    creation to its end: the dispatcher's turn, the timer, a call, a socket that
    was accepted or dialled, a step of a connection's reader or writer, and the
    tasks that close.  The steps of this file change the table of sessions and
    the inbound accounting; [alive] is the invariant they keep, with [owed] the
    reservations that the running step holds. *)

From coqutil Require Import Datatypes.RecordSetters.
Import DoubleBraceUpdate.
From S2P Require Import Prelude Bytes Json JsonParse Crypto Transaction Utxo Mempool.
From S2P Require Import MempoolFacts Block Blockchain BlockchainFacts Codec CodecFacts NetConfig.
From S2P Require Import Messages Protocol ProtocolFacts FrameFacts ConfigFacts Effects Peer.
From S2P Require Import PeerFacts PeerManager PeerManagerFacts NodeState Sync Node NodeInv.
From S2P Require Import NodeSteps SyncFacts NodeFacts.
#[local] Open Scope Z_scope.

(** * What a peer's message cannot change

    The handlers of a message touch neither the state of the node, nor its
    recorded failure, nor the queue of events: [calm].  Only the dispatcher and
    the interface do. *)

Create HintDb calm.

Section calm.
Context {EL : EcdsaLib} {CS : ChainStore}.

Definition calm {A} (m : node_call A) : Prop := ∀ n,
  run_state (m n).2 = run_state n ∧ failure (m n).2 = failure n ∧ events (m n).2 = events n.

Lemma calm_bind {A B} (m : node_call A) (f : A → node_call B) : calm m → (∀ a, calm (f a)) → calm (m ≫= f).
Proof.
  intros Hm Hf n. rewrite bind_run. specialize (Hm n). destruct (m n) as [[a|e] n']; [|exact Hm].
  destruct Hm as (E1 & E2 & E3), (Hf a n') as (F1 & F2 & F3). cbn [snd] in *. split_and!; congruence.
Qed.
Lemma calm_ret {A} (a : A) : calm (mret a).
Proof. done. Qed.
Lemma calm_raise {A} e : calm (@raise _ A e).
Proof. done. Qed.
Lemma calm_lift {A} (r : result A) : calm (lift r).
Proof. done. Qed.
Lemma calm_gets {A} (f : Node → A) : calm (gets f).
Proof. done. Qed.
Lemma calm_when b m : calm m → calm (when b m).
Proof. destruct b; [done|intros _; apply calm_ret]. Qed.
Lemma calm_for {Y} (l : list Y) f : (∀ x, calm (f x)) → calm (for_each l f).
Proof. intros Hf. induction l as [|x l IH]; cbn [for_each]; [apply calm_ret|]. apply calm_bind; [apply Hf|by intros _]. Qed.
Lemma calm_try {A} (m : node_call A) caught h : calm m → (∀ e, calm (h e)) → calm (try_call m caught h).
Proof.
  intros Hm Hh n. unfold try_call. specialize (Hm n). destruct (m n) as [[a|e] n']; [done|].
  destruct (caught e); [|done]. destruct Hm as (E1 & E2 & E3), (Hh e n') as (F1 & F2 & F3). cbn [snd] in *.
  split_and!; congruence.
Qed.
Lemma calm_session sid : calm (session_of sid).
Proof. intros n. unfold session_of. by destruct (dict_get _ _). Qed.
Lemma calm_with_session sid f : calm (with_session sid f).
Proof. done. Qed.
Lemma calm_with_sync f : calm (with_sync f).
Proof. done. Qed.
Lemma calm_count f : calm (count f).
Proof. done. Qed.
Lemma calm_clock : calm node_clock.
Proof. done. Qed.
Lemma calm_token : calm node_token.
Proof. done. Qed.
Lemma calm_wall : calm (node_world read_wall).
Proof. done. Qed.
Lemma calm_ask_chain {A} (f : Blockchain → result A) : calm (ask_chain f).
Proof. done. Qed.
Lemma calm_on_chain {A} (m : method A) : calm (on_chain m).
Proof. intros n. unfold on_chain, zoom. by destruct (m _). Qed.
Lemma calm_on_manager {A} (m : manager_call A) : calm (on_manager m).
Proof. intros n. unfold on_manager, zoom. by destruct (m _). Qed.
Lemma calm_on_peer {A} sid (m : call PeerConnection A) : calm (on_peer sid m).
Proof. intros n. unfold on_peer. destruct (dict_get _ _); [|done]. by destruct (m _). Qed.
End calm.

#[export] Hint Resolve calm_ret calm_raise calm_lift calm_gets calm_session calm_with_session calm_with_sync calm_count : calm.
#[export] Hint Resolve calm_clock calm_token calm_wall calm_ask_chain calm_on_chain calm_on_manager calm_on_peer : calm.

(** The structure of a handler, down to its steps. *)
Ltac calm_step :=
  lazymatch goal with
  | |- calm (_ ≫= _) => apply calm_bind; [|intros ?]
  | |- calm (when _ _) => apply calm_when
  | |- calm (for_each _ _) => apply calm_for; intros ?
  | |- calm (try_call _ _ _) => apply calm_try; [|intros ?]
  | |- calm (if ?b then _ else _) => destruct b
  | |- calm (match ?x with _ => _ end) => destruct x
  | |- calm (let _ := _ in _) => cbv zeta
  | |- calm _ => solve [auto with calm]
  end.

Section handlers.
Context {EL : EcdsaLib} {CS : ChainStore}.

Lemma calm_send sid m : calm (send sid m).
Proof. unfold send. repeat calm_step. Qed.
#[local] Hint Resolve calm_send : calm.

Lemma calm_broadcast m src : calm (broadcast m src).
Proof. unfold broadcast. repeat calm_step. Qed.
Lemma calm_request sid k l : calm (request sid k l).
Proof. unfold request. repeat calm_step. Qed.
Lemma calm_send_error sid rid code : calm (send_error sid rid code).
Proof. unfold send_error. repeat calm_step. Qed.
Lemma calm_expire_request sid rid : calm (expire_request sid rid).
Proof. unfold expire_request. repeat calm_step. Qed.
Lemma calm_tip : calm node_tip.
Proof. unfold node_tip. repeat calm_step. Qed.
#[local] Hint Resolve calm_broadcast calm_request calm_send_error calm_expire_request calm_tip : calm.

Lemma calm_status : calm status_payload.
Proof. unfold status_payload. repeat calm_step. Qed.
Lemma calm_drop_export cid : calm (drop_export cid).
Proof. apply calm_with_sync. Qed.
Lemma calm_tip_changed : calm tip_changed.
Proof. unfold tip_changed. repeat (calm_step || apply calm_drop_export). done. Qed.
#[local] Hint Resolve calm_status calm_drop_export calm_tip_changed : calm.

Lemma calm_submit tx src : calm (node_submit_transaction tx src).
Proof. unfold node_submit_transaction, ignore_policy_limit. repeat calm_step. Qed.
Lemma calm_accept b src : calm (node_accept_block b src).
Proof. unfold node_accept_block, node_add_block, ignore_policy_limit. repeat calm_step. Qed.
#[local] Hint Resolve calm_submit calm_accept : calm.

Lemma calm_failed_request sid r code : calm (failed_request sid r code).
Proof. unfold failed_request. repeat calm_step. Qed.
#[local] Hint Resolve calm_failed_request : calm.

Lemma calm_fill_blocks rid h a th t l : ∀ acc, calm (fill_blocks rid h a th t l acc).
Proof. induction l as [|i l IH]; intros acc; cbn [fill_blocks]; repeat (apply IH || calm_step). Qed.
#[local] Hint Resolve calm_fill_blocks : calm.
Lemma calm_serve_blocks sid m : calm (serve_blocks sid m).
Proof. unfold serve_blocks. repeat calm_step. Qed.
Lemma calm_accept_blocks sid l : calm (accept_blocks sid l).
Proof. induction l as [|v l IH]; cbn [accept_blocks]; repeat (apply IH || calm_step). Qed.
#[local] Hint Resolve calm_serve_blocks calm_accept_blocks : calm.
Lemma calm_receive_blocks sid r m : calm (receive_blocks sid r m).
Proof. unfold receive_blocks. repeat calm_step. Qed.

Lemma calm_reserve_snapshot sid rid tip now stats : calm (reserve_snapshot sid rid tip now stats).
Proof. unfold reserve_snapshot. repeat calm_step. Qed.
#[local] Hint Resolve calm_reserve_snapshot : calm.
Lemma calm_create_snapshot sid rid tip now x : calm (create_snapshot sid rid tip now x).
Proof. unfold create_snapshot. repeat calm_step. Qed.
Lemma calm_serve_page sid rid tip k l now x : calm (serve_page sid rid tip k l now x).
Proof. unfold serve_page. repeat calm_step. Qed.
#[local] Hint Resolve calm_create_snapshot calm_serve_page : calm.
Lemma calm_serve_mempool sid m : calm (serve_mempool sid m).
Proof. unfold serve_mempool. repeat calm_step. Qed.
Lemma calm_receive_mempool sid r m : calm (receive_mempool sid r m).
Proof. unfold receive_mempool, submit_items. repeat calm_step. Qed.
#[local] Hint Resolve calm_receive_blocks calm_serve_mempool calm_receive_mempool : calm.

Lemma calm_close_peer sid : calm (close_peer sid).
Proof. unfold close_peer. repeat calm_step. done. Qed.
#[local] Hint Resolve calm_close_peer : calm.
Lemma calm_complete_handshake sid : calm (complete_handshake sid).
Proof. unfold complete_handshake. repeat calm_step. Qed.
Lemma calm_receive_version sid m : calm (receive_version sid m).
Proof. unfold receive_version. repeat calm_step. Qed.
#[local] Hint Resolve calm_complete_handshake calm_receive_version : calm.
Lemma calm_handshake sid m : calm (handshake sid m).
Proof. unfold handshake. repeat calm_step. Qed.
Lemma calm_serve_request sid m : calm (serve_request sid m).
Proof. unfold serve_request, over_service, consume_service. repeat calm_step. Qed.
Lemma calm_correlate sid m : calm (correlate sid m).
Proof. unfold correlate. repeat calm_step. Qed.
Lemma calm_receive_status sid b m : calm (receive_status sid b m).
Proof. unfold receive_status. repeat calm_step. Qed.
Lemma calm_receive_peers m : calm (receive_peers m).
Proof. unfold receive_peers. repeat calm_step. Qed.
#[local] Hint Resolve calm_receive_status calm_receive_peers calm_handshake calm_serve_request calm_correlate : calm.
Lemma calm_receive sid r m : calm (receive sid r m).
Proof. unfold receive. repeat calm_step. Qed.
#[local] Hint Resolve calm_receive : calm.
Lemma calm_remote sid m : calm (remote sid m).
Proof. unfold remote. repeat calm_step. Qed.
#[local] Hint Resolve calm_remote : calm.
Lemma calm_dispatch_remote sid m : calm (dispatch_remote sid m).
Proof. unfold dispatch_remote. repeat calm_step. Qed.

Lemma calm_reap_peers : calm reap_peers.
Proof.
  unfold reap_peers, sync_disconnected. apply calm_bind; [done|intros cids]. apply calm_for. intros cid.
  apply calm_bind; [done|intros _]. apply calm_bind; [done|intros all]. destruct (dict_get all cid); [|done].
  apply calm_bind; [done|intros _]. repeat calm_step.
Qed.
End handlers.

Section life.
Context {EL : EcdsaLib} {CS : ChainStore}.
Context (c : NodeConfig) (limit : Z) (c0 : Blockchain).
Context (Hconfig : config_limits c) (Hchain : bc_inv limit c0).

Definition alive (owed : list Z) (n : Node) : Prop :=
  NoDup (dict_keys (sessions n)) ∧ ok c limit c0 owed (dict_keys (sessions n)) n.

Lemma alive_intro owed keys n : NoDup keys → ok c limit c0 owed keys n → alive owed n.
Proof. intros Hk Hn. pose proof (no_keys _ _ _ _ _ _ Hn) as He. unfold alive. by rewrite He. Qed.

(** A handler that keeps the table keeps the invariant. *)
Lemma alive_keeps {A} owed (m : node_call A) Q X :
  (∀ keys, NoDup keys → keeps (ok c limit c0 owed keys) m Q X) → keeps (alive owed) m Q X.
Proof.
  intros Hm n [Hk Hn]. specialize (Hm _ Hk n Hn).
  destruct (m n) as [[a|e] n']; destruct Hm as [Hn' Ha]; (split; [by eapply alive_intro|exact Ha]).
Qed.

(** A handler of a session that is in the table. *)
Definition at_session (owed : list Z) (sid : string) (n : Node) : Prop :=
  alive owed n ∧ sid ∈ dict_keys (sessions n).

Lemma at_session_keeps {A} owed sid (m : node_call A) Q X :
  (∀ keys, NoDup keys → sid ∈ keys → keeps (ok c limit c0 owed keys) m Q X) → keeps (at_session owed sid) m Q X.
Proof.
  intros Hm n [[Hk Hn] Hsid]. specialize (Hm _ Hk Hsid n Hn).
  destruct (m n) as [[a|e] n']; destruct Hm as [Hn' Ha]; split; try exact Ha; split;
    try (by eapply alive_intro); by rewrite (no_keys _ _ _ _ _ _ Hn').
Qed.

(** ** The accounting *)

Lemma inbound_move owed owed' n n' :
  inbound_ok c owed n → events n' = events n → inbound_events n' = inbound_events n →
  inbound_bytes n' = inbound_bytes n →
  readings (sessions n') ++ owed' ≡ₚ readings (sessions n) ++ owed → inbound_ok c owed' n'.
Proof.
  intros [I1 I2 I3 I4 I5 I6] E1 E2 E3 Hp.
  constructor; rewrite ?E1, ?E2, ?E3; [| | |done|done|done].
  - rewrite I1. apply Permutation_length in Hp. rewrite !length_app in Hp. lia.
  - rewrite I2. apply (sumZ_with_proper id) in Hp. rewrite !sumZ_with_app in Hp. lia.
  - eapply Permutation_Forall; [|exact I3]. by rewrite Hp.
Qed.

(** The same, for a step that changes the queue and the counters. *)
Lemma inbound_queue owed owed' n evs de db :
  inbound_ok c owed n →
  map event_size evs ++ owed' ≡ₚ map event_size (events n) ++ owed → Forall event_ok evs →
  de = inbound_events n → db = inbound_bytes n →
  inbound_ok c owed' (n {{ events := evs; inbound_events := de; inbound_bytes := db }}).
Proof.
  intros [I1 I2 I3 I4 I5 I6] Hp Hok -> ->.
  assert (∀ l : list Event, sumZ_with event_size l = sumZ_with id (map event_size l)) as Hmap.
  { intros l. induction l as [|x l IH]; [done|]. cbn. by rewrite IH. }
  constructor; cbn [events inbound_events inbound_bytes sessions constant]; [| | |done|done|done].
  - change (inbound_events n = Z.of_nat (length evs + length (readings (sessions n)) + length owed')).
    rewrite I1. apply Permutation_length in Hp. rewrite !length_app, !length_map in Hp. lia.
  - change (inbound_bytes n = sumZ_with event_size evs + sumZ_with id (readings (sessions n)) + sumZ_with id owed').
    rewrite I2. apply (sumZ_with_proper id) in Hp. rewrite !sumZ_with_app, <- !Hmap in Hp. lia.
  - change (Forall (λ z, 0 <= z) (map event_size evs ++ readings (sessions n) ++ owed')).
    eapply Permutation_Forall; [|exact I3]. rewrite (Permutation_app_comm (readings _)), app_assoc, <- Hp.
    by rewrite <- app_assoc, (Permutation_app_comm owed').
Qed.

Lemma alive_ext owed owed' n n' :
  alive owed n → inbound_ok c owed' n' → config n' = config n → node_chain n' = node_chain n → world n' = world n →
  manager n' = manager n → sync n' = sync n → sessions n' = sessions n → closed_peers n' = closed_peers n →
  dial_tasks n' = dial_tasks n → alive owed' n'.
Proof.
  intros [Hk [H1 H2 H3 H4 H5 H6 H7 HD HU HC H8]] Hin E1 E2 E3 E4 E5 E6 E7 E8. unfold alive. rewrite E6. split; [done|].
  constructor; [..|done]; unfold closed_reading, unique_live; rewrite ?E1, ?E2, ?E3, ?E4, ?E5, ?E6, ?E7, ?E8; done.
Qed.

(** Releasing a reservation that is owed never underflows. *)
Lemma hoare_release owed size X :
  hoare (alive (size :: owed)) (release size) (λ _, alive owed) X.
Proof.
  intros n Hn. pose proof (no_inbound _ _ _ _ _ _ (proj2 Hn)) as [I1 I2 I3 I4 I5 I6]. unfold release. cbv zeta.
  cbn [length sumZ_with] in I1, I2. rewrite Forall_app in I3. destruct I3 as [J1 J2]. rewrite Forall_app in J2.
  destruct J2 as [J2 J3]. apply Forall_cons in J3 as [Hs J3].
  assert (∀ l : list Z, Forall (λ z, 0 <= z) l → 0 <= sumZ_with id l) as Hnn by (intros l Hl; by apply sumZ_with_nonneg).
  assert (0 <= sumZ_with event_size (events n)) as Hev by (apply sumZ_with_nonneg; by rewrite Forall_map in J1).
  pose proof (Hnn _ J2). pose proof (Hnn _ J3). unfold id in *.
  match goal with |- context [inbound_events ?m] => set (n1 := m) end.
  assert (inbound_events n1 = inbound_events n - 1) as E1 by done.
  assert (inbound_bytes n1 = inbound_bytes n - size) as E2 by done.
  rewrite E1, E2, (proj2 (Z.ltb_ge _ _)), (proj2 (Z.ltb_ge _ _)) by lia. cbn [orb].
  apply (alive_ext (size :: owed) owed n); [done| |done..].
  constructor; rewrite ?E1, ?E2; [change (events n1) with (events n); change (sessions n1) with (sessions n); lia|..].
  - change (events n1) with (events n). change (sessions n1) with (sessions n). unfold id in *. lia.
  - rewrite !Forall_app. done.
  - lia.
  - lia.
  - done.
Qed.

Lemma hoare_reserve owed size X :
  0 <= size → hoare (alive owed) (reserve size) (λ b : bool, alive (if b then size :: owed else owed)) X.
Proof.
  intros Hs n Hn. pose proof (no_inbound _ _ _ _ _ _ (proj2 Hn)) as [I1 I2 I3 I4 I5 I6]. unfold reserve.
  rewrite (no_config _ _ _ _ _ _ (proj2 Hn)).
  destruct (_ || _) eqn:Hfull; [done|]. rewrite !orb_false_iff in Hfull.
  destruct Hfull as [[_ He%Z.leb_gt] Hb%Z.ltb_ge].
  eapply (alive_ext owed (size :: owed) n); [done| |done..].
  constructor; cbn [length sumZ_with].
  - change (inbound_events n + 1 = Z.of_nat (length (events n) + length (readings (sessions n)) + S (length owed))). lia.
  - change (inbound_bytes n + size = sumZ_with event_size (events n) + sumZ_with id (readings (sessions n)) + (size + sumZ_with id owed)). lia.
  - change (Forall (λ z, 0 <= z) (map event_size (events n) ++ readings (sessions n) ++ size :: owed)).
    rewrite !Forall_app in *. destruct I3 as (J1 & J2 & J3). by split_and!; [..|constructor].
  - change (inbound_events n + 1 <= inbound_max_events c). lia.
  - change (inbound_bytes n + size <= inbound_max_bytes c). lia.
  - done.
Qed.

(** The queue has room for what was reserved: [QueueFull] is never raised. *)
Lemma hoare_put owed ev X :
  event_ok ev → hoare (alive (event_size ev :: owed)) (put_event ev) (λ _, alive owed) X.
Proof.
  intros Hev n Hn. pose proof (no_inbound _ _ _ _ _ _ (proj2 Hn)) as Hin. unfold put_event.
  rewrite (no_config _ _ _ _ _ _ (proj2 Hn)). pose proof (io_events _ _ _ Hin) as I1. cbn [length] in I1.
  pose proof (io_max_events _ _ _ Hin) as I4. destruct (_ <=? _) eqn:Hfull; [apply Z.leb_le in Hfull; lia|].
  apply (alive_ext (event_size ev :: owed) owed n); [done| |done..].
  apply (inbound_queue (event_size ev :: owed) owed n (events n ++ [ev]) (inbound_events n) (inbound_bytes n)); [done| | |done|done].
  - rewrite map_app, <- app_assoc. done.
  - apply Forall_app. split; [apply Hin|by constructor].
Qed.

(** ** A connection's reader *)

Lemma readings_update (f : Session → Session) l sid s :
  NoDup (dict_keys l) → dict_get l sid = Some s →
  option_list (reading (peer s)) ++ readings (dict_map f sid l) ≡ₚ option_list (reading (peer (f s))) ++ readings l.
Proof.
  unfold dict_keys. induction l as [|[k v] l IH]; [done|]. rewrite fmap_cons, NoDup_cons, dict_get_cons.
  intros [Hk Hl] Hs. unfold dict_map, readings in *. cbn [map omap list_omap fst snd] in *. case_bool_decide as Hkey.
  - injection Hs as ->. cbn [fst snd].
    assert (map (λ p, if bool_decide (p.1 = sid) then (p.1, f p.2) else p) l = l) as ->.
    { clear - Hk Hkey. induction l as [|[k' v'] l IH]; [done|]. cbn in *. apply not_elem_of_cons in Hk as [Hne Hk].
      rewrite IH by done. by rewrite bool_decide_eq_false_2 by congruence. }
    destruct (reading (peer s)) as [x|], (reading (peer (f s))) as [y|]; cbn; try done. constructor.
  - cbn [fst snd]. specialize (IH Hl Hs). destruct (reading (peer v)) as [x|]; [|exact IH].
    rewrite <- !Permutation_middle. by apply perm_skip.
Qed.

(** The session is there, its reader runs, and holds [r]. *)
Definition reader_at (sid : string) (r : option Z) (owed : list Z) (n : Node) : Prop :=
  alive owed n ∧ sid ∉ closed_peers n ∧ ∃ s, dict_get (sessions n) sid = Some s ∧ reading (peer s) = r.

Definition never (e : exn) (n : Node) : Prop := False.

(** Changing the connection, and with it what the reader holds. *)
Lemma reader_set sid r r' owed owed' n s f :
  reader_at sid r owed n → dict_get (sessions n) sid = Some s →
  peer_inv c (f (peer s)) → same_name (peer s) (f (peer s)) → reading (f (peer s)) = r' →
  option_list r' ++ owed' ≡ₚ option_list r ++ owed →
  reader_at sid r' owed' (n {{ sessions := dict_map (λ s, s {{ peer := f (peer s) }}) sid (sessions n) }}).
Proof.
  intros ([Hk Hn] & Hopen & s0 & Hs & Hr) Hs0 Hinv Hname Hr' Hp. rewrite Hs in Hs0. injection Hs0 as ->.
  pose proof (ok_session _ _ _ _ _ _ _ _ Hn Hs) as Hso. set (g := λ s : Session, s {{ peer := f (peer s) }}).
  pose proof (readings_update g (sessions n) sid s Hk Hs) as Hread.
  change (reading (peer (g s))) with (reading (f (peer s))) in Hread. rewrite Hr, Hr' in Hread.
  destruct Hn as [H1 H2 H3 H4 H5 H6 H7 HD HU HC H8].
  assert (dict_keys (dict_map g sid (sessions n)) = dict_keys (sessions n)) as Hkeys by apply dict_map_keys.
  split; [|split; [exact Hopen|exists (g s)]].
  - split; [change (NoDup (dict_keys (dict_map g sid (sessions n)))); by rewrite Hkeys|].
    constructor; [done|done|done|done|done|done| |done| | |].
    + change (Forall (λ p, session_ok c p.1 p.2) (dict_map g sid (sessions n))).
      apply (dict_map_get_Forall _ _ _ _ s); [done|done| |done]. by apply session_peer.
    + apply (unique_map n _ sid s g HU Hs); [done|]. intros [Le Lc] j t Hj Ht Lt.
      destruct Hname as (_ & Hid & _ & _ & He & Hc'). change (peer_node_id (f (peer s)) ≠ peer_node_id (peer t)).
      rewrite Hid. intros Heq. apply Hj. eapply (HU j sid t s Ht Hs Lt); [|done]. split; [by apply He|by apply Hc'].
    + intros k s' Hck Hs'. change (dict_get (dict_map g sid (sessions n)) k = Some s') in Hs'.
      rewrite dict_map_get in Hs'. case_bool_decide; [by subst k|by eapply HC].
    + apply (inbound_move owed owed' n); [done..|].
      change (readings (dict_map g sid (sessions n)) ++ owed' ≡ₚ readings (sessions n) ++ owed).
      apply (Permutation_app_inv_l (option_list r)). rewrite app_assoc, Hread, <- app_assoc.
      rewrite (Permutation_app_swap_app (option_list r')), Hp. by rewrite (Permutation_app_swap_app (option_list r)).
  - split; [|exact Hr'].
    change (dict_get (dict_map g sid (sessions n)) sid = Some (g s)). by rewrite dict_map_get, bool_decide_eq_true_2, Hs.
Qed.

Lemma reader_session sid r owed n :
  reader_at sid r owed n → ∃ s, dict_get (sessions n) sid = Some s ∧ reading (peer s) = r ∧ peer_inv c (peer s).
Proof.
  intros ([Hk Hn] & _ & s & Hs & Hr). exists s. split_and!; [done..|]. pose proof (ok_session _ _ _ _ _ _ _ _ Hn Hs) as Hso. apply Hso.
Qed.

Lemma hoare_with_peer sid r r' owed owed' f :
  (∀ p, peer_inv c p → reading p = r → peer_inv c (f p) ∧ same_name p (f p) ∧ reading (f p) = r') →
  option_list r' ++ owed' ≡ₚ option_list r ++ owed →
  hoare (reader_at sid r owed) (with_peer sid f) (λ _, reader_at sid r' owed') never.
Proof.
  intros Hf Hp n Hn. destruct (reader_session _ _ _ _ Hn) as (s & Hs & Hr & Hinv).
  destruct (Hf (peer s) Hinv Hr) as (Hi & Hname & Hr'). by eapply reader_set.
Qed.

(** A change of the connection that the reader's reservation outlives. *)
Lemma hoare_peer_same sid r owed f :
  (∀ p, peer_inv c p → peer_inv c (f p)) → (∀ p, same_identity p (f p)) →
  hoare (reader_at sid r owed) (with_peer sid f) (λ _, reader_at sid r owed) never.
Proof.
  intros Hi Hs. apply hoare_with_peer; [|done]. intros p Hp Hr. destruct (Hs p) as [Hn Hread].
  split_and!; [by apply Hi|done|congruence].
Qed.

Lemma hoare_on_peer {A} sid r owed (m : call PeerConnection A) (Q : A → Prop) :
  (∀ p x p', peer_inv c p → m p = (x, p') → peer_inv c p' ∧ same_identity p p' ∧ match x with Ok a => Q a | Raise _ => True end) →
  hoare (reader_at sid r owed) (on_peer sid m) (λ a n, reader_at sid r owed n ∧ Q a) (λ _, reader_at sid r owed).
Proof.
  intros Hm n Hn. destruct (reader_session _ _ _ _ Hn) as (s & Hs & Hr & Hinv). unfold on_peer. rewrite Hs.
  destruct (m (peer s)) as [x p'] eqn:Hx. destruct (Hm _ _ _ Hinv Hx) as (Hi & [Hname Hread] & HQ).
  assert (reader_at sid r owed (n {{ sessions := dict_map (λ s, s {{ peer := p' }}) sid (sessions n) }})) as Hn'.
  { apply (reader_set sid r r owed owed n s (λ _, p')); [done..|congruence|done]. }
  by destruct x.
Qed.

Lemma hoare_reader_same {A} sid r owed (m : node_call A) Q :
  (∀ keys, NoDup keys → keeps (ok c limit c0 owed keys) m Q (λ _, False)) →
  (∀ n, sessions (m n).2 = sessions n ∧ closed_peers (m n).2 = closed_peers n) →
  hoare (reader_at sid r owed) m (λ a n, reader_at sid r owed n ∧ Q a) never.
Proof.
  intros Hm Hsame n (Hn & Ho & s & Hs). pose proof (alive_keeps owed m Q _ Hm n Hn) as Hk. destruct (Hsame n) as [E1 E2].
  destruct (m n) as [[a|e] n']; cbn [snd] in *; destruct Hk as [Hn' Ha]; [|done].
  split; [|done]. split; [done|]. rewrite E1, E2. split; [done|by exists s].
Qed.

Lemma hoare_reader_clock sid r owed : hoare (reader_at sid r owed) node_clock (λ _, reader_at sid r owed) never.
Proof.
  eapply hoare_post; [apply (hoare_reader_same sid r owed node_clock (λ _, True))|by intros a n [? _]].
  - intros keys Hk. apply keeps_clock.
  - done.
Qed.

Lemma hoare_reader_config sid r owed : hoare (reader_at sid r owed) (gets config) (λ x n, reader_at sid r owed n ∧ x = c) never.
Proof. apply hoare_reader_same; [intros keys Hk; apply keeps_config|done]. Qed.

Lemma hoare_reader_reserve sid r owed size :
  0 <= size →
  hoare (reader_at sid r owed) (reserve size) (λ b : bool, reader_at sid r (if b then size :: owed else owed)) never.
Proof.
  intros Hs n (Hn & Ho & s & Hget). pose proof (hoare_reserve owed size never Hs n Hn) as Hr. unfold reserve in *.
  destruct (_ || _ || _); (split; [exact Hr|]; split; [done|by exists s]).
Qed.

Lemma hoare_reader_release sid r owed size :
  hoare (reader_at sid r (size :: owed)) (release size) (λ _, reader_at sid r owed) never.
Proof.
  intros n (Hn & Ho & s & Hget). pose proof (hoare_release owed size never n Hn) as Hr. unfold release in *. cbv zeta in *.
  destruct (_ || _); [done|]. split; [exact Hr|]. split; [done|by exists s].
Qed.

Lemma reader_failed_identity e p : same_identity p (reader_failed e p).
Proof. unfold reader_failed, begin_close, set_reason. case_bool_decide; by destruct (close_begun _). Qed.

Lemma read_header_identity prefix t1 t2 p r p' : read_header c prefix t1 t2 p = (r, p') → same_identity p p'.
Proof.
  unfold read_header. cbv zeta. destruct (negb _); [by intros [= <- <-]|].
  destruct (consume _ _ _) as [[g b]|e]; [|by intros [= <- <-]]. destruct (negb g); [by intros [= <- <-]|].
  destruct (consume _ _ _) as [[g' b']|e]; [|by intros [= <- <-]]. by destruct (negb g'); intros [= <- <-].
Qed.

Lemma hoare_reader_failed sid r owed e :
  hoare (reader_at sid r owed) (with_peer sid (reader_failed e)) (λ _, reader_at sid r owed) never.
Proof. apply hoare_peer_same; [intros p; apply reader_failed_inv|apply reader_failed_identity]. Qed.

Lemma hoare_weaken {A} (m : node_call A) P Q X Y :
  hoare P m Q X → (∀ e n, X e n → Y e n) → hoare P m Q Y.
Proof. intros Hm HY n Hn. specialize (Hm n Hn). destruct (m n) as [[a|e] n']; auto. Qed.

Lemma never_any {A} (m : node_call A) P Q Y : hoare P m Q never → hoare P m Q Y.
Proof. intros Hm. eapply hoare_weaken; [exact Hm|by intros]. Qed.

Lemma hoare_try {A} (m : node_call A) h P Q X Y :
  hoare P m Q X → (∀ e, hoare (X e) (h e) Q Y) → hoare P (try_call m (λ _, true) h) Q Y.
Proof.
  intros Hm Hh n Hn. unfold try_call. specialize (Hm n Hn). destruct (m n) as [[a|e] n']; [done|by apply Hh].
Qed.

Lemma hoare_pure {A} (m : node_call A) (P : Node → Prop) (φ : Prop) Q X :
  (φ → hoare P m Q X) → hoare (λ n, P n ∧ φ) m Q X.
Proof. intros Hm n [Hn Hφ]. by apply Hm. Qed.

(** A prefix was read: afterwards the reader holds a reservation or nothing. *)
Lemma read_prefix_reader sid prefix :
  hoare (reader_at sid None []) (read_prefix sid prefix) (λ _ n, ∃ r, reader_at sid r [] n) never.
Proof.
  unfold read_prefix. eapply hoare_bind; [apply hoare_reader_config|]. intros x. apply hoare_pure. intros ->.
  eapply hoare_bind; [apply hoare_reader_clock|intros t1]. eapply hoare_bind; [apply hoare_reader_clock|intros t2].
  eapply hoare_try with (X := λ _, reader_at sid None []).
  2: { intros e. eapply hoare_post; [apply hoare_reader_failed|]. intros ? n Hn. by exists None. }
  eapply hoare_bind; [apply (hoare_on_peer sid None [] _ (λ size, 0 <= size))|intros size; apply hoare_pure; intros Hsize].
  { intros p x p' Hp Hx. split_and!; [by eapply read_header_inv|by eapply read_header_identity..|].
    destruct (read_header_inv _ _ _ _ _ _ _ Hp Hx) as (_ & _ & _ & _ & _ & Hr). destruct x; [lia|done]. }
  eapply hoare_bind; [apply never_any, hoare_reader_reserve, Hsize|intros b]. destruct b.
  - apply never_any. eapply hoare_post; [apply (hoare_with_peer sid None (Some size) [size] [])|].
    + intros p Hp _. split_and!; [|done|done]. by apply (peer_inv_same c p); [|apply Hp|].
    + done.
    + intros ? n Hn. by exists (Some size).
  - apply never_any. eapply hoare_post; [apply (hoare_peer_same sid None [])|].
    + intros p Hp. apply begin_close_inv. by apply (peer_inv_same c p); [|apply Hp|].
    + intros p. unfold begin_close. by destruct (close_begun _).
    + intros ? n Hn. by exists None.
Qed.

Lemma take_reading sid size :
  hoare (reader_at sid (Some size) []) (_ ← with_peer sid (λ p, p {{ reading := None }}); release size)
    (λ _, reader_at sid None []) never.
Proof.
  eapply hoare_bind; [apply (hoare_with_peer sid (Some size) None [] [size])|intros ?; apply hoare_reader_release].
  - intros p Hp _. split_and!; [|done|done]. by apply (peer_inv_same c p); [|apply Hp|].
  - done.
Qed.

Lemma release_reading_reader sid r :
  hoare (reader_at sid r []) (release_reading sid) (λ _, reader_at sid None []) never.
Proof.
  intros n Hn. unfold release_reading. step_run. destruct (reader_session _ _ _ _ Hn) as (s & Hs & Hr & Hi).
  rewrite (session_run _ _ _ Hs), Hr. destruct r as [size|]; [|done]. exact (take_reading sid size n Hn).
Qed.

(** The event takes over the reservation of the reader. *)
Lemma on_message_reader sid m size :
  validate_message m = Ok tt →
  hoare (reader_at sid (Some size) [])
    (owned ← on_message sid m size;
     if (owned : bool) then with_peer sid (λ p, p {{ reading := None }}) else release_reading sid)
    (λ _, reader_at sid None []) never.
Proof.
  intros Hm n Hn. step_run. unfold on_message. step_run. unfold gets at 1.
  destruct (_ || _) eqn:Hstate; [exact (release_reading_reader sid (Some size) n Hn)|].
  destruct (reader_session _ _ _ _ Hn) as (s & Hs & Hr & Hi).
  set (f := λ p : PeerConnection, p {{ reading := None }}).
  assert (reader_at sid None [size] (n {{ sessions := dict_map (λ s, s {{ peer := f (peer s) }}) sid (sessions n) }})) as Hn'.
  { apply (reader_set sid (Some size) None [] [size] n s f); [done|done| |done|done|done].
    by apply (peer_inv_same c (peer s)); [|apply Hi|]. }
  set (n' := n {{ sessions := _ }}) in Hn'. set (ev := MkEvent (EvRemote sid m) size).
  pose proof (hoare_put [] ev never Hm n' (proj1 Hn')) as Hput. step_run. unfold put_event in *.
  change (config n') with (config n) in Hput. change (events n') with (events n) in Hput.
  destruct (_ <=? _); [done|]. split; [exact Hput|]. split; [apply Hn'|].
  destruct Hn' as (_ & _ & s' & Hs' & Hr'). by exists s'.
Qed.

(** The body that was awaited: decoded, queued, or the end of the reader. *)
Lemma read_body_reader sid r body :
  hoare (reader_at sid r []) (read_body sid body) (λ _ n, ∃ r', reader_at sid r' [] n) never.
Proof.
  intros n Hn. unfold read_body. step_run. unfold gets at 1. rewrite (no_config _ _ _ _ _ _ (proj2 (proj1 Hn))).
  step_run. destruct (reader_session _ _ _ _ Hn) as (s & Hs & Hr & Hi). rewrite (session_run _ _ _ Hs), Hr.
  destruct r as [size|]; [|by exists None].
  assert (∀ m : node_call unit, hoare (reader_at sid (Some size) []) m (λ _, reader_at sid None []) never →
    match m n with (Ok _, n') => ∃ r', reader_at sid r' [] n' | (Raise e, n') => never e n' end) as Hgo.
  { intros m Hm. specialize (Hm n Hn). destruct (m n) as [[u|e] n']; [by exists None|done]. }
  apply Hgo. destruct (decode_message body (max_frame_bytes c)) as [m|e] eqn:Hdec.
  - assert (validate_message m = Ok tt) as Hv by (apply decode_encode in Hdec; [apply Hdec|apply Hconfig]).
    eapply hoare_bind; [apply hoare_reader_clock|intros now].
    eapply hoare_bind; [apply hoare_peer_same|intros ?].
    + intros p Hp. by apply (peer_inv_same c p); [|apply Hp|].
    + done.
    + eapply hoare_try; [by apply on_message_reader|intros e n' []].
  - eapply hoare_bind; [apply release_reading_reader|intros ?; apply hoare_reader_failed].
Qed.

Lemma read_failed_reader sid r e : hoare (reader_at sid r []) (read_failed sid e) (λ _, reader_at sid None []) never.
Proof. unfold read_failed. eapply hoare_bind; [apply release_reading_reader|intros ?; apply hoare_reader_failed]. Qed.

(** ** Closing a connection *)

Lemma writer_release_identity p : same_identity p (writer_release p).
Proof. unfold writer_release. by destruct (writing p). Qed.

Lemma same_identity_trans p q r : same_identity p q → same_identity q r → same_identity p r.
Proof.
  intros [(E1 & E2 & E3 & E4 & E5 & E7) E6] [(F1 & F2 & F3 & F4 & F5 & F7) F6].
  split; [split_and!|]; try congruence; auto.
Qed.

Lemma drop_frames_identity q : ∀ p, same_identity p (drop_frames q p).
Proof. induction q as [|f q IH]; intros p; cbn [drop_frames]; [done|]. eapply same_identity_trans; [|apply IH]. done. Qed.

Lemma cleanup_name failed p : same_name p (cleanup failed p) ∧ reading (cleanup failed p) = None.
Proof.
  split; [|done]. unfold cleanup. cbv zeta.
  match goal with |- context [writer_release ?q] => set (p1 := q) end.
  assert (same_identity p p1) as H1 by (subst p1; by destruct failed).
  pose proof (same_identity_trans _ _ _ H1 (writer_release_identity p1)) as H2.
  exact (proj1 (same_identity_trans _ _ _ H2 (drop_frames_identity (outbound_queue (writer_release p1)) _))).
Qed.

Definition stopping (owed : list Z) (e : exn) (n : Node) : Prop := alive owed n ∧ contained e.

Lemma alive_safe {A} owed (m : node_call A) :
  (∀ keys, NoDup keys → safe c limit c0 owed keys m) → hoare (alive owed) m (λ _, alive owed) (stopping owed).
Proof.
  intros Hm n Hn. pose proof (alive_keeps owed m (λ _, True) contained Hm n Hn) as Hk.
  destruct (m n) as [[a|e] n']; [apply Hk|exact Hk].
Qed.

(** Steps that leave the table of sessions alone. *)
Definition quiet {A} (m : node_call A) : Prop := ∀ n, sessions (m n).2 = sessions n.

Lemma hoare_quiet {A} owed (Φ : list (string * Session) → Prop) (m : node_call A) :
  (∀ keys, NoDup keys → safe c limit c0 owed keys m) → quiet m →
  hoare (λ n, alive owed n ∧ Φ (sessions n)) m (λ _ n, alive owed n ∧ Φ (sessions n)) (stopping owed).
Proof.
  intros Hm Hq n [Hn HΦ]. pose proof (alive_safe owed m Hm n Hn) as Hk. specialize (Hq n).
  destruct (m n) as [[a|e] n']; cbn [snd] in Hq; [by rewrite Hq|exact Hk].
Qed.

Lemma hoare_quiet_total {A} owed (Φ : list (string * Session) → Prop) (m : node_call A) :
  (∀ keys, NoDup keys → safe c limit c0 owed keys m) → quiet m →
  (∀ n, alive owed n → ∃ a, (m n).1 = Ok a) →
  hoare (λ n, alive owed n ∧ Φ (sessions n)) m (λ _ n, alive owed n ∧ Φ (sessions n)) never.
Proof.
  intros Hm Hq Ht n Hn. pose proof (hoare_quiet owed Φ m Hm Hq n Hn) as Hk. destruct (Ht n (proj1 Hn)) as [a Ha].
  destruct (m n) as [[b|e] n']; [done|by cbn in Ha].
Qed.

Lemma quiet_manager {A} (m : manager_call A) : quiet (on_manager m).
Proof. intros n. unfold on_manager, zoom. by destruct (m _) as [r [mg w]]. Qed.

Lemma on_close_alive sid :
  hoare (reader_at sid None []) (on_close sid) (λ _, alive []) (stopping []).
Proof.
  unfold on_close. eapply hoare_bind with (R := λ _, alive []).
  - intros n ([Hk [H1 H2 H3 H4 H5 H6 H7 HD HU HC [I1 I2 I3 I4 I5 I6]]] & Ho & s & Hs & Hr).
    split; [done|]. constructor; try done.
    intros k s' Hin Hs'. change (dict_get (sessions n) k = Some s') in Hs'.
    assert (k = sid ∨ k ∈ closed_peers n) as [->|Hin'].
    { revert Hin. change (closed_peers (n {{ closed_peers := ?l }})) with l.
      change (k ∈ (if bool_decide (sid ∈ closed_peers n) then closed_peers n else closed_peers n ++ [sid]) → k = sid ∨ k ∈ closed_peers n).
      case_bool_decide; [by right|]. rewrite elem_of_app, list_elem_of_singleton. tauto. }
    + congruence.
    + by eapply HC.
  - intros ?. apply alive_safe. intros keys Hk. apply safe_bind.
    + apply keeps_modify; [done|]. intros n Hn. destruct (decide (sid ∈ dict_keys (sessions n))) as [Hin|Hin].
      * rewrite (no_keys _ _ _ _ _ _ Hn) in Hin.
        pose proof (safe_field c limit c0 [] keys Hk sid (resolve false) Hin) as Hf.
        assert (safe c limit c0 [] keys (with_session sid (resolve false))) as Hsafe by (by apply Hf). exact (proj1 (Hsafe n Hn)).
      * apply (ok_same _ _ _ _ _ n); try done.
        change (dict_map (resolve false) sid (sessions n) = sessions n). unfold dict_map.
        apply not_elem_of_dict_map. exact Hin.
    + intros _. apply safe_bind; [apply safe_gets|intros all].
      destruct (_ ← dict_get all sid; _) as [e|]; [|apply safe_ret].
      unfold fatal. apply keeps_modify; [done|]. intros n Hn. case_bool_decide; [done|by apply (ok_same _ _ _ _ _ n)].
Qed.

Lemma finish_close_alive sid r failed :
  hoare (reader_at sid r []) (finish_close sid failed) (λ _, alive []) (stopping []).
Proof.
  unfold finish_close. eapply hoare_bind; [apply never_any, release_reading_reader|intros ?].
  eapply hoare_bind; [|intros ?; apply on_close_alive].
  apply never_any, hoare_with_peer; [|done]. intros p Hp _. split; [by apply cleanup_inv|apply cleanup_name].
Qed.

(** ** Removing closed sessions *)

Lemma readings_del l sid s :
  NoDup (dict_keys l) → dict_get l sid = Some s → reading (peer s) = None → readings (dict_del l sid) = readings l.
Proof.
  unfold dict_keys. induction l as [|[k v] l IH]; [done|]. rewrite fmap_cons, NoDup_cons, dict_get_cons.
  intros [Hk Hl] Hs Hr. unfold dict_del. rewrite filter_cons. cbn [fst]. fold (dict_del l sid).
  unfold readings in *. cbn [omap list_omap snd]. case_bool_decide as Hkey.
  - injection Hs as ->. rewrite decide_False by tauto. rewrite Hr, dict_del_notin; [done|]. by subst k.
  - rewrite decide_True by done. cbn [omap list_omap snd]. by rewrite IH.
Qed.

Lemma dict_get_del {V} (l : list (string * V)) k k' v : dict_get (dict_del l k) k' = Some v → dict_get l k' = Some v.
Proof.
  unfold dict_del. induction l as [|[k1 v1] l IH]; [done|]. rewrite filter_cons, dict_get_cons. cbn [fst].
  case_decide as Hne; [rewrite dict_get_cons; case_bool_decide; [done|exact IH]|].
  intros Hg. pose proof Hg as Hin%dict_get_elem. apply list_elem_of_filter in Hin as [Hk' Hin]. cbn in Hk'.
  rewrite bool_decide_eq_false_2 by (intros ->; by apply Hk'). by apply IH.
Qed.

(** The sessions that are still to be removed hold nothing. *)
Definition silent (cids : list string) (l : list (string * Session)) : Prop :=
  ∀ cid s, cid ∈ cids → dict_get l cid = Some s → reading (peer s) = None.

Lemma alive_del owed n cid s :
  alive owed n → dict_get (sessions n) cid = Some s → reading (peer s) = None →
  alive owed (n {{ sessions := dict_del (sessions n) cid }}).
Proof.
  intros [Hk [H1 H2 H3 H4 H5 H6 H7 HD HU HC H8]] Hs Hr. split; [by apply (dict_del_NoDup (sessions n))|].
  constructor; try done.
  - by apply (dict_del_Forall (λ p, session_ok c p.1 p.2) (sessions n)).
  - intros i j s1 s2 G1%dict_get_del G2%dict_get_del. by apply HU.
  - intros k s' Hin Hs'. eapply HC; [exact Hin|]. exact (dict_get_del _ _ _ _ Hs').
  - apply (inbound_move owed owed n); [done..|].
    change (readings (dict_del (sessions n) cid) ++ owed ≡ₚ readings (sessions n) ++ owed). by rewrite (readings_del _ _ s).
Qed.

Lemma reap_one_alive owed cid cids :
  hoare (λ n, alive owed n ∧ silent (cid :: cids) (sessions n))
    (_ ← modify (λ n, n {{ closed_peers := filter (λ x, x ≠ cid) (closed_peers n) }});
     all ← gets sessions;
     match dict_get all cid with
     | None => mret tt
     | Some s =>
         _ ← modify (λ n, n {{ sessions := dict_del (sessions n) cid }});
         _ ← sync_disconnected cid;
         rest ← gets sessions;
         match session_endpoint s with
         | None => mret tt
         | Some e =>
             if existsb (λ p, bool_decide (session_endpoint p.2 = Some e) && live p.2) rest then mret tt
             else on_manager (mark_disconnected e)
         end
     end) (λ _ n, alive owed n ∧ silent cids (sessions n)) never.
Proof.
  assert (∀ l, silent (cid :: cids) l → silent cids l) as Hweak
    by (intros l Hl k s Hk; apply Hl; by apply list_elem_of_further).
  intros n [Hn Hsil]. step_run. unfold modify at 1. set (n1 := n {{ closed_peers := _ }}).
  assert (alive owed n1) as Hn1.
  { destruct Hn as [Hk [H1 H2 H3 H4 H5 H6 H7 HD HU HC [I1 I2 I3 I4 I5 I6]]]. split; [done|]. constructor; try done.
    intros k s [_ Hin]%list_elem_of_filter Hs. by eapply HC. }
  step_run. unfold gets at 1. change (sessions n1) with (sessions n).
  destruct (dict_get (sessions n) cid) as [s|] eqn:Hs; [|split; [done|by apply Hweak]].
  pose proof (ok_session _ _ _ _ _ _ _ _ (proj2 Hn) Hs) as Hso.
  step_run. unfold modify at 1. set (n2 := n1 {{ sessions := _ }}).
  assert (alive owed n2 ∧ silent cids (sessions n2)) as Hn2.
  { split; [apply (alive_del owed n1 cid s); [done|done|]; by apply (Hsil cid); [apply list_elem_of_here|]|].
    intros k s' Hk Hs'. apply (Hsil k); [by apply list_elem_of_further|].
    change (dict_get (dict_del (sessions n) cid) k = Some s') in Hs'. by eapply dict_get_del. }
  clearbody n2. revert n2 Hn2.
  change (hoare (λ n, alive owed n ∧ silent cids (sessions n))
    (_ ← sync_disconnected cid; rest ← gets sessions;
     match session_endpoint s with
     | None => mret tt
     | Some e => if existsb (λ p, bool_decide (session_endpoint p.2 = Some e) && live p.2) rest then mret tt
                 else on_manager (mark_disconnected e)
     end) (λ _ n, alive owed n ∧ silent cids (sessions n)) never).
  eapply hoare_bind; [apply hoare_quiet_total; [intros; apply safe_sync_disconnected; done|done|by eexists]|intros ?].
  apply hoare_quiet_total.
  - intros keys Hk. apply safe_bind; [apply safe_gets|intros rest]. destruct (session_endpoint s) as [e|]; [|apply safe_ret].
    destruct (existsb _ _); [apply safe_ret|]. eapply safe_manager, mark_disconnected_keeps. by apply config_initial.
  - intros m. step_run. unfold gets at 1. destruct (session_endpoint s) as [e|]; [|done].
    destruct (existsb _ _); [done|apply quiet_manager].
  - intros m Hm. step_run. unfold gets at 1. destruct (session_endpoint s) as [e|] eqn:He; [|by eexists].
    destruct (existsb _ _); [by eexists|]. unfold on_manager, zoom.
    destruct (mark_disconnected_total c e (manager m) (world m)) as [[mg w] Hrun].
    + apply (no_manager _ _ _ _ _ _ (proj2 Hm)).
    + by apply (so_endpoint _ _ _ Hso).
    + rewrite Hrun. by eexists.
Qed.

Lemma reap_loop_alive owed f cids :
  (∀ cid cids, hoare (λ n, alive owed n ∧ silent (cid :: cids) (sessions n)) (f cid)
     (λ _ n, alive owed n ∧ silent cids (sessions n)) never) →
  hoare (λ n, alive owed n ∧ silent cids (sessions n)) (for_each cids f) (λ _, alive owed) never.
Proof.
  intros Hf. induction cids as [|cid cids IH]; cbn [for_each]; [by apply hoare_ret; intros n [? _]|].
  eapply hoare_bind; [apply Hf|by intros ?].
Qed.

Lemma reap_peers_alive owed : hoare (alive owed) reap_peers (λ _, alive owed) never.
Proof.
  intros n Hn. unfold reap_peers. step_run. unfold gets at 1.
  apply (reap_loop_alive owed _ (closed_peers n) (reap_one_alive owed) n). split; [done|].
  intros cid s Hin Hs. by eapply (no_closed _ _ _ _ _ _ (proj2 Hn)).
Qed.
End life.
