(* ===== verification/NodeRun.v ===== *)
(** * The steps of a node, and their invariant

    The dispatcher's turn, the interface, the timer, sockets that are accepted
    or dialled, starting and stopping; then [node_step], the relation of all
    steps, and the invariant of every node it reaches. *)

From coqutil Require Import Datatypes.RecordSetters.
Import DoubleBraceUpdate.
From S2P Require Import Prelude Bytes Json JsonParse Crypto Transaction Utxo Block Mempool MempoolFacts.
From S2P Require Import Blockchain BlockchainFacts Codec CodecFacts NetConfig ConfigFacts Messages.
From S2P Require Import Protocol ProtocolFacts FrameFacts Effects Peer PeerFacts PeerManager PeerManagerFacts.
From S2P Require Import NodeState NodeInv NodeSteps Sync SyncFacts Node NodeFacts NodeLife.
#[local] Open Scope Z_scope.

(** What ends a node although every guard of its code held. *)
Definition critical (e : exn) : Prop := is_storage_error e = true ∨ e = BeyondLatin1.

Section run.
Context {EL : EcdsaLib} {CS : ChainStore}.
Context (c : NodeConfig) (limit : Z) (c0 : Blockchain).
Context (Hconfig : config_limits c) (Hchain : bc_inv limit c0).

Abbreviation alive := (alive c limit c0).
Definition kept (owed : list Z) (e : exn) (n : Node) : Prop := alive owed n.

Lemma hoare_alive {A} owed (m : node_call A) :
  (∀ keys, NoDup keys → keeps (ok c limit c0 owed keys) m (λ _, True) (λ _, True)) →
  hoare (alive owed) m (λ _, alive owed) (kept owed).
Proof.
  intros Hm n Hn. pose proof (alive_keeps c limit c0 owed m (λ _, True) (λ _, True) Hm n Hn) as Hk.
  unfold kept. destruct (m n) as [[a|e] n']; apply Hk.
Qed.

Lemma hoare_kept {A} owed (m : node_call A) :
  (∀ keys, NoDup keys → safe c limit c0 owed keys m) → hoare (alive owed) m (λ _, alive owed) (kept owed).
Proof.
  intros Hm. apply hoare_alive. intros keys Hk. eapply keeps_weaken; [by apply Hm|done|done].
Qed.

Lemma alive_modify owed f :
  (∀ n, config (f n) = config n ∧ node_chain (f n) = node_chain n ∧ world (f n) = world n ∧ manager (f n) = manager n ∧
     sync (f n) = sync n ∧ sessions (f n) = sessions n ∧ events (f n) = events n ∧ inbound_events (f n) = inbound_events n ∧
     inbound_bytes (f n) = inbound_bytes n ∧ closed_peers (f n) = closed_peers n ∧ dial_tasks (f n) = dial_tasks n) →
  hoare (alive owed) (modify f) (λ _, alive owed) never.
Proof.
  intros Hf n [Hk Hn]. cbn. destruct (Hf n) as (E1 & E2 & E3 & E4 & E5 & E6 & E7 & E8 & E9 & E10 & E11).
  eapply alive_intro; [exact Hk|]. by apply (ok_same _ _ _ _ _ n).
Qed.

(** ** The dispatcher *)

Lemma fatal_alive owed e : hoare (alive owed) (fatal e) (λ _, alive owed) never.
Proof. apply alive_modify. intros n. by case_bool_decide. Qed.

(** A message of a peer: what is left of it is the peer's fault, or critical. *)
Lemma dispatch_remote_alive owed sid m :
  validate_message m = Ok tt →
  hoare (alive owed) (dispatch_remote sid m) (λ _, alive owed) (λ e n, alive owed n ∧ critical e).
Proof.
  intros Hm n Hn. unfold dispatch_remote. step_run. unfold gets at 1.
  destruct (dict_get (sessions n) sid) as [s|] eqn:Hs; [|done]. destruct (peer_closed (peer s)); [done|].
  assert (sid ∈ dict_keys (sessions n)) as Hsid.
  { apply dict_get_elem in Hs. unfold dict_keys. by apply (list_elem_of_fmap_2 fst) in Hs. }
  assert (keeps (ok c limit c0 owed (dict_keys (sessions n)))
    (try_call (remote sid m) peer_fault (λ e, _ ← with_session sid (λ s, s {{ session_error := Some (exn_name e) }}); close_peer sid))
    (λ _, True) critical) as Hk.
  { destruct Hn as [Hk _]. eapply keeps_try; [by apply safe_remote| |].
    - intros e _ _. eapply keeps_weaken with (Y := λ _, False) (P := λ _, True); [|done|done].
      apply keeps_seq; [|intros _; by apply keeps_close_peer].
      apply keeps_with_session; [done..|]. intros s' Hs'. by split; [eapply session_same|].
    - intros e [He|He] Hf; [|by left]. unfold peer_fault in Hf. apply bool_decide_eq_false in Hf.
      right. rewrite !elem_of_cons in He. rewrite !elem_of_cons in Hf.
      destruct He as [He|[He|[He|[He|He]]]]; [tauto..|done|by apply not_elem_of_nil in He]. }
  specialize (Hk n (proj2 Hn)). destruct (try_call _ _ _ n) as [[u|e] n']; destruct Hk as [Hn' He].
  - exact (alive_intro _ _ _ _ _ _ (proj1 Hn) Hn').
  - split; [|done]. exact (alive_intro _ _ _ _ _ _ (proj1 Hn) Hn').
Qed.

Lemma dispatch_body_alive owed ev cancelled :
  event_ok ev → hoare (alive owed) (dispatch_body ev cancelled) (λ _, alive owed) (kept owed).
Proof.
  intros Hev. unfold dispatch_body. eapply hoare_bind; [apply never_any, reap_peers_alive; done|intros ?].
  destruct (event_kind ev) as [|sid m|cmd] eqn:Hk.
  - eapply hoare_bind; [apply never_any, alive_modify; done|intros ?].
    apply hoare_kept. intros keys Hkeys. apply safe_bind; [by apply safe_tick|intros _; apply safe_ret].
  - eapply hoare_bind with (R := λ _, alive owed); [|intros ?; by apply hoare_ret].
    eapply hoare_weaken; [apply dispatch_remote_alive; unfold event_ok in Hev; by rewrite Hk in Hev|by intros e n [? _]].
  - destruct cancelled; [by apply hoare_ret|]. apply hoare_alive. intros keys Hkeys.
    eapply keeps_try with (Y := λ _, True); [|intros e _ _; by apply keeps_ret|done].
    apply keeps_seq; [by apply keeps_command|intros r; by apply keeps_ret].
Qed.

Lemma dispatch_alive ev cancelled :
  event_ok ev → hoare (alive [event_size ev]) (dispatch ev cancelled) (λ _, alive []) never.
Proof.
  intros Hev. unfold dispatch. eapply hoare_bind with (R := λ _, alive [event_size ev]).
  - eapply hoare_try; [by apply dispatch_body_alive|intros e].
    eapply hoare_bind; [apply fatal_alive|intros ?; by apply hoare_ret].
  - intros r. eapply hoare_bind; [apply hoare_release|intros ?; by apply hoare_ret].
Qed.

(** The event that is handled is owed until it is released. *)
Lemma alive_pop ev rest n :
  alive [] n → events n = ev :: rest → alive [event_size ev] (n {{ events := rest }}) ∧ event_ok ev.
Proof.
  intros Hn He. pose proof (no_inbound _ _ _ _ _ _ (proj2 Hn)) as Hin.
  pose proof (io_messages _ _ _ Hin) as Hm. rewrite He in Hm. apply Forall_cons in Hm as [Hev Hrest]. split; [|done].
  eapply (alive_ext c limit c0 [] [event_size ev] n); [done| |done..].
  apply (inbound_queue c [] [event_size ev] n rest (inbound_events n) (inbound_bytes n)); [done| |done|done|done].
  rewrite He. cbn [map]. rewrite app_nil_r. by rewrite (Permutation_app_comm (map event_size rest)).
Qed.

Lemma dispatch_next_alive cancelled : hoare (alive []) (dispatch_next cancelled) (λ _, alive []) never.
Proof.
  intros n Hn. unfold dispatch_next. destruct (events n) as [|ev rest] eqn:He; [done|]. case_bool_decide; [|done].
  destruct (alive_pop ev rest n Hn He) as [Hn' Hev]. exact (dispatch_alive ev cancelled Hev _ Hn').
Qed.

(** A peer's message is handled, and the node runs on; or its storage failed,
    or a value that cannot be written was met. *)
Lemma dispatch_remote_contained sid m size rest n r n' :
  alive [] n → run_state n = RUNNING → events n = MkEvent (EvRemote sid m) size :: rest →
  dispatch_next false n = (r, n') →
  alive [] n' ∧ r = Ok None ∧ events n' = rest ∧
  ((run_state n' = RUNNING ∧ failure n' = failure n) ∨
   (run_state n' = FAILED ∧ ∃ e, failure n' = Some e ∧ critical e)).
Proof.
  intros Hn Hrun He Hd. pose proof (dispatch_next_alive false n Hn) as Hkeep. rewrite Hd in Hkeep.
  destruct (alive_pop _ _ _ Hn He) as [Hpop Hev]. unfold dispatch_next in Hd.
  rewrite He, (bool_decide_eq_true_2 _ Hrun) in Hd.
  set (n0 := n {{ events := rest }}) in Hpop, Hd.
  assert (run_state n0 = RUNNING ∧ failure n0 = failure n ∧ events n0 = rest) as (R0 & F0 & E0) by done. clearbody n0.
  revert Hd. unfold dispatch. cbn [event_kind event_size]. rewrite bind_run. unfold try_call at 1, dispatch_body at 1.
  cbn [event_kind]. rewrite bind_run.
  pose proof (reap_peers_alive c limit c0 Hconfig [size] n0 Hpop) as Hreap.
  destruct (calm_reap_peers n0) as (R1 & F1 & E1). destruct (reap_peers n0) as [[u|e] n1]; [|done]. cbn [snd] in *.
  rewrite bind_run. pose proof (dispatch_remote_alive [size] sid m Hev n1 Hreap) as Hrem.
  destruct (calm_dispatch_remote sid m n1) as (R2 & F2 & E2).
  destruct (dispatch_remote sid m n1) as [[u'|e] n2]; cbn [snd] in *.
  - cbn [mret call_ret]. intros Hd.
    pose proof (hoare_release c limit c0 [] size never n2 Hrem) as Hrel. revert Hd. rewrite bind_run.
    unfold release in *. cbv zeta in *. destruct (_ || _); [done|]. intros [= <- <-]. split_and!; [done|done| |left; split].
    + change (events n2 = rest). congruence.
    + change (run_state n2 = RUNNING). congruence.
    + change (failure n2 = failure n). congruence.
  - destruct Hrem as [Hn2 Hcrit]. rewrite bind_run. unfold fatal at 1, modify.
    rewrite (bool_decide_eq_false_2 (run_state n2 ∈ _)) by (rewrite R2, R1, R0; by apply (bool_decide_unpack _)).
    cbn [mret call_ret]. set (n3 := n2 {{ failure := Some e; run_state := FAILED }}).
    assert (alive [size] n3) as Hn3.
    { pose proof (fatal_alive [size] e n2 Hn2) as Hf. unfold fatal, modify in Hf.
      rewrite (bool_decide_eq_false_2 (run_state n2 ∈ _)) in Hf by (rewrite R2, R1, R0; by apply (bool_decide_unpack _)). exact Hf. }
    pose proof (hoare_release c limit c0 [] size never n3 Hn3) as Hrel. rewrite bind_run.
    unfold release in *. cbv zeta in *. destruct (_ || _); [done|]. intros [= <- <-]. split_and!; [done|done| |right; split].
    + change (events n2 = rest). congruence.
    + done.
    + by exists e.
Qed.

(** ** The interface and the timer *)

Lemma ask_node_kept {A} owed (f : Node → result A) : hoare (alive owed) (ask_node f) (λ _, alive owed) (kept owed).
Proof. intros n Hn. unfold ask_node. by destruct (f n). Qed.

Lemma call_node_alive cmd size : 0 <= size → hoare (alive []) (call_node cmd size) (λ _, alive []) (kept []).
Proof.
  intros Hs. unfold call_node. eapply hoare_bind; [apply ask_node_kept|intros ?].
  eapply hoare_bind; [by apply never_any, hoare_reserve|intros ok]. destruct ok; cbn [negb]; [|by intros n Hn].
  eapply hoare_try; [by apply (hoare_put c limit c0 [] (MkEvent (EvCommand cmd) size) never)|by intros e n []].
Qed.

Lemma call_encoded_alive cmd (r : result (option bytes)) :
  hoare (alive [])
    match r with
    | Ok (Some data) => _ ← call_node cmd (frame_len data + 4); mret None
    | Ok None => mret (Some false)
    | Raise e => raise e
    end (λ _, alive []) (kept []).
Proof.
  destruct r as [[data|]|e]; [|by apply hoare_ret|by intros n Hn].
  eapply hoare_bind; [apply call_node_alive; unfold frame_len; lia|intros ?; by apply hoare_ret].
Qed.

Lemma call_submit_alive tx : hoare (alive []) (call_submit tx) (λ _, alive []) (kept []).
Proof. unfold call_submit. eapply hoare_bind; [apply ask_node_kept|intros ?; apply call_encoded_alive]. Qed.
Lemma call_block_alive b : hoare (alive []) (call_block b) (λ _, alive []) (kept []).
Proof. unfold call_block. eapply hoare_bind; [apply ask_node_kept|intros ?; apply call_encoded_alive]. Qed.

Lemma maintenance_alive : hoare (alive []) maintenance (λ _, alive []) never.
Proof.
  intros n Hn. unfold maintenance. destruct (_ || _); [done|]. revert n Hn.
  change (hoare (alive []) (ok ← reserve 1; if (ok : bool) then _ ← modify (λ n, n {{ tick_queued := true }}); put_event (MkEvent EvTick 1)
                            else mret tt) (λ _, alive []) never).
  eapply hoare_bind; [by apply hoare_reserve|intros ok]. destruct ok; [|by apply hoare_ret].
  eapply hoare_bind; [by apply alive_modify|intros ?]. by apply (hoare_put c limit c0 [] (MkEvent EvTick 1) never).
Qed.

(** ** New connections *)

Lemma alive_add owed n cid s :
  alive owed n → cid ∉ dict_keys (sessions n) → session_ok c cid s → reading (peer s) = None →
  established (peer s) = false →
  alive owed (n {{ sessions := dict_set (sessions n) cid s }}).
Proof.
  intros [Hk [H1 H2 H3 H4 H5 H6 H7 HD HU HC H8]] Hnew Hs Hr He. split; [by apply (dict_set_NoDup (sessions n))|].
  constructor; try done.
  - by apply (dict_set_Forall (λ p, session_ok c p.1 p.2) (sessions n)).
  - intros i j s1 s2 G1 G2 L1 L2 Hid. change (dict_get (dict_set (sessions n) cid s) i = Some s1) in G1.
    change (dict_get (dict_set (sessions n) cid s) j = Some s2) in G2. rewrite dict_get_set in G1, G2.
    destruct L1 as [L1 O1], L2 as [L2 O2]. destruct (bool_decide (cid = i)); [congruence|].
    destruct (bool_decide (cid = j)); [congruence|]. by eapply HU.
  - intros k s' Hin Hs'. change (dict_get (dict_set (sessions n) cid s) k = Some s') in Hs'.
    rewrite dict_get_set in Hs'. case_bool_decide; [congruence|by eapply HC].
  - apply (inbound_move c owed owed n); [done..|].
    change (readings (dict_set (sessions n) cid s) ++ owed ≡ₚ readings (sessions n) ++ owed).
    rewrite dict_set_new by done. unfold readings. rewrite omap_app. cbn [omap list_omap snd]. by rewrite Hr, app_nil_r.
Qed.

Lemma fresh_session_ok cid nonce out e a t1 t2 t3 p now service :
  peer_connection c cid nonce out (Some a) t1 t2 t3 = Ok p → (∀ x, e = Some x → config_validate_endpoint c x = Ok x) →
  session_ok c cid
    (MkSession p None now service e (if (out : bool) then e else None) false false 0 GENESIS_HASH [] []
       0 0 0 0 (now + ping_interval c) None 0 0 "IDLE" None None).
Proof.
  intros Hp He.
  assert (0 < outbound_max_frames c ∧ 0 < outbound_max_bytes c) as [Hf Hb].
  { split; apply (config_positive c Hconfig); unfold counts; rewrite !elem_of_app, !elem_of_cons; tauto. }
  destruct (peer_connection_inv _ _ _ _ _ _ _ _ _ Hf Hb Hp) as (Hi & _ & _).
  apply bind_Ok in Hp as (mb & _ & (bb & _ & [= <-])%bind_Ok).
  assert (0 < max_requests c) as Hreq by (apply (config_positive c Hconfig); unfold counts; rewrite !elem_of_app, !elem_of_cons; tauto).
  constructor; cbn; try done; [lia|constructor|unfold MAX_EXPIRED; lia].
Qed.

Lemma hoare_unfold {A} (m : node_call A) P Q X :
  hoare P m Q X → ∀ n, P n → match m n with (Ok a, n') => Q a n' | (Raise e, n') => X e n' end.
Proof. done. Qed.

(** The steps before the session is in the table: it is a new one. *)
Definition about_to (cid : string) (owed : list Z) (n : Node) : Prop :=
  alive owed n ∧ cid ∉ dict_keys (sessions n).

Lemma about_to_step {A} cid owed (m : node_call A) :
  (∀ keys, NoDup keys → safe c limit c0 owed keys m) → quiet m →
  hoare (about_to cid owed) m (λ _, about_to cid owed) (kept owed).
Proof.
  intros Hm Hq. eapply hoare_weaken; [by apply (hoare_quiet c limit c0 owed (λ l, cid ∉ dict_keys l))|by intros e n [? _]].
Qed.

Lemma about_to_lift {A} cid owed (r : result A) :
  hoare (about_to cid owed) (lift r) (λ a n, about_to cid owed n ∧ r = Ok a) (kept owed).
Proof. intros n Hn. cbn. destruct r; [done|apply Hn]. Qed.

Lemma keeps_weakest {A} owed keys (m : node_call A) :
  safe c limit c0 owed keys m → keeps (ok c limit c0 owed keys) m (λ _, True) (λ _, True).
Proof. intros Hm. by eapply keeps_weaken. Qed.

Lemma keeps_greet owed keys cid nonce :
  NoDup keys → cid ∈ keys →
  keeps (ok c limit c0 owed keys)
    (t ← node_tip;
     me ← gets node_id;
     listen ← gets node_endpoint;
     port ← lift (match listen with Some x => Ok x.2 | None => Raise TypeError end);
     _ ← send cid (message "VERSION"
           [("network_id", JStr NETWORK_ID); ("genesis_hash", JStr GENESIS_HASH); ("node_id", JStr me);
            ("connection_nonce", JStr nonce); ("listen_port", JInt port); ("height", JInt t.1);
            ("tip_hash", JStr t.2)] None);
     _ ← with_session cid (λ s, s {{ peer := peer_start (peer s) }});
     mret cid) (λ _, True) (λ _, True).
Proof.
  intros Hk Hcid. apply keeps_seq; [by apply keeps_weakest, guards_tip|intros t].
  apply keeps_seq; [by apply keeps_gets|intros me]. apply keeps_seq; [by apply keeps_gets|intros listen].
  apply keeps_seq; [by apply keeps_lift|intros port]. apply keeps_seq; [by apply keeps_weakest, safe_send|intros _].
  apply keeps_seq; [|intros _; by apply keeps_ret]. apply keeps_with_session; [done..|]. intros s Hs.
  unfold peer_start. destruct (peer_closed (peer s) || started (peer s)).
  - split; [|done]. apply session_peer; [done|apply Hs|done].
  - split; [|done]. apply session_peer; [done| |done]. by apply (peer_inv_same c (peer s)); [|apply Hs|apply Hs].
Qed.

Lemma hoare_at_session {A} owed sid (m : node_call A) :
  (∀ keys, NoDup keys → sid ∈ keys → keeps (ok c limit c0 owed keys) m (λ _, True) (λ _, True)) →
  hoare (at_session c limit c0 owed sid) m (λ _, alive owed) (kept owed).
Proof.
  intros Hm n Hn. pose proof (at_session_keeps c limit c0 owed sid m _ _ Hm n Hn) as Hk. unfold kept.
  destruct (m n) as [[a|e] n']; apply Hk.
Qed.

(** The next token is not the name of a session: tokens are 128 random bits. *)
Definition fresh_token (n : Node) : Prop := token_at (world n) (token_reads (world n)) ∉ dict_keys (sessions n).

Lemma attach_alive owed out e a :
  (∀ x, e = Some x → config_validate_endpoint c x = Ok x) →
  hoare (λ n, alive owed n ∧ fresh_token n) (attach out e (Some a)) (λ _, alive owed) (kept owed).
Proof.
  intros He n [Hn Hfresh]. unfold attach. step_run. unfold gets at 1. rewrite (no_config _ _ _ _ _ _ (proj2 Hn)). step_run.
  set (cid := token_at (world n) (token_reads (world n))) in *.
  pose proof (hoare_quiet c limit c0 owed (λ l, cid ∉ dict_keys l) node_token) as Htok.
  assert (hoare (about_to cid owed) node_token (λ _, about_to cid owed) (stopping c limit c0 owed)) as Htok'.
  { apply Htok; [|done]. intros keys Hk. eapply guards_safe, keeps_token. }
  specialize (Htok' n (conj Hn Hfresh)). change (node_token n) with (@Ok string cid, (node_token n).2) in *.
  cbv beta iota in *. set (n1 := (node_token n).2) in *. clearbody n1 cid. clear Htok n Hn Hfresh.
  assert (hoare (about_to cid owed) node_clock (λ _, about_to cid owed) (kept owed)) as Hclock
    by (apply about_to_step; [intros; apply safe_clock|done]).
  revert n1 Htok'. apply hoare_unfold.
  eapply hoare_bind; [apply about_to_step; [intros; eapply guards_safe, keeps_token|done]|intros nonce].
  do 3 (eapply hoare_bind; [exact Hclock|intros ?]).
  eapply hoare_bind; [apply about_to_lift|intros p]. apply hoare_pure. intros Hp.
  do 2 (eapply hoare_bind; [exact Hclock|intros ?]).
  eapply hoare_bind; [apply about_to_lift|intros service]. apply hoare_pure. intros _.
  eapply hoare_bind with (R := λ _, at_session c limit c0 owed cid).
  - intros n [Hn Hnew]. cbn.
    match goal with |- context [dict_set _ _ ?x] => set (s := x) end.
    assert (session_ok c cid s ∧ reading (peer s) = None ∧ established (peer s) = false) as (Hs & Hr & Hest).
    { split; [by eapply fresh_session_ok|]. by apply bind_Ok in Hp as (mb & _ & (bb & _ & [= <-])%bind_Ok). }
    split; [by apply alive_add|]. change (cid ∈ dict_keys (dict_set (sessions n) cid s)).
    rewrite dict_keys_set. case_bool_decide; [done|]. apply elem_of_app. right. by apply list_elem_of_singleton.
  - intros ?. apply hoare_at_session. intros keys Hk Hcid. by apply keeps_greet.
Qed.

Lemma accepted_alive remote owed :
  hoare (λ n, alive owed n ∧ fresh_token n) (accepted_socket remote) (λ _, alive owed) (kept owed).
Proof.
  intros n [Hn Hf]. unfold accepted_socket. step_run. unfold gets at 1. destruct remote as [a|]; [|done].
  destruct (_ || _); [done|].
  destruct (config_validate_host _ _) as [h|e]; [|destruct (bool_decide _); done].
  revert n Hn Hf. intros n Hn Hf. apply (hoare_unfold _ (λ n, alive owed n ∧ fresh_token n) (λ _, alive owed) (kept owed)); [|done].
  eapply hoare_try.
  - eapply hoare_bind; [by apply attach_alive|intros ?; by apply hoare_ret].
  - intros e. eapply hoare_bind; [apply never_any, fatal_alive|intros ?; by apply hoare_ret].
Qed.

Lemma keeps_with_any owed keys sid f X :
  NoDup keys → (∀ s, session_ok c sid s → session_ok c sid (f s) ∧ steady (peer s) (peer (f s))) →
  keeps (ok c limit c0 owed keys) (with_session sid f) (λ _, True) X.
Proof.
  intros Hk Hf. destruct (decide (sid ∈ keys)) as [Hin|Hin]; [by apply keeps_with_session|].
  apply keeps_modify; [done|]. intros n Hn. apply (ok_same _ _ _ _ _ n); try done.
  apply (not_elem_of_dict_map f sid (sessions n)). by rewrite (no_keys _ _ _ _ _ _ Hn).
Qed.

(** A step of a connection's writer, or the start of its end. *)
Lemma peer_step_alive sid f :
  (∀ p, peer_inv c p → peer_inv c (f p)) → (∀ p, same_identity p (f p)) →
  hoare (alive []) (with_peer sid f) (λ _, alive []) (kept []).
Proof.
  intros Hi Hs. apply hoare_alive. intros keys Hk. apply keeps_with_any; [done|]. intros s Hso. destruct (Hs (peer s)) as [Hname Hr].
  split; [|by apply same_steady]. apply session_peer; [done|apply Hi, Hso|done].
Qed.

Lemma writer_failed_identity e p : same_identity p (writer_failed e p).
Proof.
  unfold writer_failed. cbv zeta. eapply same_identity_trans; [apply writer_release_identity|].
  set (q := writer_release p). case_bool_decide.
  - eapply same_identity_trans; [|apply begin_close_identity]. unfold set_reason. by destruct (close_reason q).
  - by eapply same_identity_trans; [|apply begin_close_identity].
Qed.

Lemma writer_drained_identity now p : same_identity p (writer_drained now p).
Proof. unfold writer_drained. by eapply same_identity_trans; [|apply writer_release_identity]. Qed.

Lemma writer_drained_inv now p : peer_inv c p → peer_inv c (writer_drained now p).
Proof. intros Hp. apply writer_release_inv. by apply (peer_inv_same c p); [|apply Hp|]. Qed.

Definition writer_take (p : PeerConnection) : PeerConnection := default p (writer_get p).

Lemma writer_take_identity p : same_identity p (writer_take p).
Proof. unfold writer_take, writer_get. by destruct (writing p), (outbound_queue p). Qed.
Lemma writer_take_inv p : peer_inv c p → peer_inv c (writer_take p).
Proof.
  intros Hp. unfold writer_take. destruct (writer_get p) as [q|] eqn:Hq; [|done]. by eapply writer_get_inv.
Qed.

(** ** Dialling *)

Lemma dial_failed_alive e sid : hoare (alive []) (dial_failed e sid) (λ _, alive []) (kept []).
Proof.
  apply hoare_alive. intros keys Hk. unfold dial_failed.
  apply keeps_seq; [apply keeps_weakest; eapply safe_manager, mark_disconnected_keeps; by apply config_initial|intros _].
  destruct sid as [sid|]; [|by apply keeps_ret]. apply keeps_with_any; [done|]. intros s Hs.
  destruct (begin_close_identity (peer s)) as [Hname Hr]. split; [|by apply same_steady].
  apply session_peer; [done|apply begin_close_inv, Hs|done].
Qed.

Lemma dial_done_alive e : hoare (alive []) (dial_done e) (λ _, alive []) (kept []).
Proof.
  apply hoare_alive. intros keys Hk. apply keeps_modify; [done|].
  intros n [H1 H2 H3 H4 H5 H6 H7 HD HU HC [I1 I2 I3 I4 I5 I6]].
  constructor; [done|done|done|done|done|done|done| |done|done|by constructor].
  apply Forall_forall. intros x [_ Hx]%list_elem_of_filter. rewrite Forall_forall in HD. by apply HD.
Qed.

Lemma connect_alive host port : hoare (alive []) (connect host port) (λ _, alive []) (kept []).
Proof.
  apply hoare_alive. intros keys Hk. unfold connect. cbv zeta.
  apply keeps_seq; [intros n Hn; unfold ask_node; by destruct (ensure_running n)|intros _].
  eapply keeps_bind; [apply keeps_config|intros ? ->].
  eapply keeps_bind with (P := λ e, dialable c e).
  { apply keeps_lift; [|done]. intros e He. unfold dialable, config_validate_endpoint in *. cbn [fst snd] in He.
    by pose proof He as [-> _]%validate_endpoint_Ok. }
  intros e He. apply keeps_seq; [by apply keeps_gets|intros me]. case_bool_decide; [by apply keeps_raise|].
  apply keeps_seq; [by apply keeps_gets|intros all]. destruct (filter _ all) as [|[sid s] l].
  - apply keeps_seq; [by apply keeps_gets|intros n]. case_bool_decide; [by apply keeps_ret|].
    destruct (dial_slots_full n); [by apply keeps_raise|].
    apply keeps_seq; [apply keeps_weakest; eapply safe_manager, add_candidate_keeps|intros _].
    apply keeps_seq; [by apply keeps_weakest, safe_begin_dial|intros _; by apply keeps_ret].
  - by apply keeps_ret.
Qed.

(** ** Starting and stopping *)

Lemma begin_start_alive : hoare (alive []) begin_start (λ _, alive []) (kept []).
Proof.
  unfold begin_start. eapply hoare_bind with (R := λ _, alive []); [by intros n|intros st].
  destruct (negb _); [by intros n Hn|]. by apply never_any, alive_modify.
Qed.

Lemma startup_listening_alive listen : hoare (alive []) (startup_listening listen) (λ _, alive []) (kept []).
Proof.
  unfold startup_listening. eapply hoare_bind with (R := λ _, alive []); [by intros n|intros st].
  destruct (negb _); [by intros n Hn|].
  eapply hoare_bind; [by apply never_any, alive_modify|intros ?].
  eapply hoare_bind; [apply hoare_kept; intros keys Hk; eapply safe_manager, set_self_endpoint_keeps|intros ?].
  by apply never_any, alive_modify.
Qed.

Lemma startup_serving_alive : hoare (alive []) startup_serving (λ _, alive []) (kept []).
Proof.
  unfold startup_serving. eapply hoare_bind with (R := λ _, alive []); [by intros n|intros n0].
  destruct (negb _); [by intros n Hn|]. apply hoare_kept. intros keys Hk. apply safe_for. intros e _.
  apply safe_ignore. eapply safe_manager, add_candidate_keeps.
Qed.

Lemma start_failed_alive e : hoare (alive []) (start_failed e) (λ _, alive []) (kept []).
Proof.
  apply never_any, alive_modify. intros n. case_bool_decide; [done|]. unfold begin_stop. by case_bool_decide.
Qed.

Lemma begin_stop_alive : hoare (alive []) (modify begin_stop) (λ _, alive []) (kept []).
Proof. apply never_any, alive_modify. intros n. unfold begin_stop. by case_bool_decide. Qed.

(** The reservations of what is left in the queue are given back. *)
Lemma drain_alive evs :
  hoare (λ n, alive [] n ∧ events n = evs ∧ readings (sessions n) = [])
    (for_each evs (λ ev, _ ← release (event_size ev); modify (λ n, n {{ events := tail (events n) }})))
    (λ _ n, alive [] n ∧ events n = [] ∧ readings (sessions n) = []) never.
Proof.
  induction evs as [|ev evs IH]; cbn [for_each]; [by apply hoare_ret|].
  eapply hoare_bind; [|intros ?; exact IH]. intros n (Hn & He & Hr).
  destruct (alive_pop ev evs n Hn He) as [Hpop _].
  pose proof (hoare_release c limit c0 [] (event_size ev) never _ Hpop) as Hrel.
  step_run. unfold release in *. cbv zeta in *.
  match type of Hrel with context [if ?b then _ else _] => set (under := b) in * end.
  match goal with |- context [if ?b then _ else _] => change b with under end.
  destruct under; [done|]. unfold modify. split_and!; [|change (tail (events n) = evs); by rewrite He|exact Hr].
  match goal with |- alive [] ?m => match type of Hrel with NodeLife.alive _ _ _ _ ?m' => assert (m = m') as ->; [|done] end end.
  clear - He. destruct n. cbn in He. by subst.
Qed.

Lemma finish_stop_alive :
  hoare (λ n, alive [] n ∧ readings (sessions n) = []) finish_stop (λ _, alive []) (kept []).
Proof.
  unfold finish_stop. intros n [Hn Hr]. step_run. unfold gets at 1.
  apply (hoare_unfold _ (λ n', alive [] n' ∧ events n' = events n ∧ readings (sessions n') = []) (λ _, alive []) (kept [])); [|done].
  eapply (hoare_bind (kept [])); [apply never_any, drain_alive|intros ?].
  eapply hoare_bind with (R := λ _, alive []).
  { intros m ([Hk [H1 H2 H3 H4 H5 H6 H7 HD HU HC [I1 I2 I3 I4 I5 I6]]] & He & Hm). split; [apply NoDup_nil_2|].
    constructor; try done.
    rewrite Hm in I1, I2, I3. constructor; try done. }
  intros ?. eapply hoare_bind.
  { apply hoare_kept. intros keys Hk. apply safe_with_sync. intros y Hy.
    pose proof (snapshot_limits c Hconfig). constructor; cbn; try done; [lia|constructor|constructor]. }
  intros ?. eapply hoare_bind; [by apply never_any, alive_modify|intros ?].
  eapply hoare_bind with (R := λ _, alive []).
  - eapply hoare_try; [apply hoare_alive; intros keys Hk|intros e; apply never_any, alive_modify; done].
    apply keeps_on_chain; [done|]. intros bc r bc' _ Hc. split; [by eapply rtc_once, step_close|by destruct r].
  - intros ?. apply never_any, alive_modify. intros m. by case_bool_decide.
Qed.

Lemma drain_state evs n :
  run_state (for_each evs (λ ev, _ ← release (event_size ev); modify (λ n, n {{ events := tail (events n) }})) n).2
  = run_state n.
Proof.
  apply (for_each_same run_state). intros ev m _. step_run. unfold release. cbv zeta. by destruct (_ || _).
Qed.

Lemma finish_stop_empty n r n' :
  alive [] n → run_state n ∈ [STOPPING; FAILED] → readings (sessions n) = [] → finish_stop n = (r, n') →
  r = Ok tt ∧ run_state n' ∈ [STOPPED; FAILED] ∧ events n' = [] ∧ sessions n' = [] ∧ dial_tasks n' = [] ∧
  exports (sync n') = [] ∧ snapshot_bytes (sync n') = 0 ∧ inbound_events n' = 0 ∧ inbound_bytes n' = 0.
Proof.
  intros Hn Hst Hr. unfold finish_stop. step_run. unfold gets at 1. step_run.
  pose proof (drain_alive (events n) n (conj Hn (conj eq_refl Hr))) as Hd. pose proof (drain_state (events n) n) as Hs.
  destruct (for_each _ _ n) as [[u|e] n1]; [|done]. destruct Hd as (Hn1 & He1 & Hr1). cbn [snd] in Hs.
  pose proof (no_inbound _ _ _ _ _ _ (proj2 Hn1)) as [I1 I2 _ _ _ _]. rewrite He1, Hr1 in I1, I2. cbn in I1, I2.
  step_run. unfold modify at 1. step_run. unfold sync_clear, with_sync, modify at 1. step_run. unfold modify at 1.
  step_run. unfold try_call, on_chain, zoom.
  match goal with |- context [close ?bc] => destruct (close bc) as [[u'|e] bc'] end; unfold modify.
  - match goal with |- context [if bool_decide (run_state ?m = FAILED) then _ else _] =>
      set (m1 := m); destruct (decide (run_state m1 = FAILED)) as [Hf|Hf] end.
    + rewrite (bool_decide_eq_true_2 _ Hf). intros [= <- <-]. rewrite Hf. by split_and!; [|right; left|..].
    + rewrite (bool_decide_eq_false_2 _ Hf). intros [= <- <-]. by split_and!; [|left|..].
  - intros [= <- <-]. by split_and!; [|right; left|..].
Qed.

(** ** All steps *)

Definition reader_idle (sid : string) (n : Node) : Prop :=
  sid ∉ closed_peers n ∧ ∃ s, dict_get (sessions n) sid = Some s ∧ reading (peer s) = None.
Definition reader_alive (sid : string) (n : Node) : Prop := sid ∉ closed_peers n ∧ sid ∈ dict_keys (sessions n).

(** A reader's task ends before its connection's callback runs; a stopped node
    has joined its readers.  A session's name is a new token. *)
Inductive node_step (n : Node) : Node → Prop :=
  | step_begin_start : node_step n (begin_start n).2
  | step_listening listen : node_step n (startup_listening listen n).2
  | step_serving : node_step n (startup_serving n).2
  | step_start_failed e : node_step n (start_failed e n).2
  | step_begin_stop : node_step n (begin_stop n)
  | step_stopped :
      run_state n ∈ [STOPPING; FAILED] → readings (sessions n) = [] → node_step n (finish_stop n).2
  | step_dispatch cancelled : node_step n (dispatch_next cancelled n).2
  | step_maintenance : node_step n (maintenance n).2
  | step_call cmd : node_step n (call_node cmd 1 n).2
  | step_call_submit tx : node_step n (call_submit tx n).2
  | step_call_block b : node_step n (call_block b n).2
  | step_connect host port : node_step n (connect host port n).2
  | step_accepted remote : fresh_token n → node_step n (accepted_socket remote n).2
  | step_dialled e a : fresh_token n → e ∈ dial_tasks n → node_step n (attach true (Some e) (Some a) n).2
  | step_dial_failed e sid : node_step n (dial_failed e sid n).2
  | step_dial_done e : node_step n (dial_done e n).2
  | step_prefix sid prefix : reader_idle sid n → node_step n (read_prefix sid prefix n).2
  | step_body sid body : reader_alive sid n → node_step n (read_body sid body n).2
  | step_read_failed sid e : reader_alive sid n → node_step n (read_failed sid e n).2
  | step_writer_get sid : node_step n (with_peer sid writer_take n).2
  | step_writer_drained sid now : node_step n (with_peer sid (writer_drained now) n).2
  | step_writer_failed sid e : node_step n (with_peer sid (writer_failed e) n).2
  | step_begin_close sid : node_step n (with_peer sid begin_close n).2
  | step_closed sid failed : reader_alive sid n → node_step n (finish_close sid failed n).2.

Lemma after {A} (m : node_call A) P n : hoare P m (λ _, alive []) (kept []) → P n → alive [] (m n).2.
Proof. intros Hm Hn. specialize (Hm n Hn). unfold kept in Hm. by destruct (m n) as [[a|e] n']. Qed.

Lemma after_reader {A} (m : node_call A) P (Q : A → Node → Prop) n :
  hoare P m Q never → (∀ a n', Q a n' → alive [] n') → P n → alive [] (m n).2.
Proof. intros Hm HQ Hn. specialize (Hm n Hn). destruct (m n) as [[a|e] n']; [by eapply HQ|done]. Qed.

Lemma reader_alive_at sid n : alive [] n → reader_alive sid n → ∃ r, reader_at c limit c0 sid r [] n.
Proof.
  intros Hn [Ho Hsid]. destruct (dict_get (sessions n) sid) as [s|] eqn:Hs; [|by apply dict_get_None in Hs].
  exists (reading (peer s)). split; [done|]. split; [done|by exists s].
Qed.

Lemma node_step_alive n n' : node_step n n' → alive [] n → alive [] n'.
Proof.
  destruct 1 as [ |listen| |e| |Hst Hr| | |cmd|tx|b|host port|remote Hf|e a Hf He|e sid|e|sid prefix [Ho Hi]
    |sid body Hra|sid e Hra|sid|sid now|sid e|sid|sid failed Hra]; intros Hn.
  - by apply (after _ (alive []) n begin_start_alive).
  - by apply (after _ (alive []) n (startup_listening_alive listen)).
  - by apply (after _ (alive []) n startup_serving_alive).
  - by apply (after _ (alive []) n (start_failed_alive e)).
  - by apply (after _ (alive []) n begin_stop_alive).
  - by apply (after _ _ n finish_stop_alive).
  - by apply (after_reader _ _ _ n (dispatch_next_alive cancelled)).
  - by apply (after_reader _ _ _ n maintenance_alive).
  - by apply (after _ (alive []) n (call_node_alive cmd 1 ltac:(lia))).
  - by apply (after _ (alive []) n (call_submit_alive tx)).
  - by apply (after _ (alive []) n (call_block_alive b)).
  - by apply (after _ (alive []) n (connect_alive host port)).
  - by apply (after _ _ n (accepted_alive remote [])).
  - apply (after _ (λ n, alive [] n ∧ fresh_token n) n); [|done]. apply attach_alive. intros x [= <-].
    pose proof (no_dials _ _ _ _ _ _ (proj2 Hn)) as HD. rewrite Forall_forall in HD. by apply HD.
  - by apply (after _ (alive []) n (dial_failed_alive e sid)).
  - by apply (after _ (alive []) n (dial_done_alive e)).
  - apply (after_reader _ _ _ n (read_prefix_reader c limit c0 sid prefix)); [by intros _ n' (r & Hr & _)|done].
  - destruct (reader_alive_at sid n Hn Hra) as [r Hr].
    apply (after_reader _ _ _ n (read_body_reader c limit c0 Hconfig sid r body)); [by intros _ n' (r' & Hr' & _)|done].
  - destruct (reader_alive_at sid n Hn Hra) as [r Hr].
    apply (after_reader _ _ _ n (read_failed_reader c limit c0 sid r e)); [by intros _ n' (Hr' & _)|done].
  - by apply (after _ (alive []) n (peer_step_alive sid _ writer_take_inv writer_take_identity)).
  - by apply (after _ (alive []) n (peer_step_alive sid _ (writer_drained_inv now) (writer_drained_identity now))).
  - apply (after _ (alive []) n (peer_step_alive sid _ (λ p, writer_failed_inv c e p) (writer_failed_identity e))); done.
  - apply (after _ (alive []) n (peer_step_alive sid _ (λ p, begin_close_inv c p) begin_close_identity)); done.
  - destruct (reader_alive_at sid n Hn Hra) as [r Hr].
    apply (after _ _ n (hoare_weaken _ _ _ _ (kept []) (finish_close_alive c limit c0 sid r failed) (λ e n', @proj1 _ _))); done.
Qed.

Lemma node_steps_alive n n' : rtc node_step n n' → alive [] n → alive [] n'.
Proof. induction 1; eauto using node_step_alive. Qed.

Lemma new_node_alive w n :
  world_ok is_token limit w → new_node c c0 w = Ok n → alive [] n.
Proof.
  intros Hw. unfold new_node. pose proof (keeps_draw_token is_token limit (λ _, False) w Hw) as Ht.
  destruct (draw_token w) as [[me|e] w1]; [|done]. destruct Ht as [Hw1 _].
  assert (0 <= max_candidates c) as Hmax.
  { apply Z.lt_le_incl, (config_positive c Hconfig). unfold counts. rewrite !elem_of_app, !elem_of_cons. tauto. }
  pose proof (add_seeds_keeps c limit (seeds c) (new_manager c, w1)) as Hs. unfold peer_manager.
  assert (pre c limit any (new_manager c, w1)) as Hp by (split; [split; [by apply new_manager_inv|done]|done]).
  specialize (Hs Hp). destruct (add_seeds (seeds c) (new_manager c, w1)) as [[u|e] [m w2]]; [|done].
  destruct Hs as [[Hm Hw2] _]. intros [= <-]. pose proof (snapshot_limits c Hconfig).
  assert (0 < inbound_max_events c ∧ 0 < inbound_max_bytes c) as [H1 H2].
  { split; apply (config_positive c Hconfig); unfold counts; rewrite !elem_of_app, !elem_of_cons; tauto. }
  split; [apply NoDup_nil_2|]. constructor; cbn; try done; [..|constructor; cbn; try done; lia].
  constructor; cbn; try done; [lia|constructor|constructor].
Qed.
End run.
