(* ===== verification/SampleNode.v ===== *)
(** * A sample node

    A node on the genesis block, started, with a connection that has read one
    frame: the runs that the witnesses of the theorems about nodes evaluate. *)

From Stdlib Require Import Lqa.
From coqutil Require Import Datatypes.RecordSetters.
Import DoubleBraceUpdate.
From S2P Require Import Prelude Bytes Json JsonParse Crypto Transaction Utxo Block Mempool MempoolFacts.
From S2P Require Import Sample SampleChain ChainState Blockchain BlockchainFacts Database Storage Codec CodecFacts.
From S2P Require Import NetConfig ConfigFacts.
From S2P Require Import Messages Protocol ProtocolFacts FrameFacts Effects Peer PeerFacts PeerManager.
From S2P Require Import PeerManagerFacts NodeState NodeInv NodeSteps Sync SyncFacts Node NodeFacts.
From S2P Require Import NodeLife NodeRun.
#[local] Open Scope Z_scope.
#[local] Open Scope string_scope.

#[local] Existing Instance sqlite_store.

Definition sample_config : NodeConfig := Eval vm_compute in
  match node_config default_config with Ok c => c | Raise _ => default_config end.

Lemma sample_config_ok : config_limits sample_config.
Proof.
  assert (node_config default_config = Ok sample_config) as Hc by (vm_compute; reflexivity).
  apply node_config_Ok in Hc as (nets & s & _ & _ & _ & _ & Hl & _ & Heq). rewrite Heq. exact Hl.
Qed.

Definition sample_world : World :=
  MkWorld (λ i, inject_Z (Z.of_nat i)) 0 (λ _, 0) 0 (λ _, "00112233445566778899aabbccddeeff") 0 (λ _, 1%Q) 0.

Lemma sample_world_ok limit : 0 <= limit → world_ok is_token limit sample_world.
Proof.
  intros Hl. constructor; cbn; [|lia|reflexivity|split; discriminate].
  intros i j Hij. rewrite <- Zle_Qle. lia.
Qed.

Definition sample_blockchain : Blockchain :=
  MkBlockchain None false false 0 [genesis_block] empty_state (MkMempool 10 100000 ∅ ∅ ∅ [] 0).

Lemma sample_blockchain_inv limit : bc_inv limit sample_blockchain.
Proof.
  assert (new_blockchain None (Some 10) (Some 100000) = Ok sample_blockchain) as Hb
    by (unfold new_blockchain; rewrite create_genesis_block_Ok; reflexivity).
  exact (proj1 (new_blockchain_inv _ _ _ _ Hb) limit).
Qed.

(** A node that was started, accepted a connection and read a frame. *)
Definition sample_name : string := "00112233445566778899aabbccddeeff".
Definition sample_ping : Message := message "PING" [("nonce", JStr sample_name)] None.
Definition sample_frame : bytes := Eval vm_compute in
  match encode_message sample_ping 4096 with Ok f => f | Raise _ => [] end.

Definition created_node : Node :=
  MkNode sample_config sample_name CREATED None sample_blockchain None [] 0 0 [] [] [] [] (new_manager sample_config)
    (MkSync [] [] 0 None) false (MkCounters 0 0 0 0) (draw_token sample_world).2.
Definition running_node : Node :=
  (startup_listening ("127.0.0.1", 5001) (begin_start created_node).2).2.
Definition accepting_node : Node := (accepted_socket (Some ("127.0.0.1", 40000)) running_node).2.
Definition reading_node : Node := (read_prefix sample_name (take 4 sample_frame) accepting_node).2.
Definition queued_node : Node := (read_body sample_name (drop 4 sample_frame) reading_node).2.

Lemma created_new : new_node sample_config sample_blockchain sample_world = Ok created_node.
Proof. reflexivity. Qed.

Lemma running_steps : rtc node_step created_node running_node.
Proof. unfold running_node. transitivity ((begin_start created_node).2); apply rtc_once; constructor. Qed.

Lemma running_fresh : fresh_token running_node.
Proof.
  unfold fresh_token. assert (dict_keys (sessions running_node) = []) as -> by (vm_compute; reflexivity). apply not_elem_of_nil.
Qed.

Lemma reader_at_accepting : reader_idle sample_name accepting_node.
Proof.
  split; [assert (closed_peers accepting_node = []) as -> by (vm_compute; reflexivity); apply not_elem_of_nil|].
  assert ((λ s, reading (peer s)) <$> dict_get (sessions accepting_node) sample_name = Some None) as H by (vm_compute; reflexivity).
  apply fmap_Some in H as (s & Hs & Hr). exact (ex_intro _ s (conj Hs (eq_sym Hr))).
Qed.

Lemma reader_at_reading : reader_alive sample_name reading_node.
Proof.
  split; [assert (closed_peers reading_node = []) as -> by (vm_compute; reflexivity); apply not_elem_of_nil|].
  assert (dict_keys (sessions reading_node) = [sample_name]) as -> by (vm_compute; reflexivity). apply list_elem_of_here.
Qed.

Lemma queued_steps : rtc node_step created_node queued_node.
Proof.
  transitivity (running_node); [exact running_steps|].
  transitivity (accepting_node).
  { unfold accepting_node. apply rtc_once. exact (step_accepted running_node (Some ("127.0.0.1", 40000)) running_fresh). }
  transitivity (reading_node).
  { unfold reading_node. apply rtc_once. exact (step_prefix accepting_node sample_name (take 4 sample_frame) reader_at_accepting). }
  unfold queued_node. apply rtc_once.
  exact (step_body reading_node sample_name (drop 4 sample_frame) reader_at_reading).
Qed.

(** The sample chain with the mined block, and a node on a given chain. *)
Definition next_blockchain : Blockchain := (add_block block1 sample_time None sample_blockchain).2.
Definition node_with (bc : Blockchain) : Node :=
  MkNode sample_config sample_name CREATED None bc None [] 0 0 [] [] [] [] (new_manager sample_config)
    (MkSync [] [] 0 None) false (MkCounters 0 0 0 0) (draw_token sample_world).2.

Lemma next_blockchain_inv : bc_inv sample_time next_blockchain.
Proof.
  pose proof (add_block_inv sample_time sample_time sample_time None block1 sample_blockchain
    (add_block block1 sample_time None sample_blockchain).1 next_blockchain (sample_blockchain_inv sample_time)
    eq_refl (surjective_pairing _)) as H.
  by rewrite Z.max_id in H.
Qed.
