(* ===== verification/NetTheorems.v ===== *)
(** * Theorems about the wire format and the endpoints

    What two honest nodes exchange arrives as it was sent; what anyone else
    sends is refused with the errors the callers handle; and no endpoint
    outside the local networks is ever accepted. *)

From Stdlib Require Import Strings.Byte Strings.Ascii.
From Stdlib Require Import Lqa.
From coqutil Require Import Datatypes.RecordSetters.
Import DoubleBraceUpdate.
From S2P Require Import Prelude Bytes Json JsonParse JsonFacts Crypto Transaction Utxo Sample.
From S2P Require Import Mempool MempoolFacts Block ChainState Blockchain BlockchainFacts Codec.
From S2P Require Import CodecFacts Database Storage NetConfig Messages Protocol ProtocolFacts.
From S2P Require Import FrameFacts ConfigFacts Effects Peer PeerFacts PeerManager.
From S2P Require Import PeerManagerFacts NodeState Sync Node NodeInv NodeSteps SyncFacts.
From S2P Require Import NodeFacts NodeLife NodeRun SampleNode.
#[local] Open Scope Z_scope.

(** C18: frames and items carry what was sent. Encoding a valid message gives
    the length of the body in four bytes, the most significant first, and a
    body of at least one byte within the limit, from which decoding returns the
    message, its keys in canonical order. In the other direction, a body that
    decodes is the only one: encoding the message gives exactly these bytes.
    Text decodes to a transaction or a block exactly when it is the text that
    item is packed to, so what a peer relays is byte for byte what the hash and
    the signatures are of. *)
Theorem frame_roundtrip m max :
  0 < max <= 2 ^ 32 - 1 →
  (∀ frame, keys_distinct (payload m) = true → encode_message m max = Ok frame →
     ∃ body, frame = be32 (Z.of_nat (length body)) ++ body ∧ length (be32 (Z.of_nat (length body))) = 4%nat ∧
       int_of_be (be32 (Z.of_nat (length body))) = Z.of_nat (length body) ∧
       1 <= Z.of_nat (length body) <= max ∧ decode_message body max = Ok (canon_message m)) ∧
  (∀ body, decode_message body max = Ok m →
     validate_message m = Ok tt ∧ encode_message m max = Ok (be32 (Z.of_nat (length body)) ++ body)) ∧
  (∀ tx s, pack_transaction tx max = Ok s ↔ unpack_transaction s max = Ok tx) ∧
  (∀ b s, pack_block b max = Ok s ↔ unpack_block s max = Ok b).
Proof.
  intros Hmax. split_and!.
  - intros frame Hk (body & -> & Hl & Hd)%encode_decode; [|done]. exists body.
    split_and!; [done..|apply int_of_be32|idtac|idtac|done]; lia.
  - intros body Hd. by destruct (decode_encode body max m) as [He Hv]; [lia|done|].
  - intros. apply unpack_pack_transaction.
  - intros. apply unpack_pack_block.
Qed.

Definition sample_ping : Message := message "PING" [("nonce", JStr "00112233445566778899aabbccddeeff")] None.

Lemma frame_roundtrip_witness :
  0 < 4096 <= 2 ^ 32 - 1 ∧
  ∃ body, encode_message sample_ping 4096 = Ok (be32 (Z.of_nat (length body)) ++ body) ∧
    decode_message body 4096 = Ok sample_ping.
Proof.
  split; [lia|]. destruct (frame_roundtrip sample_ping 4096 ltac:(lia)) as [He _].
  assert (∃ frame, encode_message sample_ping 4096 = Ok frame) as [frame Hf] by (eexists; vm_compute; reflexivity).
  destruct (He frame eq_refl Hf) as (body & -> & _ & _ & _ & Hd). by exists body.
Defined.

(** C19: bytes from a peer cannot make the reader fail in another way than
    the ones it handles. Decoding a body within the limit, which is all the
    transport reads, returns a message or raises [ProtocolError], whatever the
    bytes are: invalid UTF-8, malformed or deeply nested JSON, repeated keys,
    wrong types. A longer body and an item over its limit raise
    [PolicyLimitError], and an item nothing else. (Text outside Latin-1 is
    outside the model.) *)
Theorem untrusted_bytes n :
  0 < n →
  (∀ body, Z.of_nat (length body) <= n → raises_in FRAME_ERRORS (decode_message body n)) ∧
  (∀ body, n < Z.of_nat (length body) → decode_message body n = Raise PolicyLimitError) ∧
  (∀ s, raises_in UNTRUSTED_ERRORS (unpack_transaction s n)) ∧
  (∀ s, raises_in UNTRUSTED_ERRORS (unpack_block s n)).
Proof.
  intros Hn. split_and!; intros.
  - by apply decode_message_raises.
  - by apply decode_message_over.
  - apply unpack_raises; [done|apply decode_transaction_raises].
  - apply unpack_raises; [done|apply decode_block_raises].
Qed.

Lemma untrusted_bytes_witness :
  0 < 4096 ∧ (∃ e, decode_message (utf8_encode "{]") 4096 = Raise e ∧ e ∈ FRAME_ERRORS).
Proof.
  split; [lia|]. destruct (untrusted_bytes 4096 ltac:(lia)) as (H & _).
  assert (decode_message (utf8_encode "{]") 4096 = Raise ProtocolError) as He by (vm_compute; reflexivity).
  exists ProtocolError. split; [exact He|]. refine (H _ _ _ He). vm_compute. discriminate.
Defined.

(** The policy on endpoints is exact. An endpoint is accepted, unchanged,
    exactly when its port is between 1 and 65535 and its host is the canonical
    text of a loopback or private address, not a broadcast address, inside an
    allowed network and, in the most specific network that contains it, a
    host: not the network's own address or broadcast address. *)
Theorem endpoint_policy nets h p e :
  validate_endpoint nets h p = Ok e ↔
    e = (h, p) ∧ 1 <= p <= 65535 ∧ ∃ a, h = ipv4_str a ∧ local_address a ∧
      ∃ n, n ∈ nets ∧ in_network a n = true ∧
        (∀ m, m ∈ nets → in_network a m = true → prefixlen m <= prefixlen n) ∧
        (prefixlen n < 31 → a ≠ network_address n ∧ a ≠ broadcast_address n).
Proof. apply validate_endpoint_Ok. Qed.

(** A configuration that was accepted is normal and safe: constructing
    it again accepts it unchanged. Every allowed network is a part of a local
    one, the host and every seed satisfy the policy on endpoints, no seed is
    there twice or beyond the number of candidates, and every duration, count
    and limit is in its range. *)
Theorem config_normalized c c' :
  node_config c = Ok c' →
  node_config c' = Ok c' ∧
  networks c' ≠ [] ∧ Forall allowed_network (networks c') ∧
  config_validate_host c' (host c') = Ok (host c') ∧
  NoDup (seeds c') ∧ Forall (λ e, config_validate_endpoint c' e = Ok e) (seeds c') ∧
  Z.of_nat (length (seeds c')) <= max_candidates c' ∧ config_limits c'.
Proof.
  intros (nets & s & Hc & Hn & Hh & Hs & Hl & Hm & ->)%node_config_Ok.
  destruct (map_parse_cidr _ _ Hn) as [Ha He]. destruct (normalize_seeds_good _ _ _ _ Hs) as [Hd Hv]; [by split; constructor|].
  split; [|split_and!; cbn; try done; tauto].
  apply node_config_Ok. exists nets, s. cbn. split_and!; try done.
  - intros ?%map_eq_nil. tauto.
  - by apply map_parse_cidr_str.
  - by apply (normalize_seeds_id nets s []).
Qed.

Lemma config_normalized_witness :
  ∃ c', node_config default_config = Ok c' ∧ node_config c' = Ok c'.
Proof.
  assert (∃ c', node_config default_config = Ok c') as [c' Hc] by (eexists; vm_compute; reflexivity).
  exists c'. split; [exact Hc|]. by destruct (config_normalized _ _ Hc).
Defined.

(** * What a running node guarantees

    Whatever its peers send, its callers ask and its sockets do: every
    reachable node is within its bounds, and a peer's message cannot stop it. *)

Section node.
Context {EL : EcdsaLib} {CS : ChainStore}.

(** C20: every node that can be reached from a new one, by any interleaving of
    its dispatcher, timer, callers, sockets, readers and writers, is within
    its bounds: its chain moved by the methods of [Blockchain] alone; the
    inbound budget is what the queued events and the readers hold, and within
    its limits; what a connection has to send is within its limits; the bytes
    of the exported snapshots are those counted, and within theirs; there are
    never more candidates than configured; and no two connections to the same
    peer are live. *)
Theorem reachable_node_safe c limit bc w n0 n :
  config_limits c → bc_inv limit bc → world_ok is_token limit w →
  new_node c bc w = Ok n0 → rtc node_step n0 n →
  rtc (bc_step limit) bc (node_chain n) ∧
  (inbound_events n = Z.of_nat (length (events n) + length (readings (sessions n))) ∧
   inbound_bytes n = sumZ_with event_size (events n) + sumZ_with id (readings (sessions n)) ∧
   inbound_events n <= inbound_max_events c ∧ inbound_bytes n <= inbound_max_bytes c) ∧
  (∀ sid s, dict_get (sessions n) sid = Some s →
     outbound_frames (peer s) = Z.of_nat (length (held (peer s))) ∧
     outbound_bytes (peer s) = sumZ_with frame_len (held (peer s)) ∧
     outbound_frames (peer s) <= outbound_max_frames c ∧ outbound_bytes (peer s) <= outbound_max_bytes c ∧
     Z.of_nat (length (pending s)) <= max_requests c ∧ NoDup (map (λ p, request_kind p.2) (pending s))) ∧
  (snapshot_bytes (sync n) = sumZ_with (λ p, sumZ_with frame_len (export_items p.2)) (exports (sync n)) ∧
   snapshot_bytes (sync n) <= snapshot_global_bytes c) ∧
  Z.of_nat (length (candidates_of (manager n))) <= max_candidates c ∧
  (∀ i j s t, dict_get (sessions n) i = Some s → dict_get (sessions n) j = Some t →
     is_live (peer s) → is_live (peer t) → peer_node_id (peer s) = peer_node_id (peer t) → i = j).
Proof.
  intros Hc Hbc Hw Hnew Hsteps. pose proof (new_node_alive c limit bc Hc w n0 Hw Hnew) as H0.
  pose proof (node_steps_alive c limit bc Hc Hbc n0 n Hsteps H0) as [Hk Hn].
  destruct (no_inbound _ _ _ _ _ _ Hn) as [I1 I2 I3 I4 I5 I6]. cbn [length sumZ_with] in I1, I2.
  rewrite Nat.add_0_r in I1. rewrite Z.add_0_r in I2.
  split_and!; [apply Hn|done|done|done|done| | |apply Hn| |apply Hn].
  - intros sid s Hs. pose proof (ok_session _ _ _ _ _ _ _ _ Hn Hs) as [_ [] Hp Hkinds _ _ _ _ _ _]. done.
  - rewrite (yo_bytes _ _ (no_sync _ _ _ _ _ _ Hn)). apply sumZ_with_ext. intros p Hp.
    pose proof (yo_exports _ _ (no_sync _ _ _ _ _ _ Hn)) as Hx. rewrite Forall_forall in Hx.
    symmetry. apply (xo_exact _ _ (Hx p Hp)).
  - apply (manager_count _ _ (no_manager _ _ _ _ _ _ Hn)).
Qed.


(** C22: a call of the interface is queued or refused. Of a reachable node, a
    call that raises was refused because the node does not run, its storage
    failed, or its budget is used up; and it changed nothing. A call that
    returns added its event at the end of the queue: there is room for every
    event whose bytes were reserved. *)
Theorem call_queued_or_refused c limit bc w n0 n cmd size :
  config_limits c → bc_inv limit bc → world_ok is_token limit w →
  new_node c bc w = Ok n0 → rtc node_step n0 n → 0 <= size →
  (∃ n', call_node cmd size n = (Ok tt, n') ∧ run_state n = RUNNING ∧
     events n' = events n ++ [MkEvent (EvCommand cmd) size]) ∨
  (∃ e, call_node cmd size n = (Raise e, n) ∧ e ∈ [NodeClosedError; StorageError; NodeBusyError]).
Proof.
  intros Hc Hbc Hw Hnew Hsteps Hs. pose proof (new_node_alive c limit bc Hc w n0 Hw Hnew) as H0.
  pose proof (node_steps_alive c limit bc Hc Hbc n0 n Hsteps H0) as Hn.
  assert (call_node cmd size n = match ensure_running n with
    | Raise e => (Raise e, n)
    | Ok _ => (ok ← reserve size;
               if negb ok then raise NodeBusyError
               else try_call (put_event (MkEvent (EvCommand cmd) size)) (λ _, true) (λ e, _ ← release size; raise e)) n
    end) as ->.
  { unfold call_node. step_run. unfold ask_node. by destruct (ensure_running n). }
  destruct (ensure_running n) as [[]|e] eqn:Hrun.
  2: { right. exists e. split; [done|]. unfold ensure_running in Hrun. revert Hrun. rewrite !elem_of_cons.
    case_bool_decide; [intros [= <-]; tauto|]. destruct (_ && _); [intros [= <-]; tauto|].
    intros [_ <-]%raise_if_Raise. tauto. }
  assert (run_state n = RUNNING) as Hst.
  { unfold ensure_running in Hrun. revert Hrun. case_bool_decide; [done|]. destruct (_ && _); [done|].
    intros Hx%raise_if_Ok. by apply negb_false_iff, bool_decide_eq_true in Hx. }
  step_run. pose proof (hoare_reserve c limit bc [] size never Hs n Hn) as Hres. unfold reserve in *.
  destruct (_ || _); [right; exists NodeBusyError; split; [done|]; rewrite !elem_of_cons; tauto|].
  cbn [negb]. unfold try_call. set (n1 := n {{ inbound_events := _; inbound_bytes := _ }}) in *.
  pose proof (hoare_put c limit bc [] (MkEvent (EvCommand cmd) size) never I n1 Hres) as Hput. unfold put_event in *.
  destruct (_ <=? _); [done|]. left. eexists. by split_and!.
Qed.

(** When a node has stopped, nothing is held any more: the queue, the
    table of sessions, the dials and the snapshots are empty, and the whole
    inbound budget was given back. *)
Theorem stopped_node_empty c limit bc w n0 n r n' :
  config_limits c → bc_inv limit bc → world_ok is_token limit w →
  new_node c bc w = Ok n0 → rtc node_step n0 n →
  run_state n ∈ [STOPPING; FAILED] → readings (sessions n) = [] → finish_stop n = (r, n') →
  r = Ok tt ∧ run_state n' ∈ [STOPPED; FAILED] ∧ events n' = [] ∧ sessions n' = [] ∧ dial_tasks n' = [] ∧
  exports (sync n') = [] ∧ snapshot_bytes (sync n') = 0 ∧ inbound_events n' = 0 ∧ inbound_bytes n' = 0.
Proof.
  intros Hc Hbc Hw Hnew Hsteps Hst Hr Hf. pose proof (new_node_alive c limit bc Hc w n0 Hw Hnew) as H0.
  pose proof (node_steps_alive c limit bc Hc Hbc n0 n Hsteps H0) as Hn.
  by apply (finish_stop_empty c limit bc n).
Qed.

(** The pages of a snapshot are exact. A page holds the next items in
    order, as they were encoded, at most as many as asked for; it is the
    longest run of them whose message fits a frame: the message with one more
    item is over the limit. *)
Theorem snapshot_page_exact c tip token start total rid asked items txs :
  fill_page c tip token start total rid (take asked items) [] = Ok txs →
  let frame l := encode_message (message "MEMPOOL"
    (mempool_payload tip token start l (start + Z.of_nat (length l)) (start + Z.of_nat (length l) =? total)) rid)
    (max_frame_bytes c) in
  (length txs <= asked)%nat ∧ txs = map (λ i, JStr (b64encode i)) (take (length txs) items) ∧
  (txs ≠ [] → ∃ f, frame txs = Ok f) ∧
  (∀ i, (length txs < asked)%nat → items !! length txs = Some i →
     frame (txs ++ [JStr (b64encode i)]) = Raise PolicyLimitError).
Proof.
  intros H frame. destruct (fill_page_exact _ _ _ _ _ _ _ _ _ H) as (k & Hk & Htxs & Hfit & Hnext).
  rewrite length_take in Hk. cbn [app] in Htxs. rewrite take_take, Nat.min_l in Htxs by lia.
  assert (length txs = k) as Hlen by (rewrite Htxs, length_map, length_take; lia). rewrite Hlen. split_and!; [lia|done| |].
  - intros Hne. apply Hfit. intros ->. by rewrite Htxs in Hne.
  - intros i Hki Hi. apply Hnext. rewrite lookup_take_lt by lia. exact Hi.
Qed.
End node.

(** The rate limit. Whatever a peer sends and whenever the calls are made,
    what a bucket grants in total is at most its capacity and what its rate
    yields between its creation and its last refill. *)
Theorem bucket_rate_limit r c now b calls total b' :
  token_bucket r c now = Ok b → consume_all b calls = Ok (total, b') →
  (total <= c + r * (updated b' - now))%Q ∧ (0 <= tokens b' <= c)%Q.
Proof.
  intros (Hb & <- & <- & Ht & <-)%token_bucket_ok Hc.
  destruct (consume_all_spec calls b total b' Hb Hc) as (Hb' & Hr & Hcap & Hu & Hsum).
  destruct Hb' as [_ [Hlo Hhi]]. rewrite Hcap in Hhi. rewrite Ht in Hsum. split; [lra|done].
Qed.

(** ** Witnesses *)

Lemma bucket_rate_limit_witness : ∃ b b' total,
  token_bucket 2 3 10 = Ok b ∧ consume_all b [(3, 10)%Q; (2, 21 # 2)%Q; (2, 11)%Q] = Ok (total, b') ∧
  (total <= 3 + 2 * (updated b' - 10))%Q.
Proof.
  set (calls := [(3, 10)%Q; (2, 21 # 2)%Q; (2, 11)%Q]).
  assert (token_bucket 2 3 10 = Ok (MkBucket 2 3 3 10)) as Hb by reflexivity.
  assert (match consume_all (MkBucket 2 3 3 10) calls with Ok _ => true | Raise _ => false end = true) as Hok
    by (vm_compute; reflexivity).
  destruct (consume_all (MkBucket 2 3 3 10) calls) as [[total b']|e] eqn:Hc; [|discriminate Hok].
  exists (MkBucket 2 3 3 10), b', total. split; [exact Hb|]. split; [exact Hc|].
  exact (proj1 (bucket_rate_limit 2 3 10 (MkBucket 2 3 3 10) calls total b' Hb Hc)).
Defined.

#[local] Existing Instance sqlite_store.

Lemma reachable_node_safe_witness : inbound_events queued_node = 1 ∧ inbound_bytes queued_node <= inbound_max_bytes sample_config.
Proof.
  split; [vm_compute; reflexivity|].
  apply (reachable_node_safe sample_config 0 sample_blockchain sample_world created_node queued_node
    sample_config_ok (sample_blockchain_inv 0) (sample_world_ok 0 ltac:(lia)) created_new queued_steps).
Defined.


Lemma call_queued_or_refused_witness : ∃ n', call_node CmdStatus 1 running_node = (Ok tt, n') ∧ length (events n') = 1%nat.
Proof.
  destruct (call_queued_or_refused sample_config 0 sample_blockchain sample_world created_node running_node CmdStatus 1
    sample_config_ok (sample_blockchain_inv 0) (sample_world_ok 0 ltac:(lia)) created_new running_steps ltac:(lia))
    as [(n' & Hc & _ & He)|(e & Hc & _)].
  - exists n'. split; [exact Hc|]. rewrite He. reflexivity.
  - assert ((call_node CmdStatus 1 running_node).1 = Ok tt) as H by (vm_compute; reflexivity).
    rewrite Hc in H. discriminate H.
Defined.

Lemma stopped_node_empty_witness : (finish_stop (begin_stop running_node)).1 = Ok tt.
Proof.
  refine (proj1 (stopped_node_empty sample_config 0 sample_blockchain sample_world created_node (begin_stop running_node)
    (finish_stop (begin_stop running_node)).1 (finish_stop (begin_stop running_node)).2
    sample_config_ok (sample_blockchain_inv 0) (sample_world_ok 0 ltac:(lia)) created_new _ _ eq_refl (surjective_pairing _))).
  - transitivity (running_node); [exact running_steps|]. apply rtc_once, step_begin_stop.
  - apply (bool_decide_unpack _). vm_compute. exact I.
Defined.

Lemma snapshot_page_exact_witness :
  length (match fill_page sample_config GENESIS_HASH sample_name 0 2 (Some sample_name) (take 1 [sample_frame; sample_frame]) []
          with Ok l => l | Raise _ => [] end) = 1%nat ∧
  ∃ txs, fill_page sample_config GENESIS_HASH sample_name 0 2 (Some sample_name) (take 1 [sample_frame; sample_frame]) [] = Ok txs ∧
    (length txs <= 1)%nat.
Proof.
  split; [vm_compute; reflexivity|].
  destruct (fill_page sample_config GENESIS_HASH sample_name 0 2 (Some sample_name) (take 1 [sample_frame; sample_frame]) [])
    as [txs|e] eqn:H.
  - exists txs. split; [reflexivity|].
    exact (proj1 (snapshot_page_exact sample_config GENESIS_HASH sample_name 0 2 (Some sample_name) 1 [sample_frame; sample_frame] txs H)).
  - assert ((λ l, length l) <$> fill_page sample_config GENESIS_HASH sample_name 0 2 (Some sample_name) (take 1 [sample_frame; sample_frame]) [] = Ok 1%nat)
      as Hl by (vm_compute; reflexivity). rewrite H in Hl. discriminate Hl.
Defined.
