(* ===== verification/Services.v ===== *)
(** * What the services of the API share

    A service asks the node through commands ([Node._call]): a command waits in
    the node's queue, and the reply is what the dispatcher answers when its turn
    comes.  [Served] is the outcome of one command, with the node as it is then;
    [reply_of] is the reply, computed by [Node.command]. *)

From Stdlib Require Import Strings.Ascii.
From S2P Require Import Prelude Bytes Json JsonParse Crypto Transaction Utxo Block Blockchain.
From S2P Require Import Effects NodeState Node.
#[local] Open Scope string_scope.
#[local] Open Scope Z_scope.

(** * Methods of [str]

    The text methods that the services of the API call, on code points below
    256. *)

(** [s.strip()] *)
Definition strip (s : string) : string := rstrip is_space (lstrip is_space s).

(** [c.lower()]: no letter below 256 has a lower case above. *)
Definition lower_char (c : ascii) : ascii :=
  let n := code c in
  if ((65 <=? n) && (n <=? 90) || (192 <=? n) && (n <=? 222) && negb (n =? 215))%N
  then ascii_of_N (n + 32) else c.

Fixpoint lower (s : string) : string :=
  match s with
  | String c r => String (lower_char c) (lower r)
  | EmptyString => s
  end.

(** [len(s)] as an integer. *)
Definition text_len (s : string) : Z := Z.of_nat (str_len s).

(** [s.rstrip(c)] for one character. *)
Fixpoint rstrip_char (c : ascii) (s : string) : string :=
  match s with
  | String d r =>
      match rstrip_char c r with
      | EmptyString => if bool_decide (d = c) then "" else String d ""
      | r => String d r
      end
  | EmptyString => s
  end.

(** [s.rsplit(c, 1)] when [c] occurs: before and after its last occurrence. *)
Fixpoint rsplit (c : ascii) (s : string) : option (string * string) :=
  match s with
  | EmptyString => None
  | String d r =>
      match rsplit c r with
      | Some (a, b) => Some (String d a, b)
      | None => if bool_decide (d = c) then Some ("", r) else None
      end
  end.

(** The digits of a number with single underscores between digits. *)
Fixpoint plain_digits (after_digit : bool) (s : string) : option string :=
  match s with
  | EmptyString => if after_digit then Some "" else None
  | String c r =>
      if is_digit c then String c <$> plain_digits true r
      else if bool_decide (c = "_"%char) && after_digit then plain_digits false r
      else None
  end.

(** White space as C has it, which [int] removes from a text that is ASCII. *)
Definition c_space (c : ascii) : bool := let n := code c in ((9 <=? n) && (n <=? 13) || (n =? 32))%N.
Definition is_ascii (s : string) : bool := str_forall (λ c, (code c <? 128)%N) s.
Definition int_strip (s : string) : string :=
  if is_ascii s then rstrip c_space (lstrip c_space s) else strip s.

(** [int(s)] *)
Definition parse_int (s : string) : result Z :=
  let s := int_strip s in
  let (sign, body) := match s with
                      | String "-" r => (-1, r)
                      | String "+" r => (1, r)
                      | _ => (1, s)
                      end in
  match plain_digits false body with
  | Some d => Ok (sign * int_of_decimal d)
  | None => Raise ValueError
  end.

Example parse_int_forms :
  map parse_int [" 5_001 "; "-7"; "+0"; "1__2"; "_1"; "x"; ""; String (ascii_of_N 28) "5"]
  = [Ok 5001; Ok (-7); Ok 0; Raise ValueError; Raise ValueError; Raise ValueError; Raise ValueError; Raise ValueError].
Proof. reflexivity. Qed.

Example strip_lower : lower (strip ("  Ab" ++ String (ascii_of_N 160) "C ")) = "ab" ++ String (ascii_of_N 160) "c".
Proof. reflexivity. Qed.

(** ** Asking the node *)

Section services.
Context {EL : EcdsaLib} {CS : ChainStore}.

(** A command is refused or fails at the queue, or the dispatcher handles it
    when the node is [n]. *)
Inductive Served :=
  | Refused (e : exn)
  | ServedBy (n : Node).

Definition reply_of (v : Served) (cmd : Command) : result Reply :=
  match v with
  | Refused e => Raise e
  | ServedBy n => (command cmd n).1
  end.

(** A reply of the kind the method of [Node] returns. *)
Definition expect {A} (f : Reply → option A) (r : result Reply) : result A :=
  r ← r; match f r with Some a => Ok a | None => Raise TypeError end.

Definition latest_info (v : Served) : result (option (Block * Z)) :=
  expect (λ r, match r with RepBlockInfo b => Some b | _ => None end) (reply_of v CmdLatestBlockInfo).
Definition block_info (v : Served) (hash : string) : result (option (Block * Z)) :=
  expect (λ r, match r with RepBlockInfo b => Some b | _ => None end) (reply_of v (CmdBlockInfoByHash hash)).
Definition blocks_of (v : Served) (start limit : Z) : result (list Block) :=
  expect (λ r, match r with RepBlocks l => Some l | _ => None end) (reply_of v (CmdBlocks start limit)).
Definition status_of (v : Served) : result NodeStatus :=
  expect (λ r, match r with RepStatus s => Some s | _ => None end) (reply_of v CmdStatus).
Definition pending_entries (v : Served) : result (list (Transaction * Z * Z)) :=
  expect (λ r, match r with RepEntries l => Some l | _ => None end) (reply_of v CmdPendingEntries).
Definition found_transaction (v : Served) (tid : string) : result (option Located) :=
  expect (λ r, match r with RepLocated l => Some l | _ => None end) (reply_of v (CmdFindTransaction tid)).
Definition address_info (v : Served) (address : string) : result AddressInfo :=
  expect (λ r, match r with RepAddress a => Some a | _ => None end) (reply_of v (CmdAddressInfo address)).

(** ** What the replies are *)

Lemma expect_ask {A B} (rep : A → Reply) (f : Reply → option B) (q : Blockchain → result A) (h : A → B) cmd n :
  command cmd = answer rep (ask_chain q) → (∀ a, f (rep a) = Some (h a)) →
  expect f (reply_of (ServedBy n) cmd) = (a ← q (node_chain n); Ok (h a)).
Proof.
  intros Hc Hf. unfold reply_of. rewrite Hc. unfold answer, ask_chain, mbind, call_bind, mret, call_ret.
  destruct (q (node_chain n)) as [a|e]; cbn; [by rewrite Hf|done].
Qed.

(** The reply to a query is what the query answers on the chain. *)
Lemma ask_same {A} (rep : A → Reply) (f : Reply → option A) (q : Blockchain → result A) cmd n :
  command cmd = answer rep (ask_chain q) → (∀ a, f (rep a) = Some a) →
  expect f (reply_of (ServedBy n) cmd) = q (node_chain n).
Proof. intros Hc Hf. rewrite (expect_ask rep f q id cmd n Hc Hf). by destruct (q _). Qed.

Lemma latest_info_served n : latest_info (ServedBy n) = get_latest_block_info (node_chain n).
Proof. by apply (ask_same RepBlockInfo). Qed.
Lemma blocks_of_served n start limit : blocks_of (ServedBy n) start limit = get_blocks (node_chain n) start limit.
Proof. by apply (ask_same RepBlocks _ (λ bc, get_blocks bc start limit)). Qed.
Lemma found_transaction_served n tid : found_transaction (ServedBy n) tid = find_transaction (node_chain n) tid.
Proof. by apply (ask_same RepLocated _ (λ bc, find_transaction bc tid)). Qed.
Lemma address_info_served n a : address_info (ServedBy n) a = get_address_info (node_chain n) a.
Proof. by apply (ask_same RepAddress _ (λ bc, get_address_info bc a)). Qed.
End services.
