(* ===== verification/Explorer.v ===== *)
(** * api/services/explorer_service.py: the index of a chain and its queries

    [ChainView] is the index, [populate] builds it from a list of blocks in the
    two passes of the code.  The dictionaries that are only looked up are finite
    maps; an address's history is a list, in the order the code sorts it.  A
    query of [ExplorerService] awaits the node several times: each await is the
    next of the outcomes [served], and lets other requests change the cached
    view ([others]). *)

From coqutil Require Import Datatypes.RecordSetters.
Import DoubleBraceUpdate.
From S2P Require Import Prelude Bytes Json JsonParse Crypto Transaction Utxo Block Codec.
From S2P Require Import Blockchain Effects NodeState Node Services.
#[local] Open Scope string_scope.
#[local] Open Scope Z_scope.

(** ** [ChainView] *)

Inductive Direction := Mined | Sent | Received.

(** An item of an address's history; [item_height] is [None] when pending. *)
Record HistoryItem := MkItem {
  item_txid : string;
  item_height : option Z;
  item_timestamp : Z;
  item_pending : bool;
  item_direction : Direction;
  item_amount : Z;
  item_fee : Z
}.

Record ChainView := MkView {
  tip_height : Z;
  tip_hash : string;
  blocks_by_height : gmap Z Block;
  blocks_by_hash : gmap string (Z * Block);
  block_sizes : gmap Z Z;
  tx_by_id : gmap string (Z * string * Transaction);
  tx_fees : gmap string Z;
  tx_sizes : gmap string Z;
  outputs_by_outpoint : UTXOSet;
  address_history : gmap string (list HistoryItem);
  total_confirmed_transactions : Z
}.

(** [ChainView(tip_height, tip_hash)] *)
Definition new_view (h : Z) (hash : string) : ChainView := MkView h hash ∅ ∅ ∅ ∅ ∅ ∅ ∅ ∅ 0.

(** [try: len(data) except Exception: 0] *)
Definition size_or_zero (data : result bytes) : Z :=
  match data with Ok d => Z.of_nat (length d) | Raise _ => 0 end.

(** *** The first pass *)

Definition index_transaction (h : Z) (bhash : string) (v : ChainView) (tx : Transaction) : ChainView :=
  let t := txid tx in
  v {{ total_confirmed_transactions := total_confirmed_transactions v + 1;
       tx_by_id := <[t := (h, bhash, tx)]> (tx_by_id v);
       tx_sizes := <[t := size_or_zero (encode_transaction tx)]> (tx_sizes v);
       outputs_by_outpoint :=
         foldl (λ m p, <[p.1 := p.2]> m) (outputs_by_outpoint v) (output_items tx) }}.

Definition index_header (v : ChainView) (h : Z) (b : Block) : ChainView :=
  v {{ blocks_by_height := <[h := b]> (blocks_by_height v);
       blocks_by_hash := <[block_hash b := (h, b)]> (blocks_by_hash v);
       block_sizes := <[h := size_or_zero (encode_block b)]> (block_sizes v) }}.

Definition index_block (v : ChainView) (h : Z) (b : Block) : ChainView :=
  foldl (index_transaction h (block_hash b)) (index_header v h b) (transactions b).

(** *** The second pass *)

Definition append_item (item : HistoryItem) (h : gmap string (list HistoryItem)) (address : string) :
    gmap string (list HistoryItem) :=
  <[address := (default [] (h !! address) ++ [item])%list]> h.

(** [for address, amount in d.items(): history[address].append(item(amount))]:
    every address gets one item, so the order of the dict is of no effect. *)
Definition append_items (d : gmap string Z) (item : Z → HistoryItem) (h : gmap string (list HistoryItem)) :
    gmap string (list HistoryItem) :=
  foldl (λ h p, append_item (item p.2) h p.1) h (map_to_list d).

(** [for out in outs: d[out.recipient_address] += out.amount] *)
Definition paid_to (outs : list TxOutput) : gmap string Z :=
  foldl (λ d o, <[recipient_address o := default 0 (d !! recipient_address o) + amount o]> d) ∅ outs.

(** The owners and the value of the inputs, among the outputs indexed. *)
Definition sender_addresses (outs : UTXOSet) (tx : Transaction) : gset string :=
  list_to_set (omap (λ i, recipient_address <$> outs !! outpoint i) (inputs tx)).

Definition input_value (outs : UTXOSet) (tx : Transaction) : Z :=
  sumZ_with (λ i, default 0 (amount <$> outs !! outpoint i)) (inputs tx).

(** [sum(out.amount for out in tx.outputs if out.recipient_address != sender)] *)
Definition paid_by (sender : string) (tx : Transaction) : Z :=
  sumZ_with amount (filter (λ o, recipient_address o ≠ sender) (outputs tx)).

Definition index_coinbase (h : Z) (v : ChainView) (tx : Transaction) : ChainView :=
  v {{ tx_fees := <[txid tx := 0]> (tx_fees v);
       address_history :=
         append_items (paid_to (outputs tx))
           (λ mined, MkItem (txid tx) (Some h) (tx_timestamp tx) false Mined mined 0)
           (address_history v) }}.

Definition index_regular (h : Z) (v : ChainView) (tx : Transaction) : ChainView :=
  let senders := sender_addresses (outputs_by_outpoint v) tx in
  let fee := Z.max 0 (input_value (outputs_by_outpoint v) tx - sumZ_with amount (outputs tx)) in
  let item d a := MkItem (txid tx) (Some h) (tx_timestamp tx) false d a fee in
  let sent := foldl (λ hist sender, append_item (item Sent (paid_by sender tx)) hist sender)
                (address_history v) (elements senders) in
  v {{ tx_fees := <[txid tx := fee]> (tx_fees v);
       address_history :=
         append_items (paid_to (filter (λ o, recipient_address o ∉ senders) (outputs tx))) (item Received) sent }}.

Definition index_payments (h : Z) (v : ChainView) (tx : Transaction) : ChainView :=
  if bool_decide (inputs tx = []) then index_coinbase h v tx else index_regular h v tx.

(** *** Both, and the order of the histories *)

(** [for height, block in enumerate(blocks)] *)
Fixpoint for_blocks (f : ChainView → Z → Block → ChainView) (v : ChainView) (h : Z) (bs : list Block) : ChainView :=
  match bs with
  | [] => v
  | b :: bs => for_blocks f (f v h b) (h + 1) bs
  end.

(** [(r.get("block_height") or 0, r.get("timestamp") or 0)], descending. *)
Definition newer_first (x y : HistoryItem) : Prop :=
  default 0 (item_height y) < default 0 (item_height x) ∨
  default 0 (item_height x) = default 0 (item_height y) ∧ item_timestamp y <= item_timestamp x.

#[export] Instance newer_first_dec : RelDecision newer_first.
Proof. intros x y. unfold newer_first. apply _. Defined.

(** A stable sort, as [list.sort(reverse=True)] is. *)
Definition sort_history (l : list HistoryItem) : list HistoryItem := merge_sort newer_first l.

Definition populate (v : ChainView) (bs : list Block) : ChainView :=
  let v := for_blocks index_block v 0 bs in
  let v := for_blocks (λ v h b, foldl (index_payments h) v (transactions b)) v 0 bs in
  v {{ address_history := sort_history <$> address_history v }}.

(** ** The answers *)

Record EnrichedTxInput := MkEnrichedInput {
  ei_input : TxInput;
  ei_source_address : option string;
  ei_amount : option Z
}.

Record EnrichedTxOutput := MkEnrichedOutput {
  eo_index : Z;
  eo_output : TxOutput
}.

Record EnrichedTransaction := MkEnriched {
  et_txid : string;
  et_pending : bool;
  et_block_height : option Z;
  et_block_hash : option string;
  et_timestamp : Z;
  et_version : Z;
  et_is_coinbase : bool;
  et_inputs : list EnrichedTxInput;
  et_outputs : list EnrichedTxOutput;
  et_fee : Z;
  et_size_bytes : Z
}.

Definition enrich_input (v : ChainView) (i : TxInput) : EnrichedTxInput :=
  let prev := outputs_by_outpoint v !! outpoint i in
  MkEnrichedInput i (recipient_address <$> prev) (amount <$> prev).

(** The fee that is shown: the known one, that of a coinbase, the indexed one,
    or what the inputs leave. *)
Definition shown_fee (v : ChainView) (tx : Transaction) (known : option Z) : Z :=
  match known with
  | Some fee => fee
  | None =>
      if bool_decide (inputs tx = []) then 0
      else match tx_fees v !! txid tx with
           | Some fee => fee
           | None => Z.max 0 (sumZ_with (λ i, default 0 (ei_amount (enrich_input v i))) (inputs tx)
                              - sumZ_with amount (outputs tx))
           end
  end.

Definition shown_size (v : ChainView) (tx : Transaction) (known : option Z) : Z :=
  match known with
  | Some size => size
  | None => match tx_sizes v !! txid tx with
            | Some size => size
            | None => size_or_zero (encode_transaction tx)
            end
  end.

Definition enrich_transaction (tx : Transaction) (v : ChainView) (pending : bool)
    (h : option Z) (bhash : option string) (known_fee known_size : option Z) : EnrichedTransaction :=
  MkEnriched (txid tx) pending h bhash (tx_timestamp tx) (tx_version tx) (bool_decide (inputs tx = []))
    (map (enrich_input v) (inputs tx))
    (imap (λ i o, MkEnrichedOutput (Z.of_nat i) o) (outputs tx))
    (shown_fee v tx known_fee) (shown_size v tx known_size).

Definition enrich_confirmed (v : ChainView) (p : Z * string * Transaction) : EnrichedTransaction :=
  let '(h, bhash, tx) := p in enrich_transaction tx v false (Some h) (Some bhash) None None.

(** The recipient of the reward, if the first transaction is one. *)
Definition miner_address (b : Block) : option string :=
  match transactions b with
  | tx :: _ => if bool_decide (inputs tx = []) then recipient_address <$> head (outputs tx) else None
  | [] => None
  end.

Record BlockListItem := MkListItem {
  li_height : Z;
  li_hash : string;
  li_previous_block_hash : string;
  li_timestamp : Z;
  li_transaction_count : Z;
  li_size_bytes : Z;
  li_miner_address : option string;
  li_difficulty : Z;
  li_nonce : Z
}.

Definition list_item (v : ChainView) (h : Z) (b : Block) : BlockListItem :=
  MkListItem h (block_hash b) (previous_block_hash b) (block_timestamp b) (Z.of_nat (length (transactions b)))
    (default 0 (block_sizes v !! h)) (miner_address b) (block_difficulty b) (block_nonce b).

Record BlocksPage := MkPage {
  page_total_blocks : Z;
  page_blocks : list BlockListItem;
  page_limit : Z;
  page_offset : Z
}.

Record BlockDetail := MkDetail {
  bd_height : Z;
  bd_hash : string;
  bd_version : Z;
  bd_previous_block_hash : string;
  bd_merkle_root : string;
  bd_timestamp : Z;
  bd_difficulty : Z;
  bd_nonce : Z;
  bd_transaction_count : Z;
  bd_size_bytes : Z;
  bd_miner_address : option string;
  bd_total_fees : Z;
  bd_total_output_amount : Z;
  bd_transactions : list EnrichedTransaction
}.

(** The fees of all but a coinbase in the first place. *)
Definition block_fees (txs : list EnrichedTransaction) : Z :=
  match txs with
  | t :: rest => (if et_is_coinbase t then 0 else et_fee t) + sumZ_with et_fee rest
  | [] => 0
  end.

Definition format_block_detail (b : Block) (h : Z) (v : ChainView) : BlockDetail :=
  let bhash := block_hash b in
  let txs := map (λ tx, enrich_transaction tx v false (Some h) (Some bhash) None None) (transactions b) in
  MkDetail h bhash (block_version b) (previous_block_hash b) (merkle_root b) (block_timestamp b)
    (block_difficulty b) (block_nonce b) (Z.of_nat (length (transactions b)))
    (default 0 (block_sizes v !! h)) (miner_address b) (block_fees txs)
    (sumZ_with (λ tx, sumZ_with amount (outputs tx)) (transactions b)) txs.
