(* ===== verification/ExplorerService.v ===== *)
(** * api/services/explorer_service.py: [ExplorerService]

    The queries of the explorer as methods of the service.  Between two awaits a
    method runs alone; [ask] is an await of the node, [acquire] that of the
    lock. *)

From Stdlib Require Import Strings.Ascii.
From coqutil Require Import Datatypes.RecordSetters.
Import DoubleBraceUpdate.
From S2P Require Import Prelude Bytes Json JsonParse Crypto Transaction Utxo Block Codec.
From S2P Require Import Blockchain Effects NodeState Node Services Explorer.
#[local] Open Scope string_scope.
#[local] Open Scope Z_scope.

Record ExplorerService := MkExplorer {
  cached_view : option ChainView;
  turn : nat
}.

(** *** Answers *)

Record Stats := MkStats {
  stats_height : Z;
  stats_tip_hash : string;
  stats_mempool_count : Z;
  stats_peer_count : Z;
  stats_total_confirmed : Z
}.

(** The list of unspent outputs is their set: the order of the dict is that of
    their creation, which the model of the set does not keep. *)
Record AddressDetail := MkAddressDetail {
  ad_address : string;
  ad_confirmed_balance : Z;
  ad_utxo_count : Z;
  ad_utxos : UTXOSet;
  ad_total_transactions : Z;
  ad_transactions : list HistoryItem;
  ad_limit : Z;
  ad_offset : Z
}.

Record MempoolItem := MkMempoolItem {
  mi_txid : string;
  mi_timestamp : Z;
  mi_inputs_count : Z;
  mi_outputs_count : Z;
  mi_fee : Z;
  mi_size_bytes : Z
}.

Record MempoolAnswer := MkMempoolAnswer {
  ma_count : Z;
  ma_total_bytes : Z;
  ma_transactions : list MempoolItem
}.

Inductive ResultType := FoundBlock | FoundTransaction | FoundAddress | NotFound.

Record SearchAnswer := MkSearch {
  sr_query : string;
  sr_result_type : ResultType;
  sr_target_url : option string;
  sr_payload : option json
}.

Definition not_found (q : string) : SearchAnswer := MkSearch q NotFound None None.

(** [sorted(entries, key=timestamp, reverse=True)] *)
Definition later_entry (x y : Transaction * Z * Z) : Prop := tx_timestamp y.1.1 <= tx_timestamp x.1.1.
#[export] Instance later_entry_dec : RelDecision later_entry.
Proof. intros x y. unfold later_entry. apply _. Defined.

Definition mempool_item (e : Transaction * Z * Z) : MempoolItem :=
  let '(tx, fee, size) := e in
  MkMempoolItem (txid tx) (tx_timestamp tx) (Z.of_nat (length (inputs tx)))
    (Z.of_nat (length (outputs tx))) fee size.

(** An entry of the pool in the history of an address, if it concerns it. *)
Definition pending_item (v : ChainView) (address : string) (e : Transaction * Z * Z) : option HistoryItem :=
  let '(tx, fee, _) := e in
  let item (d : Direction) (a : Z) := MkItem (txid tx) None (tx_timestamp tx) true d a fee in
  if existsb (λ i, match outputs_by_outpoint v !! outpoint i with
                   | Some prev => bool_decide (recipient_address prev = address)
                   | None => false
                   end) (inputs tx)
  then Some (item Sent (paid_by address tx))
  else
    let received := sumZ_with amount (filter (λ o, recipient_address o = address) (outputs tx)) in
    if 0 <? received then Some (item Received received) else None.

Definition is_hex (c : ascii) : bool :=
  is_lower_hex c || (let n := code c in ((65 <=? n) && (n <=? 70))%N).

Section service.
Context {EL : EcdsaLib} {CS : ChainStore}.

(** The outcomes of the commands, and what other requests make of the cached
    view during each await. *)
Variable served : nat → Served.
Variable others : nat → option ChainView → option ChainView.

Definition resume (s : ExplorerService) : ExplorerService :=
  MkExplorer (others (turn s) (cached_view s)) (S (turn s)).

(** [await node....] *)
Definition ask {A} (q : Served → result A) : call ExplorerService A := λ s, (q (served (turn s)), resume s).

(** [async with self._lock] *)
Definition acquire : call ExplorerService unit := modify resume.

(** The cached view, when it may be used. *)
Definition cached_for (force_refresh : bool) (tip : string) (s : ExplorerService) : option ChainView :=
  match cached_view s with
  | Some v => if negb force_refresh && bool_decide (tip_hash v = tip) then Some v else None
  | None => None
  end.

(** The loop over the batches; every turn but the last adds a block. *)
Fixpoint fetch_blocks (fuel : nat) (start total_needed : Z) (bs : list Block) : call ExplorerService (list Block) :=
  match fuel with
  | O => mret bs
  | S fuel =>
      if start <? total_needed then
        batch ← ask (λ v, blocks_of v start (Z.min 100 (total_needed - start)));
        if bool_decide (batch = []) then mret bs
        else fetch_blocks fuel (start + Z.of_nat (length batch)) total_needed (bs ++ batch)%list
      else mret bs
  end.

(** From the lock on. *)
Definition refresh_view (h : Z) (tip : string) : call ExplorerService ChainView :=
  let total_needed := h + 1 in
  bs ← fetch_blocks (Z.to_nat total_needed) 0 total_needed [];
  if negb (Z.of_nat (length bs) =? total_needed) then
    c ← gets cached_view;
    match c with
    | Some v => mret v
    | None => raise (APIError 503 "CHAIN_SNAPSHOT_INCOMPLETE")
    end
  else
    let v := populate (new_view h tip) bs in
    _ ← modify (λ s, s {{ cached_view := Some v }});
    mret v.

Definition get_chain_view (force_refresh : bool) : call ExplorerService ChainView :=
  latest ← ask latest_info;
  match latest with
  | None => mret (new_view 0 "")
  | Some (b, h) =>
      let tip := block_hash b in
      hit ← gets (cached_for force_refresh tip);
      match hit with
      | Some v => mret v
      | None =>
          _ ← acquire;
          hit ← gets (cached_for force_refresh tip);
          match hit with
          | Some v => mret v
          | None => refresh_view h tip
          end
      end
  end.

(** ** Queries *)

Definition get_stats : call ExplorerService Stats :=
  v ← get_chain_view false;
  status_info ← ask status_of;
  entries ← ask pending_entries;
  mret (MkStats (tip_height v) (tip_hash v) (Z.of_nat (length entries))
          (Z.of_nat (length (status_peers status_info))) (total_confirmed_transactions v)).

Definition check_pagination (limit offset max : Z) : result unit :=
  _ ← raise_if ((limit <? 1) || (max <? limit)) (APIError 400 "INVALID_PAGINATION");
  raise_if (offset <? 0) (APIError 400 "INVALID_PAGINATION").

(** The page of a view: the blocks below the tip, from the offset on. *)
Definition blocks_page (v : ChainView) (limit offset : Z) : BlocksPage :=
  let total := if bool_decide (blocks_by_height v = ∅) then 0 else tip_height v + 1 in
  let stop := Z.min (offset + limit) total in
  MkPage total
    (omap (λ i, let h := tip_height v - i in list_item v h <$> blocks_by_height v !! h)
       (seqZ offset (stop - offset)))
    limit offset.

Definition get_latest_blocks (limit offset : Z) : call ExplorerService BlocksPage :=
  _ ← lift (check_pagination limit offset 50);
  v ← get_chain_view false;
  mret (blocks_page v limit offset).

Definition get_block_by_height (h : Z) : call ExplorerService BlockDetail :=
  _ ← lift (raise_if (h <? 0) (APIError 400 "INVALID_HEIGHT"));
  v ← get_chain_view false;
  match blocks_by_height v !! h with
  | None => raise (APIError 404 "BLOCK_NOT_FOUND")
  | Some b => mret (format_block_detail b h v)
  end.

Definition get_block_by_hash (hash : string) : call ExplorerService BlockDetail :=
  let valid_hash := lower (strip hash) in
  _ ← lift (raise_if (negb (is_hash valid_hash)) (APIError 400 "INVALID_HASH"));
  v ← get_chain_view false;
  match blocks_by_hash v !! valid_hash with
  | None => raise (APIError 404 "BLOCK_NOT_FOUND")
  | Some (h, b) => mret (format_block_detail b h v)
  end.

(** [latest["block"].hash() if latest else ""] *)
Definition latest_tip (latest : option (Block * Z)) : string :=
  match latest with Some (b, _) => block_hash b | None => "" end.

Definition tip_moved (tip : string) (v : ChainView) : bool :=
  negb (bool_decide (tip = "")) && negb (bool_decide (tip = tip_hash v)).

(** The third part of [get_transaction]: the block may have been mined during
    the query. *)
Definition look_again (tid : string) (v : ChainView) : call ExplorerService EnrichedTransaction :=
  found ← ask (λ s, found_transaction s tid);
  latest ← ask latest_info;
  if negb (bool_decide (found = None)) || tip_moved (latest_tip latest) v then
    refreshed ← get_chain_view true;
    match tx_by_id refreshed !! tid with
    | Some p => mret (enrich_confirmed refreshed p)
    | None => raise (APIError 404 "TRANSACTION_NOT_FOUND")
    end
  else raise (APIError 404 "TRANSACTION_NOT_FOUND").

Definition get_transaction (id : string) : call ExplorerService EnrichedTransaction :=
  let tid := lower (strip id) in
  _ ← lift (raise_if (negb (is_hash tid)) (APIError 400 "INVALID_TXID"));
  v ← get_chain_view false;
  entries ← ask pending_entries;
  match list_find (λ e, txid e.1.1 = tid) entries with
  | Some (_, (tx, fee, size)) => mret (enrich_transaction tx v true None None (Some fee) (Some size))
  | None =>
      match tx_by_id v !! tid with
      | Some p => mret (enrich_confirmed v p)
      | None => look_again tid v
      end
  end.

(** The view and the outputs of an address, of the same chain if it moved once. *)
Definition address_state (address : string) : call ExplorerService (ChainView * AddressInfo) :=
  v ← get_chain_view false;
  info ← ask (λ s, address_info s address);
  latest ← ask latest_info;
  if tip_moved (latest_tip latest) v then
    v ← get_chain_view true;
    info ← ask (λ s, address_info s address);
    mret (v, info)
  else mret (v, info).

Definition get_address_detail (address : string) (limit offset : Z) : call ExplorerService AddressDetail :=
  let addr := strip address in
  _ ← lift (raise_if (negb (validate_address addr)) (APIError 400 "INVALID_ADDRESS"));
  _ ← lift (check_pagination limit offset 100);
  p ← address_state addr;
  entries ← ask pending_entries;
  let '(v, info) := p in
  let all_history := (omap (pending_item v addr) entries ++ default [] (address_history v !! addr))%list in
  mret (MkAddressDetail addr (info_confirmed_balance info) (info_utxo_count info) (info_utxos info)
          (Z.of_nat (length all_history)) (take (Z.to_nat limit) (drop (Z.to_nat offset) all_history))
          limit offset).

Definition get_mempool : call ExplorerService MempoolAnswer :=
  entries ← ask pending_entries;
  mret (MkMempoolAnswer (Z.of_nat (length entries)) (sumZ_with snd entries)
          (map mempool_item (merge_sort later_entry entries))).

(** *** Search *)

Definition found_block (q place : string) (h : Z) (hash : string) : SearchAnswer :=
  MkSearch q FoundBlock (Some ("/explorer/block/" +:+ place))
    (Some (JObj [("height", JInt h); ("hash", JStr hash)])).

Definition found_tx (q tid : string) (rest : list (string * json)) : SearchAnswer :=
  MkSearch q FoundTransaction (Some ("/explorer/tx/" +:+ tid)) (Some (JObj (("txid", JStr tid) :: rest))).

(** The block at a decimal height, if the view has it. *)
Definition search_height (v : ChainView) (q : string) : option SearchAnswer :=
  if negb (bool_decide (q = "")) && str_forall is_digit q then
    let h := int_of_decimal q in
    (λ b, found_block q (str_of_int h) h (block_hash b)) <$> blocks_by_height v !! h
  else None.

Definition search_hash (v : ChainView) (q : string) : call ExplorerService SearchAnswer :=
  let hex_q := lower q in
  match blocks_by_hash v !! hex_q with
  | Some (h, _) => mret (found_block q hex_q h hex_q)
  | None =>
      match tx_by_id v !! hex_q with
      | Some (h, _, _) => mret (found_tx q hex_q [("status", JStr "confirmed"); ("height", JInt h)])
      | None =>
          entries ← ask pending_entries;
          if existsb (λ e, bool_decide (txid e.1.1 = hex_q)) entries
          then mret (found_tx q hex_q [("status", JStr "pending")])
          else mret (not_found q)
      end
  end.

Definition search (query : string) : call ExplorerService SearchAnswer :=
  let q := strip query in
  if bool_decide (q = "") || (100 <? text_len q) then mret (not_found q)
  else
    v ← get_chain_view false;
    if String.prefix "PYC_" q && validate_address q then
      mret (MkSearch q FoundAddress (Some ("/explorer/address/" +:+ q)) (Some (JObj [("address", JStr q)])))
    else
      match search_height v q with
      | Some r => mret r
      | None =>
          if (text_len q =? 64) && str_forall is_hex q then search_hash v q else mret (not_found q)
      end.
End service.
