(* ===== verification/ExplorerFacts.v ===== *)
(** * Facts about the index of the explorer

    Each dictionary of a view is one fold over the transactions of the chain in
    their order; from the folds, what the dictionaries hold when identifiers are
    distinct, and what an address's history adds up to. *)

From S2P Require Import Prelude Bytes Sha256 Json Crypto Transaction Utxo TxValidation.
From S2P Require Import Processing Batch Block Consensus ChainState ChainFacts.
From S2P Require Import Blockchain Codec Effects NodeState Node Services Explorer.
#[local] Open Scope Z_scope.

(** * Balances from the transactions of a chain

    In a valid chain every transaction is valid against all the outputs the
    chain creates, and the balance of an address is what the outputs of the
    transactions give it less what their inputs take from it. *)

(** ** Balances of sets of outputs *)

(** What the output at [k] in [u] is worth to [a]. *)
Definition owned (u : UTXOSet) (a : string) (k : Outpoint) : Z :=
  match u !! k with
  | Some o => if decide (recipient_address o = a) then amount o else 0
  | None => 0
  end.

(** What an output gives to [a]. *)
Definition given (a : string) (o : TxOutput) : Z := if decide (recipient_address o = a) then amount o else 0.

Lemma sumZ_given a l : sumZ_with (given a) l = sumZ_with amount (filter (λ o, recipient_address o = a) l).
Proof.
  induction l as [|o l IH]; [done|]. cbn [sumZ_with]. rewrite IH, filter_cons. unfold given at 1.
  case_decide; cbn [sumZ_with]; lia.
Qed.

Lemma get_balance_delete (u : UTXOSet) k a : get_balance (delete k u) a = get_balance u a - owned u a k.
Proof.
  unfold owned. destruct (u !! k) as [o|] eqn:Hk; [|rewrite delete_id by done; lia].
  rewrite <- (insert_delete_id u k o Hk) at 2. rewrite get_balance_insert by apply lookup_delete_eq.
  destruct (decide (recipient_address o = a)); lia.
Qed.

Lemma get_balance_delete_all (u : UTXOSet) a ks :
  NoDup ks → get_balance (foldr delete u ks) a = get_balance u a - sumZ_with (owned u a) ks.
Proof.
  induction ks as [|k ks IH]; cbn [foldr sumZ_with]; intros Hnd; [lia|].
  apply NoDup_cons in Hnd as [Hk Hnd]. rewrite get_balance_delete, IH by done.
  assert (owned (foldr delete u ks) a k = owned u a k) as ->; [|lia].
  unfold owned. by rewrite lookup_foldr_delete_not_elem_of.
Qed.

Lemma get_balance_union (u v : UTXOSet) a : u ##ₘ v → get_balance (u ∪ v) a = get_balance u a + get_balance v a.
Proof.
  induction u as [|k o u Hk IH] using map_ind; intros Hd.
  - rewrite map_empty_union. done.
  - apply map_disjoint_insert_l in Hd as [Hv Hd].
    rewrite <- insert_union_l, !get_balance_insert, IH by (auto; by apply lookup_union_None). lia.
Qed.

Lemma get_balance_items a (l : list (Outpoint * TxOutput)) :
  NoDup l.*1 → get_balance (list_to_map l) a = sumZ_with (given a) l.*2.
Proof.
  induction l as [|[k o] l IH]; intros Hnd; [done|]. cbn in Hnd. apply NoDup_cons in Hnd as [Hk Hnd].
  cbn [list_to_map fmap list_fmap sumZ_with snd foldr].
  change (list_to_map ((k, o) :: l)) with (<[k := o]> (list_to_map (M := UTXOSet) l)).
  rewrite get_balance_insert by by apply not_elem_of_list_to_map_1. by rewrite <- IH.
Qed.

Lemma output_items_snd tx : (output_items tx).*2 = outputs tx.
Proof.
  unfold output_items. generalize (txid tx). intros t.
  assert (∀ (f : nat → Outpoint) (l : list TxOutput), (imap (λ i o, (f i, o)) l).*2 = l) as H; [|apply H].
  intros f l. revert f. induction l as [|o l IH]; intros f; [done|]. cbn. f_equal. apply (IH (f ∘ S)).
Qed.

Lemma get_balance_created tx a : get_balance (created_by tx) a = sumZ_with (given a) (outputs tx).
Proof.
  unfold created_by. by rewrite get_balance_items, output_items_snd by apply output_items_keys_NoDup.
Qed.

Lemma created_disjoint tx txs : txid tx ∉ (txid <$> txs) → created_by tx ##ₘ creates txs.
Proof.
  intros Hn. apply map_disjoint_spec. intros k o o' Hc (t & Ht & Hc')%creates_Some. apply Hn.
  rewrite <- (created_by_txid tx k), (created_by_txid t k) by eauto. by apply list_elem_of_fmap_2.
Qed.

Lemma get_balance_creates txs a :
  NoDup (txid <$> txs) → get_balance (creates txs) a = sumZ_with (λ tx, sumZ_with (given a) (outputs tx)) txs.
Proof.
  induction txs as [|tx txs IH]; intros Hnd; [done|]. cbn in Hnd. apply NoDup_cons in Hnd as [Hn Hnd].
  cbn [creates sumZ_with]. by rewrite get_balance_union, get_balance_created, IH by (auto using created_disjoint).
Qed.

Section chain.
Context {E : EcdsaLib}.

(** ** The balance in a chain *)

Lemma sumZ_with_bind {A B} (f : B → Z) (g : A → list B) l :
  sumZ_with f (l ≫= g) = sumZ_with (λ x, sumZ_with f (g x)) l.
Proof. induction l as [|x l IH]; [done|]. cbn [mbind list_bind sumZ_with]. by rewrite sumZ_with_app, <- IH. Qed.

(** What is given, less what is taken. *)
Lemma ledger_balance blocks st a :
  ledger_inv blocks st →
  get_balance (utxo_set st) a =
    sumZ_with (λ tx, sumZ_with (given a) (outputs tx)
                     - sumZ_with (owned (creates (chain_txs blocks)) a) (spent_outpoints tx)) (chain_txs blocks).
Proof.
  intros [_ _ Hnd Hsp _ Hl]. set (txs := chain_txs blocks) in *.
  assert (utxo_set st = foldr delete (creates txs) (txs ≫= spent_outpoints)) as ->.
  { apply map_eq. intros k. rewrite Hl. case_decide as Hk.
    - by rewrite lookup_foldr_delete.
    - by rewrite lookup_foldr_delete_not_elem_of. }
  rewrite get_balance_delete_all, get_balance_creates, sumZ_with_bind by done.
  generalize (creates txs). clear Hl Hnd Hsp. intros u. clearbody txs.
  induction txs as [|tx txs IH]; [done|]. cbn [sumZ_with]. lia.
Qed.

(** ** Validity in a chain *)

(** The outputs an extension of the chain sees at an outpoint that was
    already there. *)
Lemma creates_extend txs txs' k o :
  creates txs !! k = Some o → creates (txs ++ txs') !! k = Some o.
Proof. intros Hk. rewrite creates_app. by apply lookup_union_Some_l. Qed.

Lemma chain_valid_tx now blocks st :
  chain now blocks st → ∀ tx, tx ∈ chain_txs blocks →
  (inputs tx = [] ∧ tx_version tx = 1) ∨ ∃ fee, valid_tx (creates (chain_txs blocks)) tx fee.
Proof.
  induction 1 as [g Hg Hgen|bs previous b st reward fees st' Hc IH Hh He _]; intros tx Htx.
  { unfold chain_txs in Htx. cbn in Htx. rewrite app_nil_r, (genesis_no_transactions g Hgen) in Htx.
    by apply elem_of_nil in Htx. }
  pose proof (chain_ledger _ _ _ Hc) as Hinv. pose proof (ledger_inv_snoc _ _ _ _ _ _ Hinv He) as Hinv'.
  pose proof (ledger_txids _ _ Hinv') as Hnd. set (old := chain_txs (bs ++ [previous])) in *.
  rewrite (chain_txs_snoc (bs ++ [previous])) in *. fold old in Hnd, Htx |- *.
  apply elem_of_app in Htx as [Htx|Htx].
  - destruct (IH tx Htx) as [?|[fee Hv]]; [by left|right]. exists fee. eapply valid_tx_frame; [|done].
    intros k Hk. destruct (valid_tx_spends _ _ _ _ Hv Hk) as [o Ho]. rewrite Ho. by apply creates_extend.
  - destruct He as [cb regular address u s Htxs Hrun Hs _ _ _ Hcb _]. rewrite Htxs in *.
    apply elem_of_cons in Htx as [->|Htx]; [left; by rewrite Hcb|right].
    assert (batch_ok (utxo_set st) (seen_txids st) regular) as Hok by (apply run_batch_ok; [apply Hinv|eauto]).
    destruct (batch_valid _ _ _ Hok tx Htx) as [fee Hv]. exists fee. eapply valid_tx_frame; [|done].
    intros k Hk. destruct (valid_tx_spends _ _ _ _ Hv Hk) as [o Ho]. rewrite Ho.
    apply lookup_union_Some_raw in Ho as [Ho|[_ Ho]].
    + apply creates_extend. rewrite (ledger_lookup _ _ Hinv) in Ho. by case_decide.
    + apply creates_Some in Ho as (t & Ht & Ho). apply (creates_lookup _ t); [done| |done].
      apply elem_of_app. right. by apply elem_of_cons; right.
Qed.
End chain.

(** ** Folds *)

Lemma foldl_proj {A B C} (g : A → B) (f : A → C → A) (f' : B → C → B) l : ∀ a,
  (∀ a c, g (f a c) = f' (g a) c) → g (foldl f a l) = foldl f' (g a) l.
Proof. induction l as [|c l IH]; intros a Hg; [done|]. cbn. by rewrite IH, Hg. Qed.

Lemma foldl_bind {A B C} (f : C → B → C) (g : A → list B) l : ∀ c,
  foldl f c (l ≫= g) = foldl (λ c x, foldl f c (g x)) c l.
Proof. induction l as [|x l IH]; intros c; [done|]. cbn [mbind list_bind foldl]. by rewrite foldl_app, <- IH. Qed.

Lemma foldl_map {A B C} (f : C → B → C) (g : A → B) l : ∀ c, foldl f c (g <$> l) = foldl (λ c x, f c (g x)) c l.
Proof. induction l as [|x l IH]; intros c; [done|]. apply IH. Qed.

Section inserts.
Context {K V X : Type} `{Countable K} (key : X → K) (val : X → V).
Implicit Types (l : list X) (m : gmap K V).

Definition inserts m l : gmap K V := foldl (λ m x, <[key x := val x]> m) m l.

Lemma inserts_other l : ∀ m k, k ∉ (key <$> l) → inserts m l !! k = m !! k.
Proof.
  induction l as [|x l IH]; intros m k Hk; [done|]. cbn in Hk. apply not_elem_of_cons in Hk as [Hx Hl].
  unfold inserts. cbn [foldl]. fold (inserts (<[key x := val x]> m) l). rewrite IH by done. by rewrite lookup_insert_ne.
Qed.

Lemma inserts_lookup l : ∀ m x, NoDup (key <$> l) → x ∈ l → inserts m l !! key x = Some (val x).
Proof.
  induction l as [|y l IH]; intros m x Hnd Hx; [by apply elem_of_nil in Hx|].
  cbn in Hnd. apply NoDup_cons in Hnd as [Hy Hnd]. unfold inserts. cbn [foldl].
  fold (inserts (<[key y := val y]> m) l). apply elem_of_cons in Hx as [->|Hx]; [|by apply IH].
  rewrite inserts_other by done. apply lookup_insert_eq.
Qed.

Lemma inserts_inv l : ∀ m k v, inserts m l !! k = Some v → (∃ x, x ∈ l ∧ key x = k ∧ val x = v) ∨ m !! k = Some v.
Proof.
  induction l as [|x l IH]; intros m k v Hv; [by right|]. unfold inserts in Hv. cbn [foldl] in Hv.
  destruct (IH _ _ _ Hv) as [(y & Hy & ?)|Hm]; [left; exists y; split; [by apply elem_of_cons; right|done]|].
  apply lookup_insert_Some in Hm as [[<- <-]|[_ ?]]; [left|by right]. exists x. split; [by apply elem_of_cons; left|done].
Qed.

Lemma inserts_spec l k v :
  NoDup (key <$> l) → inserts ∅ l !! k = Some v ↔ ∃ x, x ∈ l ∧ key x = k ∧ val x = v.
Proof.
  intros Hnd. split; [|intros (x & Hx & <- & <-); by apply inserts_lookup].
  intros [?|Hm]%inserts_inv; [done|]. by rewrite lookup_empty in Hm.
Qed.
End inserts.

Lemma filter_none {A} (P : A → Prop) `{!∀ x, Decision (P x)} (l : list A) :
  (∀ x, x ∈ l → ¬ P x) → filter P l = [].
Proof.
  induction l as [|x l IH]; intros Hl; [done|]. rewrite filter_cons, decide_False by (apply Hl; by left).
  apply IH. intros y Hy. apply Hl. by right.
Qed.

(** The value of the only element that passes. *)
Lemma filter_only {A} (P : A → Prop) `{!∀ x, Decision (P x)} (l : list A) y :
  NoDup l → y ∈ l → P y → (∀ x, x ∈ l → P x → x = y) → filter P l = [y].
Proof.
  intros Hnd Hy Py Hu. apply list_elem_of_split in Hy as (l1 & l2 & ->).
  apply NoDup_app in Hnd as (_ & H1 & Hnd). apply NoDup_cons in Hnd as [H2 _].
  rewrite filter_app, filter_cons, decide_True by done. rewrite !filter_none; [done|..]; intros x Hx Px.
  - apply H2. rewrite <- (Hu x); [done|set_solver|done].
  - apply (H1 x Hx). rewrite (Hu x); [by left|set_solver|done].
Qed.

(** ** The transactions of a chain, with their blocks *)

Fixpoint numbered (h : Z) (bs : list Block) : list (Z * Block) :=
  match bs with
  | [] => []
  | b :: bs => (h, b) :: numbered (h + 1) bs
  end.

Definition located (h : Z) (bs : list Block) : list (Z * string * Transaction) :=
  numbered h bs ≫= λ p, (λ tx, (p.1, block_hash p.2, tx)) <$> transactions p.2.

Lemma for_blocks_fold f bs : ∀ v h, for_blocks f v h bs = foldl (λ v p, f v p.1 p.2) v (numbered h bs).
Proof. induction bs as [|b bs IH]; intros v h; [done|]. apply IH. Qed.

Lemma numbered_snd bs : ∀ h, (numbered h bs).*2 = bs.
Proof. induction bs as [|b bs IH]; intros h; [done|]. cbn. by rewrite IH. Qed.

Lemma numbered_elem bs : ∀ h i b, (i, b) ∈ numbered h bs ↔ ∃ n, i = h + Z.of_nat n ∧ bs !! n = Some b.
Proof.
  induction bs as [|b0 bs IH]; intros h i b; cbn [numbered].
  { split; [by intros ?%elem_of_nil|]. intros (n & _ & Hn). by rewrite lookup_nil in Hn. }
  rewrite elem_of_cons, IH. split.
  - intros [[= -> ->]|(n & -> & Hn)]; [exists 0%nat; split; [lia|done]|exists (S n); split; [lia|done]].
  - intros ([|n] & -> & Hn); [left; injection Hn as ->; f_equal; lia|right; exists n; split; [lia|done]].
Qed.

Lemma numbered_fst_NoDup bs : ∀ h, NoDup (numbered h bs).*1.
Proof.
  induction bs as [|b bs IH]; intros h; [by constructor|]. cbn. apply NoDup_cons. split; [|apply IH].
  intros ([i b'] & Hi & Hin)%list_elem_of_fmap. cbn in Hi. subst i. apply numbered_elem in Hin as (n & ? & _). lia.
Qed.

Lemma located_txs bs : ∀ h, (located h bs).*2 = chain_txs bs.
Proof.
  unfold located, chain_txs. induction bs as [|b bs IH]; intros h; [done|]. cbn [numbered mbind list_bind].
  rewrite fmap_app. f_equal; [|apply IH]. rewrite <- list_fmap_compose. cbn. apply list_fmap_id.
Qed.

Lemma located_elem bs h q :
  q ∈ located h bs ↔ ∃ n b, bs !! n = Some b ∧ q.1 = (h + Z.of_nat n, block_hash b) ∧ q.2 ∈ transactions b.
Proof.
  unfold located. rewrite list_elem_of_bind. split.
  - intros ([i b] & (tx & -> & Htx)%list_elem_of_fmap & (n & -> & Hn)%numbered_elem). by exists n, b.
  - intros (n & b & Hn & Hq & Htx). exists (h + Z.of_nat n, b). split; [|apply numbered_elem; by exists n].
    apply list_elem_of_fmap. exists q.2. split; [|done]. destruct q as [q1 q2]. cbn in *. by subst.
Qed.

(** ** The first pass, field by field *)

Section pass1.
Context {B : Type} (g : ChainView → B) (step : B → Z * string * Transaction → B).

Lemma index_pass h v bs :
  (∀ v h b, g (index_header v h b) = g v) →
  (∀ v h bhash tx, g (index_transaction h bhash v tx) = step (g v) (h, bhash, tx)) →
  g (for_blocks index_block v h bs) = foldl step (g v) (located h bs).
Proof.
  intros Hb Ht. rewrite for_blocks_fold. unfold located. rewrite foldl_bind.
  apply foldl_proj. intros w [i b]. cbn [fst snd]. unfold index_block. rewrite foldl_map.
  rewrite (foldl_proj g _ (λ c tx, step c (i, block_hash b, tx))) by (intros; apply Ht). by rewrite Hb.
Qed.
End pass1.

(** The fields that a block alone decides. *)
Lemma header_pass {B} (g : ChainView → B) (step : B → Z * Block → B) h v bs :
  (∀ v h bhash tx, g (index_transaction h bhash v tx) = g v) →
  (∀ v h b, g (index_header v h b) = step (g v) (h, b)) →
  g (for_blocks index_block v h bs) = foldl step (g v) (numbered h bs).
Proof.
  intros Ht Hb. rewrite for_blocks_fold. apply foldl_proj. intros w [i b]. cbn [fst snd].
  unfold index_block. rewrite (foldl_proj g _ (λ c _, c)) by (intros; apply Ht). rewrite Hb.
  generalize (step (g w) (i, b)). intros c. by induction (transactions b).
Qed.

(** *** Payments *)

Lemma paid_to_fold (l : list TxOutput) a : ∀ d : gmap string Z,
  let d' := foldl (λ d o, <[recipient_address o := default 0 (d !! recipient_address o) + amount o]> d) d l in
  default 0 (d' !! a) = default 0 (d !! a) + sumZ_with (given a) l ∧
  ((∀ o, o ∈ l → recipient_address o ≠ a) → d' !! a = d !! a).
Proof.
  induction l as [|o l IH]; intros d; cbn [foldl sumZ_with]; [split; [lia|done]|].
  destruct (IH (<[recipient_address o := default 0 (d !! recipient_address o) + amount o]> d)) as [H1 H2].
  split.
  - cbn zeta in H1. rewrite H1. unfold given at 2. case_decide as Ha.
    + rewrite Ha, lookup_insert_eq. cbn. lia.
    + rewrite lookup_insert_ne by done. lia.
  - intros Hl. cbn zeta in H2. rewrite H2 by (intros; apply Hl; by apply elem_of_cons; right).
    rewrite lookup_insert_ne; [done|]. apply Hl. by apply elem_of_cons; left.
Qed.

Lemma paid_to_default l a : default 0 (paid_to l !! a) = sumZ_with (given a) l.
Proof. unfold paid_to. destruct (paid_to_fold l a ∅) as [-> _]. rewrite lookup_empty. cbn. lia. Qed.

Lemma paid_to_None l a : (∀ o, o ∈ l → recipient_address o ≠ a) → paid_to l !! a = None.
Proof. intros Hl. unfold paid_to. destruct (paid_to_fold l a ∅) as [_ H]. by rewrite (H Hl), lookup_empty. Qed.

(** ** The second pass *)

(** What a transaction's fee is shown as, given the outputs of the chain. *)
Definition indexed_fee (outs : UTXOSet) (tx : Transaction) : Z :=
  if bool_decide (inputs tx = []) then 0
  else Z.max 0 (input_value outs tx - sumZ_with amount (outputs tx)).

(** What a transaction adds to the history of [a]. *)
Definition items_of (outs : UTXOSet) (a : string) (q : Z * string * Transaction) : list HistoryItem :=
  let tx := q.2 in
  let item d v := MkItem (txid tx) (Some q.1.1) (tx_timestamp tx) false d v (indexed_fee outs tx) in
  let senders := sender_addresses outs tx in
  if bool_decide (inputs tx = []) then option_list (item Mined <$> paid_to (outputs tx) !! a)
  else if bool_decide (a ∈ senders) then [item Sent (paid_by a tx)]
  else option_list (item Received <$> paid_to (filter (λ o, recipient_address o ∉ senders) (outputs tx)) !! a).

Lemma append_fold {X} (key : X → string) (it : X → HistoryItem) (l : list X) a : ∀ h,
  default [] (foldl (λ h x, append_item (it x) h (key x)) h l !! a) =
    default [] (h !! a) ++ (it <$> filter (λ x, key x = a) l).
Proof.
  induction l as [|x l IH]; intros h; cbn [foldl]; [by rewrite app_nil_r|].
  rewrite IH, filter_cons. unfold append_item at 1. case_decide as Hx.
  - subst a. rewrite lookup_insert_eq. cbn. by rewrite <- app_assoc.
  - by rewrite lookup_insert_ne.
Qed.

Lemma append_items_lookup d it h a :
  default [] (append_items d it h !! a) = default [] (h !! a) ++ option_list (it <$> d !! a).
Proof.
  unfold append_items. rewrite (append_fold fst (λ p, it p.2)). f_equal.
  destruct (d !! a) as [v|] eqn:Hv; cbn [fmap option_fmap option_map option_list].
  - rewrite (filter_only _ _ (a, v)); [done|apply NoDup_map_to_list|by apply elem_of_map_to_list|done|].
    intros [b w] Hb%elem_of_map_to_list Heq. cbn in Heq. subst. congruence.
  - assert (filter (λ p : string * Z, p.1 = a) (map_to_list d) = []) as ->; [|done].
    apply filter_none. intros [b w] Hb%elem_of_map_to_list Heq. cbn in Heq. subst. congruence.
Qed.

Lemma senders_lookup (senders : gset string) (it : string → HistoryItem) h a :
  default [] (foldl (λ h s, append_item (it s) h s) h (elements senders) !! a) =
    default [] (h !! a) ++ (if bool_decide (a ∈ senders) then [it a] else []).
Proof.
  rewrite (append_fold id it). f_equal. case_bool_decide as Ha.
  - rewrite (filter_only _ _ a); [done|apply NoDup_elements|by apply elem_of_elements|done|done].
  - assert (filter (λ s : string, id s = a) (elements senders) = []) as ->; [|done].
    apply filter_none. by intros b Hb%elem_of_elements <-.
Qed.

Lemma index_payments_outputs h v tx : outputs_by_outpoint (index_payments h v tx) = outputs_by_outpoint v.
Proof. unfold index_payments. by case_bool_decide. Qed.

Lemma index_payments_fees h v tx :
  tx_fees (index_payments h v tx) = <[txid tx := indexed_fee (outputs_by_outpoint v) tx]> (tx_fees v).
Proof. unfold index_payments, indexed_fee. by case_bool_decide. Qed.

Lemma index_payments_history h v bhash tx a :
  default [] (address_history (index_payments h v tx) !! a) =
    default [] (address_history v !! a) ++ items_of (outputs_by_outpoint v) a (h, bhash, tx).
Proof.
  unfold index_payments, items_of. cbn [fst snd]. case_bool_decide as Hi.
  - change (address_history (index_coinbase h v tx)) with (append_items (paid_to (outputs tx))
      (λ m, MkItem (txid tx) (Some h) (tx_timestamp tx) false Mined m 0) (address_history v)).
    rewrite append_items_lookup. unfold indexed_fee. rewrite bool_decide_eq_true_2 by exact Hi. reflexivity.
  - unfold indexed_fee. rewrite (bool_decide_eq_false_2 (inputs tx = [])) by done.
    set (senders := sender_addresses (outputs_by_outpoint v) tx).
    set (fee := Z.max 0 (input_value (outputs_by_outpoint v) tx - sumZ_with amount (outputs tx))).
    set (item d w := MkItem (txid tx) (Some h) (tx_timestamp tx) false d w fee).
    change (address_history (index_regular h v tx)) with
      (append_items (paid_to (filter (λ o, recipient_address o ∉ senders) (outputs tx))) (item Received)
         (foldl (λ hist s, append_item (item Sent (paid_by s tx)) hist s) (address_history v) (elements senders))).
    rewrite append_items_lookup, (senders_lookup senders (λ s, item Sent (paid_by s tx))), <- app_assoc. f_equal.
    destruct (decide (a ∈ senders)) as [Ha|Ha].
    + rewrite bool_decide_eq_true_2 by done.
      assert (paid_to (filter (λ o, recipient_address o ∉ senders) (outputs tx)) !! a = None) as ->; [|done].
      apply paid_to_None. intros o [Ho _]%list_elem_of_filter Heq. by rewrite Heq in Ho.
    + by rewrite bool_decide_eq_false_2.
Qed.

Lemma payment_pass {B} (g : ChainView → B) (step : UTXOSet → B → Z * string * Transaction → B) h v bs :
  (∀ v h bhash tx, g (index_payments h v tx) = step (outputs_by_outpoint v) (g v) (h, bhash, tx)) →
  g (for_blocks (λ v h b, foldl (index_payments h) v (transactions b)) v h bs) =
    foldl (step (outputs_by_outpoint v)) (g v) (located h bs).
Proof.
  intros Hg. rewrite for_blocks_fold.
  set (both := λ v, (outputs_by_outpoint v, g v)).
  set (turn := λ (c : UTXOSet * B) q, (c.1, step c.1 c.2 q)).
  transitivity (snd (both (foldl (λ v p, foldl (index_payments p.1) v (transactions p.2)) v (numbered h bs)))); [done|].
  transitivity (snd (foldl turn (both v) (located h bs))).
  - f_equal. unfold located. rewrite foldl_bind. apply foldl_proj. intros w [i b]. cbn [fst snd].
    rewrite foldl_map. apply foldl_proj. intros w' tx. unfold both, turn. cbn [fst snd].
    by rewrite index_payments_outputs, (Hg w' i (block_hash b)).
  - unfold both. generalize (g v) (outputs_by_outpoint v). generalize (located h bs).
    induction l as [|q l IH]; intros c outs; [done|]. cbn [foldl]. apply IH.
Qed.

(** The second pass leaves the other fields alone. *)
Lemma payment_pass_same {B} (g : ChainView → B) h v bs :
  (∀ v h tx, g (index_payments h v tx) = g v) →
  g (for_blocks (λ v h b, foldl (index_payments h) v (transactions b)) v h bs) = g v.
Proof.
  intros Hg. rewrite (payment_pass g (λ _ c _, c)) by (intros; apply Hg). by induction (located h bs).
Qed.

(** ** The whole view *)

Section view.
Context (tip : Z) (hash : string) (bs : list Block).

Let v : ChainView := populate (new_view tip hash) bs.

(** The outputs after the first pass, in the order of the transactions. *)
Definition indexed_outputs (bs : list Block) : UTXOSet :=
  foldl (λ m q, foldl (λ m p, <[p.1 := p.2]> m) m (output_items q.2)) ∅ (located 0 bs).

Lemma view_tip : tip_height v = tip ∧ tip_hash v = hash.
Proof.
  split.
  - transitivity (tip_height (for_blocks index_block (new_view tip hash) 0 bs)).
    + apply (payment_pass_same tip_height). intros. unfold index_payments. by case_bool_decide.
    + rewrite (index_pass tip_height (λ c _, c)) by done. by induction (located 0 bs).
  - transitivity (tip_hash (for_blocks index_block (new_view tip hash) 0 bs)).
    + apply (payment_pass_same tip_hash). intros. unfold index_payments. by case_bool_decide.
    + rewrite (index_pass tip_hash (λ c _, c)) by done. by induction (located 0 bs).
Qed.

Lemma view_outputs : outputs_by_outpoint v = indexed_outputs bs.
Proof.
  transitivity (outputs_by_outpoint (for_blocks index_block (new_view tip hash) 0 bs)).
  - apply (payment_pass_same outputs_by_outpoint). intros. apply index_payments_outputs.
  - by apply (index_pass outputs_by_outpoint (λ m q, foldl (λ m p, <[p.1 := p.2]> m) m (output_items q.2))).
Qed.

Lemma view_transactions : tx_by_id v = inserts (λ q, txid q.2) id ∅ (located 0 bs).
Proof.
  transitivity (tx_by_id (for_blocks index_block (new_view tip hash) 0 bs)).
  - apply (payment_pass_same tx_by_id). intros. unfold index_payments. by case_bool_decide.
  - by apply (index_pass tx_by_id (λ m q, <[txid q.2 := id q]> m)).
Qed.

Lemma view_total : total_confirmed_transactions v = Z.of_nat (length (chain_txs bs)).
Proof.
  transitivity (total_confirmed_transactions (for_blocks index_block (new_view tip hash) 0 bs)).
  - apply (payment_pass_same total_confirmed_transactions). intros. unfold index_payments. by case_bool_decide.
  - rewrite (index_pass total_confirmed_transactions (λ n _, n + 1)) by done.
    rewrite <- (located_txs bs 0), length_fmap. cbn [total_confirmed_transactions new_view].
    assert (∀ (l : list (Z * string * Transaction)) n, foldl (λ n _, n + 1) n l = n + Z.of_nat (length l)) as H.
    { induction l as [|q l IH]; intros n; cbn [foldl length]; [lia|]. rewrite IH. lia. }
    rewrite H. lia.
Qed.

Lemma view_heights : blocks_by_height v = inserts fst snd ∅ (numbered 0 bs).
Proof.
  transitivity (blocks_by_height (for_blocks index_block (new_view tip hash) 0 bs)).
  - apply (payment_pass_same blocks_by_height). intros. unfold index_payments. by case_bool_decide.
  - by apply (header_pass blocks_by_height (λ m p, <[p.1 := p.2]> m)).
Qed.

Lemma view_hashes : blocks_by_hash v = inserts (λ p, block_hash p.2) id ∅ (numbered 0 bs).
Proof.
  transitivity (blocks_by_hash (for_blocks index_block (new_view tip hash) 0 bs)).
  - apply (payment_pass_same blocks_by_hash). intros. unfold index_payments. by case_bool_decide.
  - by apply (header_pass blocks_by_hash (λ m p, <[block_hash p.2 := id p]> m)).
Qed.

Lemma view_fees : tx_fees v = inserts (λ q, txid q.2) (λ q, indexed_fee (indexed_outputs bs) q.2) ∅ (located 0 bs).
Proof.
  transitivity (tx_fees (for_blocks (λ v h b, foldl (index_payments h) v (transactions b))
                           (for_blocks index_block (new_view tip hash) 0 bs) 0 bs)); [done|].
  rewrite (payment_pass tx_fees (λ outs m q, <[txid q.2 := indexed_fee outs q.2]> m))
    by (intros; apply index_payments_fees).
  rewrite (index_pass tx_fees (λ m _, m)) by done.
  rewrite (index_pass outputs_by_outpoint (λ m q, foldl (λ m p, <[p.1 := p.2]> m) m (output_items q.2))) by done.
  assert (∀ (l : list (Z * string * Transaction)) (m : gmap string Z), foldl (λ m _, m) m l = m) as ->; [|done].
  induction l as [|q l IH]; intros m; [done|apply IH].
Qed.

Lemma view_history a :
  default [] (address_history v !! a) = sort_history (located 0 bs ≫= items_of (indexed_outputs bs) a).
Proof.
  transitivity (sort_history (default [] (address_history (for_blocks (λ v h b, foldl (index_payments h) v (transactions b))
                           (for_blocks index_block (new_view tip hash) 0 bs) 0 bs) !! a))).
  { unfold v, populate. cbn zeta.
    set (w := for_blocks (λ v h b, foldl (index_payments h) v (transactions b)) _ 0 bs).
    change (default [] ((sort_history <$> address_history w) !! a) = sort_history (default [] (address_history w !! a))).
    rewrite lookup_fmap. by destruct (address_history w !! a). }
  f_equal.
  rewrite (payment_pass (λ v, default [] (address_history v !! a)) (λ outs l q, l ++ items_of outs a q))
    by (intros; apply index_payments_history).
  rewrite (index_pass outputs_by_outpoint (λ m q, foldl (λ m p, <[p.1 := p.2]> m) m (output_items q.2))) by done.
  fold (indexed_outputs bs).
  assert (default [] (address_history (for_blocks index_block (new_view tip hash) 0 bs) !! a) = []) as ->.
  { rewrite (index_pass address_history (λ m _, m)) by done. by induction (located 0 bs). }
  change (outputs_by_outpoint (new_view tip hash)) with (∅ : UTXOSet). fold (indexed_outputs bs).
  generalize (located 0 bs), (indexed_outputs bs). intros l outs.
  assert (∀ k, foldl (λ l q, l ++ items_of outs a q) k l = k ++ (l ≫= items_of outs a)) as ->; [|done].
  induction l as [|q l IH]; intros k; cbn [foldl mbind list_bind]; [by rewrite app_nil_r|].
  rewrite IH. by rewrite <- app_assoc.
Qed.
End view.

(** ** With distinct identifiers *)

Lemma inserts_items (tx : Transaction) (m : UTXOSet) :
  foldl (λ m p, <[p.1 := p.2]> m) m (output_items tx) = created_by tx ∪ m.
Proof.
  change (inserts fst snd m (output_items tx) = created_by tx ∪ m).
  apply map_eq. intros k. destruct (created_by tx !! k) as [o|] eqn:Hc.
  - rewrite (lookup_union_Some_l _ _ _ _ Hc).
    apply lookup_created_by, elem_of_output_items in Hc.
    apply (inserts_lookup fst snd _ m (k, o)); [apply output_items_keys_NoDup|done].
  - rewrite lookup_union_r by done. apply inserts_other. by apply not_elem_of_list_to_map_2.
Qed.

Lemma outputs_creates (l : list (Z * string * Transaction)) :
  NoDup (txid <$> l.*2) →
  foldl (λ m q, foldl (λ m p, <[p.1 := p.2]> m) m (output_items q.2)) ∅ l = creates l.*2.
Proof.
  induction l as [|q l IH] using rev_ind; intros Hnd; [done|].
  rewrite foldl_snoc, fmap_app, creates_app, inserts_items. rewrite !fmap_app in Hnd.
  apply NoDup_app in Hnd as (Hl & Hq & _). rewrite IH by done. cbn [fmap list_fmap creates].
  rewrite map_union_empty. apply map_union_comm, created_disjoint. intros Hin. apply (Hq _ Hin). by left.
Qed.

Lemma indexed_creates bs :
  NoDup (txid <$> chain_txs bs) → indexed_outputs bs = creates (chain_txs bs).
Proof. intros Hnd. unfold indexed_outputs. rewrite outputs_creates; by rewrite located_txs. Qed.

Lemma located_txids bs : (λ q, txid q.2) <$> located 0 bs = txid <$> chain_txs bs.
Proof. by rewrite <- (located_txs bs 0), <- list_fmap_compose. Qed.

(** ** What a history adds up to *)

(** What an item adds to the balance of the address whose history has it. *)
Definition signed (i : HistoryItem) : Z :=
  match item_direction i with
  | Mined | Received => item_amount i
  | Sent => - (item_amount i + item_fee i)
  end.

(** All the inputs of the transaction belong to one address. *)
Definition single_owner (outs : UTXOSet) (tx : Transaction) : Prop :=
  ∀ a b, a ∈ sender_addresses outs tx → b ∈ sender_addresses outs tx → a = b.

#[export] Instance single_owner_dec outs tx : Decision (single_owner outs tx).
Proof.
  destruct (decide (set_Forall (λ a, set_Forall (λ b, a = b) (sender_addresses outs tx)) (sender_addresses outs tx)))
    as [H|H]; [left|right].
  - intros a b Ha Hb. exact (H a Ha b Hb).
  - intros Hs. apply H. intros a Ha b Hb. exact (Hs a b Ha Hb).
Defined.

Lemma elem_of_senders outs tx a :
  a ∈ sender_addresses outs tx ↔ ∃ k o, k ∈ spent_outpoints tx ∧ outs !! k = Some o ∧ recipient_address o = a.
Proof.
  unfold sender_addresses, spent_outpoints. rewrite elem_of_list_to_set, list_elem_of_omap. split.
  - intros (i & Hi & (o & Ho & ->)%fmap_Some). exists (outpoint i), o. split_and!; [by apply list_elem_of_fmap_2|done|done].
  - intros (k & o & (i & -> & Hi)%list_elem_of_fmap & Ho & <-). exists i. by rewrite Ho.
Qed.

Lemma input_value_spent outs tx : input_value outs tx = sumZ_with (value_at outs) (spent_outpoints tx).
Proof. unfold input_value, spent_outpoints. by rewrite sumZ_with_fmap. Qed.

(** What the inputs take from an address: all, if it owns one of them. *)
Lemma owned_all outs tx a :
  single_owner outs tx → a ∈ sender_addresses outs tx →
  sumZ_with (owned outs a) (spent_outpoints tx) = sumZ_with (value_at outs) (spent_outpoints tx).
Proof.
  intros Hs Ha. apply sumZ_with_ext. intros k Hk. unfold owned, value_at.
  destruct (outs !! k) as [o|] eqn:Ho; [|done]. cbn. rewrite decide_True; [done|].
  apply Hs; [|done]. apply elem_of_senders. eauto.
Qed.

Lemma owned_none outs tx a :
  a ∉ sender_addresses outs tx → sumZ_with (owned outs a) (spent_outpoints tx) = 0.
Proof.
  intros Ha. transitivity (sumZ_with (λ _ : Outpoint, 0) (spent_outpoints tx));
    [|induction (spent_outpoints tx); cbn [sumZ_with]; lia].
  apply sumZ_with_ext. intros k Hk. unfold owned.
  destruct (outs !! k) as [o|] eqn:Ho; [|done]. rewrite decide_False; [done|].
  intros Heq. apply Ha, elem_of_senders. eauto.
Qed.

(** The outputs are given to the address or paid to others. *)
Lemma given_or_paid a tx : sumZ_with (given a) (outputs tx) + paid_by a tx = sumZ_with amount (outputs tx).
Proof.
  unfold paid_by. induction (outputs tx) as [|o l IH]; [done|]. cbn [sumZ_with]. rewrite filter_cons.
  unfold given at 1. destruct (decide (recipient_address o = a)) as [He|He].
  - rewrite decide_False by (by intros []). lia.
  - rewrite decide_True by done. cbn [sumZ_with]. lia.
Qed.

Lemma given_filter a (P : TxOutput → Prop) `{!∀ o, Decision (P o)} (l : list TxOutput) :
  (∀ o, recipient_address o = a → P o) → sumZ_with (given a) (filter P l) = sumZ_with (given a) l.
Proof.
  intros Ha. induction l as [|o l IH]; [done|]. rewrite filter_cons. cbn [sumZ_with].
  destruct (decide (P o)) as [Hp|Hp]; cbn [sumZ_with]; [lia|].
  unfold given at 2. rewrite decide_False by (intros He; by apply Hp, Ha). lia.
Qed.

Lemma signed_option (m : option Z) (it : Z → HistoryItem) :
  (∀ w, signed (it w) = w) → sumZ_with signed (option_list (it <$> m)) = default 0 m.
Proof. intros Hit. destruct m as [w|]; cbn; [rewrite Hit; lia|done]. Qed.

(** The items of one transaction: what it gives less what it takes. *)
Lemma items_balance {E : EcdsaLib} outs a q :
  (inputs q.2 = [] ∨ ∃ fee, valid_tx outs q.2 fee) → single_owner outs q.2 →
  sumZ_with signed (items_of outs a q) =
    sumZ_with (given a) (outputs q.2) - sumZ_with (owned outs a) (spent_outpoints q.2).
Proof.
  destruct q as [p tx]. cbn [snd]. intros Hv Hs. unfold items_of. cbn [snd].
  case_bool_decide as Hi.
  - rewrite signed_option by done. rewrite paid_to_default. unfold spent_outpoints. rewrite Hi. cbn. lia.
  - case_bool_decide as Ha.
    + cbn [sumZ_with]. unfold signed. cbn [item_direction item_amount item_fee]. rewrite owned_all by done.
      unfold indexed_fee. rewrite bool_decide_eq_false_2, input_value_spent by done.
      destruct Hv as [?|[fee Hv]]; [done|]. pose proof (valid_fee _ _ _ Hv). pose proof (valid_fee_nonneg _ _ _ Hv).
      pose proof (given_or_paid a tx). lia.
    + rewrite signed_option by done. rewrite paid_to_default, owned_none by done.
      rewrite given_filter by (by intros o ->). lia.
Qed.

Lemma newer_first_total x y : newer_first x y ∨ newer_first y x.
Proof. unfold newer_first. destruct (Z.lt_trichotomy (default 0 (item_height x)) (default 0 (item_height y))) as [|[|]]; lia. Qed.

#[export] Instance newer_first_total' : Total newer_first.
Proof. intros x y. apply newer_first_total. Qed.

#[export] Instance newer_first_trans : Transitive newer_first.
Proof. intros x y z. unfold newer_first. lia. Qed.

Section chain.
Context {E : EcdsaLib}.

(** The history of an address in a valid chain whose transactions have one
    owner each adds up to its balance. *)
Lemma history_sum now bs st tip hash a :
  chain now bs st → Forall (single_owner (creates (chain_txs bs))) (chain_txs bs) →
  sumZ_with signed (default [] (address_history (populate (new_view tip hash) bs) !! a)) = get_balance (utxo_set st) a.
Proof.
  intros Hc Hs. pose proof (chain_ledger _ _ _ Hc) as Hinv.
  rewrite view_history, indexed_creates by apply Hinv.
  unfold sort_history. rewrite (merge_sort_Permutation newer_first).
  rewrite sumZ_with_bind, (ledger_balance _ _ a Hinv).
  set (outs := creates (chain_txs bs)). rewrite <- (located_txs bs 0).
  rewrite sumZ_with_fmap. apply sumZ_with_ext. intros q Hq.
  assert (q.2 ∈ chain_txs bs) as Hin by (rewrite <- (located_txs bs 0); by apply list_elem_of_fmap_2).
  rewrite items_balance; [done| |].
  - destruct (chain_valid_tx _ _ _ Hc _ Hin) as [[? _]|?]; [by left|by right].
  - rewrite Forall_forall in Hs. by apply Hs.
Qed.

Lemma history_sorted tip hash bs a :
  StronglySorted newer_first (default [] (address_history (populate (new_view tip hash) bs) !! a)).
Proof. rewrite view_history. unfold sort_history. apply (StronglySorted_merge_sort newer_first). Qed.

(** Where a transaction is indexed, and its fee. *)
Lemma view_transaction now bs st tip hash t q :
  chain now bs st →
  tx_by_id (populate (new_view tip hash) bs) !! t = Some q ↔ q ∈ located 0 bs ∧ txid q.2 = t.
Proof.
  intros Hc. rewrite view_transactions.
  rewrite inserts_spec by (rewrite located_txids; apply (chain_ledger _ _ _ Hc)). split.
  - by intros (x & Hx & Ht & <-).
  - intros [Hq Ht]. by exists q.
Qed.

Lemma view_fee now bs st tip hash tx fee :
  chain now bs st → tx ∈ chain_txs bs → valid_tx (creates (chain_txs bs)) tx fee →
  tx_fees (populate (new_view tip hash) bs) !! txid tx = Some fee.
Proof.
  intros Hc Htx Hv. pose proof (ledger_txids _ _ (chain_ledger _ _ _ Hc)) as Hnd.
  rewrite view_fees, indexed_creates by done.
  rewrite <- (located_txs bs 0) in Htx. apply list_elem_of_fmap in Htx as (q & -> & Hq).
  rewrite (inserts_lookup (λ q, txid q.2) _ _ ∅ q); [|by rewrite located_txids|done].
  unfold indexed_fee. rewrite bool_decide_eq_false_2 by apply Hv. f_equal.
  rewrite input_value_spent. pose proof (valid_fee _ _ _ Hv). pose proof (valid_fee_nonneg _ _ _ Hv). lia.
Qed.

Lemma view_block tip hash bs h b :
  blocks_by_height (populate (new_view tip hash) bs) !! h = Some b ↔ 0 <= h ∧ bs !! Z.to_nat h = Some b.
Proof.
  rewrite view_heights, inserts_spec by apply numbered_fst_NoDup. split.
  - intros ([i c] & (n & -> & Hn)%numbered_elem & <- & <-). cbn [fst snd]. split; [lia|].
    by replace (Z.to_nat (0 + Z.of_nat n)) with n by lia.
  - intros [Hh Hb]. exists (h, b). split; [|done]. apply numbered_elem. exists (Z.to_nat h). split; [lia|done].
Qed.
End chain.

(** Positions as in the code: a height and the block there. *)
Lemma located_at bs h hash tx t :
  (h, hash, tx) ∈ located 0 bs ∧ txid tx = t ↔
  0 <= h ∧ ∃ b, bs !! Z.to_nat h = Some b ∧ block_hash b = hash ∧ tx ∈ transactions b ∧ txid tx = t.
Proof.
  rewrite located_elem. cbn [fst snd]. split.
  - intros [(n & b & Hn & [= -> ->] & Htx) Ht]. split; [lia|]. exists b.
    by replace (Z.to_nat (0 + Z.of_nat n)) with n by lia.
  - intros (Hh & b & Hb & <- & Htx & Ht). split; [|done]. exists (Z.to_nat h), b. split_and!; [done| |done].
    by rewrite Z2Nat.id, Z.add_0_l by lia.
Qed.

Section chain_fees.
Context {E : EcdsaLib}.

(** No two blocks of a chain have the same hash. *)
Lemma chain_hashes now bs st : chain now bs st → NoDup (map block_hash bs).
Proof.
  induction 1 as [g _ _|bs previous b st reward fees st' _ IH _ _ Hno].
  - apply NoDup_singleton.
  - rewrite map_app. apply NoDup_app. split_and!; [done| |apply NoDup_singleton].
    intros h Hh ->%list_elem_of_singleton. by apply Hno.
Qed.

Lemma view_reward_fee now bs st tip hash tx :
  chain now bs st → tx ∈ chain_txs bs → inputs tx = [] →
  tx_fees (populate (new_view tip hash) bs) !! txid tx = Some 0.
Proof.
  intros Hc Htx Hi. pose proof (ledger_txids _ _ (chain_ledger _ _ _ Hc)) as Hnd.
  rewrite view_fees. rewrite <- (located_txs bs 0) in Htx. apply list_elem_of_fmap in Htx as (q & -> & Hq).
  rewrite (inserts_lookup (λ q, txid q.2) _ _ ∅ q); [|by rewrite located_txids|done].
  unfold indexed_fee. by rewrite bool_decide_eq_true_2.
Qed.

(** The hashes of a valid chain are distinct, so each leads to its block. *)
Lemma view_block_hash now bs st tip hash hsh h b :
  chain now bs st →
  blocks_by_hash (populate (new_view tip hash) bs) !! hsh = Some (h, b) ↔
    0 <= h ∧ bs !! Z.to_nat h = Some b ∧ block_hash b = hsh.
Proof.
  intros Hc. rewrite view_hashes, inserts_spec.
  - split.
    + intros ([i c] & (n & -> & Hn)%numbered_elem & Hb & [= <- <-]). cbn [fst snd] in *. split_and!; [lia| |done].
      by replace (Z.to_nat (0 + Z.of_nat n)) with n by lia.
    + intros (Hh & Hb & <-). exists (h, b). split; [|done]. apply numbered_elem. exists (Z.to_nat h). split; [lia|done].
  - replace ((λ p : Z * Block, block_hash p.2) <$> numbered 0 bs) with (block_hash <$> (numbered 0 bs).*2)
      by by rewrite <- list_fmap_compose.
    rewrite numbered_snd. by eapply chain_hashes.
Qed.
End chain_fees.
