(* ===== verification/ExplorerTheorems.v ===== *)
(** * What the explorer shows

    The index of a chain agrees with the rules that accepted it, the history of
    an address adds up to its balance, and queries see one chain although the
    node moves on while they wait. *)

From coqutil Require Import Datatypes.RecordSetters.
Import DoubleBraceUpdate.
From S2P Require Import Prelude Bytes Json Crypto Transaction Utxo TxValidation Batch Sample.
From S2P Require Import Mempool MempoolFacts Block ChainState ChainFacts Blockchain.
From S2P Require Import BlockchainFacts SampleChain NodeTheorems Codec Database Storage.
From S2P Require Import NetConfig Effects Peer PeerManager NodeState Sync Node NodeSteps.
From S2P Require Import SampleNode Services Explorer ExplorerService ExplorerFacts.
#[local] Open Scope Z_scope.

(** * The explorer sees one chain at a time

    The node may add blocks between any two replies.  [node_history] is what the
    services rely on: the chain that each command sees is the chain the one
    before saw, after calls of the methods of [Blockchain].  A view that
    [get_chain_view] returns is the index of exactly the chain that its first
    command saw. *)

(** ** Chains only grow *)

Section growth.
Context {E : EcdsaLib} {CS : ChainStore}.

Lemma bc_step_prefix limit bc bc' :
  bc_inv limit bc → bc_step limit bc bc' → blocks bc `prefix_of` blocks bc'.
Proof.
  intros Hbc Hstep. assert (∀ bc1, core bc1 = core bc → blocks bc `prefix_of` blocks bc1) as Hcore
    by (intros bc1 [= -> _ _ _]; done).
  destruct Hstep as [tx r bc bc' Hs|tid r bc bc' Hs|b clock ct now r bc bc' Hnow Hle Hs|
    b clock ct e r bc bc' Hnow Hs|r bc bc' Hs].
  - apply pool_change_cases in Hs as [?|(? & ? & _ & _ & ? & ? & ->)]; [by apply Hcore|done].
  - apply pool_change_cases in Hs as [?|(? & ? & _ & _ & ? & ? & ->)]; [by apply Hcore|done].
  - destruct (add_block_cases _ _ _ _ _ _ _ _ Hbc Hnow Hs) as
      [(e & _ & _ & ->)|[(_ & -> & _)|(next & mp & _ & _ & _ & [(s & rev & _ & ->)|(s & e & _ & _ & ? & _)])]];
      [done..| |by apply Hcore]. by exists [b].
  - destruct (add_block_bad_time clock ct b bc e Hnow) as [e' Ha]. rewrite Ha in Hs. by injection Hs as _ <-.
  - apply Hcore. by eapply close_core.
Qed.

Lemma bc_steps_prefix limit bc bc' :
  rtc (bc_step limit) bc bc' → bc_inv limit bc → blocks bc `prefix_of` blocks bc'.
Proof.
  induction 1 as [bc|bc bc1 bc' Hs _ IH]; intros Hbc; [done|].
  etrans; [by eapply bc_step_prefix|]. by eapply IH, bc_step_inv.
Qed.

(** Two prefixes of a chain that end in the same hash are the same. *)
Lemma prefix_same_tip (bs p q : list Block) a b :
  NoDup (map block_hash bs) → p `prefix_of` bs → q `prefix_of` bs →
  last p = Some a → last q = Some b → block_hash a = block_hash b → p = q.
Proof.
  intros Hnd Hp Hq Ha Hb Hab.
  assert (∀ (l : list Block) x, l `prefix_of` bs → last l = Some x →
    map block_hash bs !! pred (length l) = Some (block_hash x) ∧ length l ≠ 0%nat) as Hat.
  { intros l x [k ->] Hx. rewrite last_lookup in Hx. split; [|by intros ->%nil_length_inv].
    rewrite list_lookup_fmap, lookup_app_l by (by apply lookup_lt_Some in Hx). by rewrite Hx. }
  destruct (Hat p a Hp Ha) as [H1 N1]. destruct (Hat q b Hq Hb) as [H2 N2]. rewrite Hab in H1.
  pose proof (NoDup_lookup _ _ _ _ Hnd H1 H2) as Hlen.
  destruct (prefix_weak_total _ _ _ Hp Hq) as [H|H].
  - apply prefix_length_eq; [done|lia].
  - symmetry. apply prefix_length_eq; [done|lia].
Qed.
End growth.

(** The index of a whole chain. *)
Definition tip_of (bs : list Block) : string := match last bs with Some b => block_hash b | None => EmptyString end.
Definition view_of (bs : list Block) : ChainView := populate (new_view (Z.of_nat (length bs) - 1) (tip_of bs)) bs.

Section history.
Context {EL : EcdsaLib} {CS : ChainStore}.
Context (limit : Z) (served : nat → Served) (chain_at : nat → Blockchain).

(** What the commands see of the node, one after the other; a command that is
    refused raises an error of the network. *)
Record node_history : Prop := {
  history_served : ∀ k n, served k = ServedBy n → node_chain n = chain_at k;
  history_refused : ∀ k e, served k = Refused e → is_network_error e = true;
  history_valid : bc_inv limit (chain_at 0);
  history_grows : ∀ k, rtc (bc_step limit) (chain_at k) (chain_at (S k))
}.

Context (Hist : node_history).

Lemma chain_at_steps i j : (i <= j)%nat → rtc (bc_step limit) (chain_at i) (chain_at j).
Proof. induction 1 as [|j _ IH]; [done|]. etrans; [exact IH|]. apply Hist. Qed.

Lemma chain_at_inv k : bc_inv limit (chain_at k).
Proof. eapply bc_steps_inv; [apply (chain_at_steps 0); lia|apply Hist]. Qed.

Lemma chain_at_prefix i j : (i <= j)%nat → blocks (chain_at i) `prefix_of` blocks (chain_at j).
Proof. intros. eapply bc_steps_prefix; [by apply chain_at_steps|apply chain_at_inv]. Qed.

Lemma chain_at_hashes k : NoDup (map block_hash (blocks (chain_at k))).
Proof. eapply chain_hashes, chain_at_inv. Qed.

(** A view of a chain that the node had by the time of command [k]. *)
Definition view_ok (k : nat) (v : ChainView) : Prop :=
  ∃ p, p ≠ [] ∧ p `prefix_of` blocks (chain_at k) ∧ v = view_of p.

Definition cache_ok (k : nat) (c : option ChainView) : Prop := ∀ v, c = Some v → view_ok k v.

Lemma view_ok_later i j v : (i <= j)%nat → view_ok i v → view_ok j v.
Proof. intros Hij (p & Hp & Hpre & ->). exists p. split_and!; [done| |done]. etrans; [done|by apply chain_at_prefix]. Qed.

(** *** Replies *)

(** The errors of a command: refused, or the storage is unusable. *)
Definition command_error (e : exn) : Prop := is_network_error e = true ∨ is_storage_error e = true.

Lemma ensure_usable_error bc e : ensure_usable bc = Raise e → command_error e.
Proof.
  unfold ensure_usable. intros [[_ <-]%raise_if_Raise|(? & _ & [_ <-]%raise_if_Raise)]%bind_Raise; by right.
Qed.

Lemma latest_reply k :
  (∃ e, latest_info (served k) = Raise e ∧ command_error e) ∨
  ∃ b, last (blocks (chain_at k)) = Some b ∧
    latest_info (served k) = Ok (Some (b, Z.of_nat (length (blocks (chain_at k))) - 1)).
Proof.
  destruct (served k) as [e|n] eqn:Hs.
  { left. exists e. split; [done|left]. by eapply (history_refused Hist). }
  rewrite latest_info_served, (history_served Hist k n Hs). unfold get_latest_block_info.
  destruct (ensure_usable (chain_at k)) as [[]|e] eqn:Hu; cbn [mbind result_bind];
    [right|left; exists e; split; [done|by eapply ensure_usable_error]].
  destruct (bc_inv_tip _ _ (chain_at_inv k)) as (l & b & Hl & Ht). exists b. unfold tip in *. by rewrite Ht.
Qed.

Lemma blocks_reply k start max :
  0 <= start < Z.of_nat (length (blocks (chain_at k))) → 1 <= max <= 100 →
  (∃ e, blocks_of (served k) start max = Raise e ∧ command_error e) ∨
  blocks_of (served k) start max = Ok (take (Z.to_nat max) (drop (Z.to_nat start) (blocks (chain_at k)))).
Proof.
  intros Hstart Hmax. destruct (served k) as [e|n] eqn:Hs.
  { left. exists e. split; [done|left]. by eapply (history_refused Hist). }
  rewrite blocks_of_served, (history_served Hist k n Hs). unfold get_blocks.
  destruct (ensure_usable (chain_at k)) as [[]|e] eqn:Hu; cbn [mbind result_bind];
    [right|left; exists e; split; [done|by eapply ensure_usable_error]].
  rewrite !(proj2 (Z.ltb_ge _ _)) by lia. cbn [orb]. rewrite (proj2 (Z.leb_gt _ _)) by lia. f_equal.
  destruct (Z_le_gt_dec (start + max) (Z.of_nat (length (blocks (chain_at k))))) as [Hle|Hgt].
  - f_equal. lia.
  - rewrite !firstn_all2; [done|..]; rewrite length_drop; lia.
Qed.

Lemma entries_reply k :
  (∃ e, pending_entries (served k) = Raise e ∧ command_error e) ∨
  pending_entries (served k) = Ok (map (λ p, (entry_transaction p.2, entry_fee p.2, entry_size_bytes p.2))
                                     (entries (mempool (chain_at k)))).
Proof.
  destruct (served k) as [e|n] eqn:Hs.
  { left. exists e. split; [done|left]. by eapply (history_refused Hist). }
  unfold pending_entries. rewrite (expect_ask (λ mp, RepEntries (map (λ p, (entry_transaction p.2, entry_fee p.2, entry_size_bytes p.2)) (entries mp)))
    _ mempool_snapshot (λ mp, map (λ p, (entry_transaction p.2, entry_fee p.2, entry_size_bytes p.2)) (entries mp))) by done.
  rewrite (history_served Hist k n Hs). unfold mempool_snapshot.
  destruct (ensure_usable (chain_at k)) as [[]|e] eqn:Hu; cbn [mbind result_bind];
    [right|left; exists e; split; [done|by eapply ensure_usable_error]].
  by rewrite mempool_copy_id by apply (bc_pool _ _ (chain_at_inv k)).
Qed.

(** What [find_transaction] finds at command [k]. *)
Definition found_at (k : nat) (tid : string) : option Located :=
  match Mempool.get_transaction (mempool (chain_at k)) tid with
  | Some tx => Some (Pending tx)
  | None => if bool_decide (tid ∈ seen_txids (state (chain_at k))) then locate tid 0 (blocks (chain_at k)) else None
  end.

Lemma found_reply k tid :
  (∃ e, found_transaction (served k) tid = Raise e ∧ command_error e) ∨
  found_transaction (served k) tid = Ok (found_at k tid).
Proof.
  destruct (served k) as [e|n] eqn:Hs.
  { left. exists e. split; [done|left]. by eapply (history_refused Hist). }
  rewrite found_transaction_served, (history_served Hist k n Hs). unfold find_transaction.
  destruct (ensure_usable (chain_at k)) as [[]|e] eqn:Hu; cbn [mbind result_bind];
    [by right|left; exists e; split; [done|by eapply ensure_usable_error]].
Qed.

(** ** [get_chain_view] *)

(** What other requests do to the cache between two awaits: they run the same
    methods, so a view they put there is one of the node's chain. *)
Context (others : nat → option ChainView → option ChainView).
Hypothesis others_ok : ∀ k c, cache_ok k c → cache_ok (S k) (others k c).

Definition service_ok (s : ExplorerService) : Prop := cache_ok (turn s) (cached_view s).

Lemma resume_ok s : service_ok s → service_ok (resume others s).
Proof. apply others_ok. Qed.

Lemma ask_bind {A B} (q : Served → result A) (f : A → call ExplorerService B) s :
  @mbind (call ExplorerService) _ A B f (ask served others q) s =
    match q (served (turn s)) with Ok a => f a (resume others s) | Raise e => (Raise e, resume others s) end.
Proof. done. Qed.

Lemma gets_bind {A B} (q : ExplorerService → A) (f : A → call ExplorerService B) s :
  @mbind (call ExplorerService) _ A B f (gets q) s = f (q s) s.
Proof. done. Qed.

Lemma fetch_ok total B : ∀ fuel start bs s,
  total = Z.of_nat (length B) → (∀ k, (turn s <= k)%nat → B `prefix_of` blocks (chain_at k)) →
  0 <= start <= total → bs = take (Z.to_nat start) B → (Z.to_nat (total - start) <= fuel)%nat → service_ok s →
  let r := fetch_blocks served others fuel start total bs s in
  ((∃ e, r.1 = Raise e ∧ command_error e) ∨ r.1 = Ok B) ∧ (turn s <= turn r.2)%nat ∧ service_ok r.2.
Proof.
  induction fuel as [|fuel IH]; intros start bs s Htotal Hpre Hstart Hbs Hfuel Hs; cbn [fetch_blocks].
  { split_and!; [right|done|done]. cbn. rewrite Hbs, firstn_all2; [done|lia]. }
  destruct (start <? total) eqn:Hlt; [apply Z.ltb_lt in Hlt|apply Z.ltb_ge in Hlt].
  2: { split_and!; [right|done|done]. cbn. rewrite Hbs, firstn_all2; [done|lia]. }
  cbn zeta. rewrite ask_bind.
  destruct (Hpre (turn s) (le_n _)) as [l Hl].
  set (max := Z.min 100 (total - start)).
  assert (1 <= max <= 100) as Hmax by (unfold max; lia).
  assert (0 <= start < Z.of_nat (length (blocks (chain_at (turn s))))) as Hin by (rewrite Hl, length_app; lia).
  destruct (blocks_reply (turn s) start max Hin Hmax) as [(e & Heq & He)|Heq]; rewrite Heq; clear Heq.
  { split_and!; [left; by exists e|cbn; lia|by apply resume_ok]. }
  assert (take (Z.to_nat max) (drop (Z.to_nat start) (blocks (chain_at (turn s)))) =
          take (Z.to_nat max) (drop (Z.to_nat start) B)) as ->.
  { rewrite Hl, drop_app_le by lia. rewrite take_app_le; [done|]. rewrite length_drop. unfold max. lia. }
  assert (length (take (Z.to_nat max) (drop (Z.to_nat start) B)) = Z.to_nat max) as Hlen
    by (rewrite length_take, length_drop; unfold max; lia).
  rewrite bool_decide_eq_false_2 by (intros Hnil; rewrite Hnil in Hlen; cbn in Hlen; lia).
  destruct (IH (start + Z.of_nat (length (take (Z.to_nat max) (drop (Z.to_nat start) B))))
              (bs ++ take (Z.to_nat max) (drop (Z.to_nat start) B)) (resume others s)) as (Hr & Hle & Hok); [done|..].
  - intros k Hk. apply Hpre. cbn in Hk. lia.
  - rewrite Hlen. unfold max. lia.
  - rewrite Hlen, Hbs, take_take_drop. f_equal. lia.
  - rewrite Hlen. lia.
  - by apply resume_ok.
  - split_and!; [exact Hr|cbn in Hle; lia|exact Hok].
Qed.

(** The cached view, when it is used, is that of the chain whose tip it has. *)
Lemma cached_exact force B k s v :
  service_ok s → (k <= turn s)%nat → B = blocks (chain_at k) → cached_for force (tip_of B) s = Some v → v = view_of B.
Proof.
  intros Hs Hk -> Hv. unfold cached_for in Hv. destruct (cached_view s) as [w|] eqn:Hc; [|done].
  destruct (negb force && _) eqn:Hb; [|done]. injection Hv as ->. apply andb_prop in Hb as [_ Htip%bool_decide_eq_true].
  destruct (Hs v Hc) as (p & Hp & Hpre & ->). f_equal.
  unfold view_of in Htip. rewrite (proj2 (view_tip _ _ _)) in Htip.
  destruct (last p) as [a|] eqn:Ha; [|by apply last_None in Ha].
  destruct (bc_inv_tip _ _ (chain_at_inv k)) as (l & b & Hl & Hb). unfold tip in Hb.
  unfold tip_of in Htip. rewrite Ha, Hb in Htip.
  eapply prefix_same_tip; [apply (chain_at_hashes (turn s))|exact Hpre|by apply chain_at_prefix|exact Ha|exact Hb|exact Htip].
Qed.

Lemma view_of_ok k : view_ok k (view_of (blocks (chain_at k))).
Proof.
  exists (blocks (chain_at k)). split_and!; [|done|done].
  intros Hnil. destruct (bc_inv_tip _ _ (chain_at_inv k)) as (l & b & Hl & _). rewrite Hnil in Hl. by destruct l.
Qed.

(** From the lock on, and the whole: the view of the chain of the first await,
    or the error of a command. *)
Lemma refresh_ok k s :
  let B := blocks (chain_at k) in
  (k < turn s)%nat → service_ok s →
  let r := refresh_view served others (Z.of_nat (length B) - 1) (tip_of B) s in
  ((∃ e, r.1 = Raise e ∧ command_error e) ∨ r.1 = Ok (view_of B)) ∧ (turn s <= turn r.2)%nat ∧ service_ok r.2.
Proof.
  intros B Hk Hs. cbn zeta. unfold refresh_view. rewrite Z.sub_add, call_run.
  destruct (fetch_ok (Z.of_nat (length B)) B (Z.to_nat (Z.of_nat (length B))) 0 [] s) as (Hr & Hle & Hok);
    [done|intros j Hj; apply chain_at_prefix; lia|lia|done|lia|done|].
  destruct (fetch_blocks _ _ _ _ _ _ _) as [[bs|e] s1]; cbn [fst snd] in *.
  - destruct Hr as [(e & ? & _)|[= ->]]; [done|]. rewrite Z.eqb_refl. cbn [negb].
    unfold modify. rewrite call_run. cbn [fst snd]. split_and!; [by right|done|].
    change (service_ok (MkExplorer (Some (view_of B)) (turn s1))).
    intros v [= <-]. eapply view_ok_later; [|apply (view_of_ok k)]. cbn. lia.
  - destruct Hr as [(e' & [= <-] & He)|?]; [|done]. split_and!; [left; by exists e|done|done].
Qed.

Lemma get_chain_view_ok force s :
  service_ok s →
  let r := get_chain_view served others force s in
  ((∃ e, r.1 = Raise e ∧ command_error e) ∨ r.1 = Ok (view_of (blocks (chain_at (turn s))))) ∧
  (turn s <= turn r.2)%nat ∧ service_ok r.2.
Proof.
  intros Hs. cbn zeta. unfold get_chain_view. rewrite ask_bind.
  set (B := blocks (chain_at (turn s))).
  destruct (latest_reply (turn s)) as [(e & -> & He)|(b & Hb & ->)].
  { split_and!; [left; by exists e|cbn; lia|by apply resume_ok]. }
  fold B in Hb. assert (block_hash b = tip_of B) as -> by (unfold tip_of; by rewrite Hb).
  pose proof (resume_ok s Hs) as Hs1. assert (turn (resume others s) = S (turn s)) as Ht1 by done.
  set (s1 := resume others s) in *. clearbody s1.
  rewrite gets_bind.
  destruct (cached_for force (tip_of B) s1) as [v|] eqn:Hv.
  { split_and!; [right; cbn; f_equal; by eapply cached_exact; [|rewrite Ht1; apply Nat.le_succ_diag_r|..]|cbn; lia|done]. }
  rewrite (call_run (acquire others)). cbn [acquire modify].
  pose proof (resume_ok s1 Hs1) as Hs2. assert (turn (resume others s1) = S (turn s1)) as Ht2 by done.
  set (s2 := resume others s1) in *. clearbody s2.
  rewrite gets_bind.
  destruct (cached_for force (tip_of B) s2) as [v|] eqn:Hv2.
  { split_and!; [right; cbn; f_equal; eapply (cached_exact force B (turn s)); [exact Hs2|lia|done|exact Hv2]|cbn; lia|done]. }
  destruct (refresh_ok (turn s) s2) as (Hr & Hle & Hok); [lia|done|]. fold B in Hr, Hle, Hok.
  split_and!; [exact Hr|etrans; [|exact Hle]; lia|exact Hok].
Qed.

(** ** [get_transaction] *)

(** The node has the transaction when command [k] is answered. *)
Definition confirmed_at (tid : string) (k : nat) : Prop := tid ∈ txid <$> chain_txs (blocks (chain_at k)).
Definition present (tid : string) (k : nat) : Prop :=
  tid ∈ (entries (mempool (chain_at k))).*1 ∨ confirmed_at tid k.

(** What the answer shows of a transaction of the chain. *)
Definition shows (tid : string) (t : EnrichedTransaction) : Prop :=
  et_txid t = tid ∧
  (et_pending t = true ∨
   ∃ k q, q ∈ located 0 (blocks (chain_at k)) ∧ txid q.2 = tid ∧
     t = enrich_confirmed (view_of (blocks (chain_at k))) q).

Lemma confirmed_later tid i j : (i <= j)%nat → confirmed_at tid i → confirmed_at tid j.
Proof.
  intros Hij Hc. destruct (chain_at_prefix i j Hij) as [l Hl]. unfold confirmed_at. rewrite Hl.
  unfold chain_txs. rewrite bind_app, fmap_app. by apply elem_of_app; left.
Qed.

(** The index of a chain has the chain's transactions. *)
Lemma view_has k tid :
  confirmed_at tid k → ∃ q, tx_by_id (view_of (blocks (chain_at k))) !! tid = Some q.
Proof.
  intros Hc. unfold confirmed_at in Hc. rewrite <- (located_txids (blocks (chain_at k))) in Hc.
  apply list_elem_of_fmap in Hc as (q & Ht & Hq). exists q.
  by apply (view_transaction _ _ _ _ _ _ _ (bc_chain _ _ (chain_at_inv k))).
Qed.

Lemma view_shows k tid q :
  tx_by_id (view_of (blocks (chain_at k))) !! tid = Some q → shows tid (enrich_confirmed (view_of (blocks (chain_at k))) q).
Proof.
  intros [Hq Ht]%(view_transaction _ _ _ _ _ _ _ (bc_chain _ _ (chain_at_inv k))). split.
  - by destruct q as [[h hash] tx].
  - right. by exists k, q.
Qed.

Lemma confirmed_found k tid : confirmed_at tid k → found_at k tid ≠ None.
Proof.
  unfold found_at. intros Hc. destruct (Mempool.get_transaction _ _); [done|].
  rewrite bool_decide_eq_true_2.
  - intros Hn%locate_None. done.
  - rewrite (ledger_seen _ _ (chain_ledger _ _ _ (bc_chain _ _ (chain_at_inv k)))). by apply elem_of_list_to_set.
Qed.

(** An answer, or the error of a command: the outcomes of a method. *)
Definition answered {A} (P : A → Prop) (r : result A) : Prop :=
  (∃ e, r = Raise e ∧ command_error e) ∨ ∃ a, r = Ok a ∧ P a.

Lemma look_again_found tid v s :
  service_ok s → confirmed_at tid (turn s) →
  answered (shows tid) (look_again served others tid v s).1.
Proof.
  intros Hs Hc. unfold look_again. rewrite ask_bind.
  destruct (found_reply (turn s) tid) as [(e & -> & He)| ->]; [left; by exists e|].
  pose proof (confirmed_found _ _ Hc) as Hf. set (found := found_at (turn s) tid) in *. clearbody found.
  rewrite ask_bind.
  assert (∀ s1, service_ok s1 → (turn s <= turn s1)%nat → ∀ m,
    answered (shows tid)
      ((if negb (bool_decide (found = None)) || m then
          refreshed ← get_chain_view served others true;
          match tx_by_id refreshed !! tid with
          | Some p => mret (enrich_confirmed refreshed p)
          | None => raise (APIError 404 "TRANSACTION_NOT_FOUND")
          end
        else raise (APIError 404 "TRANSACTION_NOT_FOUND")) s1).1) as Hrest.
  { intros s1 Hs1 Hle m. rewrite bool_decide_eq_false_2 by done. cbn [negb orb]. rewrite call_run.
    destruct (get_chain_view_ok true s1 Hs1) as ([(e & Hr & He)|Hr] & _ & _);
      destruct (get_chain_view _ _ _ s1) as [r s2]; cbn [fst snd] in Hr; subst r; [left; by exists e|].
    destruct (view_has (turn s1) tid) as [q Hq]; [by eapply confirmed_later|]. rewrite Hq.
    right. eexists. split; [done|]. by apply view_shows. }
  destruct (latest_reply (turn (resume others s))) as [(e & -> & He)|(b & Hb & ->)]; [left; by exists e|].
  apply Hrest; [by apply resume_ok, resume_ok|cbn; lia].
Qed.

Lemma get_transaction_found id s :
  service_ok s → is_hash (lower (strip id)) = true → (∀ k, (turn s <= k)%nat → present (lower (strip id)) k) →
  answered (shows (lower (strip id))) (ExplorerService.get_transaction served others id s).1.
Proof.
  intros Hs Hhash Hp. unfold ExplorerService.get_transaction. set (tid := lower (strip id)) in *.
  rewrite Hhash. cbn [negb raise_if]. rewrite call_run. cbn [lift]. rewrite call_run.
  destruct (get_chain_view_ok false s Hs) as ([(e & Hr & He)|Hr] & Hle & Hs1);
    destruct (get_chain_view _ _ _ s) as [r s1]; cbn [fst snd] in *; subst r; [left; by exists e|].
  set (k0 := turn s) in *. rewrite ask_bind.
  destruct (entries_reply (turn s1)) as [(e & -> & He)| ->]; [left; by exists e|].
  destruct (list_find _ _) as [[i [[tx fee] size]]|] eqn:Hf.
  - apply list_find_Some in Hf as (_ & Ht & _). cbn in Ht. right. eexists. split; [done|]. by split; [|left].
  - destruct (tx_by_id (view_of (blocks (chain_at k0))) !! tid) as [q|] eqn:Hq.
    + right. eexists. split; [done|]. by apply view_shows.
    + apply look_again_found; [by apply resume_ok|]. apply (confirmed_later _ (turn s1)); [cbn; lia|].
      destruct (Hp (turn s1) Hle) as [Hin|Hc]; [|done]. exfalso.
      apply list_elem_of_fmap in Hin as ([t e] & Ht & Hin). cbn in Ht. subst t.
      apply list_find_None in Hf. rewrite Forall_forall in Hf.
      apply (Hf (entry_transaction e, entry_fee e, entry_size_bytes e)).
      * apply list_elem_of_fmap. by exists (tid, e).
      * cbn. symmetry. apply (pending_entry _ _ _ _ _ (inv_pending _ (bc_pool _ _ (chain_at_inv (turn s1)))) Hin).
Qed.
End history.

#[local] Open Scope string_scope.
#[local] Open Scope Z_scope.

Section explorer.
Context {EL : EcdsaLib} {CS : ChainStore}.

(** C23: the history of an address adds up to its balance. In the index of a
    valid chain in which every transaction spends the outputs of one address,
    what the items of an address's history received and mined, less what they
    sent and its fees, is the balance that the ledger has for it, and the items
    are in the order of the page, the newest first. *)
Theorem history_balance now bs st a :
  chain now bs st → Forall (single_owner (creates (chain_txs bs))) (chain_txs bs) →
  let history := default [] (address_history (view_of bs) !! a) in
  sumZ_with signed history = get_balance (utxo_set st) a ∧ StronglySorted newer_first history.
Proof. intros Hc Hs. split; [by eapply history_sum|apply history_sorted]. Qed.

(** C24: the index of a valid chain is exact. A height and a hash lead to the
    block that has them and to no other; an identifier leads to its
    transaction, in the block and at the height where it is; the fee shown is
    the fee that validation computed, and nothing for a reward; and the outputs
    are those the chain created. *)
Theorem explorer_index_exact now bs st :
  chain now bs st → let v := view_of bs in
  (∀ h b, blocks_by_height v !! h = Some b ↔ 0 <= h ∧ bs !! Z.to_nat h = Some b) ∧
  (∀ hash h b, blocks_by_hash v !! hash = Some (h, b) ↔
     0 <= h ∧ bs !! Z.to_nat h = Some b ∧ block_hash b = hash) ∧
  (∀ t h hash tx, tx_by_id v !! t = Some (h, hash, tx) ↔
     0 <= h ∧ ∃ b, bs !! Z.to_nat h = Some b ∧ block_hash b = hash ∧ tx ∈ transactions b ∧ txid tx = t) ∧
  (∀ tx, tx ∈ chain_txs bs →
     inputs tx = [] ∧ tx_fees v !! txid tx = Some 0 ∨
     ∃ fee, valid_tx (creates (chain_txs bs)) tx fee ∧ tx_fees v !! txid tx = Some fee) ∧
  outputs_by_outpoint v = creates (chain_txs bs) ∧
  total_confirmed_transactions v = Z.of_nat (length (chain_txs bs)).
Proof.
  intros Hc v. split_and!.
  - intros. apply view_block.
  - intros. by eapply view_block_hash.
  - intros t h hash tx. unfold v, view_of. rewrite (view_transaction _ _ _ _ _ _ _ Hc). apply located_at.
  - intros tx Htx. destruct (chain_valid_tx _ _ _ Hc tx Htx) as [[Hi _]|[fee Hv]].
    + left. split; [done|]. by eapply view_reward_fee.
    + right. exists fee. split; [done|]. by eapply view_fee.
  - unfold v, view_of. rewrite view_outputs. apply indexed_creates, (chain_ledger _ _ _ Hc).
  - apply view_total.
Qed.

(** C25: a query sees one chain. Whatever blocks the node adds while
    [get_chain_view] waits for it, and whatever views other requests put into
    the cache meanwhile, the view it returns is the index of exactly the chain
    that its first command saw, whether it was cached or fetched in batches; it
    raises nothing but the errors of a command (so the answer that the snapshot
    is incomplete never happens), and leaves a good cache to the next request. *)
Theorem snapshot_consistent limit served chain_at others force s :
  node_history limit served chain_at →
  (∀ k c, cache_ok chain_at k c → cache_ok chain_at (S k) (others k c)) →
  service_ok chain_at s →
  let r := get_chain_view served others force s in
  answered (λ v, v = view_of (blocks (chain_at (turn s)))) r.1 ∧ (turn s <= turn r.2)%nat ∧ service_ok chain_at r.2.
Proof.
  intros Hist Ho Hs r.
  destruct (get_chain_view_ok limit served chain_at Hist others Ho force s Hs) as ([He|Hr] & Hle & Hok).
  - split_and!; [by left|exact Hle|exact Hok].
  - split_and!; [right; by eexists|exact Hle|exact Hok].
Qed.

(** A transaction that the node has is found. When the node has it
    during the whole query, in the pool or in the chain, and whether or not it
    moves from one to the other while the query waits, [get_transaction] answers
    with it: pending, or as the index of a chain of the node shows it. It never
    answers that there is no such transaction. *)
Theorem transaction_found limit served chain_at others id s :
  node_history limit served chain_at →
  (∀ k c, cache_ok chain_at k c → cache_ok chain_at (S k) (others k c)) →
  service_ok chain_at s → is_hash (lower (strip id)) = true →
  (∀ k, (turn s <= k)%nat → present chain_at (lower (strip id)) k) →
  answered (shows chain_at (lower (strip id))) (get_transaction served others id s).1.
Proof. intros Hist Ho Hs. by apply (get_transaction_found limit). Qed.
End explorer.

(** ** Witnesses *)

#[local] Existing Instance sqlite_store.

Lemma history_balance_witness : ∃ st,
  sumZ_with signed (default [] (address_history (view_of [genesis_block; block1]) !! alice_address))
    = get_balance (utxo_set st) alice_address ∧ get_balance (utxo_set st) alice_address = 50.
Proof.
  destruct sample_chain as (st & Hr & Hc). exists st. split.
  - refine (proj1 (history_balance sample_time [genesis_block; block1] st alice_address Hc _)).
    apply (bool_decide_unpack _). vm_compute. exact I.
  - pose proof sample_rebuild as H. rewrite Hr in H. cbn [fmap result_fmap option_map] in H. by injection H.
Defined.

Lemma explorer_index_exact_witness :
  blocks_by_height (view_of [genesis_block; block1]) !! 1 = Some block1 ∧
  total_confirmed_transactions (view_of [genesis_block; block1]) = 1.
Proof.
  destruct sample_chain as (st & Hr & Hc).
  destruct (explorer_index_exact sample_time [genesis_block; block1] st Hc) as (Hh & _ & _ & _ & _ & Ht). split.
  - apply Hh. split; [lia|reflexivity].
  - rewrite Ht. vm_compute. reflexivity.
Defined.

(** The node adds a block after the first command. *)
Definition sample_chain_at (k : nat) : Blockchain := match k with O => sample_blockchain | S _ => next_blockchain end.
Definition sample_served (k : nat) : Served := ServedBy (node_with (sample_chain_at k)).
Definition idle (k : nat) (c : option ChainView) : option ChainView := c.

Lemma sample_history : node_history sample_time sample_served sample_chain_at.
Proof.
  constructor.
  - intros k n [= <-]. reflexivity.
  - intros k e [=].
  - apply sample_blockchain_inv.
  - intros [|k]; [|exact (rtc_refl _ _)]. apply rtc_once.
    exact (step_add sample_time block1 sample_time None sample_time (add_block block1 sample_time None sample_blockchain).1
      sample_blockchain next_blockchain eq_refl (Z.le_refl _) (surjective_pairing _)).
Qed.

Lemma idle_ok k c : cache_ok sample_chain_at k c → cache_ok sample_chain_at (S k) (idle k c).
Proof.
  intros Hc v Hv.
  apply (view_ok_later sample_time sample_served sample_chain_at sample_history k (S k) v); [lia|]. exact (Hc v Hv).
Qed.

Lemma no_cache_ok k : service_ok sample_chain_at (MkExplorer None k).
Proof. intros v [=]. Qed.

Lemma snapshot_consistent_witness :
  match (get_chain_view sample_served idle false (MkExplorer None 0)).1 with
  | Ok v => tip_height v = 0
  | Raise _ => False
  end.
Proof.
  destruct (snapshot_consistent sample_time sample_served sample_chain_at idle false (MkExplorer None 0)
    sample_history idle_ok (no_cache_ok 0)) as (Hr & _ & _).
  assert (match (get_chain_view sample_served idle false (MkExplorer None 0)).1 with Ok _ => true | Raise _ => false end = true)
    as Hok by (vm_compute; reflexivity).
  destruct Hr as [(e & He & _)|(v & Hv & ->)].
  - rewrite He in Hok. discriminate Hok.
  - rewrite Hv. reflexivity.
Defined.

(** The reward of the block that arrives. *)
Definition reward_txid : string := match transactions block1 with tx :: _ => txid tx | [] => "" end.

Lemma transaction_found_witness :
  answered (shows sample_chain_at (lower (strip reward_txid)))
    (get_transaction sample_served idle reward_txid (MkExplorer None 1)).1.
Proof.
  apply (transaction_found sample_time); [exact sample_history|exact idle_ok|apply no_cache_ok|vm_compute; reflexivity|].
  intros [|k] Hk; [cbn in Hk; lia|]. right. unfold confirmed_at, sample_chain_at.
  apply (bool_decide_unpack (lower (strip reward_txid) ∈ txid <$> chain_txs (blocks next_blockchain))).
  vm_compute. exact I.
Defined.
