(* ===== verification/ApiConfig.v ===== *)
(** * api/config.py: the configuration of the API

    The fields of [ApiConfig] and its validators.  [pydantic] reads the fields
    from the environment, which is left out; a validator that raises makes the
    construction raise [ValueError] ([ValidationError] is a subclass).  Floats
    are rationals, so every duration is finite. *)

From Stdlib Require Import QArith Strings.Ascii.
From coqutil Require Import Datatypes.RecordSetters.
Import DoubleBraceUpdate.
From S2P Require Import Prelude Bytes Json JsonParse JsonFacts NetConfig ConfigFacts Services.
#[local] Open Scope string_scope.
#[local] Open Scope Z_scope.

Record ApiConfig := MkApiConfig {
  api_host : string;
  api_port : Z;
  node_db : option string;
  node_host : string;
  node_port : Z;
  node_seeds : list string;
  app_db : string;
  wallet_master_key : option string;
  jwt_secret : option string;
  cookie_secure : bool;
  session_seconds : Z;
  frontend_origin : string;
  enable_admin_routes : bool;
  admin_token : option string;
  demo_mode : bool;
  rate_limit_per_minute : Z;
  rate_limit_mutation_per_minute : Z;
  rate_limit_admin_per_minute : Z;
  max_body_bytes : Z;
  ws_max_clients : Z;
  ws_max_clients_per_ip : Z;
  ws_status_interval : Q;
  ws_ping_interval : Q;
  ws_idle_timeout : Q;
  ws_max_message_bytes : Z;
  ws_client_queue_size : Z;
  mining_max_nonce : Z;
  mining_max_runtime_seconds : Q;
  mining_progress_interval : Z;
  mining_max_transactions : Z;
  mining_max_bytes : Z
}.

(** The declared defaults. *)
Definition default_api : ApiConfig := {|
  api_host := "127.0.0.1"; api_port := 8000;
  node_db := None; node_host := "127.0.0.1"; node_port := 5001; node_seeds := [];
  app_db := "data/app.sqlite3"; wallet_master_key := None; jwt_secret := None; cookie_secure := false;
  session_seconds := 3600;
  frontend_origin := "http://localhost:5173"; enable_admin_routes := false; admin_token := None; demo_mode := true;
  rate_limit_per_minute := 120; rate_limit_mutation_per_minute := 30; rate_limit_admin_per_minute := 5;
  max_body_bytes := 1048576;
  ws_max_clients := 50; ws_max_clients_per_ip := 5; ws_status_interval := 1; ws_ping_interval := 20;
  ws_idle_timeout := 60; ws_max_message_bytes := 4096; ws_client_queue_size := 64;
  mining_max_nonce := 500000; mining_max_runtime_seconds := 30; mining_progress_interval := 1000;
  mining_max_transactions := 100; mining_max_bytes := 100000
|}.

(** ** Validators of fields *)

(** ["!" <= char <= "~"] *)
Definition is_printable (c : ascii) : bool := let n := code c in ((33 <=? n) && (n <=? 126))%N.

Definition validate_admin_token (token : option string) : result (option string) :=
  match token with
  | Some t => _ ← raise_if (bool_decide (t = "") || negb (str_forall is_printable t)) ValueError; Ok token
  | None => Ok None
  end.

Definition validate_origin (v : string) : result string :=
  let s := strip v in
  _ ← raise_if (bool_decide (s = "") || bool_decide (s = "*")) ValueError;
  Ok (rstrip_char "/" s).

(** *** Seeds *)

(** [s.startswith("[") and s.endswith("]")] *)
Definition bracketed (s : string) : bool :=
  String.prefix "[" s && match rsplit "]" s with Some (_, "") => true | _ => false end.

(** The items of the text or of the list.  A number that is no integer is not
    read: an item that is one is refused as well. *)
Definition raw_seeds (v : json) : result (list json) :=
  match v with
  | JNull => Ok []
  | JStr v =>
      let s := strip v in
      if bool_decide (s = "") then Ok []
      else if bracketed s then
        match loads (λ l, Ok (JObj l)) ValueError s with
        | Ok (JList l) => Ok l
        | _ => Raise ValueError
        end
      else Ok (map JStr (filter (λ part, part ≠ "") (map strip (str_split "," s))))
  | JList l => Ok l
  | _ => Raise ValueError
  end.

(** [NodeConfig()] *)
Definition seed_checker : result NodeConfig := node_config default_config.

Definition endpoint_text (e : Endpoint) : string := e.1 +:+ ":" +:+ str_of_int e.2.

(** One turn of the loop: the normal form of an item. *)
Definition clean_seed (checker : NodeConfig) (item : json) : result string :=
  match item with
  | JStr s =>
      let token := strip s in
      _ ← raise_if (bool_decide (token = "")) ValueError;
      match rsplit ":" token with
      | None => Raise ValueError
      | Some (h, port_str) =>
          p ← parse_int port_str;
          e ← config_validate_endpoint checker (h, p);
          Ok (endpoint_text e)
      end
  | _ => Raise ValueError
  end.

Fixpoint clean_seeds (checker : NodeConfig) (items : list json) (cleaned : list string) : result (list string) :=
  match items with
  | [] => Ok cleaned
  | item :: items =>
      s ← clean_seed checker item;
      clean_seeds checker items (if bool_decide (s ∈ cleaned) then cleaned else (cleaned ++ [s])%list)
  end.

Definition parse_seeds (v : json) : result (list string) :=
  items ← raw_seeds v;
  checker ← seed_checker;
  clean_seeds checker items [].

(** ** The whole *)

Definition quotas (c : ApiConfig) : list Z :=
  [rate_limit_per_minute c; rate_limit_mutation_per_minute c; rate_limit_admin_per_minute c; max_body_bytes c;
   ws_max_clients c; ws_max_clients_per_ip c; ws_max_message_bytes c; ws_client_queue_size c;
   mining_max_nonce c; mining_progress_interval c; mining_max_transactions c; mining_max_bytes c].

Definition api_durations (c : ApiConfig) : list Q :=
  [ws_status_interval c; ws_ping_interval c; ws_idle_timeout c; mining_max_runtime_seconds c].

Definition is_port (p : Z) : bool := (0 <=? p) && (p <=? 65535).

Definition validate_overall (c : ApiConfig) : result ApiConfig :=
  _ ← raise_if (negb (is_port (api_port c))) ValueError;
  _ ← raise_if (negb (is_port (node_port c))) ValueError;
  _ ← raise_if (existsb (λ val, val <=? 0) (quotas c)) ValueError;
  _ ← raise_if (existsb (λ val, Qle_bool val 0) (api_durations c)) ValueError;
  if enable_admin_routes c then
    _ ← raise_if (negb (demo_mode c)) ValueError;
    _ ← raise_if (match admin_token c with Some t => bool_decide (strip t = "") | None => true end) ValueError;
    Ok c
  else Ok c.

(** Constructing a configuration from its fields, the seeds as they are given. *)
Definition api_config (c : ApiConfig) (seeds : json) : result ApiConfig :=
  _ ← raise_if (negb ((60 <=? session_seconds c) && (session_seconds c <=? 86400))) ValueError;
  token ← validate_admin_token (admin_token c);
  origin ← validate_origin (frontend_origin c);
  cleaned ← parse_seeds seeds;
  validate_overall (c {{ admin_token := token; frontend_origin := origin; node_seeds := cleaned }}).

(** [_parse_seeds] of api/lifecycle.py: the endpoints the node is given. *)
Definition seed_endpoints (seeds : list string) : result (list Endpoint) :=
  map_result (λ x, x) (omap (λ s,
    match rsplit ":" s with
    | Some (h, p) => Some (p ← parse_int (strip p); Ok (strip h, p))
    | None => None
    end) seeds).

Example seeds_text : parse_seeds (JStr " 127.0.0.1:5_001, 127.0.0.2:80 ,127.0.0.1:5001") = Ok ["127.0.0.1:5001"; "127.0.0.2:80"].
Proof. vm_compute. reflexivity. Qed.

Example seeds_json : parse_seeds (JStr (String "[" (String "034" ("127.0.0.1:1" ++ String "034" "]")))) = Ok ["127.0.0.1:1"].
Proof. vm_compute. reflexivity. Qed.

(** * Facts about the configuration of the API *)

(** ** Text *)

Definition no_space (s : string) : bool := str_forall (λ c, negb (is_space c)) s.

Lemma strip_plain s : no_space s = true → strip s = s.
Proof. intros Hs. unfold strip. by rewrite (lstrip_plain _ s Hs), (rstrip_plain _ s Hs). Qed.

Lemma int_strip_plain s : no_space s = true → int_strip s = s.
Proof.
  intros Hs. unfold int_strip. destruct (is_ascii s); [|by apply strip_plain].
  assert (str_forall (λ c, negb (c_space c)) s = true) as Hc.
  { unfold no_space in Hs. revert Hs. induction s as [|c s IH]; [done|]. cbn [str_forall]. intros [H1 H2]%andb_true_iff.
    rewrite IH by done. rewrite andb_true_r. revert H1. unfold c_space, is_space. rewrite !negb_true_iff, !orb_false_iff.
    intros [[[H1 H3] _] _]. split; [done|]. rewrite andb_false_iff in H3. apply N.eqb_neq. to_prop. destruct H3 as [?|?]; to_prop; lia. }
  by rewrite (lstrip_plain _ s Hc), (rstrip_plain _ s Hc).
Qed.

Lemma rsplit_free c s : free_of c s = true → rsplit c s = None.
Proof.
  unfold free_of. induction s as [|d s IH]; [done|]. cbn [str_forall rsplit]. intros [Hd Hs]%andb_true_iff.
  rewrite IH by done. apply negb_true_iff, bool_decide_eq_false in Hd. by rewrite bool_decide_eq_false_2.
Qed.

Lemma rsplit_app c a b : free_of c b = true → rsplit c (a +:+ String c b) = Some (a, b).
Proof.
  intros Hb. induction a as [|d a IH].
  - change (rsplit c (String c b) = Some ("", b)). cbn [rsplit]. rewrite rsplit_free by done.
    by rewrite bool_decide_eq_true_2.
  - rewrite str_app_cons. cbn [rsplit]. by rewrite IH.
Qed.

Lemma plain_digits_all s b : str_forall is_digit s = true → b = true ∨ s ≠ "" → plain_digits b s = Some s.
Proof.
  revert b. induction s as [|c s IH]; intros b Hs Hb; cbn [plain_digits]; [by destruct Hb as [->|]|].
  cbn [str_forall] in Hs. apply andb_true_iff in Hs as [Hc Hs]. rewrite Hc, IH; [done|done|by left].
Qed.

(** A digit is no sign and no space. *)
Lemma digit_plain c : is_digit c = true → is_space c = false ∧ c ≠ "-"%char ∧ c ≠ "+"%char.
Proof. destruct c as [[] [] [] [] [] [] [] []]; vm_compute; intros H; try discriminate H; split_and!; done. Qed.

Lemma no_space_digits s : str_forall is_digit s = true → no_space s = true.
Proof.
  unfold no_space. induction s as [|c s IH]; [done|]. cbn [str_forall]. intros [Hc Hs]%andb_true_iff.
  destruct (digit_plain c Hc) as [-> _]. by rewrite IH.
Qed.

Lemma parse_int_str z : 0 <= z → parse_int (str_of_int z) = Ok z.
Proof.
  intros Hz. pose proof (digits_str_of_int z Hz) as [Hd Hn]%andb_true_iff.
  apply negb_true_iff, bool_decide_eq_false in Hn. unfold parse_int.
  rewrite int_strip_plain by by apply no_space_digits.
  assert (match str_of_int z with String "-" r => (-1, r) | String "+" r => (1, r) | _ => (1, str_of_int z) end
          = (1, str_of_int z)) as ->.
  { destruct (str_of_int z) as [|c s]; [done|]. cbn [str_forall] in Hd. apply andb_true_iff in Hd as [Hc _].
    destruct (digit_plain c Hc) as (_ & Hm & Hp).
    destruct c as [[] [] [] [] [] [] [] []]; try reflexivity; exfalso; [by apply Hp|by apply Hm]. }
  rewrite plain_digits_all by (try done; by right). rewrite int_of_str_of_int. f_equal. lia.
Qed.

(** ** Seeds *)

(** An endpoint that the policy on endpoints accepts. *)
Definition good_seed (checker : NodeConfig) (e : Endpoint) : Prop := config_validate_endpoint checker e = Ok e.

Lemma no_space_ipv4 v : no_space (ipv4_str v) = true.
Proof.
  unfold ipv4_str.
  assert (∀ k, no_space (str_of_int (v / 2 ^ k mod 256)) = true) as H.
  { intros k. apply no_space_digits. pose proof (digits_str_of_int _ (proj1 (octet_range v k))) as [Hd _]%andb_true_iff. done. }
  unfold no_space in *. rewrite ?str_forall_app, ?H. reflexivity.
Qed.

Lemma good_seed_text checker e :
  good_seed checker e → rsplit ":" (endpoint_text e) = Some (e.1, str_of_int e.2) ∧ no_space (endpoint_text e) = true ∧
    parse_int (str_of_int e.2) = Ok e.2 ∧ no_space e.1 = true ∧ no_space (str_of_int e.2) = true.
Proof.
  intros (_ & Hp & v & Hv & _)%validate_endpoint_Ok.
  assert (0 <= e.2) as H0 by lia. pose proof (digits_str_of_int _ H0) as Hd.
  pose proof Hd as [Hds _]%andb_true_iff. pose proof (no_space_digits _ Hds) as Hs. unfold endpoint_text.
  split_and!; [| |by apply parse_int_str|rewrite Hv; apply no_space_ipv4|done].
  - apply rsplit_app. by apply free_of_digits.
  - pose proof (no_space_ipv4 v) as Hv'. unfold no_space in *. rewrite !str_forall_app, Hv, Hv', Hs. reflexivity.
Qed.

Lemma clean_seed_Ok checker item s :
  clean_seed checker item = Ok s → ∃ e, s = endpoint_text e ∧ good_seed checker e.
Proof.
  destruct item as [| | |t| |]; try done. cbn [clean_seed]. intros (? & _ & H)%bind_Ok.
  destruct (rsplit ":" (strip t)) as [[h p]|]; [|done].
  apply bind_Ok in H as (n & _ & (e & He & [= <-])%bind_Ok). exists e. split; [done|].
  pose proof He as (-> & _)%validate_endpoint_Ok. done.
Qed.

Lemma clean_seeds_Ok checker items : ∀ acc l,
  clean_seeds checker items (map endpoint_text acc) = Ok l → NoDup (map endpoint_text acc) → Forall (good_seed checker) acc →
  ∃ es, l = map endpoint_text es ∧ NoDup l ∧ Forall (good_seed checker) es.
Proof.
  induction items as [|item items IH]; intros acc l Hl Hnd Hgood.
  { injection Hl as <-. by exists acc. }
  cbn [clean_seeds] in Hl. apply bind_Ok in Hl as (s & (e & -> & He)%clean_seed_Ok & Hl).
  case_bool_decide as Hin; [by eapply IH|].
  apply (IH (acc ++ [e])%list); [by rewrite map_app|rewrite map_app; cbn|by apply Forall_app; split; [|constructor]].
  apply NoDup_app. split_and!; [done| |apply NoDup_singleton].
  by intros x Hx ->%list_elem_of_singleton.
Qed.

(** The endpoints that the node is given are those that were checked. *)
Lemma seed_endpoints_Ok checker es :
  Forall (good_seed checker) es → seed_endpoints (map endpoint_text es) = Ok es.
Proof.
  unfold seed_endpoints. induction 1 as [|e es He _ IH]; [done|]. cbn [map omap list_omap].
  destruct (good_seed_text _ _ He) as (-> & _ & Hp & Hh & Hs).
  cbn [map_result]. rewrite (strip_plain (str_of_int e.2)), Hp by done. cbn [mbind result_bind].
  rewrite strip_plain by done.
  change (map_result (λ x, x) (omap _ (map endpoint_text es))) with (seed_endpoints (map endpoint_text es)).
  unfold seed_endpoints. rewrite IH. cbn [mbind result_bind]. by destruct e.
Qed.

(** ** The whole *)

Lemma existsb_none {A} (f : A → bool) (P : A → Prop) l :
  (∀ x, f x = false → P x) → existsb f l = false → Forall P l.
Proof.
  intros Hf. induction l as [|x l IH]; cbn [existsb]; [by constructor|]. intros [Hx Hl]%orb_false_iff.
  constructor; auto.
Qed.

Lemma validate_overall_Ok c c' :
  validate_overall c = Ok c' →
  c' = c ∧ 0 <= api_port c <= 65535 ∧ 0 <= node_port c <= 65535 ∧ Forall (λ q, 0 < q) (quotas c) ∧
  Forall (λ d, (0 < d)%Q) (api_durations c) ∧
  (enable_admin_routes c = true → demo_mode c = true ∧ ∃ t, admin_token c = Some t ∧ strip t ≠ "").
Proof.
  unfold validate_overall. intros (? & H1%raise_if_Ok & (? & H2%raise_if_Ok & (? & H3%raise_if_Ok &
    (? & H4%raise_if_Ok & H)%bind_Ok)%bind_Ok)%bind_Ok)%bind_Ok.
  apply negb_false_iff, andb_true_iff in H1 as [?%Z.leb_le ?%Z.leb_le].
  apply negb_false_iff, andb_true_iff in H2 as [?%Z.leb_le ?%Z.leb_le].
  assert (c' = c ∧ (enable_admin_routes c = true → demo_mode c = true ∧ ∃ t, admin_token c = Some t ∧ strip t ≠ "")) as [-> Ha].
  { destruct (enable_admin_routes c); [|by injection H as <-].
    apply bind_Ok in H as (? & Hd%raise_if_Ok & (? & Ht%raise_if_Ok & [= <-])%bind_Ok).
    split; [done|]. intros _. apply negb_false_iff in Hd. split; [done|].
    destruct (admin_token c) as [t|]; [|done]. exists t. split; [done|]. by apply bool_decide_eq_false in Ht. }
  split_and!; try done.
  - by eapply (existsb_none _ _ _ (λ x, proj1 (Z.leb_gt x 0))).
  - eapply existsb_none; [|exact H4]. intros d Hd. apply Qnot_le_lt. intros Hle%Qle_bool_iff. congruence.
Qed.

Lemma api_config_Ok c seeds c' :
  api_config c seeds = Ok c' →
  ∃ checker cleaned, seed_checker = Ok checker ∧ parse_seeds seeds = Ok cleaned ∧ node_seeds c' = cleaned ∧
    60 <= session_seconds c' <= 86400 ∧ validate_overall c' = Ok c' ∧
    match admin_token c' with Some t => t ≠ "" ∧ str_forall is_printable t = true | None => True end.
Proof.
  unfold api_config. intros (? & Hs%raise_if_Ok & (token & Ht & (origin & _ & (cleaned & Hc & H)%bind_Ok)%bind_Ok)%bind_Ok)%bind_Ok.
  apply negb_false_iff, andb_true_iff in Hs as [?%Z.leb_le ?%Z.leb_le].
  pose proof H as [-> _]%validate_overall_Ok.
  assert (∃ checker, seed_checker = Ok checker) as [checker Hch].
  { unfold parse_seeds in Hc. apply bind_Ok in Hc as (items & _ & (checker & Hch & _)%bind_Ok). by exists checker. }
  exists checker, cleaned. split_and!; try done.
  change (match token with Some t => t ≠ "" ∧ str_forall is_printable t = true | None => True end).
  destruct (admin_token c) as [t|] eqn:Hat; cbn [validate_admin_token] in Ht; [|by injection Ht as <-].
  apply bind_Ok in Ht as (? & Hf%raise_if_Ok & [= <-]). apply orb_false_iff in Hf as [Hf1%bool_decide_eq_false Hf2%negb_false_iff]. done.
Qed.
