(* ===== verification/MiningService.v ===== *)
(** * api/services/mining_service.py: jobs that mine in the background

    The service serves requests ([create_job], [cancel_job], [close]) and runs a
    worker task and a thread per job.  Each method is cut at its awaits: an
    [Action] is what runs until the next one, and [act] is its effect on the
    service and on the tasks that wait.  The asyncio lock is held across awaits
    by [create_job] alone, so [creator] is the lock.  Replies of the node are
    [Served]; [str(exc)] of an exception and the clock are arguments. *)

From Stdlib Require Import QArith Qround.
From coqutil Require Import Datatypes.RecordSetters.
Import DoubleBraceUpdate.
From S2P Require Import Prelude Bytes Json Crypto Transaction Utxo Block Consensus Mining Blockchain.
From S2P Require Import Effects NodeState Node Services ApiConfig.
#[local] Open Scope string_scope.
#[local] Open Scope Z_scope.

(** ** Jobs *)

Inductive JobStatus := QUEUED | MINING | FOUND | ACCEPTED | STALE | FAILED | CANCELLED.

#[export] Instance job_status_eq_dec : EqDecision JobStatus.
Proof. solve_decision. Defined.

(** [job.thread] and its [is_alive()] *)
Inductive JobThread := NoThread | Alive | Ended.

(** [job.error] *)
Inductive JobError :=
  | ExceededRuntime (seconds : Q)
  | Raised (text : string)
  | NodeError (text : string)
  | LostRace
  | RejectedByRules
  | NoProofFound (max_nonce : Z)
  | FailedToCommit (text : string).

(** [not job.error]: the text of an exception may be empty. *)
Definition no_error (e : option JobError) : bool :=
  match e with
  | None | Some (Raised EmptyString) => true
  | _ => false
  end.

Definition error_or (e : option JobError) (d : JobError) : option JobError := if no_error e then Some d else e.

Record MiningJob := MkJob {
  user_id : Z;
  job_address : string;
  job_status : JobStatus;
  created_at : Q;
  template_height : Z;
  previous_hash : string;
  transaction_count : Z;
  job_difficulty : Z;
  job_fees : Z;
  total_reward : Z;
  started_at : option Q;
  finished_at : option Q;
  result_hash : option string;
  job_nonce : option Z;
  job_tried : Z;
  current_hash : option string;
  elapsed_seconds : Q;
  accepted : option bool;
  job_error : option JobError;
  stop_event : bool;
  thread : JobThread
}.

(** [status in ("QUEUED", "MINING")] *)
Definition busy (s : JobStatus) : bool := bool_decide (s = QUEUED ∨ s = MINING).

(** What is sent to the clients. *)
Inductive Notice :=
  | MiningStarted (job_id address : string) (height difficulty count : Z)
  | MiningProgress (job_id : string) (nonce tried : Z) (hash : string) (elapsed : Q)
  | MiningCancelled (job_id : string) (tried : Z) (nonce : option Z) (elapsed : Q)
  | BlockFound (job_id : string) (height : Z) (hash : option string) (nonce : option Z) (tried : Z) (elapsed : Q)
  | BlockAccepted (job_id : string) (height : Z) (hash : option string) (address : string) (reward : Z)
      (nonce : option Z) (tried : Z) (elapsed : Q)
  | MiningFinished (job_id : string) (status : JobStatus) (error : option JobError) (nonce : option Z) (tried : Z)
      (elapsed : Q).

(** [round(x, 2)] *)
Definition round2 (x : Q) : Q :=
  let n := Qfloor (x * 100) in
  let r := (x * 100 - inject_Z n)%Q in
  let up := match Qcompare r (1 # 2) with Lt => false | Gt => true | Eq => Z.odd n end in
  (inject_Z (if up then n + 1 else n) / 100)%Q.

(** [finished - (job.started_at or finished)] *)
Definition elapsed_at (j : MiningJob) (now : Q) : Q :=
  match started_at j with
  | Some t => if Qeq_bool t 0 then 0%Q else (now - t)%Q
  | None => 0%Q
  end.

(** ** Tasks *)

(** Where a worker waits: to run at all; for the notice before its early
    return; for the notice of its start; for its thread; for a thread that was
    told to stop; for [accept_block]; for [get_status]; for its last notice or
    for the lock.  Or it has returned. *)
Inductive WorkerAt :=
  | Starting
  | EarlyReport
  | Announced
  | Joining
  | Overtime
  | Offering (mined : Block)
  | Asking
  | Finishing
  | Done.

Section service.
Context {EL : EcdsaLib} {CS : ChainStore}.

(** [offered] records the calls of [accept_block], each with its answer unless
    the call was cancelled before: the node may still handle it. *)
Record JobWorker := MkWorker {
  worker_template : Block;
  worker_max_nonce : Z;
  worker_at : WorkerAt;
  held : option (result (option Block));
  raised_text : string;
  last_progress : Q;
  offered : list (Block * option Served)
}.

(** A [create_job] that holds the lock, waiting for the template or for the
    parent of the template. *)
Record Creator := MkCreator {
  for_user : Z;
  for_address : string;
  bounded_nonce : Z;
  bounded_txs : Z;
  bounded_bytes : Z;
  got_template : option Block
}.

(** Where a [cancel_job] waits: for the thread, or for the lock. *)
Inductive CancelAt := CancelJoin | CancelLock.

Record MiningService := MkMining {
  jobs : gmap string MiningJob;
  active_job_id : option string;
  service_closed : bool;
  worker_task : option string;
  creator : option Creator;
  workers : gmap string JobWorker;
  cancelling : list (string * CancelAt);
  confirmed : list string;
  notices : list Notice
}.

Definition new_mining_service : MiningService := MkMining ∅ None false None None ∅ [] [] [].

Context (c : ApiConfig).

(** ** Asking the node *)

Definition template_of (v : Served) (address : string) (max_tx max_b : Z) : result Block :=
  expect (λ r, match r with RepBlock b => b | _ => None end) (reply_of v (CmdTemplate address None max_tx max_b)).
Definition accepted_by (v : Served) (b : Block) : result bool :=
  expect (λ r, match r with RepBool a => Some a | _ => None end) (reply_of v (CmdBlock b)).

(** ** Queries *)

Definition get_job (m : MiningService) (job_id : string) : result MiningJob :=
  match jobs m !! job_id with
  | Some j => Ok j
  | None => Raise (APIError 404 "JOB_NOT_FOUND")
  end.

Definition get_active_job (m : MiningService) : option MiningJob :=
  match active_job_id m with
  | Some i => match jobs m !! i with Some j => if busy (job_status j) then Some j else None | None => None end
  | None => None
  end.

(** ** [create_job] *)

(** [min(max(low, x), high)] *)
Definition bound (low x high : Z) : Z := Z.min (Z.max low x) high.

Definition coinbase_amount (template : Block) : Z :=
  match transactions template with
  | tx :: _ => match outputs tx with o :: _ => amount o | [] => 50 end
  | [] => 50
  end.

Definition template_height_of (parent : option (Block * Z)) : Z :=
  match parent with Some (_, h) => h + 1 | None => 1 end.

(** Until the template is asked for. *)
Definition create_begin (m : MiningService) (user : Z) (address : string) (max_tx max_b : Z) (max_nonce : option Z)
    : result Creator :=
  _ ← raise_if (service_closed m) (APIError 503 "SERVICE_UNAVAILABLE");
  _ ← raise_if (match active_job_id m with
                | Some i => match jobs m !! i with Some j => busy (job_status j) | None => false end
                | None => false
                end) (APIError 409 "MINING_BUSY");
  let limit := mining_max_nonce c in
  let wanted := match max_nonce with Some n => if n =? 0 then limit else n | None => limit end in
  Ok (MkCreator user address (bound 1 wanted limit) (bound 0 max_tx (mining_max_transactions c))
        (bound 1000 max_b (mining_max_bytes c)) None).

(** The job of a template. *)
Definition new_job (k : Creator) (template : Block) (parent : option (Block * Z)) (now : Q) : MiningJob :=
  MkJob (for_user k) (for_address k) QUEUED now (template_height_of parent) (previous_block_hash template)
    (Z.of_nat (length (transactions template))) (block_difficulty template)
    (Z.max 0 (coinbase_amount template - 50)) (coinbase_amount template)
    None None None None 0 None 0 None None false NoThread.

Definition create_job (m : MiningService) (k : Creator) (template : Block) (parent : option (Block * Z))
    (job_id : string) (now : Q) : MiningService :=
  m {{ jobs := <[job_id := new_job k template parent now]> (jobs m);
       active_job_id := Some job_id;
       worker_task := Some job_id;
       workers := <[job_id := MkWorker template (bounded_nonce k) Starting None "" 0 []]> (workers m);
       creator := None }}.

(** ** [build_candidate_template] *)

Record Candidate := MkCandidate {
  candidate_block : Block;
  candidate_height : Z;
  candidate_miner : string;
  candidate_fees : Z;
  candidate_reward : Z
}.

Definition build_candidate_template (v1 v2 : Served) (address : string) (max_tx max_b : Z) : result Candidate :=
  template ← template_of v1 address (bound 0 max_tx (mining_max_transactions c)) (bound 1000 max_b (mining_max_bytes c));
  parent ← block_info v2 (previous_block_hash template);
  Ok (MkCandidate template (template_height_of parent) address (Z.max 0 (coinbase_amount template - 50))
        (coinbase_amount template)).

(** ** [_run_mining] *)

(** A worker and its job after a turn, and the notices sent. *)
Definition Turn : Type := MiningJob * JobWorker * list Notice.

Definition start_mining (i : string) (now : Q) (j : MiningJob) (w : JobWorker) : Turn :=
  if stop_event j then (j {{ job_status := CANCELLED }}, w {{ worker_at := EarlyReport }}, [MiningCancelled i 0 (Some 0) 0])
  else (j {{ job_status := MINING; started_at := Some now }}, w {{ worker_at := Announced }},
        [MiningStarted i (job_address j) (template_height j) (job_difficulty j) (transaction_count j)]).

Definition start_thread (j : MiningJob) (w : JobWorker) : Turn :=
  (j {{ thread := Alive }}, w {{ worker_at := Joining }}, []).

(** [on_progress]; the callback runs in the loop and checks [_closed] there. *)
Definition on_progress (i : string) (now : Q) (closed : bool) (p : Progress) (j : MiningJob) (w : JobWorker) : Turn :=
  let j := j {{ job_nonce := Some (progress_nonce p); current_hash := Some (progress_hash p);
                job_tried := hashes_tried p; elapsed_seconds := elapsed_at j now }} in
  if Qle_bool (1 # 2) (now - last_progress w) then
    (j, w {{ last_progress := now }},
     if closed then []
     else [MiningProgress i (progress_nonce p) (hashes_tried p) (progress_hash p) (round2 (elapsed_seconds j))])
  else (j, w, []).

(** [worker_target], which has seen the stop event from the nonce [stop] on. *)
Definition worker_target (w : JobWorker) (stop : option Z) : result (option Block) :=
  fst <$> mine_block_with_progress (worker_template w) 0 (worker_max_nonce w) (Some (mining_progress_interval c))
            (λ n, match stop with Some s => s <=? n | None => false end).

Definition runtime_exceeded (j : MiningJob) (w : JobWorker) : Turn :=
  (j {{ stop_event := true; job_error := Some (ExceededRuntime (mining_max_runtime_seconds c)) }},
   w {{ worker_at := Overtime }}, []).

Definition finished_notice (i : string) (j : MiningJob) : Notice :=
  MiningFinished i (job_status j) (job_error j) (job_nonce j) (job_tried j) (round2 (elapsed_seconds j)).

(** What the thread has left is looked at. *)
Definition decide_job (i : string) (now : Q) (j : MiningJob) (w : JobWorker) : Turn :=
  let j := match held w with Some (Raise _) => j {{ job_error := Some (Raised (raised_text w)) }} | _ => j end in
  let j := j {{ finished_at := Some now; elapsed_seconds := elapsed_at j now }} in
  if stop_event j then
    (j {{ job_status := CANCELLED }}, w {{ worker_at := Finishing }},
     [MiningCancelled i (job_tried j) (job_nonce j) (round2 (elapsed_seconds j))])
  else
    match held w with
    | Some (Ok (Some mined)) =>
        let j := j {{ job_status := FOUND; result_hash := Some (block_hash mined); job_nonce := Some (block_nonce mined) }} in
        (j, w {{ worker_at := Offering mined }},
         [BlockFound i (template_height j) (result_hash j) (job_nonce j) (job_tried j) (round2 (elapsed_seconds j))])
    | _ =>
        let j := j {{ job_error := error_or (job_error j) (NoProofFound (worker_max_nonce w)); job_status := FAILED }} in
        (j, w {{ worker_at := Finishing }}, [finished_notice i j])
    end.

(** The answer of [accept_block]. *)
Definition offer_answered (i : string) (v : Served) (text : string) (mined : Block) (j : MiningJob) (w : JobWorker) : Turn :=
  let w := w {{ offered := (offered w ++ [(mined, Some v)])%list }} in
  let (ok, error) := match accepted_by v mined with Ok a => (a, job_error j) | Raise _ => (false, Some (NodeError text)) end in
  let j := j {{ job_error := error; accepted := Some ok }} in
  if (ok : bool) then
    (j {{ job_status := ACCEPTED }}, w {{ worker_at := Finishing }},
     [BlockAccepted i (template_height j) (result_hash j) (job_address j) (total_reward j) (job_nonce j) (job_tried j)
        (round2 (elapsed_seconds j))])
  else (j, w {{ worker_at := Asking }}, []).

(** The answer of [get_status]. *)
Definition status_answered (i : string) (v : Served) (text : string) (j : MiningJob) (w : JobWorker) : Turn :=
  let j := match status_of v with
           | Ok s =>
               if negb (bool_decide (status_tip s = previous_hash j))
               then j {{ job_status := STALE; job_error := error_or (job_error j) LostRace }}
               else j {{ job_status := FAILED; job_error := error_or (job_error j) RejectedByRules }}
           | Raise _ => j {{ job_status := FAILED; job_error := error_or (job_error j) (FailedToCommit text) }}
           end in
  (j, w {{ worker_at := Finishing }}, [finished_notice i j]).

(** What a worker waits for, or what its thread does. *)
Inductive WorkerEvent :=
  | Resumed
  | ThreadReported (nonce : Z)
  | ThreadEnded (stop : option Z) (text : string)
  | JoinTimedOut
  | JoinFailed (text : string)
  | NodeAnswered (v : Served) (text : string).

(** The turn of a worker.  The thread of a job reports nonces of its range, and
    has seen the stop event only if it is set.  [thread.join] waits for the end
    of the thread, or for three seconds in [Overtime]. *)
Definition worker_turn (i : string) (now : Q) (closed : bool) (e : WorkerEvent) (j : MiningJob) (w : JobWorker) : option Turn :=
  match e, worker_at w, thread j with
  | Resumed, Starting, _ => Some (start_mining i now j w)
  | Resumed, EarlyReport, _ => Some (j, w {{ worker_at := Done }}, [])
  | Resumed, Announced, _ => Some (start_thread j w)
  | Resumed, Joining, Ended => Some (decide_job i now j w)
  | Resumed, Overtime, _ => Some (decide_job i now j w)
  | JoinTimedOut, Joining, _ => Some (runtime_exceeded j w)
  | JoinFailed text, Joining, _ => Some (decide_job i now (j {{ job_error := Some (Raised text) }}) w)
  | NodeAnswered v text, Offering mined, _ => Some (offer_answered i v text mined j w)
  | NodeAnswered v text, Asking, _ => Some (status_answered i v text j w)
  | ThreadReported n, _, Alive =>
      if (0 <=? n) && (n <=? worker_max_nonce w) then
        Some (on_progress i now closed (MkProgress n (block_hash (set_nonce (worker_template w) n)) (n + 1)) j w)
      else None
  | ThreadEnded stop text, _, Alive =>
      if match stop with Some _ => stop_event j | None => true end then
        Some (j {{ thread := Ended }}, w {{ held := Some (worker_target w stop); raised_text := text }}, [])
      else None
  | _, _, _ => None
  end.

(** [async with self._lock] of the [finally] clause, or of [cancel_job]. *)
Definition release_active (i : string) (m : MiningService) : MiningService :=
  m {{ active_job_id := if bool_decide (active_job_id m = Some i) then None else active_job_id m }}.

(** ** [cancel_job] *)

(** Whether the job is to be cancelled. *)
Definition cancel_begin (m : MiningService) (job_id : string) (user : option Z) (is_admin : bool) : result bool :=
  j ← get_job m job_id;
  _ ← raise_if (match user with Some u => negb (user_id j =? u) | None => false end && negb is_admin) (APIError 403 "FORBIDDEN");
  Ok (busy (job_status j)).

(** The thread has ended, or three seconds have passed. *)
Definition mark_cancelled (now : Q) (j : MiningJob) : MiningJob :=
  j {{ job_status := CANCELLED; finished_at := Some now; elapsed_seconds := elapsed_at j now }}.

Definition request_cancel (m : MiningService) (job_id : string) (j : MiningJob) (now : Q) : MiningService :=
  let j := j {{ stop_event := true }} in
  match thread j with
  | Alive => m {{ jobs := <[job_id := j]> (jobs m); cancelling := (cancelling m ++ [(job_id, CancelJoin)])%list }}
  | _ => m {{ jobs := <[job_id := mark_cancelled now j]> (jobs m); cancelling := (cancelling m ++ [(job_id, CancelLock)])%list }}
  end.

(** ** [close] *)

Definition close_service (m : MiningService) : MiningService :=
  m {{ service_closed := true;
       jobs := match active_job_id m with
               | Some i => alter (λ j, j {{ stop_event := true }}) i (jobs m)
               | None => jobs m
               end }}.

(** [CancelledError] at the await where the worker is: from [Offering] on the
    [finally] clause still runs, unless it is what was waiting. *)
Definition interrupt (w : JobWorker) : JobWorker :=
  w {{ worker_at := match worker_at w with Offering _ | Asking => Finishing | _ => Done end;
       offered := match worker_at w with Offering b => (offered w ++ [(b, None)])%list | _ => offered w end }}.

(** ** The service *)

Inductive Action :=
  | CreateCalled (user : Z) (address : string) (max_tx max_b : Z) (max_nonce : option Z)
  | TemplateAnswered (v : Served)
  | ParentAnswered (v : Served) (job_id : string) (now : Q)
  | CreateAbandoned
  | WorkerTurn (job_id : string) (e : WorkerEvent) (now : Q)
  | WorkerFinished (job_id : string)
  | CancelCalled (job_id : string) (user : option Z) (is_admin : bool) (now : Q)
  | CancelJoined (k : nat) (now : Q)
  | CancelConfirmed (k : nat)
  | CancelAbandoned (k : nat)
  | CloseCalled
  | CloseInterrupted.

Definition act (a : Action) (m : MiningService) : option MiningService :=
  match a with
  | CreateCalled user address max_tx max_b max_nonce =>
      match creator m, create_begin m user address max_tx max_b max_nonce with
      | None, Ok k => Some (m {{ creator := Some k }})
      | _, _ => None
      end
  | TemplateAnswered v =>
      match creator m with
      | Some (MkCreator user address nonce txs bytes None) =>
          Some (m {{ creator := match template_of v address txs bytes with
                                | Ok b => Some (MkCreator user address nonce txs bytes (Some b))
                                | Raise _ => None
                                end }})
      | _ => None
      end
  | ParentAnswered v job_id now =>
      match creator m, jobs m !! job_id with
      | Some k, None =>
          template ← got_template k;
          Some match block_info v (previous_block_hash template) with
               | Ok parent => create_job m k template parent job_id now
               | Raise _ => m {{ creator := None }}
               end
      | _, _ => None
      end
  | CreateAbandoned => match creator m with Some _ => Some (m {{ creator := None }}) | None => None end
  | WorkerTurn i e now =>
      j ← jobs m !! i;
      w ← workers m !! i;
      t ← worker_turn i now (service_closed m) e j w;
      let '(j, w, l) := t : Turn in
      Some (m {{ jobs := <[i := j]> (jobs m); workers := <[i := w]> (workers m); notices := (notices m ++ l)%list }})
  | WorkerFinished i =>
      w ← workers m !! i;
      match worker_at w, creator m with
      | Finishing, None => Some (release_active i (m {{ workers := <[i := w {{ worker_at := Done }}]> (workers m) }}))
      | _, _ => None
      end
  | CancelCalled i user is_admin now =>
      j ← jobs m !! i;
      match cancel_begin m i user is_admin with
      | Ok true => Some (request_cancel m i j now)
      | _ => None
      end
  | CancelJoined k now =>
      match cancelling m !! k with
      | Some (i, CancelJoin) =>
          Some (m {{ jobs := alter (mark_cancelled now) i (jobs m); cancelling := <[k := (i, CancelLock)]> (cancelling m) }})
      | _ => None
      end
  | CancelConfirmed k =>
      match cancelling m !! k, creator m with
      | Some (i, CancelLock), None =>
          j ← jobs m !! i;
          Some (release_active i (m {{ cancelling := delete k (cancelling m); confirmed := (confirmed m ++ [i])%list;
            notices := (notices m ++ [MiningCancelled i (job_tried j) (job_nonce j) (round2 (elapsed_seconds j))])%list }}))
      | _, _ => None
      end
  | CancelAbandoned k => match cancelling m !! k with Some _ => Some (m {{ cancelling := delete k (cancelling m) }}) | None => None end
  | CloseCalled => Some (close_service m)
  | CloseInterrupted =>
      match service_closed m, worker_task m with
      | true, Some i => Some (m {{ workers := alter interrupt i (workers m) }})
      | _, _ => None
      end
  end.

(** A step of any task; refused calls change nothing. *)
Definition mining_step (m m' : MiningService) : Prop := ∃ a, act a m = Some m'.

Fixpoint run_actions (l : list Action) (m : MiningService) : option MiningService :=
  match l with
  | [] => Some m
  | a :: l => m' ← act a m; run_actions l m'
  end.
End service.
