(* ===== verification/MiningTheorems.v ===== *)
(** * What the mining service guarantees

    Whatever requests, workers, threads and cancellations interleave, and
    whatever the node answers: one job mines at a time, a cancelled job stays
    cancelled, and an accepted job is a block that the node has appended. *)

From Stdlib Require Import QArith.
From coqutil Require Import Datatypes.RecordSetters.
Import DoubleBraceUpdate.
From S2P Require Import Prelude Bytes Json Crypto Transaction Utxo Sample Mempool Block.
From S2P Require Import Consensus ChainState ChainFacts Mining Blockchain BlockchainFacts.
From S2P Require Import SampleChain Codec Database Storage NetConfig Messages Protocol Effects.
From S2P Require Import Peer PeerManager NodeState Sync Node NodeSteps SampleNode Services.
From S2P Require Import ApiConfig MiningService.
#[local] Open Scope Z_scope.

(** * Facts about the mining service

    Each job and its worker satisfy [job_inv], whatever the worker has done; a
    turn of the worker never makes a job busy again nor undoes a cancellation.
    [mining_ok] relates the jobs to the tasks that wait; every action keeps it. *)

(** ** A node that accepts a block has it at its tip *)

Section accepting.
Context {EL : EcdsaLib} {CS : ChainStore}.

(** A method of a node that leaves its chain alone. *)
Definition chain_kept {A} (m : node_call A) : Prop := ∀ n, node_chain (m n).2 = node_chain n.

Lemma chain_kept_bind {A B} (m : node_call A) (f : A → node_call B) :
  chain_kept m → (∀ a, chain_kept (f a)) → chain_kept (m ≫= f).
Proof.
  intros Hm Hf n. rewrite bind_run. specialize (Hm n). destruct (m n) as [[a|e] n']; [|exact Hm].
  rewrite (Hf a n'). exact Hm.
Qed.
Lemma chain_kept_when b m : chain_kept m → chain_kept (when b m).
Proof. by destruct b. Qed.
Lemma chain_kept_for {Y} (l : list Y) f : (∀ x, chain_kept (f x)) → chain_kept (for_each l f).
Proof. intros Hf. induction l as [|x l IH]; [done|]. apply chain_kept_bind; [apply Hf|by intros _]. Qed.
Lemma chain_kept_try {A} (m : node_call A) caught h :
  chain_kept m → (∀ e, chain_kept (h e)) → chain_kept (try_call m caught h).
Proof.
  intros Hm Hh n. unfold try_call. specialize (Hm n). destruct (m n) as [[a|e] n']; [done|].
  destruct (caught e); [|done]. rewrite (Hh e n'). exact Hm.
Qed.
Lemma chain_kept_session sid : chain_kept (session_of sid).
Proof. intros n. unfold session_of. by destruct (dict_get _ _). Qed.
Lemma chain_kept_on_peer {A} sid (m : call PeerConnection A) : chain_kept (on_peer sid m).
Proof. intros n. unfold on_peer. destruct (dict_get _ _); [|done]. by destruct (m _). Qed.

Ltac kept_step :=
  lazymatch goal with
  | |- chain_kept (_ ≫= _) => apply chain_kept_bind; [|intros ?]
  | |- chain_kept (when _ _) => apply chain_kept_when
  | |- chain_kept (for_each _ _) => apply chain_kept_for; intros ?
  | |- chain_kept (try_call _ _ _) => apply chain_kept_try; [|intros ?]
  | |- chain_kept (if ?b then _ else _) => destruct b
  | |- chain_kept (match ?x with _ => _ end) => destruct x
  | |- chain_kept _ => first [apply chain_kept_session | apply chain_kept_on_peer | done]
  end.

Lemma chain_kept_broadcast m src : chain_kept (broadcast m src).
Proof. unfold broadcast, send. repeat kept_step. Qed.

Lemma chain_kept_tip : chain_kept node_tip.
Proof. unfold node_tip. repeat kept_step. Qed.

(** What follows the commit of a block. *)
Lemma chain_kept_relay b source :
  chain_kept (
    _ ← count (λ k, k {{ blocks_accepted := blocks_accepted k + 1 }});
    _ ← tip_changed;
    _ ← ignore_policy_limit (
          c ← gets config;
          encoded ← lift (pack_block b (max_item_bytes c));
          broadcast (message "NEW_BLOCK" [("block", JStr encoded)] None) source);
    st ← status_payload;
    broadcast (message "STATUS" st None) None).
Proof.
  unfold tip_changed, ignore_policy_limit, status_payload, drop_export.
  repeat (apply chain_kept_broadcast || apply chain_kept_tip || kept_step).
Qed.

Lemma accept_block_extends limit b n n' :
  bc_inv limit (node_chain n) → node_accept_block b None n = (Ok true, n') →
  blocks (node_chain n') = (blocks (node_chain n) ++ [b])%list.
Proof.
  intros Hbc. unfold node_accept_block. step_run.
  pose proof (chain_kept_tip n) as Hn1. destruct (node_tip n) as [[t|e] n1]; [|done]. cbn [snd] in Hn1.
  destruct (negb _); [done|]. step_run. unfold node_add_block. step_run.
  pose proof (eq_refl : node_chain (node_world read_wall n1).2 = node_chain n1) as Hn2.
  destruct (node_world read_wall n1) as [[now|e] n2]; [|done]. cbn [snd] in Hn2.
  unfold on_chain, zoom. rewrite Hn2, Hn1. destruct (add_block b now None (node_chain n)) as [[[]|e] bc'] eqn:Ha; [|done..].
  step_run. cbn [when].
  pose proof (chain_kept_relay b None (n2 {{ node_chain := bc' }})) as Hrelay.
  lazymatch type of Hrelay with node_chain (snd ?run) = _ => destruct run as [[u|e] n3] end; [|done].
  cbn [snd] in Hrelay. intros [= <-]. rewrite Hrelay. change (blocks bc' = (blocks (node_chain n) ++ [b])%list).
  destruct (resolve_current_time now None) as [t'|e] eqn:Ht.
  - destruct (add_block_cases _ _ _ _ _ _ _ _ Hbc Ht Ha) as
      [(e & _ & ? & _)|[(? & _)|(next & mp & _ & _ & _ & [(s & rev & _ & ->)|(s & e & ? & _)])]]; done.
  - destruct (add_block_bad_time now None b (node_chain n) e Ht) as [e' He]. congruence.
Qed.

Lemma accepted_extends limit b n :
  bc_inv limit (node_chain n) → accepted_by (ServedBy n) b = Ok true →
  blocks (node_chain (command (CmdBlock b) n).2) = (blocks (node_chain n) ++ [b])%list.
Proof.
  intros Hbc. unfold accepted_by, reply_of. cbn [command]. unfold answer. step_run.
  pose proof (accept_block_extends limit b n) as Hext.
  destruct (node_accept_block b None n) as [[a|e] n']; [|done]. intros [= ->]. by apply Hext.
Qed.
End accepting.

(** ** One job *)

Section jobs.
Context {EL : EcdsaLib} {CS : ChainStore} (c : ApiConfig).

(** A block that the search of the worker may find. *)
Definition mined_by (w : JobWorker) (b : Block) : Prop :=
  ∃ n, 0 <= n <= worker_max_nonce w ∧ b = set_nonce (worker_template w) n ∧ validate_proof_of_work b = Ok true.

(** Cancelled for good, or certain to be. *)
Definition stopped (j : MiningJob) : Prop := job_status j = CANCELLED ∧ stop_event j = true.
Definition doomed (j : MiningJob) : Prop :=
  stop_event j = true ∧ (job_status j = QUEUED ∨ job_status j = MINING ∨ job_status j = CANCELLED).

(** What was offered to the node, and whether the node accepted it. *)
Definition offer_ok (j : MiningJob) (w : JobWorker) : Prop :=
  match offered w with
  | [] => job_status j ≠ ACCEPTED
  | [(b, answer)] => mined_by w b ∧ result_hash j = Some (block_hash b) ∧
      match answer, job_status j with
      | Some v, ACCEPTED => accepted_by v b = Ok true
      | Some v, (FOUND | STALE | FAILED) => accepted_by v b ≠ Ok true
      | None, FOUND => True
      | _, _ => False
      end
  | _ => False
  end.

Definition stage_ok (j : MiningJob) (w : JobWorker) : Prop :=
  match worker_at w with
  | Starting => (job_status j = QUEUED ∨ stopped j) ∧ offered w = []
  | EarlyReport => stopped j ∧ offered w = []
  | Announced | Joining => (job_status j = MINING ∨ stopped j) ∧ offered w = []
  | Overtime => (job_status j = MINING ∨ job_status j = CANCELLED) ∧ stop_event j = true ∧ offered w = []
  | Offering b => job_status j = FOUND ∧ mined_by w b ∧ result_hash j = Some (block_hash b) ∧ offered w = []
  | Asking => job_status j = FOUND ∧ Forall (λ p, is_Some p.2) (offered w)
  | Finishing => busy (job_status j) = false
  | Done => True
  end.

Record job_inv (j : MiningJob) (w : JobWorker) : Prop := {
  job_link : previous_hash j = previous_block_hash (worker_template w);
  job_held : ∀ b, held w = Some (Ok (Some b)) → mined_by w b;
  job_cancelled : job_status j = CANCELLED → stop_event j = true;
  job_offer : offer_ok j w;
  job_stage : stage_ok j w
}.

(** How a job may change. *)
Record evolves (j j' : MiningJob) : Prop := {
  evolves_busy : busy (job_status j') = true → busy (job_status j) = true;
  evolves_doomed : doomed j → doomed j';
  evolves_stopped : stopped j → stopped j'
}.

Lemma evolves_same j j' : job_status j' = job_status j → (stop_event j = true → stop_event j' = true) → evolves j j'.
Proof. intros Hs Hst. split; unfold doomed, stopped; rewrite Hs; naive_solver. Qed.

Lemma evolves_settle j j' :
  busy (job_status j') = false → (stop_event j = true → job_status j' = CANCELLED ∧ stop_event j' = true) → evolves j j'.
Proof. intros Hb Hst. split; unfold doomed, stopped; [congruence|naive_solver..]. Qed.

Lemma busy_cases s : busy s = true ↔ s = QUEUED ∨ s = MINING.
Proof. unfold busy. by rewrite bool_decide_eq_true. Qed.

Lemma worker_target_mined w stop b :
  worker_target c w stop = Ok (Some b) → mined_by w b.
Proof.
  unfold worker_target, mine_block_with_progress. intros ([r ps] & Hm & Hr)%fmap_Ok. cbn in Hr. subst r.
  apply bind_Ok in Hm as (? & _ & (? & _ & (? & Hle%raise_if_Ok & Hm)%bind_Ok)%bind_Ok).
  apply Z.ltb_ge in Hle. apply mine_loop_spec in Hm as (k & Hk & -> & Hs & _).
  exists (0 + k). split_and!; [lia..|done|exact Hs].
Qed.

(** *** Turns *)

Definition turn_ok (j : MiningJob) (w : JobWorker) (t : Turn) : Prop := job_inv t.1.1 t.1.2 ∧ evolves j t.1.1.

Lemma mined_by_same w w' b :
  worker_template w' = worker_template w → worker_max_nonce w' = worker_max_nonce w → mined_by w b → mined_by w' b.
Proof. unfold mined_by. by intros -> ->. Qed.

Lemma turn_intro j w j' w' l :
  job_inv j w → evolves j j' → previous_hash j' = previous_hash j → worker_template w' = worker_template w →
  worker_max_nonce w' = worker_max_nonce w → (∀ b, held w' = Some (Ok (Some b)) → mined_by w b) →
  (job_status j' = CANCELLED → stop_event j' = true) → offer_ok j' w' → stage_ok j' w' → turn_ok j w (j', w', l).
Proof.
  intros [Hl _ _ _ _] He Hp Ht Hm Hh Hc Ho Hs. split; [|done]. cbn. split; [congruence| |done..].
  intros b Hb. eapply mined_by_same; [done..|]. by apply Hh.
Qed.

Lemma offer_none j w : offered w = [] → job_status j ≠ ACCEPTED → offer_ok j w.
Proof. unfold offer_ok. by intros ->. Qed.

Lemma offer_one j w b v s :
  offered w = [(b, Some v)] → mined_by w b → result_hash j = Some (block_hash b) → job_status j = s →
  match s with
  | ACCEPTED => accepted_by v b = Ok true
  | FOUND | STALE | FAILED => accepted_by v b ≠ Ok true
  | _ => False
  end → offer_ok j w.
Proof. unfold offer_ok. by intros -> ? ? ->. Qed.

(** A turn that leaves the stage and what matters of the job. *)
Lemma turn_same j w j' w' l :
  job_inv j w → previous_hash j' = previous_hash j → job_status j' = job_status j → stop_event j' = stop_event j →
  result_hash j' = result_hash j → worker_template w' = worker_template w → worker_max_nonce w' = worker_max_nonce w →
  worker_at w' = worker_at w → offered w' = offered w → (∀ b, held w' = Some (Ok (Some b)) → mined_by w b) →
  turn_ok j w (j', w', l).
Proof.
  intros Hi Hp Hs Hst Hr Ht Hm Ha Ho Hh. pose proof Hi as [_ _ Hc Hof Hsg]. apply turn_intro; try done.
  - apply evolves_same; congruence.
  - by rewrite Hs, Hst.
  - unfold offer_ok, mined_by in *. by rewrite Ho, Hs, Hr, Ht, Hm.
  - unfold stage_ok, mined_by, stopped in *. by rewrite Ha, Hs, Ho, Hr, Hst, Ht, Hm.
Qed.

Lemma start_mining_ok i now j w : job_inv j w → worker_at w = Starting → turn_ok j w (start_mining i now j w).
Proof.
  intros Hi Hat. pose proof Hi as [_ Hh _ _ Hs]. unfold stage_ok in Hs. rewrite Hat in Hs. destruct Hs as [Hs Ho].
  unfold start_mining. destruct (stop_event j) eqn:Hst.
  - apply turn_intro; try done; [|by apply offer_none].
    apply evolves_settle; [done|]. intros _. by split.
  - destruct Hs as [Hs|[_ Hs]]; [|congruence]. apply turn_intro; try done; [|by apply offer_none|by split; [left|]].
    split; unfold doomed, stopped; [by rewrite Hs|intros [? _]; congruence|intros [_ ?]; congruence].
Qed.

Lemma start_thread_ok j w : job_inv j w → worker_at w = Announced → turn_ok j w (start_thread j w).
Proof.
  intros Hi Hat. pose proof Hi as [_ Hh Hc Ho Hs]. unfold stage_ok in Hs. rewrite Hat in Hs.
  by apply turn_intro; [|apply evolves_same| | | | | | |].
Qed.

Lemma runtime_exceeded_ok j w : job_inv j w → worker_at w = Joining → turn_ok j w (runtime_exceeded c j w).
Proof.
  intros Hi Hat. pose proof Hi as [_ Hh Hc Ho Hs]. unfold stage_ok in Hs. rewrite Hat in Hs. destruct Hs as [Hs Hof].
  apply turn_intro; try done; [by apply evolves_same|].
  split_and!; try done. destruct Hs as [Hs|[Hs _]]; [by left|by right].
Qed.

Lemma decide_job_ok i now j w :
  job_inv j w → job_status j = MINING ∨ (job_status j = CANCELLED ∧ stop_event j = true) → offered w = [] →
  turn_ok j w (decide_job i now j w).
Proof.
  intros Hi Hs Ho. unfold decide_job.
  set (j1 := match held w with Some (Raise _) => _ | _ => j end).
  assert (previous_hash j1 = previous_hash j ∧ job_status j1 = job_status j ∧ stop_event j1 = stop_event j) as (Hp & Hst & Hev)
    by (subst j1; by destruct (held w) as [[]|]).
  clearbody j1. set (j2 := j1 {{ finished_at := _; elapsed_seconds := _ }}).
  change (stop_event j2) with (stop_event j1). rewrite Hev. destruct (stop_event j) eqn:Hstop.
  - apply turn_intro; try done; [|apply (job_held _ _ Hi)|by apply offer_none].
    apply evolves_settle; [done|]. intros _. by split.
  - destruct Hs as [Hs|[_ ?]]; [|done].
    assert (∀ j3, job_status j3 = FAILED ∨ job_status j3 = FOUND → evolves j j3) as Hev3.
    { intros j3 H3. apply evolves_settle; [by destruct H3 as [->| ->]|congruence]. }
    pose proof (job_held _ _ Hi) as Hh.
    assert (∀ j3 l, previous_hash j3 = previous_hash j → job_status j3 = FAILED →
      turn_ok j w (j3, w {{ worker_at := Finishing }}, l)) as Hfail.
    { intros j3 l Hp3 H3. apply turn_intro; try (done || exact Hh); [by apply Hev3; left|congruence| |].
      - apply offer_none; [done|congruence].
      - unfold stage_ok. cbn. by rewrite H3. }
    destruct (held w) as [[[b|]|e]|] eqn:Hheld; try by apply Hfail.
    apply turn_intro; try done; [by apply Hev3; right|by rewrite <- Hheld in Hh|by apply offer_none|].
    split_and!; try done. by apply Hh.
Qed.

Lemma offer_answered_ok i v text b j w :
  job_inv j w → worker_at w = Offering b → turn_ok j w (offer_answered i v text b j w).
Proof.
  intros Hi Hat. pose proof Hi as [_ Hh Hc _ Hs]. unfold stage_ok in Hs. rewrite Hat in Hs. destruct Hs as (Hs & Hb & Hr & Ho).
  assert (∀ j3, job_status j3 = ACCEPTED ∨ job_status j3 = FOUND → stop_event j3 = stop_event j → evolves j j3) as Hev3.
  { intros j3 H3 H4. split; unfold doomed, stopped; rewrite Hs; [by destruct H3 as [->| ->]|naive_solver..]. }
  unfold offer_answered. destruct (accepted_by v b) as [[]|e] eqn:Ha.
  - apply turn_intro; try done; [by apply Hev3; [left|]|].
    apply (offer_one _ _ b v ACCEPTED); try done. cbn. by rewrite Ho.
  - apply turn_intro; try done; [apply (offer_one _ _ b v FOUND); try done; [cbn; by rewrite Ho|congruence]|].
    split; [done|]. cbn. rewrite Ho. by repeat constructor.
  - apply turn_intro; try done; [apply (offer_one _ _ b v FOUND); try done; [cbn; by rewrite Ho|congruence]|].
    split; [done|]. cbn. rewrite Ho. by repeat constructor.
Qed.

Lemma status_answered_ok i v text j w :
  job_inv j w → worker_at w = Asking → turn_ok j w (status_answered i v text j w).
Proof.
  intros Hi Hat. pose proof Hi as [_ Hh Hc Ho Hs]. unfold stage_ok in Hs. rewrite Hat in Hs. destruct Hs as [Hs Hall].
  unfold status_answered. set (j1 := match status_of v with Ok _ => _ | Raise _ => _ end).
  assert (previous_hash j1 = previous_hash j ∧ result_hash j1 = result_hash j ∧ stop_event j1 = stop_event j ∧
    (job_status j1 = STALE ∨ job_status j1 = FAILED)) as (Hp & Hr & Hst & Hj).
  { subst j1. destruct (status_of v); [case_match|]; split_and!; try done; (by left) || by right. }
  clearbody j1. apply turn_intro; try done.
  - split; unfold doomed, stopped; rewrite Hs; [by destruct Hj as [->| ->]|naive_solver..].
  - by destruct Hj as [->| ->].
  - unfold offer_ok in *. change (offered (w {{ worker_at := Finishing }})) with (offered w).
    destruct (offered w) as [|[b o] [|]]; [by destruct Hj as [->| ->]| |done].
    apply Forall_singleton in Hall as [v' Heq]. cbn in Heq. subst o.
    change (mined_by (w {{ worker_at := Finishing }}) b) with (mined_by w b).
    rewrite Hs in Ho. rewrite Hr. by destruct Hj as [->| ->].
  - unfold stage_ok. cbn. by destruct Hj as [->| ->].
Qed.

(** Every turn of a worker or of its thread. *)
Lemma worker_turn_ok i now closed e j w t :
  worker_turn c i now closed e j w = Some t → job_inv j w → turn_ok j w t.
Proof.
  intros Ht Hi. pose proof Hi as [_ Hh _ _ Hs]. unfold worker_turn in Ht. unfold stage_ok in Hs.
  destruct e as [|n|stop text| |text|v text].
  - destruct (worker_at w) eqn:Hat; try done; try (injection Ht as <-).
    + by apply start_mining_ok.
    + apply turn_intro; try done; apply Hi.
    + by apply start_thread_ok.
    + destruct (thread j); [done..|]. injection Ht as <-. destruct Hs as [Hs Ho]. by apply decide_job_ok.
    + destruct Hs as (Hs & Hst & Ho). apply decide_job_ok; [done| |done]. destruct Hs as [?|?]; [by left|by right].
  - destruct (thread j); [by destruct (worker_at w)..| |by destruct (worker_at w)].
    assert (∃ t', (if (0 <=? n) && (n <=? worker_max_nonce w) then Some t' else None) = Some t ∧
      t' = on_progress i now closed (MkProgress n (block_hash (set_nonce (worker_template w) n)) (n + 1)) j w) as (t' & Hp & ->)
      by (eexists; split; [|done]; by destruct (worker_at w)).
    destruct (_ && _); [|done]. injection Hp as <-. unfold on_progress. cbv zeta. destruct (Qle_bool _ _); by apply turn_same.
  - destruct (thread j); [by destruct (worker_at w)..| |by destruct (worker_at w)].
    assert ((if match stop with Some _ => stop_event j | None => true end then
        Some (j {{ thread := Ended }}, w {{ held := Some (worker_target c w stop); raised_text := text }}, [] : list Notice)
      else None) = Some t) as Hp by (by destruct (worker_at w)).
    destruct (match stop with Some _ => _ | None => _ end); [|done]. injection Hp as <-.
    apply turn_same; try done. intros b [= Hb]. by eapply worker_target_mined.
  - destruct (worker_at w) eqn:Hat; try done. injection Ht as <-. by apply runtime_exceeded_ok.
  - destruct (worker_at w) eqn:Hat; try done. injection Ht as <-. destruct Hs as [Hs Ho].
    set (j1 := j {{ job_error := Some (Raised text) }}).
    assert (turn_ok j w (j1, w, [])) as [H1 H2] by (by apply turn_same).
    destruct (decide_job_ok i now j1 w H1 Hs Ho) as [H3 H4]. split; [done|].
    destruct H2, H4. split; auto.
  - destruct (worker_at w) eqn:Hat; try done; injection Ht as <-; [by apply offer_answered_ok|by apply status_answered_ok].
Qed.

(** *** What requests do to a job *)

Lemma mark_cancelled_ok now j w : job_inv j w → doomed j → job_inv (mark_cancelled now j) w ∧ stopped (mark_cancelled now j).
Proof.
  intros [Hl Hh Hc Ho Hs] [Hst Hj]. split; [|done]. split; try done.
  - unfold offer_ok in *. destruct (offered w) as [|[b o] [|]]; [done| |done].
    destruct Ho as (_ & _ & Ho). by destruct o, Hj as [H|[H|H]]; rewrite H in Ho.
  - unfold stage_ok in *. destruct (worker_at w); try done.
    + split; [by right|apply Hs].
    + split; [done|apply Hs].
    + split; [by right|apply Hs].
    + split; [by right|apply Hs].
    + split; [by right|apply Hs].
    + destruct Hs as [Hs _]. by destruct Hj as [H|[H|H]]; rewrite H in Hs.
    + destruct Hs as [Hs _]. by destruct Hj as [H|[H|H]]; rewrite H in Hs.
Qed.

Lemma mark_cancelled_evolves now j : doomed j → evolves j (mark_cancelled now j).
Proof. intros [Hst _]. apply evolves_settle; [done|]. intros _. done. Qed.

Lemma stop_job_ok j w : job_inv j w → job_inv (j {{ stop_event := true }}) w ∧ evolves j (j {{ stop_event := true }}).
Proof.
  intros [Hl Hh Hc Ho Hs]. split; [|by apply evolves_same]. split; try done.
  unfold stage_ok, stopped in *. destruct (worker_at w); try done; change (job_status (j {{ stop_event := true }})) with (job_status j);
    change (stop_event (j {{ stop_event := true }})) with true; naive_solver.
Qed.

Lemma interrupt_ok j w : job_inv j w → job_inv j (interrupt w).
Proof.
  intros [Hl Hh Hc Ho Hs]. unfold stage_ok, offer_ok, interrupt in *. split; try done; unfold stage_ok, offer_ok; cbn.
  - destruct (worker_at w); try done. destruct Hs as (-> & Hb & Hr & Hof). by rewrite Hof.
  - by destruct (worker_at w); try done; destruct Hs as [-> _].
Qed.

(** ** The whole service *)

(** The jobs and what waits for them. *)
Record mining_ok (js : gmap string MiningJob) (ws : gmap string JobWorker) (active : option string)
    (creating : bool) (waiting : list (string * CancelAt)) (done : list string) : Prop := {
  ok_jobs : ∀ i j, js !! i = Some j → ∃ w, ws !! i = Some w ∧ job_inv j w;
  ok_active : ∀ i j, js !! i = Some j → busy (job_status j) = true → active = Some i ∧ creating = false;
  ok_waiting : ∀ i a, (i, a) ∈ waiting → ∃ j, js !! i = Some j ∧ match a with CancelJoin => doomed j | CancelLock => stopped j end;
  ok_done : ∀ i, i ∈ done → ∃ j, js !! i = Some j ∧ stopped j
}.

Definition mining_inv (m : MiningService) : Prop :=
  mining_ok (jobs m) (workers m) (active_job_id m) (match creator m with Some _ => true | None => false end)
    (cancelling m) (confirmed m).

(** One job and its worker change. *)
Lemma ok_update js ws a cr wt d i j w :
  mining_ok js ws a cr wt d → (∀ j0, js !! i = Some j0 → evolves j0 j) → is_Some (js !! i) → job_inv j w →
  mining_ok (<[i := j]> js) (<[i := w]> ws) a cr wt d.
Proof.
  intros [Hj Ha Hw Hd] He [j0 Hj0] Hi. pose proof (He j0 Hj0) as [Eb Ed Es].
  split.
  - intros i' j' [[-> ->]|[Hne Hl]]%lookup_insert_Some; [exists w; by rewrite lookup_insert_eq|].
    rewrite lookup_insert_ne by done. by apply Hj.
  - intros i' j' [[-> ->]|[Hne Hl]]%lookup_insert_Some Hb; [by eapply Ha, Eb|by eapply Ha].
  - intros i' b Hin. destruct (Hw i' b Hin) as (j' & Hl & Hb). destruct (decide (i = i')) as [->|Hne].
    + exists j. rewrite lookup_insert_eq. split; [done|]. rewrite Hj0 in Hl. injection Hl as <-. destruct b; auto.
    + exists j'. by rewrite lookup_insert_ne.
  - intros i' Hin. destruct (Hd i' Hin) as (j' & Hl & Hb). destruct (decide (i = i')) as [->|Hne].
    + exists j. rewrite lookup_insert_eq. split; [done|]. rewrite Hj0 in Hl. injection Hl as <-. auto.
    + exists j'. by rewrite lookup_insert_ne.
Qed.

Lemma ok_update_job js ws a cr wt d i j j0 :
  mining_ok js ws a cr wt d → js !! i = Some j0 → evolves j0 j → (∀ w, job_inv j0 w → job_inv j w) →
  mining_ok (<[i := j]> js) ws a cr wt d.
Proof.
  intros Hok Hj0 He Hi. destruct (ok_jobs _ _ _ _ _ _ Hok i j0 Hj0) as (w & Hw & Hinv).
  rewrite <- (insert_id ws i w) by done. apply ok_update; [done| |by eexists|by apply Hi].
  intros j1. rewrite Hj0. by intros [= <-].
Qed.

Lemma ok_waiting_sub js ws a cr wt wt' d :
  mining_ok js ws a cr wt d → (∀ x, x ∈ wt' → x ∈ wt) → mining_ok js ws a cr wt' d.
Proof. intros [Hj Ha Hw Hd] Hsub. split; [done|done| |done]. intros i b Hin. by apply Hw, Hsub. Qed.

Lemma ok_waiting_add js ws a cr wt d i b j :
  mining_ok js ws a cr wt d → js !! i = Some j → match b with CancelJoin => doomed j | CancelLock => stopped j end →
  mining_ok js ws a cr (wt ++ [(i, b)])%list d.
Proof.
  intros [Hj Ha Hw Hd] Hl Hb. split; [done|done| |done].
  intros i' b' [Hin|Hin%list_elem_of_singleton]%elem_of_app; [by apply Hw|]. injection Hin as -> ->. by exists j.
Qed.

Lemma ok_release js ws a cr wt d i :
  mining_ok js ws a cr wt d → (∀ j, js !! i = Some j → busy (job_status j) = false) →
  mining_ok js ws (if bool_decide (a = Some i) then None else a) cr wt d.
Proof.
  intros [Hj Ha Hw Hd] Hb. split; [done| |done|done]. intros i' j Hl Hbusy. destruct (Ha i' j Hl Hbusy) as [-> ->].
  split; [|done]. case_bool_decide as Heq; [|done]. injection Heq as ->. rewrite (Hb j Hl) in Hbusy. done.
Qed.

Lemma ok_creating js ws a cr wt d : mining_ok js ws a cr wt d → mining_ok js ws a false wt d.
Proof. intros [Hj Ha Hw Hd]. split; [done| |done|done]. intros i j Hl Hb. by destruct (Ha i j Hl Hb). Qed.

Lemma active_idle m i j k user address max_tx max_b max_nonce :
  mining_inv m → create_begin c m user address max_tx max_b max_nonce = Ok k → jobs m !! i = Some j →
  busy (job_status j) = false.
Proof.
  intros [_ Ha _ _] (? & _ & (? & Hb%raise_if_Ok & _)%bind_Ok)%bind_Ok Hl.
  destruct (busy (job_status j)) eqn:Hbusy; [|done]. destruct (Ha i j Hl Hbusy) as [Hact _].
  by rewrite Hact, Hl, Hbusy in Hb.
Qed.

Lemma create_job_ok m k template parent i now :
  mining_inv m → creator m = Some k → jobs m !! i = None → mining_inv (create_job m k template parent i now).
Proof.
  intros [Hj Ha Hw Hd] Hk Hfresh. rewrite Hk in Ha.
  assert (∀ i' j, jobs m !! i' = Some j → i ≠ i') as Hne by congruence.
  change (mining_ok (<[i := new_job k template parent now]> (jobs m))
    (<[i := MkWorker template (bounded_nonce k) Starting None EmptyString 0 []]> (workers m)) (Some i) false
    (cancelling m) (confirmed m)).
  split.
  - intros i' j [[<- <-]|[Hne' Hl]]%lookup_insert_Some; [|rewrite lookup_insert_ne by done; by apply Hj].
    eexists. rewrite lookup_insert_eq. split; [done|]. split; try done. cbn. by split; [left|].
  - intros i' j [[<- <-]|[Hne' Hl]]%lookup_insert_Some Hb; [done|]. by destruct (Ha i' j Hl Hb).
  - intros i' b Hin. destruct (Hw i' b Hin) as (j & Hl & Hb). exists j. by rewrite lookup_insert_ne by by eapply Hne.
  - intros i' Hin. destruct (Hd i' Hin) as (j & Hl & Hb). exists j. by rewrite lookup_insert_ne by by eapply Hne.
Qed.

Lemma request_cancel_ok m i j now :
  mining_inv m → jobs m !! i = Some j → busy (job_status j) = true → mining_inv (request_cancel m i j now).
Proof.
  intros Hm Hl Hb. unfold request_cancel. set (j1 := j {{ stop_event := true }}).
  assert (∀ w, job_inv j w → job_inv j1 w) as Hi by (intros w Hw; by apply stop_job_ok).
  assert (evolves j j1) as He by by apply evolves_same.
  assert (doomed j1) as Hdoom.
  { split; [done|]. change (job_status j1) with (job_status j). apply busy_cases in Hb as [->| ->]; auto. }
  change (thread j1) with (thread j).
  assert (mining_inv (m {{ jobs := <[i := mark_cancelled now j1]> (jobs m); cancelling := (cancelling m ++ [(i, CancelLock)])%list }})) as Hmark.
  { eapply ok_waiting_add; [eapply ok_update_job; [exact Hm|done| |]|apply lookup_insert_eq|done].
    - pose proof (mark_cancelled_evolves now j1 Hdoom) as He2. destruct He, He2. split; auto.
    - intros w Hw. by apply mark_cancelled_ok; [apply Hi|]. }
  destruct (thread j); [exact Hmark| |exact Hmark].
  eapply ok_waiting_add; [by eapply ok_update_job|apply lookup_insert_eq|done].
Qed.

Lemma elem_of_delete {A} (x : A) (l : list A) (k : nat) : x ∈ delete k l → x ∈ l.
Proof.
  revert k. induction l as [|y l IH]; intros k; [done|]. destruct k as [|k]; cbn.
  - intros Hx. by right.
  - intros [->|Hx]%elem_of_cons; [by left|right; by eapply IH].
Qed.

(** Every action keeps the invariant. *)
Lemma act_ok a m m' : mining_inv m → act c a m = Some m' → mining_inv m'.
Proof.
  intros Hm Ha. destruct a as [user address mt mb mn|v|v i now| |i e now|i|i user adm now|k now|k|k| |]; cbn [act] in Ha.
  - destruct (creator m) eqn:Hk; [done|]. destruct (create_begin c m _ _ _ _ _) as [k|e] eqn:Hc; [|done]. injection Ha as <-.
    pose proof Hm as [Hj _ Hw Hd]. split; try done. intros i j Hl Hb. by rewrite (active_idle _ _ _ _ _ _ _ _ _ Hm Hc Hl) in Hb.
  - destruct (creator m) as [[u ad no tx by' []]|] eqn:Hk; [done| |done]. injection Ha as <-.
    unfold mining_inv in *. rewrite Hk in Hm. change (match creator m with Some _ => true | None => false end) with true in Hm.
    destruct (template_of v ad tx by'); [exact Hm|by apply ok_creating in Hm].
  - destruct (creator m) as [k|] eqn:Hk; [|done]. destruct (jobs m !! i) eqn:Hfresh; [done|].
    destruct (got_template k) as [b|]; [|done]. cbn in Ha. injection Ha as <-.
    destruct (block_info v (previous_block_hash b)); [by apply create_job_ok|]. by eapply ok_creating in Hm.
  - destruct (creator m) eqn:Hk; [|done]. injection Ha as <-. by eapply ok_creating in Hm.
  - destruct (jobs m !! i) as [j|] eqn:Hl; [|done]. destruct (workers m !! i) as [w|] eqn:Hw; [|done]. cbn in Ha.
    destruct (worker_turn c i now (service_closed m) e j w) as [[[j' w'] l]|] eqn:Ht; [|done]. cbn in Ha. injection Ha as <-.
    destruct (ok_jobs _ _ _ _ _ _ Hm i j Hl) as (w0 & Hw0 & Hinv). rewrite Hw in Hw0. injection Hw0 as <-.
    destruct (worker_turn_ok _ _ _ _ _ _ _ Ht Hinv) as [Hinv' He].
    apply ok_update; [exact Hm| |by eexists|done]. intros j0. rewrite Hl. by intros [= <-].
  - destruct (workers m !! i) as [w|] eqn:Hw; [|done]. cbn in Ha. destruct (worker_at w) eqn:Hat; try done.
    destruct (creator m) eqn:Hk; [done|]. injection Ha as <-.
    pose proof Hm as Hm'. unfold mining_inv in Hm'. rewrite Hk in Hm'.
    assert (∀ j, jobs m !! i = Some j → job_inv j w ∧ busy (job_status j) = false) as Hi.
    { intros j Hl. destruct (ok_jobs _ _ _ _ _ _ Hm i j Hl) as (w0 & Hw0 & Hinv). rewrite Hw in Hw0. injection Hw0 as <-.
      split; [done|]. pose proof (job_stage _ _ Hinv) as Hs. unfold stage_ok in Hs. by rewrite Hat in Hs. }
    change (mining_ok (jobs m) (<[i := w {{ worker_at := Done }}]> (workers m))
      (if bool_decide (active_job_id m = Some i) then None else active_job_id m)
      (match creator m with Some _ => true | None => false end) (cancelling m) (confirmed m)).
    rewrite Hk. apply ok_release; [|intros j Hl; by apply Hi].
    destruct Hm' as [Hj Hac Hwt Hd]. split; [|done..]. intros i' j Hl. destruct (decide (i = i')) as [<-|Hne].
    + eexists. rewrite lookup_insert_eq. split; [done|]. destruct (Hi j Hl) as [[? ? ? ? ?] _]. by split.
    + rewrite lookup_insert_ne by done. by apply Hj.
  - destruct (jobs m !! i) as [j|] eqn:Hl; [|done]. cbn in Ha. destruct (cancel_begin m i user adm) as [[]|] eqn:Hc; [|done..].
    injection Ha as <-. apply request_cancel_ok; [done..|]. unfold cancel_begin, get_job in Hc. rewrite Hl in Hc.
    cbn [mbind result_bind] in Hc. by apply bind_Ok in Hc as (? & _ & [= Hb]).
  - destruct (cancelling m !! k) as [[i []]|] eqn:Hk; [|done..]. injection Ha as <-.
    destruct (ok_waiting _ _ _ _ _ _ Hm i CancelJoin) as (j & Hl & Hdoom); [by eapply list_elem_of_lookup_2|].
    change (mining_ok (alter (mark_cancelled now) i (jobs m)) (workers m) (active_job_id m)
      (match creator m with Some _ => true | None => false end) (<[k := (i, CancelLock)]> (cancelling m)) (confirmed m)).
    replace (alter (mark_cancelled now) i (jobs m)) with (<[i := mark_cancelled now j]> (jobs m))
      by (symmetry; by apply alter_some).
    rewrite insert_take_drop by by eapply lookup_lt_Some.
    eapply (ok_waiting_sub _ _ _ _ (cancelling m ++ [(i, CancelLock)])%list).
    + eapply ok_waiting_add; [eapply ok_update_job; [exact Hm|done|by apply mark_cancelled_evolves|]|apply lookup_insert_eq|].
      * intros w Hw. by apply mark_cancelled_ok.
      * split; [done|]. apply Hdoom.
    + intros x [Hx|[->|Hx]%elem_of_cons]%elem_of_app; apply elem_of_app.
      * left. rewrite <- (take_drop k (cancelling m)). apply elem_of_app. by left.
      * right. by apply list_elem_of_singleton.
      * left. rewrite <- (take_drop (S k) (cancelling m)). apply elem_of_app. by right.
  - destruct (cancelling m !! k) as [[i []]|] eqn:Hk; [done| |done]. destruct (creator m) eqn:Hcr; [done|].
    destruct (jobs m !! i) as [j|] eqn:Hl; [|done]. cbn in Ha. injection Ha as <-.
    destruct (ok_waiting _ _ _ _ _ _ Hm i CancelLock) as (j' & Hl' & Hst); [by eapply list_elem_of_lookup_2|].
    rewrite Hl in Hl'. injection Hl' as <-.
    change (mining_ok (jobs m) (workers m) (if bool_decide (active_job_id m = Some i) then None else active_job_id m)
      (match creator m with Some _ => true | None => false end) (delete k (cancelling m)) (confirmed m ++ [i])%list).
    rewrite Hcr.
    unfold mining_inv in Hm. rewrite Hcr in Hm. apply ok_release.
    + eapply ok_waiting_sub; [|intros x Hx; by eapply elem_of_delete].
      destruct Hm as [Hj Hac Hwt Hd]. split; [done..|]. intros i' [Hin|Hin%list_elem_of_singleton]%elem_of_app; [by apply Hd|].
      subst i'. by exists j.
    + intros j'. rewrite Hl. intros [= <-]. by destruct Hst as [-> _].
  - destruct (cancelling m !! k); [|done]. injection Ha as <-.
    eapply ok_waiting_sub; [exact Hm|]. intros x Hx.
    by eapply elem_of_delete.
  - injection Ha as <-.
    change (mining_ok (match active_job_id m with
                       | Some i => alter (λ j, j {{ stop_event := true }}) i (jobs m) | None => jobs m end)
      (workers m) (active_job_id m) (match creator m with Some _ => true | None => false end) (cancelling m) (confirmed m)).
    destruct (active_job_id m) as [i|] eqn:Hac; [|unfold mining_inv in Hm; by rewrite Hac in Hm].
    destruct (jobs m !! i) as [j|] eqn:Hl.
    + replace (alter _ i (jobs m)) with (<[i := j {{ stop_event := true }}]> (jobs m))
        by (symmetry; by apply (alter_some (λ j, j {{ stop_event := true }}))).
      unfold mining_inv in Hm. rewrite Hac in Hm.
      eapply ok_update_job; [exact Hm|done|by apply evolves_same|intros w Hw; by apply stop_job_ok].
    + rewrite alter_id; [unfold mining_inv in Hm; by rewrite Hac in Hm|]. intros x. by rewrite Hl.
  - destruct (service_closed m); [|done]. destruct (worker_task m) as [i|]; [|done]. injection Ha as <-.
    destruct Hm as [Hj Hac Hw Hd]. split; try done.
    intros i' j Hl. change (workers _) with (alter interrupt i (workers m)). destruct (Hj i' j Hl) as (w & Hw' & Hinv). rewrite lookup_alter, Hw'.
    case_decide as Heq; [|by exists w]. subst i'. exists (interrupt w). rewrite Hw'. split; [done|by apply interrupt_ok].
Qed.
End jobs.

(** ** Runs *)

Section runs.
Context {EL : EcdsaLib} {CS : ChainStore} (c : ApiConfig).

Lemma new_mining_inv : mining_inv new_mining_service.
Proof. split; cbn; [done|done|by intros i a ?%not_elem_of_nil|by intros i ?%not_elem_of_nil]. Qed.

Lemma mining_steps_inv m m' : rtc (mining_step c) m m' → mining_inv m → mining_inv m'.
Proof. induction 1 as [|m m1 m' [a Ha] _ IH]; [done|]. intros Hm. by eapply IH, act_ok. Qed.

(** An answer to [cancel_job] is never taken back. *)
Lemma act_confirmed a m m' i : act c a m = Some m' → i ∈ confirmed m → i ∈ confirmed m'.
Proof.
  intros Ha Hi. destruct a; cbn [act] in Ha; unfold mbind, option_bind in Ha; repeat case_match; simplify_eq; try exact Hi.
  - unfold request_cancel. destruct (thread _); exact Hi.
  - exact (proj2 (elem_of_app (confirmed m) _ _) (or_introl Hi)).
Qed.

Lemma confirmed_steps m m' i : rtc (mining_step c) m m' → i ∈ confirmed m → i ∈ confirmed m'.
Proof. induction 1 as [|m m1 m' [a Ha] _ IH]; [done|]. intros Hi. by eapply IH, act_confirmed. Qed.

Lemma run_actions_steps l : ∀ m m', run_actions c l m = Some m' → rtc (mining_step c) m m'.
Proof.
  induction l as [|a l IH]; intros m m'; cbn [run_actions]; [by intros [= ->]|].
  intros (m1 & Ha & Hm)%bind_Some. eapply rtc_l; [by exists a|by apply IH].
Qed.

(** The job that is waiting or mining is the active one. *)
Lemma busy_is_active m i j :
  mining_inv m → jobs m !! i = Some j → busy (job_status j) = true → active_job_id m = Some i ∧ get_active_job m = Some j.
Proof.
  intros Hm Hl Hb. destruct (ok_active _ _ _ _ _ _ Hm i j Hl Hb) as [Ha _].
  split; [done|]. unfold get_active_job. by rewrite Ha, Hl, Hb.
Qed.

Lemma get_active_busy m j : get_active_job m = Some j → ∃ i, jobs m !! i = Some j ∧ busy (job_status j) = true.
Proof.
  unfold get_active_job. destruct (active_job_id m) as [i|]; [|done]. destruct (jobs m !! i) as [j'|] eqn:Hl; [|done].
  destruct (busy (job_status j')) eqn:Hb; [|done]. intros [= <-]. by exists i.
Qed.

(** Whether [create_job] goes on to ask for a template. *)
Lemma create_begin_cases m user address max_tx max_b max_nonce :
  create_begin c m user address max_tx max_b max_nonce =
    if service_closed m then Raise (APIError 503 "SERVICE_UNAVAILABLE")
    else match get_active_job m with
         | Some _ => Raise (APIError 409 "MINING_BUSY")
         | None =>
             let limit := mining_max_nonce c in
             Ok (MkCreator user address
                   (bound 1 (match max_nonce with Some n => if n =? 0 then limit else n | None => limit end) limit)
                   (bound 0 max_tx (mining_max_transactions c)) (bound 1000 max_b (mining_max_bytes c)) None)
         end.
Proof.
  unfold create_begin, get_active_job. destruct (service_closed m); [done|]. cbn [raise_if mbind result_bind].
  destruct (active_job_id m) as [i|]; [|done]. destruct (jobs m !! i) as [j|]; [|done]. by destruct (busy (job_status j)).
Qed.
End runs.

#[local] Open Scope string_scope.
#[local] Open Scope Z_scope.

Section mining.
Context {EL : EcdsaLib} {CS : ChainStore}.

(** C27: at most one job is waiting or mining at any time: it is the active
    one, which [get_active_job] returns, and while there is one [create_job] is
    refused with [MINING_BUSY]; without one, an open service goes on with limits
    that never exceed the configured ones. *)
Theorem one_job_at_a_time (c : ApiConfig) m :
  rtc (mining_step c) new_mining_service m →
  (∀ j, get_active_job m = Some j ↔ ∃ i, jobs m !! i = Some j ∧ busy (job_status j) = true) ∧
  (∀ i i' j j', jobs m !! i = Some j → jobs m !! i' = Some j' → busy (job_status j) = true → busy (job_status j') = true → i = i') ∧
  ∀ user address max_tx max_b max_nonce,
    match create_begin c m user address max_tx max_b max_nonce with
    | Ok k => get_active_job m = None ∧ service_closed m = false ∧ bounded_nonce k <= mining_max_nonce c ∧
        bounded_txs k <= mining_max_transactions c ∧ bounded_bytes k <= mining_max_bytes c
    | Raise e => e = APIError 503 "SERVICE_UNAVAILABLE" ∧ service_closed m = true ∨
        e = APIError 409 "MINING_BUSY" ∧ ∃ i j, jobs m !! i = Some j ∧ busy (job_status j) = true
    end.
Proof.
  intros Hm%(mining_steps_inv c) ; [|apply new_mining_inv]. split_and!.
  - intros j. split; [apply get_active_busy|]. intros (i & Hl & Hb). by eapply busy_is_active.
  - intros i i' j j' Hl Hl' Hb Hb'. destruct (busy_is_active m i j Hm Hl Hb) as [Ha _].
    destruct (busy_is_active m i' j' Hm Hl' Hb') as [Ha' _]. congruence.
  - intros user address max_tx max_b max_nonce. rewrite create_begin_cases.
    destruct (service_closed m) eqn:Hc; [by left|]. destruct (get_active_job m) as [j|] eqn:Hj.
    + right. split; [done|]. destruct (get_active_busy m j Hj) as (i & Hl & Hb). by exists i, j.
    + cbn -[Z.mul]. unfold bound. split_and!; try done; lia.
Qed.

(** C28: once [cancel_job] has answered that a job is cancelled, the job is
    cancelled for good: in every later state its status is CANCELLED, and no
    block of it was or will be offered to the node, not even by a call that was
    cancelled before its answer. *)
Theorem cancelled_job_final (c : ApiConfig) m m' i :
  rtc (mining_step c) new_mining_service m → i ∈ confirmed m → rtc (mining_step c) m m' →
  ∃ j w, jobs m' !! i = Some j ∧ workers m' !! i = Some w ∧ job_status j = CANCELLED ∧ stop_event j = true ∧ offered w = [].
Proof.
  intros Hm Hi Hm'. apply (confirmed_steps c m m') in Hi; [|done].
  assert (mining_inv m') as Hinv by (eapply mining_steps_inv; [exact Hm'|eapply mining_steps_inv; [exact Hm|apply new_mining_inv]]).
  destruct (ok_done _ _ _ _ _ _ Hinv i Hi) as (j & Hl & [Hs Hst]).
  destruct (ok_jobs _ _ _ _ _ _ Hinv i j Hl) as (w & Hw & Hj). exists j, w. split_and!; [done..|].
  pose proof (job_offer _ _ Hj) as Ho. unfold offer_ok in Ho. rewrite Hs in Ho.
  destruct (offered w) as [|[b o] [|]]; [done| |done]. by destruct o, Ho as (_ & _ & ?).
Qed.

(** C29: a job whose status is ACCEPTED offered exactly one block, and the node
    answered that it accepted it: the block is the job's template with a nonce
    of its range that solves it, its hash is the job's result, its parent is the
    tip the template was made for, and the node that answered had the block as
    its new tip.  A job that ended as STALE or FAILED offered at most blocks
    whose answer was a refusal or an exception.  A job whose worker was stopped
    at FOUND had no answer that accepts its block, but the answer of its offer
    may never have been waited for.  Any other job offered nothing. *)
Theorem accepted_job_mined (c : ApiConfig) m i j :
  rtc (mining_step c) new_mining_service m → jobs m !! i = Some j →
  ∃ w, workers m !! i = Some w ∧
    match job_status j with
    | ACCEPTED => ∃ b v, offered w = [(b, Some v)] ∧ accepted_by v b = Ok true ∧ mined_by w b ∧
        result_hash j = Some (block_hash b) ∧ previous_block_hash b = previous_hash j ∧
        ∀ n limit, v = ServedBy n → bc_inv limit (node_chain n) →
          blocks (node_chain (command (CmdBlock b) n).2) = (blocks (node_chain n) ++ [b])%list
    | QUEUED | MINING | CANCELLED => offered w = []
    | STALE | FAILED => ∀ b answer, (b, answer) ∈ offered w → ∃ v, answer = Some v ∧ accepted_by v b ≠ Ok true
    | FOUND => ∀ b v, (b, Some v) ∈ offered w → accepted_by v b ≠ Ok true
    end.
Proof.
  intros Hm%(mining_steps_inv c) Hl; [|apply new_mining_inv].
  destruct (ok_jobs _ _ _ _ _ _ Hm i j Hl) as (w & Hw & Hj). exists w. split; [done|].
  pose proof Hj as [Hlink _ _ Ho _]. unfold offer_ok in Ho. destruct (offered w) as [|[b o] [|]]; [| |done].
  - destruct (job_status j); try done; by intros b v ?%not_elem_of_nil.
  - destruct Ho as (Hb & Hr & Ho). destruct o as [v|], (job_status j); try done;
      try (by intros b' v' [= -> ->]%list_elem_of_singleton).
    + exists b, v. split_and!; try done.
      * destruct Hb as (n & _ & -> & _). by rewrite Hlink.
      * intros n limit -> Hbc. by eapply accepted_extends.
    + intros b' v' [= -> ->]%list_elem_of_singleton. by exists v.
    + intros b' v' [= -> ->]%list_elem_of_singleton. by exists v.
Qed.
End mining.

(** ** Runs *)

#[local] Existing Instance sqlite_store.

(** The sample node, when block 1 can be mined. *)
Definition mining_node : Node := running_node {{ world := (world running_node) {{ wall_at := λ _, sample_time }} }}.
Definition mining_api : ApiConfig := default_api {{ mining_max_nonce := 200 }}.

(** A job from its request to the answer of the node. *)
Definition mine_actions : list Action :=
  [CreateCalled 1 alice_address 100 100000 None; TemplateAnswered (ServedBy mining_node);
   ParentAnswered (ServedBy mining_node) "job" 1; WorkerTurn "job" Resumed 2; WorkerTurn "job" Resumed 2;
   WorkerTurn "job" (ThreadReported 0) 3; WorkerTurn "job" (ThreadEnded None "") 3; WorkerTurn "job" Resumed 3;
   WorkerTurn "job" (NodeAnswered (ServedBy mining_node) "") 4; WorkerFinished "job"].

(** A job that is cancelled before its worker runs. *)
Definition cancel_actions : list Action :=
  [CreateCalled 1 alice_address 100 100000 None; TemplateAnswered (ServedBy mining_node);
   ParentAnswered (ServedBy mining_node) "job" 1; CancelCalled "job" (Some 1) false 2; CancelConfirmed 0].

Definition status_after (l : list Action) : option JobStatus :=
  m ← run_actions mining_api l new_mining_service; j ← jobs m !! "job"; Some (job_status j).

Lemma run_of l : is_Some (status_after l) →
  ∃ m j, rtc (mining_step mining_api) new_mining_service m ∧ jobs m !! "job" = Some j ∧ status_after l = Some (job_status j) ∧
    run_actions mining_api l new_mining_service = Some m.
Proof.
  unfold status_after. intros [s (m & Hm & (j & Hj & [= <-])%bind_Some)%bind_Some]. exists m, j.
  rewrite Hm. cbn. rewrite Hj. split_and!; try done. by eapply run_actions_steps.
Qed.

Lemma one_job_at_a_time_witness :
  ∃ m j, rtc (mining_step mining_api) new_mining_service m ∧ get_active_job m = Some j ∧ job_status j = QUEUED.
Proof.
  assert (status_after (take 3 mine_actions) = Some QUEUED) as Hs by (vm_compute; reflexivity).
  destruct (run_of (take 3 mine_actions)) as (m & j & Hm & Hj & Hst & _); [rewrite Hs; eexists; reflexivity|].
  rewrite Hs in Hst. injection Hst as Hst. exists m, j. split_and!; [exact Hm| |by symmetry].
  apply (one_job_at_a_time mining_api m Hm). exists "job". split; [exact Hj|]. rewrite <- Hst. reflexivity.
Defined.

(** The worker that starts after the cancellation. *)
Lemma cancelled_job_final_witness :
  ∃ m m' j, run_actions mining_api cancel_actions new_mining_service = Some m ∧
    act mining_api (WorkerTurn "job" Resumed 3) m = Some m' ∧ jobs m' !! "job" = Some j ∧ job_status j = CANCELLED.
Proof.
  assert (match run_actions mining_api cancel_actions new_mining_service with
          | Some m => bool_decide ("job" ∈ confirmed m) &&
              match act mining_api (WorkerTurn "job" Resumed 3) m with Some _ => true | None => false end
          | None => false end = true) as H by (vm_compute; reflexivity).
  destruct (run_actions mining_api cancel_actions new_mining_service) as [m|] eqn:Hm; [|discriminate H].
  destruct (act mining_api (WorkerTurn "job" Resumed 3) m) as [m'|] eqn:Hm'; [|by rewrite andb_false_r in H].
  rewrite andb_true_r in H. apply bool_decide_eq_true in H.
  destruct (cancelled_job_final mining_api m m' "job") as (j & w & Hj & _ & Hs & _).
  - by eapply run_actions_steps.
  - exact H.
  - apply rtc_once. by eexists.
  - exists m, m', j. split_and!; [reflexivity|exact Hm'|exact Hj|exact Hs].
Defined.

Lemma accepted_job_mined_witness :
  ∃ m b v, run_actions mining_api mine_actions new_mining_service = Some m ∧
    (w ← workers m !! "job"; Some (offered w)) = Some [(b, Some v)] ∧ accepted_by v b = Ok true.
Proof.
  assert (status_after mine_actions = Some ACCEPTED) as Hs by (vm_compute; reflexivity).
  destruct (run_of mine_actions) as (m & j & Hm & Hj & Hst & Hrun); [rewrite Hs; eexists; reflexivity|].
  destruct (accepted_job_mined mining_api m "job" j Hm Hj) as (w & Hw & H).
  rewrite Hs in Hst. injection Hst as Hst. rewrite <- Hst in H. destruct H as (b & v & Ho & Ha & _).
  exists m, b, v. split_and!; [exact Hrun| |exact Ha]. rewrite Hw. cbn. rewrite Ho. reflexivity.
Defined.

(** [close] does not wait for a [create_job] that holds the lock: the job it
    creates afterwards is mined although the service is closed. *)
Definition late_actions : list Action :=
  [CreateCalled 1 alice_address 100 100000 None; CloseCalled; TemplateAnswered (ServedBy mining_node);
   ParentAnswered (ServedBy mining_node) "job" 1; WorkerTurn "job" Resumed 2].

Lemma closed_service_mines :
  ∃ m j, rtc (mining_step mining_api) new_mining_service m ∧ service_closed m = true ∧ jobs m !! "job" = Some j ∧
    job_status j = MINING ∧ stop_event j = false.
Proof.
  assert (match run_actions mining_api late_actions new_mining_service with
          | Some m => service_closed m && match jobs m !! "job" with
              | Some j => bool_decide (job_status j = MINING ∧ stop_event j = false) | None => false end
          | None => false end = true) as H by (vm_compute; reflexivity).
  destruct (run_actions mining_api late_actions new_mining_service) as [m|] eqn:Hm; [|discriminate H].
  apply andb_true_iff in H as [Hc H]. destruct (jobs m !! "job") as [j|] eqn:Hj; [|discriminate H].
  apply bool_decide_eq_true in H as [Hs Hst]. exists m, j. split_and!; [|exact Hc|exact Hj|exact Hs|exact Hst]. by eapply run_actions_steps.
Qed.
