(* ===== verification/WsManager.v ===== *)
(** * api/websocket/manager.py: the clients that watch the node

    A handler task per connection reserves a slot, shakes hands, reads and
    cleans up; a writer task sends what is queued; broadcasts put messages on
    every queue.  Connections are numbered.  The lock is never held across an
    await, so what it protects is one step; a [WsAction] is what runs between
    two awaits. *)

From Stdlib Require Import QArith Strings.Ascii.
From coqutil Require Import Datatypes.RecordSetters.
Import DoubleBraceUpdate.
From S2P Require Import Prelude Bytes Json Crypto Transaction Utxo Block Blockchain.
From S2P Require Import Effects NodeState Node Services ApiConfig.
#[local] Open Scope string_scope.
#[local] Open Scope Z_scope.

(** ** Messages *)

(** What is put on a queue: the text of an answer, or a dictionary with its
    [type]. *)
Inductive WsItem :=
  | WsText (text : string)
  | WsMessage (type : string) (payload : list (string * json)).

(** High-frequency messages, which may be dropped. *)
Definition droppable (type : string) : bool := bool_decide (type ∈ ["mining_progress"; "node_status"]).

(** [old.get("type")]: a text has no [get]. *)
Definition item_type (i : WsItem) : result string :=
  match i with
  | WsText _ => Raise AttributeError
  | WsMessage t _ => Ok t
  end.

Definition run_state_name (s : RunState) : string :=
  match s with
  | CREATED => "CREATED" | STARTING => "STARTING" | RUNNING => "RUNNING"
  | STOPPING => "STOPPING" | STOPPED => "STOPPED" | FAILED => "FAILED"
  end.

(** The message of the status of the node. *)
Definition status_message (s : NodeStatus) : WsItem :=
  WsMessage "node_status"
    [("height", JInt (status_height s)); ("tip_hash", JStr (status_tip s)); ("pending_count", JInt (status_pending s));
     ("state", JStr (run_state_name (status_state s))); ("peer_count", JInt (Z.of_nat (length (status_peers s))))].

Definition WS_NORMAL : Z := 1000.
Definition WS_GOING_AWAY : Z := 1001.
Definition WS_UNSUPPORTED : Z := 1003.
Definition WS_POLICY : Z := 1008.
Definition WS_TOO_BIG : Z := 1009.
Definition WS_TRY_LATER : Z := 1013.

(** ** Queues: [asyncio.Queue] with a maximal size *)

Definition queue_full {A} (maxsize : Z) (q : list A) : bool := (0 <? maxsize) && (maxsize <=? Z.of_nat (length q)).

Definition put_nowait {A} (maxsize : Z) (q : list A) (x : A) : result (list A) :=
  if queue_full maxsize q then Raise QueueFull else Ok (q ++ [x])%list.

(** ** The manager *)

(** [sending] is the message that the writer has taken. *)
Record ClientSession := MkClient {
  client_ip : string;
  queue : list WsItem;
  sending : option WsItem;
  done_event : bool;
  close_code : Z;
  last_activity : Q
}.

(** Where a handler waits: for the handshake and the first status, for the
    client, for its writer to end, or for the connection to close. *)
Inductive HandlerAt := Handshaking | Reading | Cleaning | Closing.

(** [handler.cancel()]: the cleanup is shielded. *)
Definition cancel_handler (a : HandlerAt) : HandlerAt :=
  match a with Handshaking | Reading => Cleaning | a => a end.

Record WsManager := MkWs {
  clients : list (nat * ClientSession);
  ip_counts : gmap string Z;
  total_reserved : Z;
  running : bool;
  handlers : list (nat * (string * HandlerAt));
  closed_with : list (nat * Z)
}.

Definition new_ws_manager : WsManager := MkWs [] ∅ 0 false [] [].

(** *** Origins *)

(** [item.replace(old, new)] from left to right; the fuel is the length of the text. *)
Fixpoint str_replace (fuel : nat) (old new s : string) : string :=
  match fuel, s with
  | S fuel, String c r =>
      if String.prefix old s then new +:+ str_replace fuel old new (str_drop (str_len old) s)
      else String c (str_replace fuel old new r)
  | _, _ => s
  end.

(** [part in s] *)
Fixpoint str_contains (part s : string) : bool :=
  String.prefix part s || match s with String _ r => str_contains part r | EmptyString => false end.

Section manager.
Context (c : ApiConfig).

Definition allowed_origins : list string :=
  let item := rstrip_char "/" (frontend_origin c) in
  item ::
    (if str_contains "localhost" item then [str_replace (str_len item) "localhost" "127.0.0.1" item]
     else if str_contains "127.0.0.1" item then [str_replace (str_len item) "127.0.0.1" "localhost" item]
     else []).

Definition is_origin_allowed (origin : option string) : bool :=
  match origin with
  | None | Some EmptyString => true
  | Some o => bool_decide (rstrip_char "/" o ∈ allowed_origins)
  end.

Definition get_client_ip (host : option string) : string :=
  match host with
  | None | Some EmptyString => "127.0.0.1"
  | Some h => h
  end.

(** *** Reservations *)

Definition ip_count (m : WsManager) (ip : string) : Z := default 0 (ip_counts m !! ip).

(** The code of a refusal, or the manager with one more handler. *)
Definition reserve_slot (ws : nat) (ip : string) (m : WsManager) : Z + WsManager :=
  if negb (running m) || (ws_max_clients c <=? total_reserved m) then inl WS_TRY_LATER
  else if ws_max_clients_per_ip c <=? ip_count m ip then inl WS_POLICY
  else inr (m {{ total_reserved := total_reserved m + 1;
                 ip_counts := <[ip := ip_count m ip + 1]> (ip_counts m);
                 handlers := dict_set (handlers m) ws (ip, Handshaking) }}).

(** The part of [_cleanup] under the lock. *)
Definition release_slot (ws : nat) (ip : string) (m : WsManager) : WsManager :=
  let m := m {{ clients := dict_del (clients m) ws }} in
  match dict_get (handlers m) ws with
  | Some _ =>
      let left := ip_count m ip - 1 in
      m {{ handlers := dict_del (handlers m) ws;
           total_reserved := total_reserved m - 1;
           ip_counts := if left =? 0 then delete ip (ip_counts m) else <[ip := left]> (ip_counts m) }}
  | None => m
  end.

Definition set_handler (ws : nat) (a : HandlerAt) (m : WsManager) : WsManager :=
  m {{ handlers := dict_map (λ h, (h.1, a)) ws (handlers m) }}.

(** *** One client *)

(** The session after the handshake; a queue that cannot take the first message
    raises [QueueFull]. *)
Definition open_session (ip : string) (first : WsItem) (now : Q) : result ClientSession :=
  q ← put_nowait (ws_client_queue_size c) [] first;
  Ok (MkClient ip q None false WS_NORMAL now).

Inductive WsEvent :=
  | GotText (text : string)
  | GotBytes
  | Disconnected
  | NothingReceived.

(** One turn of the loop that reads; [true] when it goes on. *)
Definition read_turn (e : WsEvent) (now : Q) (s : ClientSession) : bool * ClientSession :=
  match e with
  | Disconnected => (false, s)
  | NothingReceived =>
      if Qle_bool (ws_idle_timeout c) (now - last_activity s) then (false, s {{ close_code := WS_POLICY }}) else (true, s)
  | GotBytes => (false, s {{ close_code := WS_UNSUPPORTED }})
  | GotText text =>
      if ws_max_message_bytes c <? Z.of_nat (length (utf8_encode text)) then (false, s {{ close_code := WS_TOO_BIG }})
      else
        let s := s {{ last_activity := now }} in
        if bool_decide (text = "ping") then
          match put_nowait (ws_client_queue_size c) (queue s) (WsText "pong") with
          | Ok q => (true, s {{ queue := q }})
          | Raise _ => (false, s {{ close_code := WS_TRY_LATER }})
          end
        else (true, s)
  end.

(** The writer takes the next message. *)
Definition writer_takes (s : ClientSession) : option ClientSession :=
  match queue s, sending s with
  | i :: q, None => Some (s {{ queue := q; sending := Some i }})
  | _, _ => None
  end.

Definition writer_done (ok : bool) (s : ClientSession) : option ClientSession :=
  match sending s with
  | Some _ =>
      let s := s {{ sending := None }} in
      Some (if ok then s else s {{ close_code := WS_TRY_LATER; done_event := true }})
  | None => None
  end.

(** *** [broadcast] *)

Definition disconnect_slow (s : ClientSession) : ClientSession := s {{ close_code := WS_TRY_LATER; done_event := true }}.

(** The body of the loop: the exception that leaves it, if any, and the session. *)
Definition deliver (type : string) (message : WsItem) (s : ClientSession) : option exn * ClientSession :=
  let maxsize := ws_client_queue_size c in
  if done_event s then (None, s)
  else
    match put_nowait maxsize (queue s) message with
    | Ok q => (None, s {{ queue := q }})
    | Raise _ =>
        if droppable type then (None, s)
        else
          match queue s with
          | [] => (None, disconnect_slow s)
          | old :: q =>
              let s := s {{ queue := q }} in
              match item_type old with
              | Raise e => (Some e, s)
              | Ok t =>
                  match put_nowait maxsize q (if droppable t then message else old) with
                  | Ok q => if droppable t then (None, s {{ queue := q }}) else (None, disconnect_slow (s {{ queue := q }}))
                  | Raise _ => (None, disconnect_slow s)
                  end
              end
          end
    end.

Fixpoint deliver_all (type : string) (message : WsItem) (l : list (nat * ClientSession))
    : option exn * list (nat * ClientSession) :=
  match l with
  | [] => (None, [])
  | (ws, s) :: l =>
      match deliver type message s with
      | (Some e, s) => (Some e, (ws, s) :: l)
      | (None, s) => let (e, l) := deliver_all type message l in (e, (ws, s) :: l)
      end
  end.

Definition broadcast_message (type : string) (payload : list (string * json)) (m : WsManager) : option exn * WsManager :=
  let (e, l) := deliver_all type (WsMessage type payload) (clients m) in (e, m {{ clients := l }}).

(** ** The tasks *)

Section tasks.
Context {EL : EcdsaLib} {CS : ChainStore}.

Inductive WsAction :=
  | WsStarted
  | WsConnected (ws : nat) (origin host : option string)
  | WsGreeted (ws : nat) (v : Served) (now : Q)
  | WsRead (ws : nat) (e : WsEvent) (now : Q)
  | WsBroken (ws : nat)
  | WsTakes (ws : nat)
  | WsSent (ws : nat) (ok : bool)
  | WsClosing (ws : nat)
  | WsReleased (ws : nat)
  | WsBroadcast (type : string) (payload : list (string * json))
  | WsStatus (state : RunState) (v : Served)
  | WsStopping
  | WsCancelled.

(** The session of a handler that waits for its client. *)
Definition reading_session (ws : nat) (m : WsManager) : option ClientSession :=
  match dict_get (handlers m) ws with
  | Some (_, Reading) => dict_get (clients m) ws
  | _ => None
  end.

Definition set_client (ws : nat) (s : ClientSession) (m : WsManager) : WsManager :=
  m {{ clients := dict_map (λ _, s) ws (clients m) }}.

(** What the loop does before it reads again, and at its end. *)
Definition read_on (ws : nat) (go : bool) (s : ClientSession) (m : WsManager) : WsManager :=
  let m := set_client ws s m in
  if go && running m && negb (done_event s) then m else set_handler ws Cleaning m.

Definition ws_act (a : WsAction) (m : WsManager) : option WsManager :=
  match a with
  | WsStarted => Some (m {{ running := true }})
  | WsConnected ws origin host =>
      match dict_get (handlers m) ws with
      | Some _ => None
      | None =>
          if negb (is_origin_allowed origin) then Some (m {{ closed_with := (closed_with m ++ [(ws, WS_POLICY)])%list }})
          else match reserve_slot ws (get_client_ip host) m with
               | inl code => Some (m {{ closed_with := (closed_with m ++ [(ws, code)])%list }})
               | inr m => Some m
               end
      end
  | WsGreeted ws v now =>
      match dict_get (handlers m) ws with
      | Some (ip, Handshaking) =>
          Some match s ← status_of v; open_session ip (status_message s) now with
               | Ok s =>
                   let m := m {{ clients := dict_set (clients m) ws s }} in
                   if running m then set_handler ws Reading m else set_handler ws Cleaning m
               | Raise _ => set_handler ws Cleaning m
               end
      | _ => None
      end
  | WsRead ws e now =>
      s ← reading_session ws m;
      let (go, s) := read_turn e now s in Some (read_on ws go s m)
  | WsBroken ws =>
      match dict_get (handlers m) ws with
      | Some (_, Handshaking) | Some (_, Reading) => Some (set_handler ws Cleaning m)
      | _ => None
      end
  | WsTakes ws => s ← dict_get (clients m) ws; s ← writer_takes s; Some (set_client ws s m)
  | WsSent ws ok => s ← dict_get (clients m) ws; s ← writer_done ok s; Some (set_client ws s m)
  | WsClosing ws =>
      match dict_get (handlers m) ws with
      | Some (_, Cleaning) =>
          Some (m {{ clients := dict_map (λ s, s {{ done_event := true; sending := None }}) ws (clients m);
                     handlers := dict_map (λ h, (h.1, Closing)) ws (handlers m);
                     closed_with := (closed_with m ++ [(ws, if negb (running m) then WS_GOING_AWAY
                       else match dict_get (clients m) ws with Some s => close_code s | None => WS_NORMAL end)])%list }})
      | _ => None
      end
  | WsReleased ws =>
      match dict_get (handlers m) ws with
      | Some (ip, Closing) => Some (release_slot ws ip m)
      | _ => None
      end
  | WsBroadcast type payload => Some (broadcast_message type payload m).2
  | WsStatus state v =>
      if negb (running m) || bool_decide (clients m = []) || negb (bool_decide (state = RUNNING)) then None
      else match status_message <$> status_of v with
           | Ok (WsMessage t p) => Some (broadcast_message t p m).2
           | _ => None
           end
  | WsStopping => Some (m {{ running := false }})
  | WsCancelled => Some (m {{ handlers := map (λ h, (h.1, (h.2.1, cancel_handler h.2.2))) (handlers m) }})
  end.

Definition ws_step (m m' : WsManager) : Prop := ∃ a, ws_act a m = Some m'.
End tasks.
End manager.

Example origins :
  map (is_origin_allowed default_api)
    [None; Some "http://localhost:5173/"; Some "http://127.0.0.1:5173"; Some "http://evil:5173"] = [true; true; true; false].
Proof. vm_compute. reflexivity. Qed.
