(* ===== verification/WsManagerFacts.v ===== *)
(** * Facts about the websocket manager

    [ws_inv]: the counters are those of the handlers that own a reservation,
    clients belong to handlers, and queues are bounded.  Every step of a task
    keeps it. *)

From Stdlib Require Import QArith Strings.Ascii.
From coqutil Require Import Datatypes.RecordSetters.
Import DoubleBraceUpdate.
From S2P Require Import Prelude Bytes Json Crypto Transaction Utxo Block Blockchain.
From S2P Require Import Effects NodeState Node Services ApiConfig WsManager.
#[local] Open Scope Z_scope.

(** ** Counting the handlers of an address *)

Definition count_ip (ip : string) (l : list string) : Z := Z.of_nat (length (filter (λ x : string, x = ip) l)).

Lemma count_ip_app ip l l' : count_ip ip (l ++ l') = count_ip ip l + count_ip ip l'.
Proof. unfold count_ip. rewrite filter_app, length_app. lia. Qed.

Lemma count_ip_one ip x : count_ip ip [x] = if decide (x = ip) then 1 else 0.
Proof. unfold count_ip. rewrite filter_cons. by case_decide. Qed.

Lemma count_ip_perm ip l l' : l ≡ₚ l' → count_ip ip l = count_ip ip l'.
Proof. unfold count_ip. intros Hp. f_equal. apply Permutation_length. by rewrite Hp. Qed.

Lemma count_ip_cons ip x l : count_ip ip (x :: l) = (if decide (x = ip) then 1 else 0) + count_ip ip l.
Proof. change (x :: l) with ([x] ++ l). by rewrite count_ip_app, count_ip_one. Qed.

Lemma count_ip_pos ip l : 0 <= count_ip ip l.
Proof. unfold count_ip. lia. Qed.

(** ** Dictionaries *)

Section dict.
Context {V : Type}.
Implicit Types (d : list (nat * V)) (k : nat).

Lemma dict_del_perm d k v : NoDup (dict_keys d) → dict_get d k = Some v → d ≡ₚ (k, v) :: dict_del d k.
Proof.
  intros Hnd Hg. apply dict_get_elem in Hg. induction d as [|[k' v'] d IH]; [by apply not_elem_of_nil in Hg|].
  unfold dict_keys in Hnd. rewrite fmap_cons, NoDup_cons in Hnd. destruct Hnd as [Hk Hnd].
  apply elem_of_cons in Hg as [Heq|Hg].
  - injection Heq as <- <-. unfold dict_del. rewrite filter_cons. cbn [fst]. rewrite decide_False by (intros H; by apply H).
    f_equiv. change (d ≡ₚ dict_del d k). by rewrite dict_del_notin.
  - assert (k' ≠ k) as Hne by (intros ->; apply Hk, list_elem_of_fmap; by exists (k, v)).
    unfold dict_del. rewrite filter_cons. cbn [fst]. rewrite decide_True by done.
    rewrite (IH Hnd Hg) at 1. apply Permutation_swap.
Qed.

Lemma dict_map_const (f : V → V) k d : dict_keys (dict_map f k d) = dict_keys d.
Proof. apply dict_map_keys. Qed.
End dict.

(** ** The invariant *)

Definition Handlers : Type := list (nat * (string * HandlerAt)).
Definition ips (hs : Handlers) : list string := (λ h, h.2.1) <$> hs.

Section inv.
Context {EL : EcdsaLib} {CS : ChainStore} (c : ApiConfig).

Definition fits (s : ClientSession) : Prop := Z.of_nat (length (queue s)) <= ws_client_queue_size c.

(** The reservations, and the clients of the handlers. *)
Record ws_ok (hs : Handlers) (total : Z) (counts : gmap string Z) (cl : list (nat * ClientSession)) : Prop := {
  ws_keys : NoDup (dict_keys hs);
  ws_total : total = Z.of_nat (length hs);
  ws_counts : ∀ ip, counts !! ip = if decide (count_ip ip (ips hs) = 0) then None else Some (count_ip ip (ips hs));
  ws_limit : total <= ws_max_clients c;
  ws_limit_ip : ∀ ip, count_ip ip (ips hs) <= ws_max_clients_per_ip c;
  ws_clients : NoDup (dict_keys cl);
  ws_owned : ∀ k, k ∈ dict_keys cl → ∃ ip a, dict_get hs k = Some (ip, a) ∧ a ≠ Handshaking;
  ws_reads : ∀ k ip, dict_get hs k = Some (ip, Reading) → k ∈ dict_keys cl;
  ws_queues : Forall (λ p, fits p.2) cl
}.

Definition ws_inv (m : WsManager) : Prop := ws_ok (handlers m) (total_reserved m) (ip_counts m) (clients m).

Lemma ip_count_spec m ip : ws_inv m → ip_count m ip = count_ip ip (ips (handlers m)).
Proof. intros Hm. unfold ip_count. rewrite (ws_counts _ _ _ _ Hm). by case_decide. Qed.

(** *** Sessions *)

Lemma put_fits {A} (q : list A) x q' :
  0 < ws_client_queue_size c → put_nowait (ws_client_queue_size c) q x = Ok q' →
  q' = (q ++ [x])%list ∧ Z.of_nat (length q') <= ws_client_queue_size c.
Proof.
  intros Hpos. unfold put_nowait, queue_full. rewrite (proj2 (Z.ltb_lt _ _) Hpos). cbn [andb].
  destruct (_ <=? _) eqn:Hle; [done|]. apply Z.leb_gt in Hle. intros [= <-]. rewrite length_app. cbn. split; [done|lia].
Qed.

Lemma put_full {A} (q : list A) x e :
  0 < ws_client_queue_size c → put_nowait (ws_client_queue_size c) q x = Raise e →
  ws_client_queue_size c <= Z.of_nat (length q).
Proof.
  intros Hpos. unfold put_nowait, queue_full. rewrite (proj2 (Z.ltb_lt _ _) Hpos). cbn [andb].
  destruct (_ <=? _) eqn:Hle; [|done]. by apply Z.leb_le in Hle.
Qed.

Lemma read_turn_fits e now s : 0 < ws_client_queue_size c → fits s → fits (read_turn c e now s).2.
Proof.
  intros Hpos Hs. unfold read_turn. destruct e as [text| | |]; try done.
  - destruct (_ <? _); [done|]. case_bool_decide; [|done].
    destruct (put_nowait _ _ _) as [q|e] eqn:Hq; [|done]. by apply put_fits in Hq as [_ Hq].
  - by destruct (Qle_bool _ _).
Qed.

Lemma writer_takes_fits s s' : writer_takes s = Some s' → fits s → fits s'.
Proof.
  unfold writer_takes, fits. destruct (queue s) as [|i q] eqn:Hq; [done|]. destruct (sending s); [done|].
  intros [= <-]. change (queue _) with q. cbn [length]. lia.
Qed.

Lemma writer_done_fits ok s s' : writer_done ok s = Some s' → fits s → fits s'.
Proof. unfold writer_done. destruct (sending s); [|done]. by destruct ok; intros [= <-]. Qed.

(** *** Broadcasts *)

(** A client that a critical message cannot reach: its full queue starts with a
    text. *)
Definition blocked (s : ClientSession) : Prop :=
  done_event s = false ∧ ws_client_queue_size c <= Z.of_nat (length (queue s)) ∧ ∃ t q, queue s = WsText t :: q.

(** What a broadcast does to a client. *)
Inductive delivered (type : string) (msg : WsItem) (s : ClientSession) : ClientSession → Prop :=
  | delivered_closed : done_event s = true → delivered type msg s s
  | delivered_queued : done_event s = false → Z.of_nat (length (queue s)) < ws_client_queue_size c →
      delivered type msg s (s {{ queue := (queue s ++ [msg])%list }})
  | delivered_dropped : done_event s = false → ws_client_queue_size c <= Z.of_nat (length (queue s)) →
      droppable type = true → delivered type msg s s
  | delivered_made_room t p q : done_event s = false → ws_client_queue_size c <= Z.of_nat (length (queue s)) →
      droppable type = false → queue s = WsMessage t p :: q → droppable t = true →
      delivered type msg s (s {{ queue := (q ++ [msg])%list }})
  | delivered_slow t p q : done_event s = false → ws_client_queue_size c <= Z.of_nat (length (queue s)) →
      droppable type = false → queue s = WsMessage t p :: q → droppable t = false →
      delivered type msg s (s {{ queue := (q ++ [WsMessage t p])%list; close_code := WS_TRY_LATER; done_event := true }}).

Lemma deliver_spec type msg s :
  0 < ws_client_queue_size c → fits s →
  match deliver c type msg s with
  | (None, s') => delivered type msg s s' ∧ fits s'
  | (Some e, s') => e = AttributeError ∧ droppable type = false ∧ blocked s ∧ fits s'
  end.
Proof.
  intros Hpos Hs. unfold deliver. destruct (done_event s) eqn:Hd; [by split; [constructor|]|].
  destruct (put_nowait _ (queue s) msg) as [q|e] eqn:Hq.
  { pose proof Hq as [-> Hlen]%put_fits; [|done]. split; [|exact Hlen]. constructor; [done|].
    rewrite length_app in Hlen. cbn in Hlen. lia. }
  apply put_full in Hq; [|done]. destruct (droppable type) eqn:Ht; [by split; [constructor|]|].
  destruct (queue s) as [|old q] eqn:Hqs; [cbn in Hq; lia|].
  assert (Z.of_nat (length q) + 1 <= ws_client_queue_size c) as Hlen by (unfold fits in Hs; rewrite Hqs in Hs; cbn [length] in Hs; lia).
  assert (∀ x, put_nowait (ws_client_queue_size c) q x = Ok (q ++ [x])%list) as Hput.
  { intros x. unfold put_nowait, queue_full. rewrite (proj2 (Z.leb_gt _ _)) by lia. by rewrite andb_false_r. }
  assert (∀ x, Z.of_nat (length (q ++ [x])%list) <= ws_client_queue_size c) as Hfit
    by (intros x; rewrite length_app; cbn [length]; lia).
  destruct old as [t|t p]; cbn [item_type].
  - split_and!; [done|done|split_and!; [done|by rewrite Hqs|by exists t, q]|].
    unfold fits. change (queue (s {{ queue := q }})) with q. lia.
  - rewrite Hput. destruct (droppable t) eqn:Hdt.
    + split; [|apply Hfit]. change (delivered type msg s (s {{ queue := (q ++ [msg])%list }})).
      apply (delivered_made_room type msg s t p q); try done. by rewrite Hqs.
    + split; [|apply Hfit].
      change (delivered type msg s (s {{ queue := (q ++ [WsMessage t p])%list; close_code := WS_TRY_LATER; done_event := true }})).
      apply (delivered_slow type msg s t p q); try done. by rewrite Hqs.
Qed.

Lemma deliver_all_spec type msg l :
  0 < ws_client_queue_size c → Forall (λ p, fits p.2) l →
  let (e, l') := deliver_all c type msg l in
  dict_keys l' = dict_keys l ∧ Forall (λ p, fits p.2) l' ∧
  match e with
  | None => Forall2 (λ p p', p.1 = p'.1 ∧ delivered type msg p.2 p'.2) l l'
  | Some e => e = AttributeError ∧ droppable type = false ∧
      ∃ before k s s' after before', l = (before ++ (k, s) :: after)%list ∧ l' = (before' ++ (k, s') :: after)%list ∧
        blocked s ∧ Forall2 (λ p p', p.1 = p'.1 ∧ delivered type msg p.2 p'.2) before before'
  end.
Proof.
  intros Hpos. induction 1 as [|[k s] l Hs Hl IH]; cbn [deliver_all]; [by split_and!|].
  pose proof (deliver_spec type msg s Hpos Hs) as Hd. destruct (deliver c type msg s) as [[e|] s'].
  - destruct Hd as (-> & Hdrop & Hb & Hf). split_and!; try done.
    + by constructor.
    + by exists [], k, s, s', l, [].
  - destruct Hd as [Hdel Hf]. destruct (deliver_all c type msg l) as [e l'].
    destruct IH as (Hk & Hfl & He). split_and!; [by unfold dict_keys in *; cbn; rewrite Hk|by constructor|].
    destruct e as [e|]; [|by constructor].
    destruct He as (-> & Hdrop & before & k1 & s1 & s1' & after & before' & -> & -> & Hb & Hf2).
    split_and!; try done. exists ((k, s) :: before), k1, s1, s1', after, ((k, s') :: before'). split_and!; try done. by constructor.
Qed.

(** *** Steps *)

(** The owners of the reservations stay. *)
Lemma ws_ok_update hs hs' total counts cl cl' :
  ws_ok hs total counts cl → dict_keys hs' = dict_keys hs → ips hs' = ips hs → NoDup (dict_keys cl') →
  (∀ k, k ∈ dict_keys cl' → ∃ ip a, dict_get hs' k = Some (ip, a) ∧ a ≠ Handshaking) →
  (∀ k ip, dict_get hs' k = Some (ip, Reading) → k ∈ dict_keys cl') → Forall (λ p, fits p.2) cl' →
  ws_ok hs' total counts cl'.
Proof.
  intros [Hk Ht Hc Hl Hli _ _ _ _] Hkeys Hips Hcl Ho Hr Hq. split; try done.
  - by rewrite Hkeys.
  - rewrite Ht. f_equal. rewrite <- (length_fmap (λ h : nat * (string * HandlerAt), h.2.1) hs), <- (length_fmap (λ h, h.2.1) hs').
    unfold ips in Hips. by rewrite Hips.
  - by rewrite Hips.
  - by rewrite Hips.
Qed.

Lemma ws_ok_clients hs total counts cl cl' :
  ws_ok hs total counts cl → dict_keys cl' = dict_keys cl → Forall (λ p, fits p.2) cl' → ws_ok hs total counts cl'.
Proof.
  intros Hok Hk Hf. eapply ws_ok_update; try done; [rewrite Hk; apply Hok|..].
  - intros k Hin. rewrite Hk in Hin. by apply (ws_owned _ _ _ _ Hok).
  - intros k ip Hg. rewrite Hk. by apply (ws_reads _ _ _ _ Hok k ip).
Qed.

(** Handlers that move on to their cleanup. *)
Lemma ws_ok_handlers hs hs' total counts cl :
  ws_ok hs total counts cl → dict_keys hs' = dict_keys hs → ips hs' = ips hs →
  (∀ k ip a, dict_get hs k = Some (ip, a) → ∃ a', dict_get hs' k = Some (ip, a') ∧ (a ≠ Handshaking → a' ≠ Handshaking)) →
  (∀ k ip, dict_get hs' k = Some (ip, Reading) → dict_get hs k = Some (ip, Reading)) → ws_ok hs' total counts cl.
Proof.
  intros Hok Hk Hi Hg Hr. eapply ws_ok_update; try done; [apply Hok| | |apply Hok].
  - intros k Hin. destruct (ws_owned _ _ _ _ Hok k Hin) as (ip & a & Hga & Ha).
    destruct (Hg k ip a Hga) as (a' & Hga' & Ha'). exists ip, a'. auto.
  - intros k ip Hg'. by eapply (ws_reads _ _ _ _ Hok), Hr.
Qed.

Lemma ips_dict_map k a hs : ips (dict_map (λ h, (h.1, a)) k hs) = ips hs.
Proof.
  unfold ips, dict_map. rewrite <- list_fmap_compose. apply list_fmap_ext. intros i [k' [ip a']] _. cbn. by case_bool_decide.
Qed.

Lemma ws_ok_leave hs total counts cl k a :
  ws_ok hs total counts cl → a ≠ Handshaking → a ≠ Reading → ws_ok (dict_map (λ h, (h.1, a)) k hs) total counts cl.
Proof.
  intros Hok Ha1 Ha2. apply ws_ok_handlers with hs; [done|apply dict_map_keys|apply ips_dict_map|..].
  - intros k' ip a' Hg. rewrite dict_map_get, Hg. cbn. case_bool_decide; by eexists.
  - intros k' ip. rewrite dict_map_get. destruct (dict_get hs k') as [[ip' a']|]; cbn; [|by case_bool_decide].
    case_bool_decide; intros [= -> Ha]; congruence.
Qed.

Lemma ws_ok_set_client hs total counts cl k f :
  ws_ok hs total counts cl → (∀ s, dict_get cl k = Some s → fits s → fits (f s)) → ws_ok hs total counts (dict_map f k cl).
Proof.
  intros Hok Hf. eapply ws_ok_clients; [done|apply dict_map_keys|]. pose proof (ws_queues _ _ _ _ Hok) as Hq.
  destruct (dict_get cl k) as [s|] eqn:Hg.
  - apply (dict_map_get_Forall (λ p, fits p.2) f k cl s); [apply Hok|done| |done]. cbn. apply Hf; [done|].
    apply dict_get_elem in Hg. rewrite Forall_forall in Hq. exact (Hq _ Hg).
  - by rewrite not_elem_of_dict_map by by apply dict_get_None.
Qed.

(** The handshake is over. *)
Lemma ws_ok_greeted hs total counts cl k ip s a :
  ws_ok hs total counts cl → dict_get hs k = Some (ip, Handshaking) → fits s → a ≠ Handshaking →
  ws_ok (dict_map (λ h, (h.1, a)) k hs) total counts (dict_set cl k s).
Proof.
  intros Hok Hg Hs Ha. eapply ws_ok_update; [exact Hok|apply dict_map_keys|apply ips_dict_map|apply dict_set_NoDup, Hok|..].
  - intros k' Hin. rewrite dict_keys_set in Hin. rewrite dict_map_get.
    destruct (decide (k' = k)) as [->|Hne]; [rewrite bool_decide_eq_true_2, Hg by done; by eexists _, _|].
    rewrite bool_decide_eq_false_2 by done. apply (ws_owned _ _ _ _ Hok).
    case_bool_decide; [done|]. apply elem_of_app in Hin as [?|?%list_elem_of_singleton]; done.
  - intros k' ip'. rewrite dict_map_get, dict_keys_set. destruct (decide (k' = k)) as [->|Hne].
    + intros _. case_bool_decide; [done|]. apply elem_of_app. right. by apply list_elem_of_singleton.
    + rewrite bool_decide_eq_false_2 by done. intros Hr%(ws_reads _ _ _ _ Hok).
      case_bool_decide; [done|]. apply elem_of_app. by left.
  - apply dict_set_Forall; [done|apply Hok].
Qed.

Lemma reserve_ok k ip m m' :
  ws_inv m → dict_get (handlers m) k = None → reserve_slot c k ip m = inr m' → ws_inv m'.
Proof.
  intros Hm Hfresh. unfold reserve_slot. destruct (negb _ || _) eqn:H1; [done|]. destruct (_ <=? ip_count m ip) eqn:H2; [done|].
  intros [= <-]. apply orb_false_iff in H1 as [_ H1%Z.leb_gt]. apply Z.leb_gt in H2. rewrite (ip_count_spec m ip Hm) in H2.
  apply dict_get_None in Hfresh.
  change (ws_ok (dict_set (handlers m) k (ip, Handshaking)) (total_reserved m + 1)
    (<[ip := ip_count m ip + 1]> (ip_counts m)) (clients m)).
  rewrite (ip_count_spec m ip Hm), dict_set_new by done.
  assert (∀ ip', count_ip ip' (ips (handlers m ++ [(k, (ip, Handshaking))])%list) =
    count_ip ip' (ips (handlers m)) + if decide (ip = ip') then 1 else 0) as Hcount.
  { intros ip'. unfold ips. rewrite fmap_app, count_ip_app. cbn. by rewrite count_ip_one. }
  assert (∀ k', dict_get (handlers m ++ [(k, (ip, Handshaking))])%list k' =
    if bool_decide (k = k') then Some (ip, Handshaking) else dict_get (handlers m) k') as Hget.
  { intros k'. by rewrite <- dict_set_new, dict_get_set by done. }
  destruct Hm as [Hk Ht Hc Hl Hli Hcl Ho Hr Hq]. split; try done.
  - rewrite <- dict_set_new by done. by apply dict_set_NoDup.
  - rewrite length_app, Ht. cbn [length]. lia.
  - intros ip'. rewrite Hcount, lookup_insert. pose proof (count_ip_pos ip' (ips (handlers m))).
    case_decide as Heq; [subst; rewrite decide_False by lia; done|]. by rewrite Hc, Z.add_0_r.
  - lia.
  - intros ip'. rewrite Hcount. case_decide as Heq; [subst; lia|]. rewrite Z.add_0_r. apply Hli.
  - intros k' Hin. rewrite Hget. destruct (Ho k' Hin) as (ip' & a & Hg & Ha).
    rewrite bool_decide_eq_false_2; [by exists ip', a|]. intros <-. apply Hfresh. apply dict_get_elem in Hg.
    apply list_elem_of_fmap. by exists (k, (ip', a)).
  - intros k' ip'. rewrite Hget. case_bool_decide; [done|]. apply Hr.
Qed.

Lemma release_ok k ip a m :
  ws_inv m → dict_get (handlers m) k = Some (ip, a) → ws_inv (release_slot k ip m).
Proof.
  intros Hm Hg. unfold release_slot. change (handlers (m {{ clients := dict_del (clients m) k }})) with (handlers m). rewrite Hg.
  change (ip_count _ ip) with (ip_count m ip). rewrite (ip_count_spec m ip Hm).
  set (n := count_ip ip (ips (handlers m)) - 1).
  change (ws_ok (dict_del (handlers m) k) (total_reserved m - 1)
    (if n =? 0 then delete ip (ip_counts m) else <[ip := n]> (ip_counts m)) (dict_del (clients m) k)).
  pose proof (dict_del_perm _ _ _ (ws_keys _ _ _ _ Hm) Hg) as Hp.
  assert (∀ ip', count_ip ip' (ips (handlers m)) =
    (if decide (ip = ip') then 1 else 0) + count_ip ip' (ips (dict_del (handlers m) k))) as Hcount.
  { intros ip'. rewrite <- count_ip_cons. apply count_ip_perm. unfold ips. by rewrite Hp at 1. }
  assert (∀ k', k' ≠ k → dict_get (dict_del (handlers m) k) k' = dict_get (handlers m) k') as Hget.
  { intros k' Hne. destruct (dict_get (handlers m) k') as [v|] eqn:Hv.
    - apply dict_elem_get; [apply dict_del_NoDup, Hm|]. apply dict_del_elem. split; [done|by apply dict_get_elem].
    - apply dict_get_None. apply dict_get_None in Hv. rewrite dict_del_keys. intros [_ Hin]%list_elem_of_filter. done. }
  destruct Hm as [Hk Ht Hc Hl Hli Hcl Ho Hr Hq]. split.
  - by apply dict_del_NoDup.
  - rewrite Ht. apply Permutation_length in Hp. rewrite Hp. cbn [length]. lia.
  - intros ip'. pose proof (Hcount ip') as Hip. pose proof (count_ip_pos ip' (ips (dict_del (handlers m) k))) as Hpos.
    destruct (decide (ip = ip')) as [->|Hne].
    + assert (n = count_ip ip' (ips (dict_del (handlers m) k))) as Hn by (subst n; lia). rewrite <- Hn.
      destruct (Z.eqb_spec n 0) as [->|Hn0]; [by rewrite lookup_delete_eq, decide_True|].
      by rewrite lookup_insert_eq, decide_False.
    + assert ((if n =? 0 then delete ip (ip_counts m) else <[ip := n]> (ip_counts m)) !! ip' = ip_counts m !! ip') as ->
        by (destruct (n =? 0); [by rewrite lookup_delete_ne|by rewrite lookup_insert_ne]).
      rewrite Hc. by replace (count_ip ip' (ips (handlers m))) with (count_ip ip' (ips (dict_del (handlers m) k))) by lia.
  - lia.
  - intros ip'. pose proof (Hcount ip'). specialize (Hli ip'). case_decide; lia.
  - by apply dict_del_NoDup.
  - intros k'. rewrite dict_del_keys. intros [Hne Hin]%list_elem_of_filter. rewrite Hget by done. by apply Ho.
  - intros k' ip' Hg'. rewrite dict_del_keys. apply list_elem_of_filter.
    assert (k' ≠ k) as Hne.
    { intros ->. apply dict_get_elem, dict_del_elem in Hg' as [? _]. done. }
    split; [done|]. rewrite Hget in Hg' by done. by apply (Hr k' ip').
  - by apply dict_del_Forall.
Qed.

Lemma broadcast_ok type payload m :
  0 < ws_client_queue_size c → ws_inv m → ws_inv (broadcast_message c type payload m).2.
Proof.
  intros Hpos Hm. unfold broadcast_message.
  pose proof (deliver_all_spec type (WsMessage type payload) (clients m) Hpos (ws_queues _ _ _ _ Hm)) as Hd.
  destruct (deliver_all _ _ _ _) as [e l]. destruct Hd as (Hk & Hf & _). by eapply ws_ok_clients.
Qed.

Lemma open_session_fits ip first now s : 0 < ws_client_queue_size c → open_session c ip first now = Ok s → fits s.
Proof. intros Hpos. unfold open_session. intros (q & Hq & [= <-])%bind_Ok. by apply put_fits in Hq as [_ Hq]. Qed.

Lemma ws_ok_cancelled hs total counts cl :
  ws_ok hs total counts cl → ws_ok (map (λ h, (h.1, (h.2.1, cancel_handler h.2.2))) hs) total counts cl.
Proof.
  intros Hok. set (g := λ h : nat * (string * HandlerAt), (h.1, (h.2.1, cancel_handler h.2.2))).
  assert (∀ k, dict_get (map g hs) k = (λ v, (v.1, cancel_handler v.2)) <$> dict_get hs k) as Hget.
  { intros k. clear Hok. induction hs as [|[k' v] hs IH]; [done|].
    change (map g ((k', v) :: hs)) with ((k', (v.1, cancel_handler v.2)) :: map g hs). rewrite !dict_get_cons, IH.
    by case_bool_decide. }
  apply ws_ok_handlers with hs; [done| | | |].
  - unfold dict_keys. rewrite map_map. by apply map_ext.
  - unfold ips. change (map (λ h : nat * (string * HandlerAt), h.2.1) (map g hs) = map (λ h, h.2.1) hs). rewrite map_map. by apply map_ext.
  - intros k ip a Hg. exists (cancel_handler a). pose proof (Hget k) as H. rewrite Hg in H. split; [exact H|by destruct a].
  - intros k ip H. pose proof (Hget k) as H'. rewrite H' in H. destruct (dict_get hs k) as [[ip' a]|]; [|done].
    injection H as -> Ha. by destruct a.
Qed.

(** Every step of a task. *)
Lemma ws_act_ok a m m' : 0 < ws_client_queue_size c → ws_inv m → ws_act c a m = Some m' → ws_inv m'.
Proof.
  intros Hpos Hm Ha. pose proof Hm as Hok. unfold ws_inv in Hok.
  destruct a as [|k origin host|k v now|k e now|k|k|k ok|k|k|type payload|st v| |]; cbn [ws_act] in Ha.
  - injection Ha as <-. exact Hok.
  - destruct (dict_get (handlers m) k) eqn:Hg; [done|]. destruct (negb _); [by injection Ha as <-|].
    destruct (reserve_slot c k _ m) as [code|m1] eqn:Hr; injection Ha as <-; [exact Hok|by eapply reserve_ok].
  - destruct (dict_get (handlers m) k) as [[ip []]|] eqn:Hg; try done. apply (inj Some) in Ha. subst m'.
    destruct (status_of v ≫= _) as [s|e] eqn:Hs; [|by apply ws_ok_leave].
    apply bind_Ok in Hs as (st & _ & Hs). apply open_session_fits in Hs; [|done].
    pose proof (λ a, ws_ok_greeted _ _ _ _ k ip s a Hok Hg Hs) as Hgr.
    change (ws_inv (if running m then set_handler k Reading (m {{ clients := dict_set (clients m) k s }})
                    else set_handler k Cleaning (m {{ clients := dict_set (clients m) k s }}))).
    destruct (running m); [exact (Hgr Reading ltac:(done))|exact (Hgr Cleaning ltac:(done))].
  - destruct (reading_session k m) as [s|] eqn:Hs; [|done]. cbn in Ha.
    assert (dict_get (clients m) k = Some s) as Hg.
    { unfold reading_session in Hs. by destruct (dict_get (handlers m) k) as [[? []]|]. }
    destruct (read_turn c e now s) as [go s'] eqn:Hr. injection Ha as <-.
    assert (fits s → fits s') as Hf by (intros H; pose proof (read_turn_fits e now s Hpos H) as H'; by rewrite Hr in H').
    assert (ws_ok (handlers m) (total_reserved m) (ip_counts m) (dict_map (λ _, s') k (clients m))) as Hset.
    { apply ws_ok_set_client; [done|]. intros s0. rewrite Hg. by intros [= <-]. }
    unfold read_on. destruct (_ && _); [exact Hset|]. exact (ws_ok_leave _ _ _ _ k Cleaning Hset ltac:(done) ltac:(done)).
  - destruct (dict_get (handlers m) k) as [[ip []]|]; try done; injection Ha as <-; by apply ws_ok_leave.
  - destruct (dict_get (clients m) k) as [s|] eqn:Hg; [|done]. cbn in Ha.
    destruct (writer_takes s) as [s'|] eqn:Hs; [|done]. injection Ha as <-.
    apply ws_ok_set_client; [done|]. intros s0. rewrite Hg. intros [= <-]. by apply writer_takes_fits.
  - destruct (dict_get (clients m) k) as [s|] eqn:Hg; [|done]. cbn in Ha.
    destruct (writer_done ok s) as [s'|] eqn:Hs; [|done]. injection Ha as <-.
    apply ws_ok_set_client; [done|]. intros s0. rewrite Hg. intros [= <-]. by eapply writer_done_fits.
  - destruct (dict_get (handlers m) k) as [[ip []]|]; try done. injection Ha as <-.
    apply (ws_ok_leave _ _ _ _ k Closing); [|done|done]. by apply ws_ok_set_client.
  - destruct (dict_get (handlers m) k) as [[ip []]|] eqn:Hg; try done. injection Ha as <-. by eapply release_ok.
  - injection Ha as <-. by apply broadcast_ok.
  - destruct (_ || _ || _); [done|]. destruct (status_message <$> status_of v) as [[t|t p]|e]; try done.
    injection Ha as <-. by apply broadcast_ok.
  - injection Ha as <-. exact Hok.
  - injection Ha as <-. by apply ws_ok_cancelled.
Qed.

Lemma new_ws_inv : 0 < ws_max_clients c → 0 < ws_max_clients_per_ip c → ws_inv new_ws_manager.
Proof.
  intros H1 H2. split; cbn; try done; try lia.
  - constructor.
  - unfold count_ip. cbn. lia.
  - constructor.
  - by intros k ?%not_elem_of_nil.
Qed.

Lemma ws_steps_inv m m' : 0 < ws_client_queue_size c → rtc (ws_step c) m m' → ws_inv m → ws_inv m'.
Proof. intros Hpos. induction 1 as [|m m1 m' [a Ha] _ IH]; [done|]. intros Hm. by eapply IH, ws_act_ok. Qed.
End inv.
