(* ===== verification/Limits.v ===== *)
(** * api/middleware/: quotas per address and the limit on bodies

    Two middlewares stand before the application.  A quota is a deque of the
    times of the requests it let through, cleaned from its old end; the limit on
    bodies reads the whole body before the application sees the request.  Times
    are rationals.  What a middleware answers itself is a value of its own. *)

From Stdlib Require Import QArith Qround Lqa Strings.Ascii Sorted.
From coqutil Require Import Datatypes.RecordSetters.
Import DoubleBraceUpdate.
From S2P Require Import Prelude Bytes Json JsonParse Services.
#[local] Open Scope string_scope.
#[local] Open Scope Z_scope.

(** ** Deques of times *)

(** [while q and old(q[0]): q.popleft()] *)
Fixpoint purge (old : Q → bool) (q : list Q) : list Q :=
  match q with
  | t :: r => if old t then purge old r else q
  | [] => []
  end.

Definition before (cutoff t : Q) : bool := negb (Qle_bool cutoff t).

(** ** rate_limiter.py *)

Module RateLimiter.

Record RateLimiter := MkLimiter {
  general_limit : Z;
  mutation_limit : Z;
  admin_limit : Z;
  window : Q;
  general_history : gmap string (list Q);
  mutation_history : gmap string (list Q);
  admin_history : gmap string (list Q);
  last_cleanup : Q
}.

Definition new_limiter (general mutation admin : Z) (window now : Q) : RateLimiter :=
  MkLimiter general mutation admin window ∅ ∅ ∅ now.

Record Request := MkRequest {
  client : option string;
  method : string;
  path : string;
  arrived : Q
}.

Definition get_client_ip (r : Request) : string :=
  match client r with Some h => if bool_decide (h = "") then "127.0.0.1" else h | None => "127.0.0.1" end.

(** [c.upper()] for an ASCII character; no other letter has an upper case that
    occurs in the name of a method. *)
Definition upper_char (c : ascii) : ascii :=
  let n := code c in if ((97 <=? n) && (n <=? 122))%N then ascii_of_N (n - 32) else c.
Fixpoint upper (s : string) : string :=
  match s with String c r => String (upper_char c) (upper r) | EmptyString => s end.

Definition is_mutation (r : Request) : bool := bool_decide (upper (method r) ∈ ["POST"; "PUT"; "DELETE"; "PATCH"]).
Definition is_admin (r : Request) : bool := String.prefix "/api/v1/admin" (path r).

(** [history[ip]] of a [defaultdict] *)
Definition times_of (h : gmap string (list Q)) (ip : string) : list Q := default [] (h !! ip).
Definition clean_times (cutoff : Q) (ip : string) (h : gmap string (list Q)) : gmap string (list Q) :=
  <[ip := purge (before cutoff) (times_of h ip)]> h.
Definition add_time (ip : string) (now : Q) (h : gmap string (list Q)) : gmap string (list Q) :=
  <[ip := (times_of h ip ++ [now])%list]> h.

Definition cleanup_history (cutoff : Q) (h : gmap string (list Q)) : gmap string (list Q) :=
  omap (λ q, match purge (before cutoff) q with [] => None | q => Some q end) h.

Definition cleanup_old_entries (now : Q) (m : RateLimiter) : RateLimiter :=
  if before 30 (now - last_cleanup m) then m
  else
    let cutoff := (now - window m)%Q in
    m {{ last_cleanup := now;
         general_history := cleanup_history cutoff (general_history m);
         mutation_history := cleanup_history cutoff (mutation_history m);
         admin_history := cleanup_history cutoff (admin_history m) }}.

(** The quota that is used up, by its oldest time. *)
Definition exceeded (limit : Z) (q : list Q) (now : Q) : option Q :=
  if limit <=? Z.of_nat (length q) then Some match q with t :: _ => if Qle_bool now t then now else t | [] => now end else None.

Definition check_quotas (r : Request) (m : RateLimiter) : option Q :=
  let ip := get_client_ip r in
  match exceeded (general_limit m) (times_of (general_history m) ip) (arrived r) with
  | Some t => Some t
  | None =>
      match (if is_mutation r then exceeded (mutation_limit m) (times_of (mutation_history m) ip) (arrived r) else None) with
      | Some t => Some t
      | None => if is_admin r then exceeded (admin_limit m) (times_of (admin_history m) ip) (arrived r) else None
      end
  end.

(** A request goes to the application, or is answered with status 429. *)
Inductive Handled := Forwarded | RateLimited (retry_after : Z).

Definition retry_after (oldest window now : Q) : Z := Z.max 1 (Qceiling (oldest + window - now)).

Definition rate_request (r : Request) (m : RateLimiter) : Handled * RateLimiter :=
  let now := arrived r in
  let cutoff := (now - window m)%Q in
  let ip := get_client_ip r in
  let m := m {{ general_history := clean_times cutoff ip (general_history m);
                mutation_history := clean_times cutoff ip (mutation_history m);
                admin_history := clean_times cutoff ip (admin_history m) }} in
  match check_quotas r m with
  | Some oldest => (RateLimited (retry_after oldest (window m) now), m)
  | None =>
      let m := m {{ general_history := add_time ip now (general_history m) }} in
      let m := if is_mutation r then m {{ mutation_history := add_time ip now (mutation_history m) }} else m in
      let m := if is_admin r then m {{ admin_history := add_time ip now (admin_history m) }} else m in
      (Forwarded, cleanup_old_entries now m)
  end.

(** A run: what was forwarded, in order. *)
Fixpoint serve (rs : list Request) (m : RateLimiter) : list Request * RateLimiter :=
  match rs with
  | [] => ([], m)
  | r :: rs =>
      let (h, m) := rate_request r m in
      let (log, m) := serve rs m in
      (match h with Forwarded => r :: log | RateLimited _ => log end, m)
  end.
End RateLimiter.

(** ** size_limit.py *)

Module SizeLimit.

(** What [receive] returns. *)
Inductive Message :=
  | HttpRequest (body : bytes) (more_body : bool)
  | HttpDisconnect
  | OtherMessage.

(** A request is answered by the middleware, is dropped, still waits for its
    messages, or reaches the application, which then receives [messages]. *)
Inductive BodyHandled :=
  | InvalidContentLength
  | RequestTooLarge
  | Dropped
  | Reading
  | Application (messages : list Message).

(** [dict(headers).get(name)]: the last one counts. *)
Definition header (name : string) (headers : list (string * string)) : option string :=
  snd <$> last (filter (λ h : string * string, h.1 = name) headers).

(** [int(cl_str)] of ASCII text, which has at most 4300 digits. *)
Definition content_length (raw : string) : option Z :=
  if negb (forallb (λ b, (Byte.to_N b <? 128)%N) (String.list_byte_of_string raw)) then None
  else if (4300 <? length (List.filter is_digit (String.list_ascii_of_string raw)))%nat then None
  else match parse_int raw with Ok n => if n <? 0 then None else Some n | Raise _ => None end.

(** The loop that buffers the body. *)
Fixpoint buffer (max_bytes received : Z) (chunks : list bytes) (messages : list Message) : BodyHandled :=
  match messages with
  | [] => Reading
  | HttpDisconnect :: _ => Dropped
  | OtherMessage :: l => buffer max_bytes received chunks l
  | HttpRequest body more :: l =>
      let received := received + Z.of_nat (length body) in
      if max_bytes <? received then RequestTooLarge
      else
        let chunks := (chunks ++ [body])%list in
        if more then buffer max_bytes received chunks l
        else Application (HttpRequest (concat chunks) false :: l)
  end.

Definition size_request (max_bytes : Z) (headers : list (string * string)) (method : string) (messages : list Message) : BodyHandled :=
  let proceed :=
    if bool_decide (RateLimiter.upper method ∈ ["GET"; "HEAD"; "OPTIONS"]) then Application messages
    else buffer max_bytes 0 [] messages in
  match header "content-length" headers with
  | None => proceed
  | Some raw =>
      match content_length raw with
      | None => InvalidContentLength
      | Some n => if max_bytes <? n then RequestTooLarge else proceed
      end
  end.
End SizeLimit.
(** * Facts about the limits *)

(** ** Sorted times *)

Definition sorted_times (q : list Q) : Prop := StronglySorted Qle q.

Lemma before_true c t : before c t = true ↔ (t < c)%Q.
Proof. unfold before. rewrite negb_true_iff, <- not_true_iff_false, Qle_bool_iff. split; [apply Qnot_le_lt|apply Qlt_not_le]. Qed.

Lemma before_false c t : before c t = false ↔ (c <= t)%Q.
Proof. unfold before. by rewrite negb_false_iff, Qle_bool_iff. Qed.

(** Cleaning a sorted deque removes exactly the old times. *)
Lemma purge_sorted old q :
  (∀ t u, (t <= u)%Q → old u = true → old t = true) → sorted_times q → purge old q = List.filter (λ t, negb (old t)) q.
Proof.
  intros Hold. induction 1 as [|t q Hq IH Hle]; [done|]. cbn. destruct (old t) eqn:Ht; [done|]. cbn. f_equal. symmetry.
  clear IH Hq. induction Hle as [|u q Hu Hle IH]; [done|]. cbn. destruct (old u) eqn:Hou; cbn; [|by rewrite IH].
  apply (Hold t) in Hou; [congruence|done].
Qed.

Lemma purge_filter c q : sorted_times q → purge (before c) q = List.filter (λ t, Qle_bool c t) q.
Proof.
  intros Hq. rewrite purge_sorted; [|intros t u Htu; rewrite !before_true; lra|done].
  apply filter_ext. intros t. unfold before. apply negb_involutive.
Qed.

Lemma sorted_map_filter {A} (f : A → bool) (g : A → Q) l : sorted_times (map g l) → sorted_times (map g (List.filter f l)).
Proof.
  induction l as [|x l IH]; [done|]. cbn. inversion 1 as [|? ? Hs Hle]; subst. destruct (f x); [|by apply IH].
  cbn. constructor; [by apply IH|]. rewrite Forall_forall in *. intros t (y & -> & Hy)%list_elem_of_fmap.
  apply Hle. apply list_elem_of_fmap. exists y. split; [done|].
  apply list_elem_of_In, filter_In in Hy as [Hy _]. by apply list_elem_of_In.
Qed.

Lemma filter_filter {A} (f g : A → bool) l : List.filter f (List.filter g l) = List.filter (λ x, g x && f x) l.
Proof. induction l as [|x l IH]; [done|]. cbn. destruct (g x); cbn; [destruct (f x)|]; by rewrite IH. Qed.

Lemma filter_map {A B} (f : B → bool) (g : A → B) l : List.filter f (map g l) = map g (List.filter (λ x, f (g x)) l).
Proof. induction l as [|x l IH]; [done|]. cbn. destruct (f (g x)); cbn; by rewrite IH. Qed.

(** ** The quotas *)

Section quotas.
Import RateLimiter.

Inductive Tier := General | Mutation | Admin.

Definition applies (T : Tier) (r : Request) : bool :=
  match T with General => true | Mutation => is_mutation r | Admin => is_admin r end.
Definition tier_limit (T : Tier) (m : RateLimiter) : Z :=
  match T with General => general_limit m | Mutation => mutation_limit m | Admin => admin_limit m end.
Definition history (T : Tier) (m : RateLimiter) : gmap string (list Q) :=
  match T with General => general_history m | Mutation => mutation_history m | Admin => admin_history m end.

(** The forwarded requests of an address that count for a quota since [c]. *)
Definition recent (T : Tier) (ip : string) (c : Q) (log : list Request) : list Request :=
  List.filter (λ r, applies T r && bool_decide (get_client_ip r = ip) && Qle_bool c (arrived r)) log.

Record limiter_ok (m : RateLimiter) (log : list Request) (now : Q) : Prop := {
  lim_window : (0 <= window m)%Q;
  lim_past : ∀ r, r ∈ log → (arrived r <= now)%Q;
  lim_sorted : sorted_times (map arrived log);
  lim_times : ∀ T ip, ∃ c, (c <= now - window m)%Q ∧ times_of (history T m) ip = map arrived (recent T ip c log)
}.

Lemma recent_sorted T ip c log : sorted_times (map arrived log) → sorted_times (map arrived (recent T ip c log)).
Proof. apply sorted_map_filter. Qed.

(** A later cut leaves the later ones. *)
Lemma recent_later T ip c c' log :
  (c <= c')%Q → sorted_times (map arrived log) →
  purge (before c') (map arrived (recent T ip c log)) = map arrived (recent T ip c' log).
Proof.
  intros Hc Hs. rewrite purge_filter by by apply recent_sorted. rewrite filter_map. f_equal. unfold recent.
  rewrite filter_filter. apply filter_ext. intros r. destruct (applies T r && _); cbn; [|done].
  destruct (Qle_bool c' (arrived r)) eqn:H; [|by rewrite andb_false_r]. apply Qle_bool_iff in H.
  rewrite andb_true_r. apply Qle_bool_iff. by eapply Qle_trans.
Qed.

Lemma recent_snoc T ip c log r :
  recent T ip c (log ++ [r])%list = (recent T ip c log ++ (if applies T r && bool_decide (get_client_ip r = ip) && Qle_bool c (arrived r) then [r] else []))%list.
Proof. unfold recent. rewrite List.filter_app. cbn. by destruct (_ && _ && _). Qed.

Lemma times_insert h ip ip' q : times_of (<[ip := q]> h) ip' = if decide (ip = ip') then q else times_of h ip'.
Proof. unfold times_of. rewrite lookup_insert. by case_decide. Qed.

(** After cleaning for one address. *)
Lemma cleaned_ok m log now t ip m' :
  limiter_ok m log now → (now <= t)%Q →
  window m' = window m → (∀ T, history T m' = clean_times (t - window m) ip (history T m)) →
  limiter_ok m' log t ∧ ∀ T, times_of (history T m') ip = map arrived (recent T ip (t - window m) log).
Proof.
  intros [Hw Hp Hs Ht] Hle Hwin Hh.
  assert (∀ T, times_of (history T m') ip = map arrived (recent T ip (t - window m) log)) as Hclean.
  { intros T. rewrite Hh. unfold clean_times. rewrite times_insert, decide_True by done.
    destruct (Ht T ip) as (c & Hc & ->). apply recent_later; [lra|done]. }
  split; [|done]. split; [by rewrite Hwin|intros r Hr; eapply Qle_trans; [by apply Hp|done]|done|].
  intros T ip'. rewrite Hwin. destruct (decide (ip = ip')) as [<-|Hne].
  - exists (t - window m)%Q. split; [lra|apply Hclean].
  - destruct (Ht T ip') as (c & Hc & Hq). exists c. split; [lra|]. rewrite <- Hq, Hh. unfold clean_times.
    by rewrite times_insert, decide_False.
Qed.

(** After recording a request that is forwarded. *)
Lemma recorded_ok m log r m' :
  limiter_ok m log (arrived r) → window m' = window m →
  (∀ T, history T m' = if applies T r then add_time (get_client_ip r) (arrived r) (history T m) else history T m) →
  limiter_ok m' (log ++ [r])%list (arrived r).
Proof.
  intros [Hw Hp Hs Ht] Hwin Hh. split.
  - by rewrite Hwin.
  - intros x [Hx| ->%list_elem_of_singleton]%elem_of_app; [by apply Hp|apply Qle_refl].
  - rewrite map_app. unfold sorted_times. apply StronglySorted_app_2; [|done|cbn; repeat constructor].
    intros x y (z & -> & Hz)%list_elem_of_fmap ->%list_elem_of_singleton. by apply Hp.
  - intros T ip. destruct (Ht T ip) as (c & Hc & Hq). exists c. rewrite Hwin. split; [done|].
    rewrite recent_snoc, map_app, <- Hq, Hh. destruct (applies T r); cbn [andb]; [|by rewrite app_nil_r].
    unfold add_time. rewrite times_insert. case_decide as Hip.
    + rewrite bool_decide_eq_true_2 by done. cbn [andb]. rewrite (proj2 (Qle_bool_iff c (arrived r))) by lra. by subst.
    + rewrite bool_decide_eq_false_2 by done. cbn. by rewrite app_nil_r.
Qed.

Lemma cleanup_times c h ip : times_of (cleanup_history c h) ip = purge (before c) (times_of h ip).
Proof.
  unfold times_of, cleanup_history. rewrite lookup_omap. destruct (h !! ip) as [q|]; [|done]. cbn.
  by destruct (purge (before c) q).
Qed.

(** The cleanup of all addresses. *)
Lemma cleanup_ok m log t : limiter_ok m log t → limiter_ok (cleanup_old_entries t m) log t.
Proof.
  intros Hok. unfold cleanup_old_entries. destruct (before 30 _); [done|]. destruct Hok as [Hw Hp Hs Ht]. split; [done..|].
  intros T ip. exists (t - window m)%Q. split; [apply Qle_refl|]. destruct (Ht T ip) as (c & Hc & Hq).
  rewrite <- (recent_later T ip c) by done. rewrite <- Hq, <- cleanup_times. by destruct T.
Qed.

(** [check_quotas] finds a quota that is used up, if there is one. *)
Lemma check_quotas_spec r m :
  match check_quotas r m with
  | None => ∀ T, applies T r = true → Z.of_nat (length (times_of (history T m) (get_client_ip r))) < tier_limit T m
  | Some oldest => ∃ T, applies T r = true ∧ exceeded (tier_limit T m) (times_of (history T m) (get_client_ip r)) (arrived r) = Some oldest
  end.
Proof.
  unfold check_quotas. destruct (exceeded (general_limit m) _ _) as [t|] eqn:H1; [by exists General|].
  destruct (is_mutation r) eqn:Hm; [destruct (exceeded (mutation_limit m) _ _) as [t|] eqn:H2; [by exists Mutation|]|];
    (destruct (is_admin r) eqn:Ha; [destruct (exceeded (admin_limit m) _ _) as [t|] eqn:H3; [by exists Admin|]|]);
    intros [] HT; cbn in HT; try congruence; unfold exceeded in *; by repeat (case_match; try done; to_prop).
Qed.

(** Whether a quota of the log is used up, and since when. *)
Definition used (T : Tier) (r : Request) (m : RateLimiter) (log : list Request) : list Request :=
  recent T (get_client_ip r) (arrived r - window m) log.

Definition quota_left (T : Tier) (r : Request) (m : RateLimiter) (log : list Request) : Prop :=
  Z.of_nat (length (used T r m log)) < tier_limit T m.

Definition cleaned (r : Request) (m : RateLimiter) : RateLimiter :=
  let ip := get_client_ip r in
  let cutoff := (arrived r - window m)%Q in
  m {{ general_history := clean_times cutoff ip (general_history m);
       mutation_history := clean_times cutoff ip (mutation_history m);
       admin_history := clean_times cutoff ip (admin_history m) }}.

Definition recorded (r : Request) (m : RateLimiter) : RateLimiter :=
  let ip := get_client_ip r in
  let m := m {{ general_history := add_time ip (arrived r) (general_history m) }} in
  let m := if is_mutation r then m {{ mutation_history := add_time ip (arrived r) (mutation_history m) }} else m in
  if is_admin r then m {{ admin_history := add_time ip (arrived r) (admin_history m) }} else m.

Lemma rate_request_eq r m :
  rate_request r m =
  match check_quotas r (cleaned r m) with
  | Some oldest => (RateLimited (retry_after oldest (window m) (arrived r)), cleaned r m)
  | None => (Forwarded, cleanup_old_entries (arrived r) (recorded r (cleaned r m)))
  end.
Proof. reflexivity. Qed.

Lemma recorded_parts r m :
  window (recorded r m) = window m ∧ (∀ T, tier_limit T (recorded r m) = tier_limit T m) ∧
  ∀ T, history T (recorded r m) = if applies T r then add_time (get_client_ip r) (arrived r) (history T m) else history T m.
Proof. unfold recorded. destruct (is_mutation r) eqn:Hm, (is_admin r) eqn:Ha; (split_and!; [done|by intros []|]); intros []; cbn; rewrite ?Hm, ?Ha; done. Qed.

Lemma cleanup_parts t m : window (cleanup_old_entries t m) = window m ∧ ∀ T, tier_limit T (cleanup_old_entries t m) = tier_limit T m.
Proof. unfold cleanup_old_entries. destruct (before 30 _); (split; [done|by intros []]). Qed.

(** One request: what happens to it is decided by the log alone. *)
Lemma rate_request_ok r m log now h m' :
  limiter_ok m log now → (now <= arrived r)%Q → rate_request r m = (h, m') →
  limiter_ok m' (match h with Forwarded => log ++ [r] | RateLimited _ => log end)%list (arrived r) ∧
  window m' = window m ∧ (∀ T, tier_limit T m' = tier_limit T m) ∧
  match h with
  | Forwarded => ∀ T, applies T r = true → quota_left T r m log
  | RateLimited k => 1 <= k ∧ ∃ T, applies T r = true ∧ ¬ quota_left T r m log ∧
      ∀ x, head (used T r m log) = Some x → (arrived x + window m <= arrived r + inject_Z k)%Q
  end.
Proof.
  intros Hok Hle. rewrite rate_request_eq.
  destruct (cleaned_ok m log now (arrived r) (get_client_ip r) (cleaned r m) Hok Hle eq_refl) as [Hok1 Ht]; [by intros []|].
  assert (∀ T, tier_limit T (cleaned r m) = tier_limit T m) as Hlim by (by intros []).
  pose proof (check_quotas_spec r (cleaned r m)) as Hspec. destruct (check_quotas r (cleaned r m)) as [oldest|]; intros [= <- <-].
  - split_and!; [exact Hok1|done|done|unfold retry_after; lia|]. destruct Hspec as (T & HT & Hex). exists T.
    rewrite Ht, Hlim in Hex. unfold exceeded in Hex. rewrite length_map in Hex. unfold quota_left, used.
    destruct (_ <=? _) eqn:Hn; [|done]. to_prop. split_and!; [done|lia|]. intros x Hx.
    assert (arrived x <= arrived r)%Q as Hxr.
    { eapply Qle_trans; [|exact Hle]. apply (lim_past _ _ _ Hok). apply head_Some_elem_of in Hx.
      unfold recent in Hx. apply list_elem_of_In, filter_In in Hx as [Hx _]. by apply list_elem_of_In. }
    destruct (recent T _ _ log) as [|y l]; [done|]. injection Hx as ->. cbn in Hex. injection Hex as <-.
    assert (∀ o, (arrived x <= o)%Q → (arrived x + window m <= arrived r + inject_Z (retry_after o (window m) (arrived r)))%Q) as Hr.
    { intros o Ho. unfold retry_after. pose proof (Qle_ceiling (o + window m - arrived r)) as Hc.
      assert (inject_Z (Qceiling (o + window m - arrived r)) <= inject_Z (Z.max 1 (Qceiling (o + window m - arrived r))))%Q as Hm
        by (rewrite <- Zle_Qle; lia). lra. }
    destruct (Qle_bool (arrived r) (arrived x)); apply Hr; [done|apply Qle_refl].
  - destruct (recorded_parts r (cleaned r m)) as (Hw & Hl & Hh). destruct (cleanup_parts (arrived r) (recorded r (cleaned r m))) as [Hw' Hl'].
    split_and!.
    + apply cleanup_ok. by apply (recorded_ok (cleaned r m)).
    + by rewrite Hw', Hw.
    + intros T. by rewrite Hl', Hl, Hlim.
    + intros T HT. specialize (Hspec T HT). by rewrite Ht, Hlim, length_map in Hspec.
Qed.

(** A run whose clock does not go back. *)
Fixpoint timely (now : Q) (rs : list Request) : Prop :=
  match rs with [] => True | r :: rs => (now <= arrived r)%Q ∧ timely (arrived r) rs end.

Lemma serve_ok rs : ∀ m log now log' m',
  limiter_ok m log now → timely now rs → serve rs m = (log', m') →
  ∃ last, limiter_ok m' (log ++ log')%list last ∧ (∀ r, timely now (rs ++ [r])%list → (last <= arrived r)%Q) ∧
    window m' = window m ∧ ∀ T, tier_limit T m' = tier_limit T m.
Proof.
  induction rs as [|r rs IH]; intros m log now log' m' Hok Ht; cbn [serve].
  - intros [= <- <-]. exists now. rewrite app_nil_r. split_and!; [done| |done|done]. intros r [Hr _]. exact Hr.
  - destruct Ht as [Hle Ht]. destruct (rate_request r m) as [h m1] eqn:Hr.
    destruct (rate_request_ok _ _ _ _ _ _ Hok Hle Hr) as (Hok1 & Hw & Hl & _).
    destruct (serve rs m1) as [log1 m2] eqn:Hs. intros [= <- <-].
    destruct (IH _ _ _ _ _ Hok1 Ht Hs) as (last & Hok2 & Hlast & Hw2 & Hl2). exists last.
    split_and!; [|intros x [_ Hx]; by apply Hlast|congruence|intros T; by rewrite Hl2, Hl].
    destruct h; [|done]. by rewrite <- app_assoc in Hok2.
Qed.

Lemma new_limiter_ok g mu a w t : (0 <= w)%Q → limiter_ok (new_limiter g mu a w t) [] t.
Proof.
  intros Hw. split; [exact Hw|by intros r ?%elem_of_nil|constructor|]. intros T ip. exists (t - w)%Q.
  split; [apply Qle_refl|]. by destruct T.
Qed.

(** C36: the quotas are exact. After any requests whose times do not go back, a
    request is forwarded exactly when each quota that applies to it, the general
    one, that of mutations and that of the administration, has been used by fewer
    forwarded requests of its address within the window than its limit; so no
    window of any address holds more than the limit.  A refused request is told
    a number of seconds after which the oldest of those that fill some quota is
    no longer inside the window. *)
Theorem rate_limits_exact g mu a w t rs r :
  (0 <= w)%Q → timely t (rs ++ [r])%list →
  let (log, m) := serve rs (new_limiter g mu a w t) in
  (∀ T, tier_limit T m = match T with General => g | Mutation => mu | Admin => a end) ∧ window m = w ∧
  ((rate_request r m).1 = Forwarded ↔ ∀ T, applies T r = true → quota_left T r m log) ∧
  ∀ k, (rate_request r m).1 = RateLimited k → 1 <= k ∧ ∃ T, applies T r = true ∧ ¬ quota_left T r m log ∧
    ∀ x, head (used T r m log) = Some x → (arrived x + w <= arrived r + inject_Z k)%Q.
Proof.
  intros Hw Ht. destruct (serve rs _) as [log m] eqn:Hs.
  assert (timely t rs) as Ht' by (clear Hs; revert t Ht; induction rs as [|x rs IH]; intros t; cbn; [done|]; intros [? ?]; split; auto).
  destruct (serve_ok rs _ _ _ _ _ (new_limiter_ok g mu a w t Hw) Ht' Hs) as (last & Hok & Hlast & Hwin & Hl). cbn [app] in Hok.
  destruct (rate_request r m) as [h m'] eqn:Hr.
  destruct (rate_request_ok _ _ _ _ _ _ Hok (Hlast r Ht) Hr) as (_ & _ & _ & Hh). change (window (new_limiter g mu a w t)) with w in Hwin. rewrite Hwin in Hh.
  split_and!; [intros T; rewrite Hl; by destruct T|done| |].
  - cbn [fst]. destruct h as [|k]; [done|]. split; [done|]. intros Hq. destruct Hh as (_ & T & HT & Hn & _). by destruct (Hn (Hq T HT)).
  - cbn [fst]. intros k ->. exact Hh.
Qed.
End quotas.

(** ** The limit on bodies *)

Section body.
Import SizeLimit.

(** The chunks of a whole body, and what comes after it. *)
Inductive streams : list Message → list bytes → list Message → Prop :=
  | streams_last b rest : streams (HttpRequest b false :: rest) [b] rest
  | streams_more b l cs rest : streams l cs rest → streams (HttpRequest b true :: l) (b :: cs) rest
  | streams_other l cs rest : streams l cs rest → streams (OtherMessage :: l) cs rest.

Definition total_size (cs : list bytes) : Z := Z.of_nat (length (concat cs)).

Lemma total_size_snoc cs b : total_size (cs ++ [b])%list = total_size cs + Z.of_nat (length b).
Proof. unfold total_size. rewrite concat_app, length_app. cbn. rewrite app_nil_r. lia. Qed.

Lemma total_size_app cs ds : total_size (cs ++ ds)%list = total_size cs + total_size ds.
Proof. unfold total_size. rewrite concat_app, length_app. lia. Qed.

Lemma buffer_streams max_b l cs rest : streams l cs rest → ∀ held,
  buffer max_b (total_size held) held l =
    if total_size (held ++ cs)%list <=? max_b then Application (HttpRequest (concat (held ++ cs)) false :: rest) else RequestTooLarge.
Proof.
  induction 1 as [b rest|b l cs rest Hl IH|l cs rest Hl IH]; intros held; cbn [buffer].
  - rewrite <- total_size_snoc. by rewrite Z.ltb_antisym; destruct (_ <=? _).
  - rewrite <- total_size_snoc. rewrite IH, <- app_assoc. cbn [app]. destruct (max_b <? _) eqn:Hm; [|done]. to_prop.
    assert (total_size (held ++ b :: cs)%list <=? max_b = false) as ->; [|done]. apply Z.leb_gt.
    rewrite cons_middle, app_assoc, total_size_app. unfold total_size at 2. lia.
  - apply IH.
Qed.

Lemma buffer_application max_b l : ∀ held ms,
  buffer max_b (total_size held) held l = Application ms →
  ∃ cs rest, streams l cs rest ∧ ms = HttpRequest (concat (held ++ cs)) false :: rest ∧ total_size (held ++ cs)%list <= max_b.
Proof.
  induction l as [|[b more| |] l IH]; intros held ms; cbn [buffer]; try done.
  - rewrite <- total_size_snoc. destruct (max_b <? _) eqn:Hm; [done|]. to_prop. destruct more.
    + intros (cs & rest & Hl & -> & Hs)%IH. exists (b :: cs), rest. rewrite <- app_assoc in *. split_and!; [by constructor|done|done].
    + intros [= <-]. exists [b], l. split_and!; [by constructor|done|done].
  - intros (cs & rest & Hl & -> & Hs)%IH. exists cs, rest. split_and!; [by constructor|done|done].
Qed.

Lemma buffer_stops max_b cs l : ∀ held,
  max_b < total_size (held ++ cs)%list → cs ≠ [] → buffer max_b (total_size held) held (map (λ b, HttpRequest b true) cs ++ l)%list = RequestTooLarge.
Proof.
  induction cs as [|b cs IH]; intros held Hm Hne; [done|]. cbn [map app buffer]. rewrite <- total_size_snoc.
  destruct (max_b <? _) eqn:Hb; [done|]. to_prop. assert (held ++ b :: cs = (held ++ [b]) ++ cs)%list as Heq by by rewrite <- app_assoc.
  rewrite Heq in Hm. apply IH; [done|]. intros ->. rewrite app_nil_r in Hm. exact (Zlt_not_le _ _ Hm Hb).
Qed.

Definition has_body (method : string) : Prop := RateLimiter.upper method ∉ ["GET"; "HEAD"; "OPTIONS"].
Definition length_allowed (max_b : Z) (headers : list (string * string)) : Prop :=
  match header "content-length" headers with
  | None => True
  | Some raw => ∃ n, content_length raw = Some n ∧ n <= max_b
  end.

Lemma size_request_body max_b headers method l :
  has_body method → length_allowed max_b headers → size_request max_b headers method l = buffer max_b 0 [] l.
Proof.
  intros Hm Hl. unfold size_request, length_allowed in *. rewrite bool_decide_eq_false_2 by done.
  destruct (header _ _) as [raw|]; [|done]. destruct Hl as (n & -> & Hn). by rewrite (proj2 (Z.ltb_ge _ _)).
Qed.

(** C37: the application gets whole bodies within the limit. For a request with a
    body whose declared length is absent or allowed: a body within the limit
    reaches the application as one message with exactly its bytes, followed by
    what comes after; a larger one is refused, as soon as the bytes received
    exceed the limit and whatever would still come; and nothing else makes the
    application run. *)
Theorem body_limit_exact max_b headers method :
  0 <= max_b → has_body method → length_allowed max_b headers →
  (∀ l cs rest, streams l cs rest →
    size_request max_b headers method l =
      if total_size cs <=? max_b then Application (HttpRequest (concat cs) false :: rest) else RequestTooLarge) ∧
  (∀ cs l, max_b < total_size cs → size_request max_b headers method (map (λ b, HttpRequest b true) cs ++ l)%list = RequestTooLarge) ∧
  (∀ l ms, size_request max_b headers method l = Application ms →
    ∃ cs rest, streams l cs rest ∧ ms = HttpRequest (concat cs) false :: rest ∧ total_size cs <= max_b).
Proof.
  intros Hmax Hm Hl. split_and!.
  - intros l cs rest Hs. rewrite size_request_body by done. exact (buffer_streams max_b l cs rest Hs []).
  - intros cs l Hc. rewrite size_request_body by done. apply (buffer_stops max_b cs l []); [done|]. intros ->. change (max_b < 0) in Hc. lia.
  - intros l ms. rewrite size_request_body by done. apply (buffer_application max_b l []).
Qed.
End body.

(** ** Witnesses *)

Section witnesses.
Import RateLimiter.

Definition get_at (t : Q) : Request := MkRequest (Some "10.0.0.7") "GET" "/api/v1/health" t.
Definition early : list Request := [get_at 1; get_at 2; get_at 3].

(** The third request in a second is refused, and told to come back. *)
Lemma rate_limits_exact_witness :
  (rate_request (get_at 62) (serve early (new_limiter 2 1 1 60 0)).2).1 = Forwarded ∧
  ∃ k, (rate_request (get_at 3) (serve [get_at 1; get_at 2] (new_limiter 2 1 1 60 0)).2).1 = RateLimited k ∧ 1 <= k.
Proof.
  split.
  - pose proof (rate_limits_exact 2 1 1 60 0 early (get_at 62)) as H. cbv zeta in H.
    destruct (serve early (new_limiter 2 1 1 60 0)) as [log m] eqn:Hs.
    destruct H as (Hlim & Hw & Hf & _); [discriminate|cbn; repeat split; discriminate|].
    apply Hf. intros T HT. unfold quota_left, used. rewrite Hlim, Hw.
    assert (log = [get_at 1; get_at 2]) as -> by (vm_compute in Hs; by injection Hs as <- _).
    destruct T; [vm_compute; reflexivity|discriminate HT|discriminate HT].
  - pose proof (rate_limits_exact 2 1 1 60 0 [get_at 1; get_at 2] (get_at 3)) as H. cbv zeta in H.
    assert (match (rate_request (get_at 3) (serve [get_at 1; get_at 2] (new_limiter 2 1 1 60 0)).2).1 with
            | RateLimited _ => true | Forwarded => false end = true) as Hr by (vm_compute; reflexivity).
    destruct (serve [get_at 1; get_at 2] (new_limiter 2 1 1 60 0)) as [log m]. cbn [snd] in *.
    destruct H as (_ & _ & _ & Hk); [discriminate|cbn; repeat split; discriminate|].
    destruct (rate_request (get_at 3) m).1 as [|k] eqn:Hq; [discriminate Hr|]. exists k. split; [reflexivity|].
    exact (proj1 (Hk k eq_refl)).
Defined.

Import SizeLimit.

Lemma body_limit_exact_witness :
  size_request 3 [("content-length", "3")] "post" [HttpRequest [Byte.x61] true; OtherMessage; HttpRequest [Byte.x62; Byte.x63] false; HttpDisconnect]
  = Application [HttpRequest [Byte.x61; Byte.x62; Byte.x63] false; HttpDisconnect].
Proof.
  destruct (body_limit_exact 3 [("content-length", "3")] "post") as (H & _ & _).
  - lia.
  - unfold has_body. apply (bool_decide_unpack _). vm_compute. exact I.
  - exists 3. split; [reflexivity|lia].
  - rewrite (H _ [[Byte.x61]; [Byte.x62; Byte.x63]] [HttpDisconnect]); [reflexivity|]. repeat constructor.
Defined.
End witnesses.
