(* ===== verification/AppDb.v ===== *)
(** * appdb/ and wallet/keystore.py: accounts, sessions and retry records

    The tables of the application database with the constraints of
    [schema.sql], and the methods of [AppDatabase].  Any statement may fail: the
    list of faults says which, and whether its effect reached the disk all the
    same.  The connection is in autocommit mode, so a statement outside a
    transaction is atomic by itself.  [KeyStore] encrypts with the Fernet class
    of the [cryptography] package, which is the class [FernetLib] here. *)

From coqutil Require Import Datatypes.RecordSetters.
Import DoubleBraceUpdate.
From S2P Require Import Prelude Bytes Json Crypto Database Effects.
#[local] Open Scope string_scope.
#[local] Open Scope Z_scope.

(** ** Tables *)

Record UserRow := MkUser {
  user_row_id : Z;
  email : string;
  username : string;
  password_hash : string;
  user_created : Z
}.

(** A row of [wallets], without its own key; the first four columns are the
    [Wallet] of [wallet.py]. *)
Record WalletRow := MkWalletRow {
  wallet_address : string;
  wallet_public_key : string;
  encrypted_private_key : bytes;
  key_version : Z;
  wallet_user : Z;
  wallet_created : Z
}.

Record SessionRow := MkSessionRow {
  session_user : Z;
  csrf_hash : string;
  expires_at : Z
}.

Inductive RecordState := RESERVED | PREPARED | ACCEPTED | REJECTED.

#[export] Instance record_state_eq_dec : EqDecision RecordState.
Proof. solve_decision. Defined.

Record IdemRow := MkIdem {
  request_fingerprint : string;
  result_txid : option string;
  transaction_data : option bytes;
  record_state : RecordState;
  record_created : Z
}.

#[export] Instance idem_row_eq_dec : EqDecision IdemRow.
Proof. solve_decision. Defined.

(** The keys of [idempotency_records] are a user and the key of a request; the
    operation is always [wallet.send].  [sequence] is the last id given to a
    user. *)
Record AppTables := MkAppTables {
  users : list UserRow;
  wallets : list WalletRow;
  sessions : gmap string SessionRow;
  records : gmap (Z * string) IdemRow;
  metadata : gmap string bytes;
  sequence : Z
}.

Definition empty_app_tables : AppTables := MkAppTables [] [] ∅ ∅ ∅ 0.

(** ** Statements *)

(** [AppFault persisted] is a statement that raises [sqlite3.Error]. *)
Inductive app_fault := AppRuns | AppFails (persisted : bool).

(** [saved] are the committed tables while a transaction is open. *)
Record AppDb := MkAppDb {
  tables : AppTables;
  saved : option AppTables;
  faults : list app_fault
}.

(** [self.connection.execute(sql)] *)
Definition statement {A} (f : AppTables → result (A * AppTables)) : call AppDb A := λ d,
  let after := match f (tables d) with Ok (_, t) => t | Raise _ => tables d end in
  match faults d with
  | AppFails persisted :: fs => (Raise SqliteError, d {{ tables := if persisted then after else tables d; faults := fs }})
  | _ => (fst <$> f (tables d), d {{ tables := after; faults := tail (faults d) }})
  end.

Definition app_select {A} (f : AppTables → A) : AppTables → result (A * AppTables) := λ t, Ok (f t, t).
Definition app_update (f : AppTables → result AppTables) : AppTables → result (unit * AppTables) := λ t, t' ← f t; Ok (tt, t').

(** [AppDatabase.execute] *)
Definition app_execute {A} (f : AppTables → result (A * AppTables)) : call AppDb A :=
  try_call (statement f) is_sqlite_error (λ _, raise StorageError).

(** A UNIQUE, PRIMARY KEY, CHECK or REFERENCES constraint. *)
Definition app_constraint (b : bool) : result unit := raise_if (negb b) SqliteIntegrity.

Definition insert_user (mail name hash : string) (now : Z) : AppTables → result (Z * AppTables) := λ t,
  _ ← app_constraint (bool_decide (mail ∉ map email (users t)));
  _ ← app_constraint (bool_decide (name ∉ map username (users t)));
  let i := sequence t + 1 in
  Ok (i, t {{ users := (users t ++ [MkUser i mail name hash now])%list; sequence := i }}).

Definition insert_wallet (w : WalletRow) : AppTables → result AppTables := λ t,
  _ ← app_constraint (bool_decide (wallet_user w ∈ map user_row_id (users t)));
  _ ← app_constraint (bool_decide (wallet_user w ∉ map wallet_user (wallets t)));
  _ ← app_constraint (bool_decide (wallet_address w ∉ map wallet_address (wallets t)));
  _ ← app_constraint (0 <? key_version w);
  Ok (t {{ wallets := (wallets t ++ [w])%list }}).

Definition insert_session (token_id : string) (s : SessionRow) : AppTables → result AppTables := λ t,
  _ ← app_constraint (bool_decide (session_user s ∈ map user_row_id (users t)));
  _ ← app_constraint (bool_decide (sessions t !! token_id = None));
  Ok (t {{ sessions := <[token_id := s]> (sessions t) }}).

Definition insert_record (user : Z) (key : string) (r : IdemRow) : AppTables → result AppTables := λ t,
  _ ← app_constraint (bool_decide (user ∈ map user_row_id (users t)));
  _ ← app_constraint (bool_decide (records t !! (user, key) = None));
  Ok (t {{ records := <[(user, key) := r]> (records t) }}).

(** [UPDATE ... WHERE user_id=? AND idempotency_key=?] *)
Definition update_record (user : Z) (key : string) (f : IdemRow → IdemRow) : AppTables → result AppTables := λ t,
  Ok (t {{ records := alter f (user, key) (records t) }}).

(** [DELETE ... AND state='reserved'] *)
Definition delete_reserved (user : Z) (key : string) : AppTables → result AppTables := λ t,
  Ok (match records t !! (user, key) with
      | Some r => if bool_decide (record_state r = RESERVED) then t {{ records := delete (user, key) (records t) }} else t
      | None => t
      end).

(** ** Transactions *)

(** [COMMIT]: when it fails before its data reached the disk, its transaction
    stays open. *)
Definition commit_transaction : call AppDb unit := λ d,
  match faults d with
  | AppFails true :: fs => (Raise StorageError, d {{ saved := None; faults := fs }})
  | AppFails false :: fs => (Raise StorageError, d {{ faults := fs }})
  | _ => (Ok tt, d {{ saved := None; faults := tail (faults d) }})
  end.

(** [with self.transaction()]: an error of the body, or of COMMIT while its
    transaction is still open, rolls back. *)
Definition app_transaction {A} (body : call AppDb A) : call AppDb A :=
  _ ← app_execute (app_select (λ _, tt));
  _ ← modify (λ d : AppDb, d {{ saved := Some (tables d) }});
  try_call
    (a ← body; _ ← commit_transaction; mret a)
    (λ _, true)
    (λ e, _ ← modify (λ d : AppDb, d {{ tables := default (tables d) (saved d); saved := None }});
          raise e).

(** ** Queries *)

Definition user_by_id (i : Z) : call AppDb (option UserRow) :=
  app_execute (app_select (λ t, snd <$> list_find (λ u, user_row_id u = i) (users t))).
Definition find_user (identifier : string) : call AppDb (option UserRow) :=
  app_execute (app_select (λ t, snd <$> list_find (λ u, email u = identifier ∨ username u = identifier) (users t))).
Definition wallet_of_user (i : Z) : call AppDb (option WalletRow) :=
  app_execute (app_select (λ t, snd <$> list_find (λ w, wallet_user w = i) (wallets t))).
Definition session_by_id (token_id : string) : call AppDb (option SessionRow) :=
  app_execute (app_select (λ t, sessions t !! token_id)).
Definition idempotency (user : Z) (key : string) : call AppDb (option IdemRow) :=
  app_execute (app_select (λ t, records t !! (user, key))).

(** [create_account]; the new wallet is given without its owner. *)
Definition create_account (mail name hash : string) (w : WalletRow) (now : Z) : call AppDb (option UserRow) :=
  i ← try_call
        (app_transaction (
          i ← statement (insert_user mail name hash now);
          _ ← statement (app_update (insert_wallet (w {{ wallet_user := i; wallet_created := now }})));
          mret i))
        is_sqlite_error
        (λ e, raise (if bool_decide (e = SqliteIntegrity) then DuplicateAccountError else StorageError));
  user_by_id i.

(** ** keystore.py *)

(** The Fernet class of a key: a token of a text, which depends on the time and
    on random bytes, and its text or [InvalidToken]. *)
Class FernetLib := {
  fernet_encrypt : Z → bytes → bytes;
  fernet_decrypt : bytes → option bytes
}.

Class FernetLaws (F : FernetLib) := {
  fernet_roundtrip r m : fernet_decrypt (fernet_encrypt r m) = Some m
}.

(** [data.decode("ascii")] *)
Definition decode_ascii (data : bytes) : result string :=
  if forallb (λ b, (Byte.to_N b <? 128)%N) data then Ok (String.string_of_list_byte data) else Raise ValueError.

Section keystore.
Context {E : EcdsaLib} {F : FernetLib}.

Definition KEY_VERSION : Z := 1.

Definition encrypt_private_key (r : Z) (key : SigningKey) : bytes :=
  fernet_encrypt r (utf8_encode (private_key_to_hex key)).

Definition decrypt_private_key (encrypted : bytes) (version : Z) : result SigningKey :=
  _ ← raise_if (negb (version =? KEY_VERSION)) KeyStoreError;
  reraise_as
    (data ← match fernet_decrypt encrypted with Some data => Ok data | None => Raise InvalidToken end;
     text ← decode_ascii data;
     private_key_from_hex text) [InvalidToken; ValueError] KeyStoreError.

(** [wallet_key_check] *)
Definition KEY_MARKER : bytes := utf8_encode "pychain-wallet-master-key-v1".

Definition check_wallet (w : WalletRow) : result unit :=
  key ← decrypt_private_key (encrypted_private_key w) (key_version w);
  raise_if (negb (bool_decide (public_key_to_address (get_public_key key) = wallet_address w))
            || negb (bool_decide (public_key_to_hex (get_public_key key) = wallet_public_key w))) KeyStoreError.

Definition validate_database (r : Z) : call AppDb unit :=
  record ← app_execute (app_select (λ t, metadata t !! "wallet_key_check"));
  _ ← lift match record with
           | Some data => raise_if (negb (bool_decide (fernet_decrypt data = Some KEY_MARKER))) KeyStoreError
           | None => Ok tt
           end;
  rows ← app_execute (app_select wallets);
  _ ← lift (map_result check_wallet rows);
  when (bool_decide (record = None))
    (app_execute (app_update (λ t,
       _ ← app_constraint (bool_decide (metadata t !! "wallet_key_check" = None));
       Ok (t {{ metadata := <["wallet_key_check" := fernet_encrypt r KEY_MARKER]> (metadata t) }})))).
End keystore.

(** * Facts about statements and transactions *)

(** A statement that changes the tables runs, or raises with or without its effect. *)
Lemma app_execute_update f d r d' :
  app_execute (app_update f) d = (r, d') →
  match r with
  | Ok _ => f (tables d) = Ok (tables d')
  | Raise e => tables d' = tables d ∨ f (tables d) = Ok (tables d')
  end.
Proof.
  unfold app_execute, try_call, statement, app_update. destruct (faults d) as [|[|p] fs].
  - cbn. destruct (f (tables d)) as [t|e]; cbn; [by intros [= <- <-]|].
    destruct (is_sqlite_error e); intros [= <- <-]; by left.
  - cbn. destruct (f (tables d)) as [t|e]; cbn; [by intros [= <- <-]|].
    destruct (is_sqlite_error e); intros [= <- <-]; by left.
  - cbn. intros [= <- <-]. cbn. destruct p; [|by left]. destruct (f (tables d)); [by right|by left].
Qed.

Lemma app_execute_select {A} (f : AppTables → A) d r d' :
  app_execute (app_select f) d = (r, d') → tables d' = tables d ∧ match r with Ok a => a = f (tables d) | Raise _ => True end.
Proof.
  unfold app_execute, try_call, statement, app_select. destruct (faults d) as [|[|p] fs]; cbn; intros [= <- <-]; [done..|].
  by destruct p.
Qed.

Lemma statement_run {A} (f : AppTables → result (A * AppTables)) d r d' :
  statement f d = (r, d') →
  saved d' = saved d ∧
  match r with
  | Ok a => f (tables d) = Ok (a, tables d')
  | Raise e => e = SqliteError ∨ f (tables d) = Raise e
  end.
Proof.
  unfold statement. destruct (faults d) as [|[|p] fs].
  1,2: destruct (f (tables d)) as [[a t]|e] eqn:Hf; cbn; intros [= <- <-]; split; [done|reflexivity|done|by right].
  intros [= <- <-]. by split; [|left].
Qed.

Lemma app_execute_saved {A} (f : AppTables → A) d r d' : app_execute (app_select f) d = (r, d') → saved d' = saved d.
Proof.
  unfold app_execute, try_call. destruct (statement _ d) as [y d1] eqn:Hy. apply statement_run in Hy as [Hs _].
  destruct y as [y|e]; [by intros [= _ <-]|]. destruct (is_sqlite_error e); by intros [= _ <-].
Qed.

(** A query fails as a storage error only. *)
Lemma app_execute_raises {A} (f : AppTables → A) d e d' : app_execute (app_select f) d = (Raise e, d') → e = StorageError.
Proof.
  unfold app_execute, try_call. destruct (statement _ d) as [y d1] eqn:Hy. apply statement_run in Hy as [_ Hy].
  destruct y as [y|e']; [by intros [=]|]. destruct Hy as [->|Hy]; [|done]. by intros [= <- _].
Qed.

(** A transaction happens as a whole or not at all. *)
Lemma app_transaction_atomic {A} (body : call AppDb A) d r d' :
  (∀ d1 r1 d2, body d1 = (r1, d2) → saved d2 = saved d1) → saved d = None → app_transaction body d = (r, d') →
  saved d' = None ∧
  ((∃ e, r = Raise e ∧ tables d' = tables d ∧ (e = StorageError ∨ ∃ d1 d2, body d1 = (Raise e, d2) ∧ tables d1 = tables d)) ∨
   ∃ a d1 d2, body d1 = (Ok a, d2) ∧ tables d1 = tables d ∧ tables d' = tables d2 ∧ (r = Ok a ∨ r = Raise StorageError)).
Proof.
  intros Hbody Hsaved. unfold app_transaction. rewrite call_run.
  destruct (app_execute (app_select (λ _, tt)) d) as [x d0] eqn:Hx.
  assert (saved d0 = saved d ∧ (∀ e, x = Raise e → e = StorageError)) as [Hs0 He].
  { split; [by eapply app_execute_saved|]. intros e ->. by eapply app_execute_raises. }
  apply app_execute_select in Hx as [Hd0 _]. destruct x as [[]|e].
  2: { intros [= <- <-]. split; [congruence|]. left. exists e. split_and!; [done|done|left; by apply He]. }
  rewrite call_run. unfold modify at 1. cbn [fst snd]. set (d1 := d0 {{ saved := Some (tables d0) }}).
  unfold try_call. rewrite call_run. destruct (body d1) as [[a|e] d2] eqn:Hb; pose proof (Hbody _ _ _ Hb) as Hs2.
  - rewrite call_run. unfold commit_transaction.
    destruct (faults d2) as [|[|[]] fs]; cbn; intros [= <- <-].
    + split; [done|]. right. exists a, d1, d2. split_and!; [done|done|done|by left].
    + split; [done|]. right. exists a, d1, d2. split_and!; [done|done|done|by left].
    + split; [done|]. right. exists a, d1, d2. split_and!; [done|done|done|by right].
    + split; [done|]. left. exists StorageError. split_and!; [done| |by left].
      change (default (tables d2) (saved d2) = tables d). rewrite Hs2. exact Hd0.
  - cbn. intros [= <- <-]. split; [done|]. left. exists e. split_and!; [done| |right; by exists d1, d2].
    change (default (tables d2) (saved d2) = tables d). rewrite Hs2. exact Hd0.
Qed.
