(* ===== verification/WalletService.v ===== *)
(** * wallet/service.py: balances and sending, once per key

    [_send] holds a lock per user across its awaits, so a user has at most one
    [Send] under way; it is cut at its awaits, and a [SendAction] is what runs
    until the next one.  Between two of them anything may happen to the node and
    to other users, any statement may fail ([AppDb]), and the process may stop,
    which loses every task and keeps the database. *)

From coqutil Require Import Datatypes.RecordSetters.
Import DoubleBraceUpdate.
From S2P Require Import Prelude Bytes Sha256 Json Crypto Transaction Utxo Block Blockchain Wallet Codec Database.
From S2P Require Import Effects NodeState Node Services AppDb.
#[local] Open Scope string_scope.
#[local] Open Scope Z_scope.

Definition MAX_WALLET_INPUTS : Z := 100.

(** [str.casefold]: like [lower] but for the sharp s.  The micro sign, whose
    fold is above 255, is left; no key contains it. *)
Fixpoint casefold (s : string) : string :=
  match s with
  | String c r => if bool_decide (c = Ascii.ascii_of_N 223) then "ss" +:+ casefold r else String (lower_char c) (casefold r)
  | EmptyString => s
  end.

Section service.
Context {EL : EcdsaLib} {CS : ChainStore} {F : FernetLib}.

(** ** Asking the node *)

Record WalletView := MkView { view_info : AddressInfo; view_pending : list Transaction }.

Definition wallet_state (v : Served) (address : string) : result WalletView :=
  expect (λ r, match r with RepWallet a l => Some (MkView a l) | _ => None end) (reply_of v (CmdWalletState address)).
Definition wallet_history (v : Served) (address : string) (start limit : Z) : result (list HistoryRecord) :=
  expect (λ r, match r with RepHistory l => Some l | _ => None end) (reply_of v (CmdWalletHistory address start limit)).
Definition submitted_by (v : Served) (tx : Transaction) : result bool :=
  expect (λ r, match r with RepBool b => Some b | _ => None end) (reply_of v (CmdSubmit tx)).

Definition wallet_row (user : Z) : call AppDb WalletRow :=
  row ← wallet_of_user user;
  match row with Some w => mret w | None => raise (APIError 404 "WALLET_NOT_FOUND") end.

(** What the pending transactions spend, and what is left. *)
Definition reserved_points (pending : list Transaction) : gset Outpoint :=
  list_to_set (tx ← pending; map outpoint (inputs tx)).
Definition available_outputs (view : WalletView) : UTXOSet :=
  filter (λ p : Outpoint * TxOutput, p.1 ∉ reserved_points (view_pending view)) (info_utxos (view_info view)).

(** ** [get_wallet_summary] *)

Record WalletSummary := MkSummary {
  summary_address : string;
  summary_public_key : string;
  confirmed_balance : Z;
  available_balance : Z;
  pending_outgoing : Z;
  pending_incoming : Z;
  pending_count : Z
}.

Definition relevant (w : WalletRow) (tx : Transaction) : bool :=
  existsb (λ i, bool_decide (casefold (public_key i) = wallet_public_key w)) (inputs tx)
  || existsb (λ o, bool_decide (recipient_address o = wallet_address w)) (outputs tx).

(** The outputs of [tx] for the wallet that no pending transaction spends. *)
Definition incoming (w : WalletRow) (reserved : gset Outpoint) (tx : Transaction) : Z :=
  sumZ_with (λ p : nat * TxOutput,
      if bool_decide (recipient_address p.2 = wallet_address w) && bool_decide ((txid tx, Z.of_nat p.1) ∉ reserved)
      then amount p.2 else 0)
    (imap pair (outputs tx)).

Definition summarise (w : WalletRow) (view : WalletView) : WalletSummary :=
  let reserved := reserved_points (view_pending view) in
  let own := List.filter (relevant w) (view_pending view) in
  MkSummary (wallet_address w) (wallet_public_key w) (info_confirmed_balance (view_info view))
    (utxo_total (available_outputs view))
    (utxo_total (filter (λ p : Outpoint * TxOutput, p.1 ∈ reserved) (info_utxos (view_info view))))
    (sumZ_with (incoming w reserved) own) (Z.of_nat (length own)).

Definition get_wallet_summary (user : Z) (v : Served) : call AppDb WalletSummary :=
  w ← wallet_row user;
  view ← lift (wallet_state v (wallet_address w));
  mret (summarise w view).

Definition history (user : Z) (start limit : Z) (v : Served) : call AppDb (list HistoryRecord) :=
  w ← wallet_row user;
  lift (wallet_history v (wallet_address w) start limit).

(** ** [_prepare_transaction] *)

Definition prepare_transaction (w : WalletRow) (view : WalletView) (recipient : string) (amount_ fee_ max_bytes clock : Z)
    : result (Transaction * bytes) :=
  selection ← select_utxos (available_outputs view) amount_ fee_;
  _ ← raise_if (MAX_WALLET_INPUTS <? Z.of_nat (length (coins selection))) TransactionWorkLimitError;
  private_key ← decrypt_private_key (encrypted_private_key w) (key_version w);
  tx ← build_signed_transaction (coins selection) (wallet_address w) recipient amount_ fee_ private_key clock None (Some max_bytes);
  data ← encode_transaction tx;
  _ ← raise_if (max_bytes <? Z.of_nat (length data)) TransactionWorkLimitError;
  Ok (tx, data).

(** ** [_send] *)

Definition fingerprint (recipient : string) (amount_ fee_ : Z) : string :=
  sha256_hex (serialize (JObj [("recipient_address", JStr recipient); ("amount", JInt amount_); ("fee", JInt fee_)])).

(** The body up to its first await: the answer, the transaction of an earlier
    attempt, or the wallet whose state is to be asked for. *)
Inductive Begun :=
  | BegunDone (txid : option string)
  | BegunTx (tx : Transaction)
  | BegunWallet (w : WalletRow).

(** The clause [except BaseException] around the preparation. *)
Definition translate_error (e : exn) : exn :=
  match e with
  | InsufficientBalanceError => APIError 409 "INSUFFICIENT_BALANCE"
  | TransactionWorkLimitError => APIError 413 "TRANSACTION_TOO_LARGE"
  | e => e
  end.

Definition undo_reservation {A} (user : Z) (key : string) (e : exn) : call AppDb A :=
  _ ← app_execute (app_update (delete_reserved user key));
  raise (translate_error e).

Definition preparing {A} (user : Z) (key : string) (m : call AppDb A) : call AppDb A :=
  try_call m (λ _, true) (undo_reservation user key).

Definition begin_send (user : Z) (key print : string) (now : Z) : call AppDb Begun :=
  record ← idempotency user key;
  match record with
  | Some r =>
      if negb (bool_decide (request_fingerprint r = print)) then raise (APIError 409 "IDEMPOTENCY_CONFLICT")
      else if bool_decide (record_state r = ACCEPTED) then mret (BegunDone (result_txid r))
      else if bool_decide (record_state r = REJECTED) then raise (APIError 409 "TRANSACTION_CONFLICT")
      else match transaction_data r with
           | Some data => tx ← lift (decode_transaction data); mret (BegunTx tx)
           | None => w ← preparing user key (wallet_row user); mret (BegunWallet w)
           end
  | None =>
      _ ← app_execute (app_update (insert_record user key (MkIdem print None None RESERVED now)));
      w ← preparing user key (wallet_row user); mret (BegunWallet w)
  end.

(** The prepared bytes are kept before the transaction is submitted. *)
Definition keep_prepared (user : Z) (key : string) (p : Transaction * bytes) : call AppDb unit :=
  app_execute (app_update (update_record user key (λ r,
    r {{ transaction_data := Some p.2; result_txid := Some (txid p.1); record_state := PREPARED }}))).

Definition finish_send (user : Z) (key : string) (tx : Transaction) (accepted : bool) : call AppDb (option string) :=
  _ ← app_execute (app_update (update_record user key (λ r,
        r {{ record_state := if accepted then ACCEPTED else REJECTED }})));
  if accepted then mret (Some (txid tx)) else raise (APIError 409 "TRANSACTION_CONFLICT").

(** Where a send waits: for the state of the wallet, for a slot of the
    semaphore, for its worker thread, for [find_transaction], for
    [submit_transaction], for the second [find_transaction]. *)
Inductive SendAt :=
  | AskingState (w : WalletRow)
  | Waiting (w : WalletRow) (view : WalletView)
  | Building (w : WalletRow) (view : WalletView)
  | Finding (tx : Transaction)
  | Submitting (tx : Transaction)
  | FindingAgain (tx : Transaction).

Record Send := MkSend {
  send_key : string;
  send_recipient : string;
  send_amount : Z;
  send_fee : Z;
  send_at : SendAt
}.

(** [sends] holds the send of each user whose lock is taken.  [submitted]
    records what was given to the node, [vouched] what the node found or
    accepted, [replies] what the callers got. *)
Record WalletService := MkWallet {
  app : AppDb;
  sends : gmap Z Send;
  submitted : list (Z * string * Transaction);
  vouched : list (Z * string * Transaction);
  replies : list (Z * string * result (option string))
}.

Definition is_building (s : Send) : bool := match send_at s with Building _ _ => true | _ => false end.
Definition building (m : WalletService) : nat := size (filter (λ p : Z * Send, is_building p.2 = true) (sends m)).

(** The task of a user goes on, or ends with its reply. *)
Definition go_on (user : Z) (s : Send) (a : SendAt) (m : WalletService) : WalletService :=
  m {{ sends := <[user := s {{ send_at := a }}]> (sends m) }}.
Definition reply (user : Z) (s : Send) (r : result (option string)) (m : WalletService) : WalletService :=
  m {{ sends := delete user (sends m); replies := (replies m ++ [(user, send_key s, r)])%list }}.

(** A part of the body runs on the database; [AppDbChanged] is what other
    requests do to it. *)
Definition on_app {A} (f : call AppDb A) (m : WalletService) : result A * WalletService :=
  let (r, d) := f (app m) in (r, m {{ app := d }}).

Definition ends_with (user : Z) (s : Send) (f : call AppDb (option string)) (m : WalletService) : WalletService :=
  let (r, m) := on_app f m in reply user s r m.

Definition vouch (user : Z) (s : Send) (tx : Transaction) (m : WalletService) : WalletService :=
  m {{ vouched := (vouched m ++ [(user, send_key s, tx)])%list }}.

Inductive SendAction :=
  | SendCalled (user : Z) (key recipient : string) (amount fee now : Z)
  | StateAnswered (user : Z) (v : Served)
  | SlotTaken (user : Z)
  | WorkerDone (user : Z) (max_bytes clock : Z)
  | FindAnswered (user : Z) (v : Served)
  | SubmitAnswered (user : Z) (v : Served)
  | SendInterrupted (user : Z)
  | ProcessStopped
  | AppDbChanged (d : AppDb).

Definition start_send (user : Z) (s : Send) (now : Z) (m : WalletService) : WalletService :=
  match on_app (begin_send user (send_key s) (fingerprint (send_recipient s) (send_amount s) (send_fee s)) now) m with
  | (Ok (BegunDone t), m) => reply user s (Ok t) m
  | (Ok (BegunTx tx), m) => go_on user s (Finding tx) m
  | (Ok (BegunWallet w), m) => go_on user s (AskingState w) m
  | (Raise e, m) => reply user s (Raise e) m
  end.

(** The worker has prepared the transaction, or failed. *)
Definition worker_done (user : Z) (s : Send) (r : result (Transaction * bytes)) (m : WalletService) : WalletService :=
  match on_app (preparing user (send_key s) (p ← lift r; _ ← keep_prepared user (send_key s) p; mret p.1)) m with
  | (Ok tx, m) => go_on user s (Finding tx) m
  | (Raise e, m) => reply user s (Raise e) m
  end.

Definition find_answered (user : Z) (s : Send) (tx : Transaction) (again : bool) (v : Served) (m : WalletService) : WalletService :=
  match found_transaction v (txid tx) with
  | Ok (Some _) => ends_with user s (finish_send user (send_key s) tx true) (vouch user s tx m)
  | Ok None => if again then ends_with user s (finish_send user (send_key s) tx false) m
               else go_on user s (Submitting tx) (m {{ submitted := (submitted m ++ [(user, send_key s, tx)])%list }})
  | Raise e => reply user s (Raise e) m
  end.

Definition submit_answered (user : Z) (s : Send) (tx : Transaction) (v : Served) (m : WalletService) : WalletService :=
  match submitted_by v tx with
  | Ok true => ends_with user s (finish_send user (send_key s) tx true) (vouch user s tx m)
  | Ok false => go_on user s (FindingAgain tx) m
  | Raise e => reply user s (Raise e) m
  end.

(** [CancelledError] at an await. *)
Definition interrupted (user : Z) (s : Send) (m : WalletService) : WalletService :=
  match send_at s with
  | AskingState _ | Waiting _ _ | Building _ _ =>
      let (_, m) := on_app (undo_reservation (A:=unit) user (send_key s) RuntimeError) m in m {{ sends := delete user (sends m) }}
  | _ => m {{ sends := delete user (sends m) }}
  end.

Definition send_act (a : SendAction) (m : WalletService) : option WalletService :=
  match a with
  | SendCalled user key recipient amount fee now =>
      match sends m !! user with
      | Some _ => None
      | None => Some (start_send user (MkSend key recipient amount fee (AskingState (MkWalletRow "" "" [] 0 0 0))) now m)
      end
  | StateAnswered user v =>
      s ← sends m !! user;
      match send_at s with
      | AskingState w =>
          Some match wallet_state v (wallet_address w) with
               | Ok view => go_on user s (Waiting w view) m
               | Raise e => ends_with user s (undo_reservation user (send_key s) e) m
               end
      | _ => None
      end
  | SlotTaken user =>
      s ← sends m !! user;
      match send_at s with
      | Waiting w view => if (building m <? 2)%nat then Some (go_on user s (Building w view) m) else None
      | _ => None
      end
  | WorkerDone user max_bytes clock =>
      s ← sends m !! user;
      match send_at s with
      | Building w view =>
          Some (worker_done user s (prepare_transaction w view (send_recipient s) (send_amount s) (send_fee s) max_bytes clock) m)
      | _ => None
      end
  | FindAnswered user v =>
      s ← sends m !! user;
      match send_at s with
      | Finding tx => Some (find_answered user s tx false v m)
      | FindingAgain tx => Some (find_answered user s tx true v m)
      | _ => None
      end
  | SubmitAnswered user v =>
      s ← sends m !! user;
      match send_at s with
      | Submitting tx => Some (submit_answered user s tx v m)
      | _ => None
      end
  | SendInterrupted user => s ← sends m !! user; Some (interrupted user s m)
  | ProcessStopped => Some (m {{ sends := ∅ }})
  | AppDbChanged d =>
      if bool_decide (records (tables d) = records (tables (app m))) then Some (m {{ app := d }}) else None
  end.

Definition send_step (m m' : WalletService) : Prop := ∃ a, send_act a m = Some m'.

Fixpoint run_sends (l : list SendAction) (m : WalletService) : option WalletService :=
  match l with
  | [] => Some m
  | a :: l => m' ← send_act a m; run_sends l m'
  end.
End service.
