(* ===== verification/WalletServiceFacts.v ===== *)
(** * Facts about sending once per key

    [send_ok] relates the retry records to the sends under way and to what was
    submitted and answered: a record that holds a transaction never loses or
    changes it, and the lock of a user keeps other sends off its records. *)

From coqutil Require Import Datatypes.RecordSetters.
Import DoubleBraceUpdate.
From S2P Require Import Prelude Bytes Sha256 Json Crypto Transaction Utxo Block Blockchain Wallet Codec CodecFacts Database.
From S2P Require Import Effects NodeState Node Services AppDb WalletService.
#[local] Open Scope Z_scope.

Abbreviation Records := (gmap (Z * string) IdemRow).

(** ** Records *)

(** The record of a key holds a transaction. *)
Definition holds (rs : Records) (user : Z) (key : string) (tx : Transaction) : Prop :=
  ∃ r d, rs !! (user, key) = Some r ∧ transaction_data r = Some d ∧ decode_transaction d = Ok tx.

Definition row_ok (r : IdemRow) : Prop :=
  match record_state r with
  | RESERVED => transaction_data r = None ∧ result_txid r = None
  | _ => ∃ tx d, transaction_data r = Some d ∧ decode_transaction d = Ok tx ∧ result_txid r = Some (txid tx)
  end.

(** A record keeps its transaction, and its outcome once it has one. *)
Definition keeps_row (r r' : IdemRow) : Prop :=
  transaction_data r' = transaction_data r ∧ result_txid r' = result_txid r ∧
  request_fingerprint r' = request_fingerprint r ∧
  (record_state r = ACCEPTED ∨ record_state r = REJECTED → record_state r' = record_state r).

Definition grows (rs rs' : Records) : Prop :=
  ∀ uk r, rs !! uk = Some r → is_Some (transaction_data r) → ∃ r', rs' !! uk = Some r' ∧ keeps_row r r'.

Lemma grows_refl rs : grows rs rs.
Proof. intros uk r Hr _. by exists r. Qed.

Lemma grows_trans rs1 rs2 rs3 : grows rs1 rs2 → grows rs2 rs3 → grows rs1 rs3.
Proof.
  intros H1 H2 uk r Hr Hd. destruct (H1 uk r Hr Hd) as (r2 & Hr2 & E1 & E2 & E3 & E4).
  destruct (H2 uk r2 Hr2) as (r3 & Hr3 & F1 & F2 & F3 & F4); [by rewrite E1|].
  exists r3. split; [done|]. split_and!; try congruence. intros Hs. rewrite F4, E4; [done..|]. by rewrite E4.
Qed.

Lemma holds_grows rs rs' u k tx : grows rs rs' → holds rs u k tx → holds rs' u k tx.
Proof.
  intros Hg (r & d & Hr & Hd & Htx). destruct (Hg _ r Hr) as (r' & Hr' & E & _); [by rewrite Hd|].
  exists r', d. by rewrite E.
Qed.

Lemma holds_one rs u k tx tx' : holds rs u k tx → holds rs u k tx' → tx = tx'.
Proof. intros (r & d & Hr & Hd & Htx) (r' & d' & Hr' & Hd' & Htx'). congruence. Qed.

(** ** The records of a database *)

Definition rows (d : AppDb) : Records := records (tables d).

Lemma wallet_row_rows user d r d' : wallet_row user d = (r, d') → tables d' = tables d.
Proof.
  unfold wallet_row. rewrite call_run. destruct (wallet_of_user user d) as [[[w|]|e] d1] eqn:Hw;
    apply app_execute_select in Hw as [Hw _]; by intros [= <- <-].
Qed.

(** What the preparation's [except] clause leaves. *)
Lemma undo_rows {A} user key e d (r : result A) d' :
  undo_reservation user key e d = (r, d') →
  (∃ e', r = Raise e') ∧
  (rows d' = rows d ∨ (∃ row, rows d !! (user, key) = Some row ∧ record_state row = RESERVED) ∧ rows d' = delete (user, key) (rows d)).
Proof.
  unfold undo_reservation. rewrite call_run. destruct (app_execute _ d) as [u d1] eqn:Hu. apply app_execute_update in Hu.
  assert (∀ t, delete_reserved user key (tables d) = Ok t → records t = rows d ∨
    (∃ row, rows d !! (user, key) = Some row ∧ record_state row = RESERVED) ∧ records t = delete (user, key) (rows d)) as Hdel.
  { intros t [= <-]. unfold rows. destruct (records (tables d) !! (user, key)) as [row|] eqn:Hrow; [|by left].
    case_bool_decide; [|by left]. right. split; [by exists row|done]. }
  assert ((tables d1 = tables d ∨ delete_reserved user key (tables d) = Ok (tables d1)) →
    rows d1 = rows d ∨ (∃ row, rows d !! (user, key) = Some row ∧ record_state row = RESERVED) ∧ rows d1 = delete (user, key) (rows d)) as Hd1.
  { intros [Ht|Ht]; [left; unfold rows; by rewrite Ht|by apply Hdel]. }
  destruct u as [u|e']; intros [= <- <-]; (split; [by eexists|]); apply Hd1; [by right|done].
Qed.

Lemma preparing_rows {A} user key (f : call AppDb A) d r d' :
  preparing user key f d = (r, d') →
  ∃ r1 d1, f d = (r1, d1) ∧
    match r1 with
    | Ok a => r = Ok a ∧ d' = d1
    | Raise _ => (∃ e', r = Raise e') ∧ (rows d' = rows d1 ∨
        (∃ row, rows d1 !! (user, key) = Some row ∧ record_state row = RESERVED) ∧ rows d' = delete (user, key) (rows d1))
    end.
Proof.
  unfold preparing, try_call. destruct (f d) as [[a|e] d1].
  - intros [= <- <-]. by exists (Ok a), d1.
  - intros Hu. exists (Raise e), d1. split; [done|]. by eapply undo_rows.
Qed.

(** ** What a body does to the records *)

(** Only the record of the key changes, and it keeps its transaction. *)
Record row_step (user : Z) (key : string) (rs rs' : Records) : Prop := {
  step_frame : ∀ uk, uk ≠ (user, key) → rs' !! uk = rs !! uk;
  step_grows : grows rs rs';
  step_ok : (∀ uk r, rs !! uk = Some r → row_ok r) → ∀ uk r, rs' !! uk = Some r → row_ok r
}.

Lemma row_step_refl u k rs : row_step u k rs rs.
Proof. split; [done|apply grows_refl|done]. Qed.

Lemma row_step_trans u k rs1 rs2 rs3 : row_step u k rs1 rs2 → row_step u k rs2 rs3 → row_step u k rs1 rs3.
Proof.
  intros [F1 G1 O1] [F2 G2 O2]. split; [|by eapply grows_trans|intros H; by apply O2, O1]. intros uk Hne. by rewrite F2, F1.
Qed.

(** A record without a transaction is replaced or removed. *)
Lemma row_step_fresh u k rs r' :
  (∀ r, rs !! (u, k) = Some r → transaction_data r = None) → row_ok r' → row_step u k rs (<[(u, k) := r']> rs).
Proof.
  intros Hnone Hok. split.
  - intros uk Hne. by rewrite lookup_insert_ne.
  - intros uk r Hr Hd. destruct (decide (uk = (u, k))) as [->|Hne]; [rewrite (Hnone r Hr) in Hd; by destruct Hd|].
    exists r. rewrite lookup_insert_ne by done. done.
  - intros Hrs uk r [[<- <-]|[_ Hr]]%lookup_insert_Some; [done|by eapply Hrs].
Qed.

Lemma row_step_delete u k rs :
  (∀ r, rs !! (u, k) = Some r → transaction_data r = None) → row_step u k rs (delete (u, k) rs).
Proof.
  intros Hnone. split.
  - intros uk Hne. by rewrite lookup_delete_ne.
  - intros uk r Hr Hd. destruct (decide (uk = (u, k))) as [->|Hne]; [rewrite (Hnone r Hr) in Hd; by destruct Hd|].
    exists r. rewrite lookup_delete_ne by done. done.
  - intros Hrs uk r [_ Hr]%lookup_delete_Some. by eapply Hrs.
Qed.

(** The outcome of a prepared record is kept. *)
Lemma row_step_outcome u k rs r r' :
  rs !! (u, k) = Some r → record_state r = PREPARED → keeps_row r r' → (row_ok r → row_ok r') →
  row_step u k rs (<[(u, k) := r']> rs).
Proof.
  intros Hr Hst Hkeep Hok. split.
  - intros uk Hne. by rewrite lookup_insert_ne.
  - intros uk r1 Hr1 Hd. destruct (decide (uk = (u, k))) as [->|Hne].
    + exists r'. rewrite lookup_insert_eq. split; [done|]. congruence.
    + exists r1. rewrite lookup_insert_ne by done. done.
  - intros Hrs uk r1 [[<- <-]|[_ Hr1]]%lookup_insert_Some; [by eapply Hok, Hrs|by eapply Hrs].
Qed.

Lemma reserved_no_data r : row_ok r → record_state r = RESERVED → transaction_data r = None.
Proof. unfold row_ok. intros Hok Hs. rewrite Hs in Hok. apply Hok. Qed.

(** Undoing leaves the record or removes it. *)
Lemma undone_step u k rs rs' :
  (∀ uk r, rs !! uk = Some r → row_ok r) →
  rs' = rs ∨ (∃ row, rs !! (u, k) = Some row ∧ record_state row = RESERVED) ∧ rs' = delete (u, k) rs →
  row_step u k rs rs' ∧ (∀ r, rs' !! (u, k) = Some r → rs !! (u, k) = Some r).
Proof.
  intros Hok [->|[(row & Hrow & Hst) ->]]; [by split; [apply row_step_refl|]|].
  split; [|intros r; by rewrite lookup_delete_eq].
  apply row_step_delete. intros r Hr. apply reserved_no_data; [by eapply Hok|congruence].
Qed.

Lemma preparing_step {A} u k (f : call AppDb A) d r d' :
  (∀ r1 d1, f d = (r1, d1) → row_step u k (rows d) (rows d1)) → (∀ uk r, rows d !! uk = Some r → row_ok r) →
  preparing u k f d = (r, d') →
  ∃ r1 d1, f d = (r1, d1) ∧ row_step u k (rows d) (rows d') ∧
    match r1 with
    | Ok a => r = Ok a ∧ d' = d1
    | Raise _ => (∃ e', r = Raise e') ∧ ∀ row, rows d' !! (u, k) = Some row → rows d1 !! (u, k) = Some row
    end.
Proof.
  intros Hf Hok Hp. apply preparing_rows in Hp as (r1 & d1 & Hd1 & Hr). exists r1, d1. split; [done|].
  pose proof (Hf r1 d1 Hd1) as Hs. destruct r1 as [a|e].
  - destruct Hr as [-> ->]. done.
  - destruct Hr as [He Hu]. apply undone_step in Hu as [Hs' Hin]; [|by apply (step_ok _ _ _ _ Hs)].
    split; [by eapply row_step_trans|]. done.
Qed.

Lemma begin_rows u k print now d r d' :
  (∀ uk r, rows d !! uk = Some r → row_ok r) → begin_send u k print now d = (r, d') →
  row_step u k (rows d) (rows d') ∧
  (∀ row, rows d' !! (u, k) = Some row → record_state row = ACCEPTED → rows d !! (u, k) = Some row) ∧
  match r with
  | Ok (BegunDone t) => ∃ row, rows d !! (u, k) = Some row ∧ record_state row = ACCEPTED ∧ t = result_txid row ∧ rows d' = rows d
  | Ok (BegunTx tx) => holds (rows d') u k tx ∧ ∃ row, rows d' !! (u, k) = Some row ∧ record_state row = PREPARED
  | Ok (BegunWallet _) => ∃ row, rows d' !! (u, k) = Some row ∧ record_state row = RESERVED
  | Raise _ => True
  end.
Proof.
  intros Hok. unfold begin_send. rewrite call_run. destruct (idempotency u k d) as [[rec|e] d1] eqn:Hi;
    apply app_execute_select in Hi as [Hd1 Hrec]; assert (rows d1 = rows d) as Hrows by (unfold rows; by rewrite Hd1).
  2: { intros [= <- <-]. rewrite Hrows. split_and!; [apply row_step_refl|done|done]. }
  assert (∀ row f dd rr dd', rows dd !! (u, k) = Some row → record_state row = RESERVED → (∀ uk r, rows dd !! uk = Some r → row_ok r) →
    (w ← preparing u k (wallet_row u); mret (f w)) dd = (rr, dd') →
    row_step u k (rows dd) (rows dd') ∧ (∀ row', rows dd' !! (u, k) = Some row' → row' = row) ∧
    match rr with Ok b => ∃ w : WalletRow, b = (f w : Begun) ∧ rows dd' = rows dd | Raise _ => True end) as Hprep.
  { intros row f dd rr dd' Hrow Hst Hokd. rewrite call_run. destruct (preparing u k (wallet_row u) dd) as [r2 d2] eqn:Hp.
    apply preparing_step in Hp as (r1 & d3 & Hw & Hs & Hr); [| |done].
    2: { intros r1 d3 Hw%wallet_row_rows. unfold rows. rewrite Hw. apply row_step_refl. }
    apply wallet_row_rows in Hw. assert (rows d3 = rows dd) as Hd3 by (unfold rows; by rewrite Hw).
    destruct r1 as [w|e].
    - destruct Hr as [-> ->]. intros [= <- <-]. rewrite Hd3. split_and!; [apply row_step_refl|congruence|by exists w].
    - destruct Hr as [[e' ->] Hin]. intros [= <- <-]. split_and!; [done| |done].
      intros row' Hrow'%Hin. rewrite Hd3 in Hrow'. congruence. }
  subst rec. fold (rows d). destruct (rows d !! (u, k)) as [row|] eqn:Hrow.
  - destruct (negb _). { intros [= <- <-]. rewrite Hrows. split_and!; [apply row_step_refl|congruence|done]. }
    case_bool_decide as Hacc.
    { intros [= <- <-]. rewrite Hrows. split_and!; [apply row_step_refl|congruence|]. exists row. split_and!; congruence. }
    case_bool_decide as Hrej. { intros [= <- <-]. rewrite Hrows. split_and!; [apply row_step_refl|congruence|done]. }
    pose proof (Hok _ _ Hrow) as Hro. unfold row_ok in Hro. destruct (transaction_data row) as [data|] eqn:Hdata.
    + assert (record_state row = PREPARED) as Hst by (destruct (record_state row); [by destruct Hro|done..]).
      rewrite Hst in Hro. destruct Hro as (tx & d0 & [= <-] & Htx & _). rewrite call_run. unfold lift. rewrite Htx.
      intros [= <- <-]. rewrite Hrows. split_and!; [apply row_step_refl|congruence|by exists row, data|by exists row].
    + assert (record_state row = RESERVED) as Hst by (destruct (record_state row); [done|by destruct Hro as (?&?&?&_)..]).
      intros Hp. apply (Hprep row) in Hp as (Hs & Hin & Hr); rewrite ?Hrows; [|done..].
      rewrite Hrows in Hs. split_and!; [done| |].
      * intros row' Hrow' Ha. rewrite (Hin row' Hrow') in Ha. congruence.
      * destruct r as [b|]; [|done]. destruct Hr as (w & -> & Hd'). exists row. by rewrite Hd', Hrows.
  - rewrite call_run. set (new := MkIdem print None None RESERVED now).
    destruct (app_execute _ d1) as [ins d2] eqn:Hins. apply app_execute_update in Hins.
    assert (∀ t, insert_record u k new (tables d1) = Ok t → records t = <[(u, k) := new]> (rows d)) as Hnew.
    { intros t (? & _ & (? & _ & [= <-])%bind_Ok)%bind_Ok. change (<[(u, k) := new]> (rows d1) = <[(u, k) := new]> (rows d)). by rewrite Hrows. }
    assert (row_step u k (rows d) (<[(u, k) := new]> (rows d))) as Hs2.
    { apply row_step_fresh; [congruence|]. done. }
    destruct ins as [x|e].
    + apply Hnew in Hins. fold (rows d2) in Hins. intros Hp.
      assert (rows d2 !! (u, k) = Some new) as Hl by (rewrite Hins; apply lookup_insert_eq).
      apply (Hprep new) in Hp as (Hs & Hin & Hr); [|done|done|].
      * split_and!; [rewrite Hins in Hs; by eapply row_step_trans| |].
        -- intros row' Hrow' Ha. rewrite (Hin row' Hrow') in Ha. done.
        -- destruct r as [b|]; [|done]. destruct Hr as (w & -> & Hd'). exists new. by rewrite Hd'.
      * rewrite Hins. by apply (step_ok _ _ _ _ Hs2).
    + intros [= <- <-]. destruct Hins as [Ht|Ht].
      * assert (rows d2 = rows d) as -> by (unfold rows in *; by rewrite Ht). split_and!; [apply row_step_refl|congruence|done].
      * apply Hnew in Ht. fold (rows d2) in Ht. rewrite Ht. split_and!; [done| |done].
        intros row. rewrite lookup_insert_eq. by intros [= <-].
Qed.

(** [keep_prepared] on a reserved record. *)
Lemma keep_rows u k tx data row d r d' :
  rows d !! (u, k) = Some row → record_state row = RESERVED → row_ok row → decode_transaction data = Ok tx →
  keep_prepared u k (tx, data) d = (r, d') →
  row_step u k (rows d) (rows d') ∧ (∀ row', rows d' !! (u, k) = Some row' → record_state row' ≠ ACCEPTED) ∧
  match r with
  | Ok _ => holds (rows d') u k tx ∧ ∃ row', rows d' !! (u, k) = Some row' ∧ record_state row' = PREPARED
  | Raise _ => True
  end.
Proof.
  intros Hrow Hst Hok Hdec Hk. unfold keep_prepared in Hk. apply app_execute_update in Hk.
  set (row' := row {{ transaction_data := Some data; result_txid := Some (txid tx); record_state := PREPARED }}).
  assert (∀ t, update_record u k (λ r : IdemRow, r {{ transaction_data := Some data; result_txid := Some (txid tx); record_state := PREPARED }})
      (tables d) = Ok t → records t = <[(u, k) := row']> (rows d)) as Hnew.
  { intros t [= <-]. exact (alter_some _ (rows d) _ _ Hrow). }
  assert (row_step u k (rows d) (<[(u, k) := row']> (rows d))) as Hs.
  { apply row_step_fresh; [|by exists tx, data]. intros r0 Hr0. apply reserved_no_data; congruence. }
  assert (rows d' = rows d ∨ rows d' = <[(u, k) := row']> (rows d)) as Hd'
    by (destruct r; [right; by apply Hnew|destruct Hk as [Ht|Ht]; [left; unfold rows; by rewrite Ht|right; by apply Hnew]]).
  split_and!.
  - destruct Hd' as [->| ->]; [apply row_step_refl|done].
  - intros r1 Hr1. destruct Hd' as [Ht|Ht]; rewrite Ht in Hr1; [congruence|]. rewrite lookup_insert_eq in Hr1.
    by injection Hr1 as <-.
  - destruct r; [|done]. apply Hnew in Hk. fold (rows d') in Hk. rewrite Hk.
    split; [exists row', data|exists row']; rewrite lookup_insert_eq; done.
Qed.

Lemma finish_rows u k tx (ok : bool) row d r d' :
  rows d !! (u, k) = Some row → record_state row = PREPARED → holds (rows d) u k tx →
  finish_send u k tx ok d = (r, d') →
  row_step u k (rows d) (rows d') ∧ holds (rows d') u k tx ∧
  (∀ row', rows d' !! (u, k) = Some row' → record_state row' = ACCEPTED → ok = true) ∧
  match r with Ok t => ok = true ∧ t = Some (txid tx) | Raise _ => True end.
Proof.
  intros Hrow Hst Hh. unfold finish_send. rewrite call_run. destruct (app_execute _ d) as [x d1] eqn:Hx.
  apply app_execute_update in Hx.
  set (row' := row {{ record_state := if ok then ACCEPTED else REJECTED }}).
  assert (∀ t, update_record u k (λ r : IdemRow, r {{ record_state := if ok then ACCEPTED else REJECTED }}) (tables d) = Ok t →
      records t = <[(u, k) := row']> (rows d)) as Hnew.
  { intros t [= <-]. exact (alter_some _ (rows d) _ _ Hrow). }
  assert (row_step u k (rows d) (<[(u, k) := row']> (rows d))) as Hs.
  { apply row_step_outcome with row; [done|done| |].
    - split_and!; try done. by intros [?|?]; congruence.
    - unfold row_ok. rewrite Hst. change (record_state row') with (if ok then ACCEPTED else REJECTED). by destruct ok. }
  assert (rows d1 = rows d ∨ rows d1 = <[(u, k) := row']> (rows d)) as Hd1.
  { destruct x; [right; by apply Hnew|destruct Hx as [Ht|Ht]; [left; unfold rows; by rewrite Ht|right; by apply Hnew]]. }
  assert (row_step u k (rows d) (rows d1)) as Hs1 by (destruct Hd1 as [->| ->]; [apply row_step_refl|done]).
  assert (∀ rr, (rr, d1) = (r, d') → rows d' = rows d1) as Hsame by (by intros rr [= _ <-]).
  assert (∀ row', rows d1 !! (u, k) = Some row' → record_state row' = ACCEPTED → ok = true) as Hacc.
  { intros r1 Hr1 Ha. destruct Hd1 as [Ht|Ht]; rewrite Ht in Hr1; [congruence|]. rewrite lookup_insert_eq in Hr1.
    injection Hr1 as <-. by destruct ok. }
  assert (holds (rows d1) u k tx) as Hh1 by (eapply holds_grows; [apply Hs1|done]).
  destruct x; [destruct ok|]; cbn; intros [= <- <-]; split_and!; try done; by intros ? ?; eapply Hacc.
Qed.

(** ** The whole service *)

Definition stage_ok (rs : Records) (user : Z) (s : Send) : Prop :=
  match send_at s with
  | AskingState _ | Waiting _ _ | Building _ _ => ∃ r, rs !! (user, send_key s) = Some r ∧ record_state r = RESERVED
  | Finding tx | Submitting tx | FindingAgain tx =>
      holds rs user (send_key s) tx ∧ ∃ r, rs !! (user, send_key s) = Some r ∧ record_state r = PREPARED
  end.

Section sending.
Context {EL : EcdsaLib} {CS : ChainStore} {F : FernetLib}.

Record send_ok (rs : Records) (ss : gmap Z Send) (sub vou : list (Z * string * Transaction))
    (rep : list (Z * string * result (option string))) : Prop := {
  so_rows : ∀ uk r, rs !! uk = Some r → row_ok r;
  so_sends : ∀ u s, ss !! u = Some s → stage_ok rs u s;
  so_submitted : ∀ u k tx, (u, k, tx) ∈ sub → holds rs u k tx;
  so_vouched : ∀ u k tx, (u, k, tx) ∈ vou → holds rs u k tx;
  so_accepted : ∀ u k r, rs !! (u, k) = Some r → record_state r = ACCEPTED → ∃ tx, holds rs u k tx ∧ (u, k, tx) ∈ vou;
  so_replies : ∀ u k t, (u, k, Ok t) ∈ rep → ∃ tx, t = Some (txid tx) ∧ holds rs u k tx ∧ (u, k, tx) ∈ vou
}.

Definition send_inv (m : WalletService) : Prop :=
  send_ok (rows (app m)) (sends m) (submitted m) (vouched m) (replies m).

(** A user's turn: its send leaves, and the record of its key changes. *)
Lemma send_ok_step rs rs' ss sub vou rep u k :
  send_ok rs ss sub vou rep → row_step u k rs rs' →
  (∀ r, rs' !! (u, k) = Some r → record_state r = ACCEPTED → ∃ tx, holds rs' u k tx ∧ (u, k, tx) ∈ vou) →
  send_ok rs' (delete u ss) sub vou rep.
Proof.
  intros [Hr Hs Hsub Hv Ha Hrep] [Hf Hg Hok] Hacc.
  assert (∀ u k tx, holds rs u k tx → holds rs' u k tx) as Hh by (intros; by eapply holds_grows).
  split; [by apply Hok| |auto|auto| |].
  - intros u' s [Hne Hl]%lookup_delete_Some. specialize (Hs u' s Hl). unfold stage_ok in *.
    assert (rs' !! (u', send_key s) = rs !! (u', send_key s)) as Heq by (apply Hf; congruence).
    rewrite Heq. destruct (send_at s); try done; destruct Hs; split; auto.
  - intros u' k' r Hr' Hst. destruct (decide ((u', k') = (u, k))) as [[= -> ->]|Hne]; [by eapply Hacc|].
    rewrite Hf in Hr' by done. destruct (Ha u' k' r Hr' Hst) as (tx & Htx & Hin). exists tx. auto.
  - intros u' k' t Hin. destruct (Hrep u' k' t Hin) as (tx & -> & Htx & Hv'). exists tx. auto.
Qed.

Lemma send_ok_go_on rs ss sub vou rep u s :
  send_ok rs (delete u ss) sub vou rep → stage_ok rs u s → send_ok rs (<[u := s]> ss) sub vou rep.
Proof.
  intros [Hr Hs Hsub Hv Ha Hrep] Hst. split; try done. intros u' s' [[<- <-]|[Hne Hl]]%lookup_insert_Some; [done|].
  apply Hs. by rewrite lookup_delete_ne.
Qed.

Lemma send_ok_reply rs ss sub vou rep u k r :
  send_ok rs ss sub vou rep → (∀ t, r = Ok t → ∃ tx, t = Some (txid tx) ∧ holds rs u k tx ∧ (u, k, tx) ∈ vou) →
  send_ok rs ss sub vou (rep ++ [(u, k, r)])%list.
Proof.
  intros [Hr Hs Hsub Hv Ha Hrep] Hok. split; try done.
  intros u' k' t [Hin|Hin%list_elem_of_singleton]%elem_of_app; [by apply Hrep|]. injection Hin as -> -> <-. by apply Hok.
Qed.

Lemma send_ok_submit rs ss sub vou rep u k tx :
  send_ok rs ss sub vou rep → holds rs u k tx → send_ok rs ss (sub ++ [(u, k, tx)])%list vou rep.
Proof.
  intros [Hr Hs Hsub Hv Ha Hrep] Hh. split; try done.
  intros u' k' tx' [Hin|Hin%list_elem_of_singleton]%elem_of_app; [by apply Hsub|]. by injection Hin as -> -> ->.
Qed.

Lemma send_ok_vouch rs ss sub vou rep u k tx :
  send_ok rs ss sub vou rep → holds rs u k tx → send_ok rs ss sub (vou ++ [(u, k, tx)])%list rep.
Proof.
  intros [Hr Hs Hsub Hv Ha Hrep] Hh. split; try done.
  - intros u' k' tx' [Hin|Hin%list_elem_of_singleton]%elem_of_app; [by apply Hv|]. by injection Hin as -> -> ->.
  - intros u' k' r Hr' Hst. destruct (Ha u' k' r Hr' Hst) as (tx' & ? & ?). exists tx'. split; [done|]. apply elem_of_app. by left.
  - intros u' k' t Hin. destruct (Hrep u' k' t Hin) as (tx' & ? & ? & ?). exists tx'. split_and!; [done..|]. apply elem_of_app. by left.
Qed.

Lemma send_ok_delete rs ss sub vou rep u : send_ok rs ss sub vou rep → send_ok rs (delete u ss) sub vou rep.
Proof. intros [Hr Hs Hsub Hv Ha Hrep]. split; try done. intros u' s [_ Hl]%lookup_delete_Some. by apply Hs. Qed.

(** The worker of a reserved record. *)
Lemma prepare_decodes w view recipient a f max_b clock tx data :
  prepare_transaction w view recipient a f max_b clock = Ok (tx, data) → decode_transaction data = Ok tx.
Proof.
  unfold prepare_transaction. intros (sel & _ & (? & _ & (sk & _ & (tx' & _ & (data' & He & (? & _ & [= <- <-])%bind_Ok)%bind_Ok)%bind_Ok)%bind_Ok)%bind_Ok)%bind_Ok.
  apply decode_transaction_Ok. by apply encode_transaction_Ok in He.
Qed.

Lemma worker_done_ok u s p m row :
  send_inv m → rows (app m) !! (u, send_key s) = Some row → record_state row = RESERVED →
  (∀ tx data, p = Ok (tx, data) → decode_transaction data = Ok tx) → send_inv (worker_done u s p m).
Proof.
  intros Hm Hrow Hst Hdec. pose proof (so_rows _ _ _ _ _ Hm) as Hok. unfold worker_done, on_app.
  destruct (preparing _ _ _ (app m)) as [r d'] eqn:Hp.
  assert (∀ r1 d1, (p ← lift p; _ ← keep_prepared u (send_key s) p; mret p.1) (app m) = (r1, d1) →
    row_step u (send_key s) (rows (app m)) (rows d1) ∧
    (∀ row', rows d1 !! (u, send_key s) = Some row' → record_state row' ≠ ACCEPTED) ∧
    match r1 with
    | Ok tx => holds (rows d1) u (send_key s) tx ∧ ∃ row', rows d1 !! (u, send_key s) = Some row' ∧ record_state row' = PREPARED
    | Raise _ => True
    end) as Hbody.
  { intros r1 d1. rewrite call_run. unfold lift. destruct p as [[tx data]|e].
    - rewrite call_run. destruct (keep_prepared u (send_key s) (tx, data) (app m)) as [x d2] eqn:Hk.
      apply (keep_rows u (send_key s) tx data row) in Hk as (Hs & Hna & Hx); [|done|done|by eapply Hok|by apply Hdec].
      destruct x; intros [= <- <-]; done.
    - intros [= <- <-]. split_and!; [apply row_step_refl|congruence|done]. }
  apply preparing_step in Hp as (r1 & d1 & Hr1 & Hs & Hr); [|intros r1 d1 Hb; exact (proj1 (Hbody r1 d1 Hb))|done].
  destruct (Hbody r1 d1 Hr1) as (_ & Hna & Htx). destruct r1 as [tx|e].
  - destruct Hr as [-> ->]. destruct Htx as [Hh Hrow'].
    apply (send_ok_go_on _ _ _ _ _ u (s {{ send_at := Finding tx }})); [|by split].
    eapply send_ok_step; [exact Hm|exact Hs|]. intros r Hr Ha. by destruct (Hna r Hr).
  - destruct Hr as [[e' ->] Hin]. apply send_ok_reply; [|done].
    eapply send_ok_step; [exact Hm|exact Hs|]. intros r Hr%Hin Ha. by destruct (Hna r Hr).
Qed.

(** A send ends with the outcome of its record. *)
Lemma finish_ok u s tx (ok : bool) m row :
  send_inv m → rows (app m) !! (u, send_key s) = Some row → record_state row = PREPARED → holds (rows (app m)) u (send_key s) tx →
  (ok = true → (u, send_key s, tx) ∈ vouched m) → send_inv (ends_with u s (finish_send u (send_key s) tx ok) m).
Proof.
  intros Hm Hrow Hst Hh Hv. unfold ends_with, on_app. destruct (finish_send _ _ _ _ (app m)) as [r d'] eqn:Hf.
  apply (finish_rows u (send_key s) tx ok row) in Hf as (Hs & Hh' & Ha & Hr); [|done..].
  apply send_ok_reply.
  - eapply send_ok_step; [exact Hm|exact Hs|]. intros r1 Hr1 Hacc. exists tx. split; [done|]. by eapply Hv, Ha.
  - intros t ->. destruct Hr as [-> ->]. exists tx. auto.
Qed.

Lemma undo_ok u s e m row :
  send_inv m → rows (app m) !! (u, send_key s) = Some row → record_state row = RESERVED →
  send_inv (ends_with u s (undo_reservation u (send_key s) e) m).
Proof.
  intros Hm Hrow Hst. unfold ends_with, on_app. destruct (undo_reservation _ _ _ (app m)) as [r d'] eqn:Hu.
  apply undo_rows in Hu as [[e' ->] Hu]. apply undone_step in Hu as [Hs Hin]; [|apply Hm].
  apply send_ok_reply; [|done]. eapply send_ok_step; [exact Hm|exact Hs|]. intros r Hr%Hin Ha. congruence.
Qed.

Lemma start_ok u s now m : send_inv m → send_inv (start_send u s now m).
Proof.
  intros Hm. unfold start_send, on_app. destruct (begin_send _ _ _ _ (app m)) as [r d'] eqn:Hb.
  apply begin_rows in Hb as (Hs & Ha & Hr); [|apply Hm].
  assert (send_ok (rows d') (delete u (sends m)) (submitted m) (vouched m) (replies m)) as Hstep.
  { eapply send_ok_step; [exact Hm|exact Hs|]. intros row Hrow Hacc.
    destruct (so_accepted _ _ _ _ _ Hm u (send_key s) row (Ha row Hrow Hacc) Hacc) as (tx & Htx & Hin). exists tx.
    split; [by eapply holds_grows; [apply Hs|]|done]. }
  destruct r as [[t|tx|w]|e].
  - destruct Hr as (row & Hrow & Hst & -> & Hd'). apply send_ok_reply; [exact Hstep|]. intros t [= <-].
    destruct (so_accepted _ _ _ _ _ Hm u (send_key s) row Hrow Hst) as (tx & Htx & Hin). exists tx.
    split_and!; [|rewrite <- Hd' in Htx; exact Htx|exact Hin]. pose proof (so_rows _ _ _ _ _ Hm _ _ Hrow) as Hok. unfold row_ok in Hok. rewrite Hst in Hok.
    destruct Hok as (tx' & data & Hdata & Hdec & ->). do 2 f_equal. eapply holds_one; [|exact Htx]. by exists row, data.
  - apply (send_ok_go_on _ _ _ _ _ u (s {{ send_at := Finding tx }}) Hstep). exact Hr.
  - apply (send_ok_go_on _ _ _ _ _ u (s {{ send_at := AskingState w }}) Hstep). exact Hr.
  - by apply send_ok_reply.
Qed.

Lemma find_ok u s tx again v m :
  send_inv m → holds (rows (app m)) u (send_key s) tx →
  (∃ row, rows (app m) !! (u, send_key s) = Some row ∧ record_state row = PREPARED) →
  send_inv (find_answered u s tx again v m).
Proof.
  intros Hm Hh (row & Hrow & Hst). unfold find_answered. destruct (found_transaction v (txid tx)) as [[l|]|e].
  - apply (finish_ok u s tx true _ row); [by apply send_ok_vouch|done..|]. intros _. apply elem_of_app. right. by apply list_elem_of_singleton.
  - destruct again; [by apply (finish_ok u s tx false m row)|].
    apply (send_ok_go_on _ _ _ _ _ u (s {{ send_at := Submitting tx }})); [|by split; [|exists row]].
    apply send_ok_delete. by apply send_ok_submit.
  - apply send_ok_reply; [|done]. by apply send_ok_delete.
Qed.

Lemma submit_ok u s tx v m :
  send_inv m → holds (rows (app m)) u (send_key s) tx →
  (∃ row, rows (app m) !! (u, send_key s) = Some row ∧ record_state row = PREPARED) →
  send_inv (submit_answered u s tx v m).
Proof.
  intros Hm Hh (row & Hrow & Hst). unfold submit_answered. destruct (submitted_by v tx) as [[]|e].
  - apply (finish_ok u s tx true _ row); [by apply send_ok_vouch|done..|]. intros _. apply elem_of_app. right. by apply list_elem_of_singleton.
  - apply (send_ok_go_on _ _ _ _ _ u (s {{ send_at := FindingAgain tx }})); [|by split; [|exists row]]. by apply send_ok_delete.
  - apply send_ok_reply; [|done]. by apply send_ok_delete.
Qed.

Lemma interrupted_ok u s m : send_inv m → sends m !! u = Some s → send_inv (interrupted u s m).
Proof.
  intros Hm Hs. pose proof (so_sends _ _ _ _ _ Hm u s Hs) as Hst. unfold stage_ok in Hst. unfold interrupted, on_app.
  destruct (send_at s); try (apply send_ok_delete; exact Hm);
    destruct Hst as (row & Hrow & Hst); destruct (undo_reservation _ _ _ (app m)) as [r d'] eqn:Hu;
    apply undo_rows in Hu as [_ Hu]; apply undone_step in Hu as [Hs' Hin]; [|apply Hm| |apply Hm| |apply Hm];
    (eapply send_ok_step; [exact Hm|exact Hs'|]; intros r1 Hr1%Hin Ha; congruence).
Qed.

Lemma go_on_ok u s a m :
  send_inv m → stage_ok (rows (app m)) u (s {{ send_at := a }}) → send_inv (go_on u s a m).
Proof. intros Hm Hst. apply (send_ok_go_on _ _ _ _ _ u (s {{ send_at := a }})); [by apply send_ok_delete|done]. Qed.

Lemma send_act_ok a m m' : send_inv m → send_act a m = Some m' → send_inv m'.
Proof.
  intros Hm Ha. destruct a as [u k rec am fe now|u v|u|u max_b clock|u v|u v|u| |d]; cbn [send_act] in Ha.
  - destruct (sends m !! u); [done|]. apply (inj Some) in Ha; subst m'. by apply start_ok.
  - destruct (sends m !! u) as [s|] eqn:Hs; [|done]. cbn in Ha. pose proof (so_sends _ _ _ _ _ Hm u s Hs) as Hst.
    unfold stage_ok in Hst. destruct (send_at s) as [w| | | | |] eqn:Hat; try done. apply (inj Some) in Ha; subst m'.
    destruct Hst as (row & Hrow & Hst). destruct (wallet_state v (wallet_address w)) as [view|e]; [|by eapply undo_ok].
    apply go_on_ok; [done|]. by exists row.
  - destruct (sends m !! u) as [s|] eqn:Hs; [|done]. cbn in Ha. pose proof (so_sends _ _ _ _ _ Hm u s Hs) as Hst.
    unfold stage_ok in Hst. destruct (send_at s) as [|w view| | | |] eqn:Hat; try done.
    case_match; [|done]. apply (inj Some) in Ha; subst m'.
    apply go_on_ok; [done|exact Hst].
  - destruct (sends m !! u) as [s|] eqn:Hs; [|done]. cbn in Ha. pose proof (so_sends _ _ _ _ _ Hm u s Hs) as Hst.
    unfold stage_ok in Hst. destruct (send_at s) as [| |w view| | |] eqn:Hat; try done. apply (inj Some) in Ha; subst m'.
    destruct Hst as (row & Hrow & Hst). eapply worker_done_ok; [done..|]. intros tx data Hp. by eapply prepare_decodes.
  - destruct (sends m !! u) as [s|] eqn:Hs; [|done]. cbn in Ha. pose proof (so_sends _ _ _ _ _ Hm u s Hs) as Hst.
    unfold stage_ok in Hst. destruct (send_at s) as [| | |tx|tx|tx] eqn:Hat; try done; apply (inj Some) in Ha; subst m'; destruct Hst; by apply find_ok.
  - destruct (sends m !! u) as [s|] eqn:Hs; [|done]. cbn in Ha. pose proof (so_sends _ _ _ _ _ Hm u s Hs) as Hst.
    unfold stage_ok in Hst. destruct (send_at s) as [| | |tx|tx|tx] eqn:Hat; try done; apply (inj Some) in Ha; subst m'; destruct Hst; by apply submit_ok.
  - destruct (sends m !! u) as [s|] eqn:Hs; [|done]. apply (inj Some) in Ha; subst m'. by apply interrupted_ok.
  - apply (inj Some) in Ha; subst m'. destruct Hm as [H1 H2 H3 H4 H5 H6]. split; try done.
  - case_bool_decide as Hd; [|done]. apply (inj Some) in Ha; subst m'. unfold send_inv. change (app _) with d. unfold rows. rewrite Hd. exact Hm.
Qed.
End sending.
