(* ===== verification/WalletServiceTheorems.v ===== *)
(** * What the wallet service guarantees

    The view a wallet gets from the node adds up to its balance in the ledger,
    a prepared transaction is one the node would accept, a retried request sends
    one transaction, and an account comes with its wallet or not at all. *)

From coqutil Require Import Datatypes.RecordSetters.
Import DoubleBraceUpdate.
From S2P Require Import Prelude Bytes Sha256 Json Crypto Transaction Utxo TxValidation Batch Block Sample SampleChain ChainState ChainFacts.
From S2P Require Import Mempool MempoolFacts Blockchain BlockchainFacts Wallet WalletTheorems Codec CodecFacts Database Storage.
From S2P Require Import Effects NodeState Node SampleNode Services AppDb WalletService WalletServiceFacts.
#[local] Open Scope string_scope.
#[local] Open Scope Z_scope.

(** ** The outputs of a ledger *)

Section ledger.
Context {EL : EcdsaLib}.

Lemma valid_outputs_positive tx u fee : valid_tx u tx fee → Forall (λ o, 0 < amount o) (outputs tx).
Proof.
  intros Hv. eapply Forall_impl; [exact (valid_outputs _ _ _ Hv)|]. intros o Ho. unfold is_valid_output in Ho.
  apply andb_true_iff in Ho as [Ho _]. by apply Z.ltb_lt.
Qed.

(** A chain creates no output without value. *)
Lemma chain_positive now blocks st :
  chain now blocks st → ∀ tx, tx ∈ chain_txs blocks → Forall (λ o, 0 < amount o) (outputs tx).
Proof.
  induction 1 as [g Hg Hgen|bs previous b st reward fees st' Hc IH Hh He _]; intros tx Htx.
  { unfold chain_txs in Htx. cbn in Htx. rewrite app_nil_r, (genesis_no_transactions g Hgen) in Htx.
    by apply elem_of_nil in Htx. }
  pose proof (ledger_keys _ _ (chain_ledger _ _ _ Hc)) as Hk.
  rewrite (chain_txs_snoc (bs ++ [previous])) in Htx. apply elem_of_app in Htx as [Htx|Htx]; [by apply IH|].
  destruct He as [cb regular address u s Htxs Hrun Hs _ Hrew _ Hcb _]. rewrite Htxs in Htx.
  apply elem_of_cons in Htx as [->|Htx]; [rewrite Hcb; apply Forall_singleton; cbn; lia|].
  assert (batch_ok (utxo_set st) (seen_txids st) regular) as Hok by (apply run_batch_ok; [done|eauto]).
  destruct (batch_valid _ _ _ Hok tx Htx) as [fee Hv]. by eapply valid_outputs_positive.
Qed.

(** An unspent output was paid by a transaction of the chain. *)
Lemma chain_output now blocks st k o :
  chain now blocks st → utxo_set st !! k = Some o → 0 < amount o ∧ k.1 ≠ EmptyString ∧ 0 <= k.2.
Proof.
  intros Hc Ho. rewrite (ledger_lookup _ _ (chain_ledger _ _ _ Hc)) in Ho. case_decide; [done|].
  apply creates_Some in Ho as (tx & Htx & (n & -> & Hn)%lookup_created_by). cbn. split_and!; [| |lia].
  - pose proof (chain_positive _ _ _ Hc tx Htx) as Hp. rewrite Forall_lookup in Hp. by eapply Hp.
  - intros He. pose proof (is_hash_txid tx) as Hh. by rewrite He in Hh.
Qed.

(** The pool's working set keeps every confirmed output no pending
    transaction spends. *)
Lemma pending_keeps c s es w k o :
  MempoolFacts.pending c s es w → c !! k = Some o → (∀ p, p ∈ es → k ∉ spent_outpoints (entry_tx p)) → w !! k = Some o.
Proof.
  intros Hp Hc. induction Hp as [|es u tx fee u1 Hp IH Hv Hs Hn Ha]; intros Hno; [done|].
  assert (u !! k = Some o) as Hu by (apply IH; intros p Hin; apply Hno, elem_of_app; by left).
  rewrite (apply_valid_transaction_lookup _ _ _ _ Ha).
  apply apply_valid_transaction_Ok in Ha as (_ & _ & Hdis & _).
  rewrite (map_disjoint_Some_r _ _ _ _ Hdis Hu), decide_False; [done|].
  apply (Hno (txid tx, MkEntry tx fee (transaction_size tx))), elem_of_app. right. apply list_elem_of_here.
Qed.
End ledger.

(** ** The view of a wallet *)

Section wallet.
Context {EL : EcdsaLib} {Laws : EcdsaLaws EL} {CS : ChainStore} {F : FernetLib}.

Lemma reply_expected {A} (f : Reply → option A) r a : expect f r = Ok a → ∃ rep, r = Ok rep ∧ f rep = Some a.
Proof. unfold expect. destruct r as [rep|e]; [|done]. cbn. destruct (f rep) eqn:Hf; [|done]. intros [= <-]. by exists rep. Qed.

(** The view is the ledger's outputs of the address and the pending transactions. *)
Lemma wallet_state_served limit n a view :
  bc_inv limit (node_chain n) → wallet_state (ServedBy n) a = Ok view →
  info_confirmed_balance (view_info view) = get_balance (utxo_set (state (node_chain n))) a ∧
  info_utxos (view_info view) = get_utxos_for_address (utxo_set (state (node_chain n))) a ∧
  view_pending view = get_transactions (mempool (node_chain n)).
Proof.
  intros Hinv (rep & Hr & Hv)%reply_expected. cbn [reply_of command] in Hr.
  unfold ask_chain, mempool_snapshot, get_address_info, mbind, call_bind, mret, call_ret in Hr. cbn in Hr.
  destruct (ensure_usable (node_chain n)) as [u|e]; [|done]. cbn in Hr.
  rewrite (mempool_copy_id _ (bc_pool _ _ Hinv)) in Hr. cbn in Hr. injection Hr as <-. injection Hv as <-. done.
Qed.

Lemma elem_of_reserved (l : list Transaction) k : k ∈ reserved_points l ↔ ∃ tx, tx ∈ l ∧ k ∈ spent_outpoints tx.
Proof. unfold reserved_points. rewrite elem_of_list_to_set, list_elem_of_bind. unfold spent_outpoints. naive_solver. Qed.

(** An available output is confirmed, paid to the wallet and not spent by the pool. *)
Lemma available_output limit n a view k o :
  bc_inv limit (node_chain n) → wallet_state (ServedBy n) a = Ok view → available_outputs view !! k = Some o →
  utxo_set (state (node_chain n)) !! k = Some o ∧ working_utxos (mempool (node_chain n)) !! k = Some o ∧
  (0 < amount o ∧ k.1 ≠ EmptyString ∧ 0 <= k.2) ∧ (∀ tx, tx ∈ get_transactions (mempool (node_chain n)) → k ∉ spent_outpoints tx).
Proof.
  intros Hinv Hv [Ho Hres]%map_lookup_filter_Some. cbn in Hres.
  destruct (wallet_state_served _ _ _ _ Hinv Hv) as (_ & Hu & Hp). rewrite Hu in Ho. rewrite Hp in Hres.
  apply map_lookup_filter_Some in Ho as [Ho _].
  assert (∀ tx, tx ∈ get_transactions (mempool (node_chain n)) → k ∉ spent_outpoints tx) as Hno
    by (intros tx Htx Hk; apply Hres, elem_of_reserved; eauto).
  split; [done|]. split; [|split; [by apply (chain_output _ _ _ k o (bc_chain _ _ Hinv))|done]].
  pose proof (inv_pending _ (bc_pool _ _ Hinv)) as Hpend.
  eapply pending_keeps; [exact Hpend|by rewrite (bc_pool_utxos _ _ Hinv)|]. intros p Hin. apply Hno.
  unfold get_transactions. by apply list_elem_of_fmap_2.
Qed.

(** What [prepare_transaction] does. *)
Lemma prepared_from w view recipient a f max_b clock tx data :
  prepare_transaction w view recipient a f max_b clock = Ok (tx, data) →
  ∃ sel sk, select_utxos (available_outputs view) a f = Ok sel ∧ Z.of_nat (length (coins sel)) <= MAX_WALLET_INPUTS ∧
    build_signed_transaction (coins sel) (wallet_address w) recipient a f sk clock None (Some max_b) = Ok tx ∧
    Z.of_nat (length data) <= max_b.
Proof.
  unfold prepare_transaction. intros (sel & Hsel & (? & Hlen%raise_if_Ok%Z.ltb_ge & (sk & _ & (tx' & Hb & (data' & _ &
    (? & Hsize%raise_if_Ok%Z.ltb_ge & [= <- <-])%bind_Ok)%bind_Ok)%bind_Ok)%bind_Ok)%bind_Ok)%bind_Ok. eauto 10.
Qed.

Lemma selected_available (u : UTXOSet) a f sel c : select_utxos u a f = Ok sel → c ∈ coins sel → u !! c.1 = Some c.2.
Proof.
  unfold select_utxos. intros (? & _ & (l1 & c' & l2 & Hl & Hc & _)%select_coins_Ok)%bind_Ok; [|done].
  intros Hin. apply elem_of_map_to_list. rewrite <- surjective_pairing, <- (merge_sort_Permutation coin_le), Hl.
  rewrite Hc in Hin. set_solver.
Qed.

Lemma utxo_total_filter (P : Outpoint * TxOutput → Prop) `{!∀ x, Decision (P x)} (u : UTXOSet) :
  utxo_total (filter P u) + utxo_total (filter (λ p, ¬ P p) u) = utxo_total u.
Proof.
  induction u as [|k o u Hk IH] using map_ind; [done|]. rewrite (utxo_total_insert u) by done.
  rewrite !map_filter_insert. destruct (decide (P (k, o))) as [HP|HP].
  - rewrite decide_False by tauto. rewrite utxo_total_insert by (apply map_lookup_filter_None; auto).
    rewrite delete_id by done. lia.
  - rewrite decide_True by done. rewrite delete_id by done.
    rewrite (utxo_total_insert (filter (λ p, ¬ P p) u)) by (apply map_lookup_filter_None; auto). lia.
Qed.

(** C34: the balances a wallet is shown add up. When the node's ledger is
    consistent, the confirmed balance is the ledger's balance of the address, the
    available and the outgoing part are disjoint and sum up to it, and a payment
    finds enough coins exactly when its amount and fee fit in the available
    balance. *)
Theorem wallet_balances_add_up limit n w view a f :
  bc_inv limit (node_chain n) → wallet_state (ServedBy n) (wallet_address w) = Ok view → 0 < a → 0 <= f →
  let s := summarise w view in
  confirmed_balance s = get_balance (utxo_set (state (node_chain n))) (wallet_address w) ∧
  available_balance s + pending_outgoing s = confirmed_balance s ∧
  (select_utxos (available_outputs view) a f = Raise InsufficientBalanceError ↔ available_balance s < a + f).
Proof.
  intros Hinv Hv Ha Hf s. destruct (wallet_state_served _ _ _ _ Hinv Hv) as (Hbal & Hu & _). split_and!.
  - exact Hbal.
  - transitivity (utxo_total (info_utxos (view_info view))).
    + rewrite <- (utxo_total_filter (λ p, p.1 ∈ reserved_points (view_pending view))). apply Z.add_comm.
    + rewrite Hu, <- get_balance_filter. symmetry. exact Hbal.
  - destruct (select_utxos_exact (available_outputs view) a f Ha Hf) as [Hge Hlt].
    { intros k o Ho. apply (available_output _ _ _ _ _ _ Hinv Hv Ho). }
    split; [|exact Hlt]. intros Hr. apply Z.nle_gt. intros Hle. destruct (Hge Hle) as (r & l2 & Hr' & _). congruence.
Qed.

(** C33: a prepared transaction is one the node would take. What the wallet
    service builds from the view it was given pays the recipient the amount with
    exactly the fee, from at most a hundred inputs, is valid on the ledger and on
    the pool's working set, spends nothing that a pending transaction spends,
    survives the encoding it is kept in within the size limit, and the pool
    admits it if it has room and the transaction is new. *)
Theorem prepared_transaction_accepted limit n w view recipient a f max_b clock tx data :
  bc_inv limit (node_chain n) → 0 <= clock → wallet_state (ServedBy n) (wallet_address w) = Ok view →
  prepare_transaction w view recipient a f max_b clock = Ok (tx, data) →
  let pool := mempool (node_chain n) in
  valid_tx (utxo_set (state (node_chain n))) tx f ∧ valid_tx (working_utxos pool) tx f ∧
  (∀ p k, p ∈ get_transactions pool → k ∈ spent_outpoints p → k ∉ spent_outpoints tx) ∧
  Z.of_nat (length (inputs tx)) <= MAX_WALLET_INPUTS ∧ (∃ rest, outputs tx = MkTxOutput a recipient :: rest) ∧
  decode_transaction data = Ok tx ∧ Z.of_nat (length data) <= max_b ∧
  (mempool_len pool < max_transactions pool → total_bytes pool + Z.of_nat (length data) <= max_bytes pool →
   txid tx ∉ mp_seen_txids pool → txid tx ∉ (entries pool).*1 → ∃ m, add_transaction pool tx = Ok (true, m)).
Proof.
  intros Hinv Hclock Hv Hp pool. pose proof (prepare_decodes _ _ _ _ _ _ _ _ _ Hp) as Hdec.
  apply prepared_from in Hp as (sel & sk & Hsel & Hlen & Hb & Hsize).
  assert (∀ c, c ∈ coins sel → available_outputs view !! c.1 = Some c.2) as Hav by (intros c Hc; by eapply selected_available).
  destruct (built_transaction_valid (utxo_set (state (node_chain n))) (coins sel) (wallet_address w) recipient a f sk clock None (Some max_b) tx)
    as (Hvl & Hsp & Hout); [|done..|].
  { intros c Hc. destruct (available_output _ _ _ _ _ _ Hinv Hv (Hav c Hc)) as (? & _ & (_ & ? & ?) & _). done. }
  destruct (built_transaction_valid (working_utxos pool) (coins sel) (wallet_address w) recipient a f sk clock None (Some max_b) tx)
    as (Hvw & _ & _); [|done..|].
  { intros c Hc. destruct (available_output _ _ _ _ _ _ Hinv Hv (Hav c Hc)) as (_ & ? & (_ & ? & ?) & _). done. }
  split_and!; try done.
  - intros p k Hin Hk Hk'. rewrite Hsp in Hk'. apply list_elem_of_fmap in Hk' as (c & -> & Hc).
    destruct (available_output _ _ _ _ _ _ Hinv Hv (Hav c Hc)) as (_ & _ & _ & Hno). by eapply Hno.
  - replace (length (inputs tx)) with (length (spent_outpoints tx)) by (unfold spent_outpoints; apply length_map).
    rewrite Hsp, length_map. exact Hlen.
  - destruct Hout as (change & _ & _ & ->). by eexists.
  - intros Hroom Hbytes Hseen Hnew. apply decode_transaction_Ok in Hdec as [_ Hdata].
    destruct (add_transaction_cases pool tx) as [(e & u1 & _ & _ & ->)|[_ [Hfull|Hno]]]; [eauto|lia|]. exfalso.
    pose proof (inv_pending _ (bc_pool _ _ Hinv)) as Hpend.
    eapply Hno, admit_Some. exists f. split_and!; [done|done|done|done|by rewrite Hdata in Hbytes|].
    eapply (valid_tx_applies _ (list_to_set (entries pool).*1 ∪ mp_seen_txids pool)); [|set_solver|exact Hvw].
    eapply run_keys_recorded; [by apply pending_run|]. by eapply bc_inv_keys.
Qed.
End wallet.

(** ** Sending *)

Section sending.
Context {EL : EcdsaLib} {CS : ChainStore} {F : FernetLib}.

(** A service that has not sent anything yet. *)
Definition new_wallet_service (d : AppDb) : WalletService := MkWallet d ∅ [] [] [].

Lemma new_send_inv d : records (tables d) = ∅ → send_inv (new_wallet_service d).
Proof.
  intros Hd. unfold send_inv. assert (rows (app (new_wallet_service d)) = ∅) as -> by exact Hd. split.
  - intros uk r Hk. by rewrite lookup_empty in Hk.
  - intros u s Hs. cbn in Hs. by rewrite lookup_empty in Hs.
  - by intros u k tx ?%elem_of_nil.
  - by intros u k tx ?%elem_of_nil.
  - intros u k r Hk. by rewrite lookup_empty in Hk.
  - by intros u k t ?%elem_of_nil.
Qed.

Lemma send_inv_reached d m : records (tables d) = ∅ → rtc send_step (new_wallet_service d) m → send_inv m.
Proof.
  intros Hd%new_send_inv Hm. induction Hm as [|m1 m2 m3 [a Ha] _ IH]; [done|]. apply IH. by eapply send_act_ok.
Qed.

Lemma run_sends_steps l : ∀ m m', run_sends l m = Some m' → rtc send_step m m'.
Proof.
  induction l as [|a l IH]; intros m m'; cbn [run_sends]; [by intros [= <-]|].
  destruct (send_act a m) as [m1|] eqn:Ha; [|done]. intros Hr%IH. eapply rtc_l; [by exists a|exact Hr].
Qed.

(** C32: a key sends one transaction. Whatever the order of calls, replies,
    storage failures, cancellations and stops of the process, everything ever
    submitted for a user's key is one transaction, whose bytes are in the retry
    record since before it was submitted; and a caller who is told an identifier
    is told the one of that transaction, which the node has found or accepted. *)
Theorem send_exactly_once d m :
  records (tables d) = ∅ → rtc send_step (new_wallet_service d) m →
  (∀ u k tx, (u, k, tx) ∈ submitted m →
    holds (rows (app m)) u k tx ∧ ∀ tx', (u, k, tx') ∈ submitted m → tx' = tx) ∧
  (∀ u k t, (u, k, Ok t) ∈ replies m →
    ∃ tx, t = Some (txid tx) ∧ (u, k, tx) ∈ vouched m ∧ holds (rows (app m)) u k tx ∧
      ∀ tx', (u, k, tx') ∈ submitted m ∨ (u, k, tx') ∈ vouched m → tx' = tx).
Proof.
  intros Hd Hm. pose proof (send_inv_reached d m Hd Hm) as [_ _ Hsub Hv _ Hrep]. split.
  - intros u k tx Hin. split; [by apply Hsub|]. intros tx' Hin'. by eapply holds_one; apply Hsub.
  - intros u k t Hin. destruct (Hrep u k t Hin) as (tx & -> & Hh & Hvo). exists tx. split_and!; [done..|].
    intros tx' [Hs|Hs]; (eapply holds_one; [|exact Hh]); [by apply Hsub|by apply Hv].
Qed.
End sending.

(** ** Accounts *)

Section accounts.

(** Every user has one wallet, and the names are unique. *)
Record accounts_ok (t : AppTables) : Prop := {
  accounts_wallets : map wallet_user (wallets t) = map user_row_id (users t);
  accounts_ids : NoDup (map user_row_id (users t));
  accounts_sequence : ∀ u, u ∈ users t → user_row_id u <= sequence t;
  accounts_emails : NoDup (map email (users t));
  accounts_names : NoDup (map username (users t));
  accounts_addresses : NoDup (map wallet_address (wallets t))
}.

Definition next_user (t : AppTables) (mail name hash : string) (now : Z) : UserRow :=
  MkUser (sequence t + 1) mail name hash now.

(** The tables with a new account. *)
Definition with_account (t : AppTables) (mail name hash : string) (w : WalletRow) (now : Z) : AppTables :=
  t {{ users := (users t ++ [next_user t mail name hash now])%list; sequence := sequence t + 1;
       wallets := (wallets t ++ [w {{ wallet_user := sequence t + 1; wallet_created := now }}])%list }}.

(** What stands in the way of an account. *)
Definition taken (t : AppTables) (mail name : string) (w : WalletRow) : Prop :=
  mail ∈ map email (users t) ∨ name ∈ map username (users t) ∨
  wallet_address w ∈ map wallet_address (wallets t) ∨ key_version w <= 0.

Lemma app_constraint_bool (P : Prop) `{Decision P} (u : unit) :
  app_constraint (bool_decide P) = Ok u → P.
Proof. intros Hc%raise_if_Ok. apply negb_false_iff in Hc. by apply bool_decide_eq_true in Hc. Qed.

Lemma app_constraint_Raise b e : app_constraint b = Raise e → e = SqliteIntegrity ∧ b = false.
Proof. intros [Hb <-]%raise_if_Raise. split; [done|by apply negb_true_iff]. Qed.

Lemma insert_user_cases mail name hash now w t :
  match insert_user mail name hash now t with
  | Ok (i, t1) => i = sequence t + 1 ∧ mail ∉ map email (users t) ∧ name ∉ map username (users t) ∧
      t1 = t {{ users := (users t ++ [next_user t mail name hash now])%list; sequence := sequence t + 1 }}
  | Raise e => e = SqliteIntegrity ∧ taken t mail name w
  end.
Proof.
  unfold insert_user, taken. destruct (app_constraint (bool_decide (mail ∉ _))) as [?|e] eqn:H1; cbn [mbind result_bind].
  2: { apply app_constraint_Raise in H1 as [-> H1%bool_decide_eq_false%dec_stable]. split; [done|by left]. }
  destruct (app_constraint (bool_decide (name ∉ _))) as [?|e] eqn:H2; cbn [mbind result_bind].
  2: { apply app_constraint_Raise in H2 as [-> H2%bool_decide_eq_false%dec_stable]. split; [done|by right; left]. }
  apply app_constraint_bool in H1, H2. split_and!; done.
Qed.

Lemma insert_wallet_cases mail name hash now w t :
  accounts_ok t → mail ∉ map email (users t) → name ∉ map username (users t) →
  match insert_wallet (w {{ wallet_user := sequence t + 1; wallet_created := now }})
          (t {{ users := (users t ++ [next_user t mail name hash now])%list; sequence := sequence t + 1 }}) with
  | Ok t' => t' = with_account t mail name hash w now ∧ ¬ taken t mail name w
  | Raise e => e = SqliteIntegrity ∧ taken t mail name w
  end.
Proof.
  intros [Hw _ Hseq _ _ _] Hm Hn. unfold insert_wallet, taken.
  rewrite (bool_decide_eq_true_2 (wallet_user _ ∈ _)).
  2: { change (sequence t + 1 ∈ map user_row_id (users t ++ [next_user t mail name hash now])%list).
       rewrite map_app, elem_of_app. right. by apply list_elem_of_singleton. }
  rewrite (bool_decide_eq_true_2 (wallet_user _ ∉ _)).
  2: { change (sequence t + 1 ∉ map wallet_user (wallets t)). rewrite Hw. intros (u & Hu & Hin)%list_elem_of_fmap. specialize (Hseq u Hin). lia. }
  cbn [app_constraint raise_if negb mbind result_bind].
  destruct (app_constraint (bool_decide (wallet_address _ ∉ _))) as [?|e] eqn:H1; cbn [mbind result_bind].
  2: { apply app_constraint_Raise in H1 as [-> H1%bool_decide_eq_false%dec_stable]. split; [done|by right; right; left]. }
  destruct (app_constraint (0 <? _)) as [?|e] eqn:H2; cbn [mbind result_bind].
  2: { apply app_constraint_Raise in H2 as [-> H2%Z.ltb_ge]. split; [done|by right; right; right]. }
  apply app_constraint_bool in H1. apply raise_if_Ok, negb_false_iff, Z.ltb_lt in H2.
  split; [done|]. intros [?|[?|[?|Hv]]]; [done..|]. change (0 < key_version w) in H2. lia.
Qed.

Lemma with_account_ok t mail name hash w now :
  accounts_ok t → ¬ taken t mail name w → accounts_ok (with_account t mail name hash w now).
Proof.
  intros [Hw Hid Hseq He Hn Ha] Hfree. unfold taken in Hfree.
  assert (sequence t + 1 ∉ map user_row_id (users t)) as Hnew
    by (intros (u & Hu & Hin)%list_elem_of_fmap; specialize (Hseq u Hin); lia).
  assert (∀ {A B} (f : A → B) l x, NoDup (map f l) → f x ∉ map f l → NoDup (map f (l ++ [x])%list)) as Hsnoc.
  { intros A B f l x Hnd Hx. rewrite map_app. apply NoDup_app. split_and!; [done| |apply NoDup_singleton].
    intros y Hy Hy'%list_elem_of_singleton. by subst. }
  set (u := next_user t mail name hash now). set (w' := w {{ wallet_user := sequence t + 1; wallet_created := now }}).
  split.
  - change (map wallet_user (wallets t ++ [w'])%list = map user_row_id (users t ++ [u])%list). by rewrite !map_app, Hw.
  - change (NoDup (map user_row_id (users t ++ [u])%list)). by apply Hsnoc.
  - intros v Hv. change (v ∈ (users t ++ [u])%list) in Hv. change (user_row_id v <= sequence t + 1).
    apply elem_of_app in Hv as [Hv| ->%list_elem_of_singleton]; [specialize (Hseq v Hv)|cbn]; lia.
  - change (NoDup (map email (users t ++ [u])%list)). apply Hsnoc; [done|]. cbn. tauto.
  - change (NoDup (map username (users t ++ [u])%list)). apply Hsnoc; [done|]. cbn. tauto.
  - change (NoDup (map wallet_address (wallets t ++ [w'])%list)). apply Hsnoc; [done|]. change (wallet_address w') with (wallet_address w). tauto.
Qed.

Definition account_body (mail name hash : string) (w : WalletRow) (now : Z) : call AppDb Z :=
  i ← statement (insert_user mail name hash now);
  _ ← statement (app_update (insert_wallet (w {{ wallet_user := i; wallet_created := now }})));
  mret i.

Lemma account_body_run mail name hash w now d1 r d2 :
  account_body mail name hash w now d1 = (r, d2) →
  saved d2 = saved d1 ∧ (accounts_ok (tables d1) →
  match r with
  | Ok i => i = sequence (tables d1) + 1 ∧ tables d2 = with_account (tables d1) mail name hash w now ∧ ¬ taken (tables d1) mail name w
  | Raise e => e = SqliteError ∨ e = SqliteIntegrity ∧ taken (tables d1) mail name w
  end).
Proof.
  unfold account_body. rewrite call_run. destruct (statement (insert_user _ _ _ _) d1) as [[i|e] d3] eqn:H1;
    apply statement_run in H1 as [Hs H1]; pose proof (insert_user_cases mail name hash now w (tables d1)) as Hu.
  2: { intros [= <- <-]. split; [done|]. intros _. destruct H1 as [->|H1]; [by left|]. rewrite H1 in Hu. by right. }
  rewrite H1 in Hu. destruct Hu as (-> & Hm & Hn & Ht). rewrite call_run.
  destruct (statement (app_update _) d3) as [[x|e] d4] eqn:H2; apply statement_run in H2 as [Hs2 H2]; intros [= <- <-];
    (split; [congruence|]); intros Hok; pose proof (insert_wallet_cases mail name hash now w _ Hok Hm Hn) as Hw; unfold app_update in H2.
  - rewrite Ht in H2. destruct (insert_wallet _ _) as [t'|] in Hw, H2; [|done]. injection H2 as _ <-. by destruct Hw.
  - destruct H2 as [->|H2]; [by left|]. rewrite Ht in H2. destruct (insert_wallet _ _) as [t'|] in Hw, H2; [done|].
    injection H2 as <-. by right.
Qed.

Lemma found_new_user t mail name hash w now :
  accounts_ok t →
  snd <$> list_find (λ u, user_row_id u = sequence t + 1) (users (with_account t mail name hash w now)) =
    Some (next_user t mail name hash now).
Proof.
  intros [_ _ Hseq _ _ _]. change (users (with_account _ _ _ _ _ _)) with (users t ++ [next_user t mail name hash now])%list.
  rewrite list_find_app_r; [by cbn; rewrite decide_True|]. apply list_find_None, Forall_forall. intros u Hu. specialize (Hseq u Hu). lia.
Qed.

(** C35: an account comes with its wallet or not at all, also when any statement
    or the commit fails: then the tables are as before, or the account is
    complete.  Every user keeps exactly one wallet; a created account is
    answered with its row, and a duplicate is only reported when nothing was
    written. *)
Theorem account_with_wallet mail name hash w now d r d' :
  accounts_ok (tables d) → saved d = None → create_account mail name hash w now d = (r, d') →
  let new := with_account (tables d) mail name hash w now in
  accounts_ok (tables d') ∧ saved d' = None ∧
  match r with
  | Ok u => tables d' = new ∧ u = Some (next_user (tables d) mail name hash now)
  | Raise DuplicateAccountError => tables d' = tables d ∧
      taken (tables d) mail name w
  | Raise e => e = StorageError ∧ (tables d' = tables d ∨ tables d' = new)
  end.
Proof.
  intros Hok Hsaved Hc new. unfold create_account in Hc. rewrite call_run in Hc. unfold try_call in Hc at 1.
  destruct (app_transaction _ d) as [x d1] eqn:Ht. change (app_transaction (account_body mail name hash w now) d = (x, d1)) in Ht.
  apply app_transaction_atomic in Ht as (Hs1 & Ht); [|intros ? ? ? Hb; by apply account_body_run in Hb as [Hb _]|done].
  assert (∀ d0 d2 i, account_body mail name hash w now d0 = (Ok i, d2) → tables d0 = tables d → tables d1 = tables d2 →
    i = sequence (tables d) + 1 ∧ tables d1 = new ∧ accounts_ok new) as Hnew.
  { intros d0 d2 i [_ Hb]%account_body_run H0 H1. rewrite H0 in Hb. destruct (Hb Hok) as (-> & Hd2 & Hfree).
    split_and!; [done|by rewrite H1|by apply with_account_ok]. }
  assert (accounts_ok (tables d1)) as Hok1.
  { destruct Ht as [(e & _ & -> & _)|(i & d0 & d2 & Hb & H0 & H1 & _)]; [done|].
    by destruct (Hnew _ _ _ Hb H0 H1) as (_ & -> & ?). }
  destruct x as [i|e].
  - destruct Ht as [(e & ? & _)|(i' & d0 & d2 & Hb & H0 & H1 & [[= <-]|?])]; [done| |done].
    destruct (Hnew _ _ _ Hb H0 H1) as (-> & Hd1 & _). pose proof Hc as Hq. apply app_execute_select in Hq as [Htab Hr].
    pose proof (app_execute_saved _ _ _ _ Hc) as Hs.
    split_and!; [by rewrite Htab|congruence|]. destruct r as [u|e].
    + split; [by rewrite Htab|]. rewrite Hr, Hd1. by apply found_new_user.
    + apply app_execute_raises in Hc as ->. split; [done|right; by rewrite Htab].
  - assert (r = Raise (if is_sqlite_error e then if bool_decide (e = SqliteIntegrity) then DuplicateAccountError else StorageError else e) ∧ d' = d1)
      as [-> ->] by (destruct (is_sqlite_error e); by injection Hc as <- <-).
    split_and!; [done|done|].
    destruct Ht as [(e' & [= <-] & Htab & [->|(d0 & d2 & [_ Hb]%account_body_run & H0)])|(i & d0 & d2 & Hb & H0 & H1 & [?|[= ->]])]; [|..|done|].
    + split; [done|by left].
    + rewrite H0 in Hb. destruct (Hb Hok) as [->|[-> Hfree]]; cbn; (split; [done|]); [by left|done].
    + destruct (Hnew _ _ _ Hb H0 H1) as (_ & Hd1 & _). split; [done|by right].
Qed.
End accounts.

(** ** Witnesses *)

Section witnesses.
#[local] Existing Instance sqlite_store.

(** A Fernet key that hides nothing. *)
#[local] Instance plain_fernet : FernetLib := {| fernet_encrypt _ m := m; fernet_decrypt m := Some m |}.

Lemma plain_laws : FernetLaws plain_fernet.
Proof. constructor. done. Qed.

Definition alice_row : WalletRow :=
  MkWalletRow alice_address (public_key_to_hex (get_public_key alice)) (encrypt_private_key 0 alice) 1 1 0.
Definition sample_app : AppDb :=
  MkAppDb (MkAppTables [MkUser 1 "alice@example.org" "alice" "hash" 0] [alice_row] ∅ ∅ ∅ 1) None [].

(** The node with Alice's reward of 50. *)
Definition rich_node : Node := node_with next_blockchain.
Definition rich_view : option WalletView :=
  match wallet_state (ServedBy rich_node) alice_address with Ok v => Some v | Raise _ => None end.

Lemma rich_view_shown : ∃ view, rich_view = Some view ∧ wallet_state (ServedBy rich_node) (wallet_address alice_row) = Ok view.
Proof.
  assert (match rich_view with Some _ => true | None => false end = true) as H by (vm_compute; reflexivity).
  unfold rich_view in *. change (wallet_address alice_row) with alice_address.
  destruct (wallet_state (ServedBy rich_node) alice_address) as [view|e]; [|discriminate H]. by exists view.
Qed.

Lemma rich_balance : get_balance (utxo_set (state next_blockchain)) alice_address = 50.
Proof. vm_compute. reflexivity. Qed.

Lemma wallet_balances_add_up_witness : ∃ view,
  rich_view = Some view ∧ available_balance (summarise alice_row view) + pending_outgoing (summarise alice_row view) = 50.
Proof.
  destruct rich_view_shown as (view & Hr & Hv). exists view. split; [exact Hr|].
  destruct (wallet_balances_add_up sample_time rich_node alice_row view 30 2 next_blockchain_inv Hv) as (Hc & Hs & _);
    [reflexivity|discriminate|].
  rewrite Hs, Hc. exact rich_balance.
Defined.

Definition rich_payment : option (Transaction * bytes) :=
  view ← rich_view;
  match prepare_transaction alice_row view bob_address 30 2 100000 sample_time with Ok p => Some p | Raise _ => None end.

Lemma prepared_transaction_accepted_witness : ∃ tx data,
  rich_payment = Some (tx, data) ∧ valid_tx (utxo_set (state next_blockchain)) tx 2 ∧
  ∃ m, add_transaction (mempool next_blockchain) tx = Ok (true, m).
Proof.
  assert (match rich_payment with
          | Some (tx, data) => (total_bytes (mempool next_blockchain) + Z.of_nat (length data) <=? max_bytes (mempool next_blockchain))
              && bool_decide (txid tx ∉ mp_seen_txids (mempool next_blockchain)) && bool_decide (txid tx ∉ (entries (mempool next_blockchain)).*1)
          | None => false end = true) as H by (vm_compute; reflexivity).
  destruct rich_payment as [[tx data]|] eqn:Hp; [|discriminate H].
  apply andb_true_iff in H as [[H1%Z.leb_le H2%bool_decide_eq_true]%andb_true_iff H3%bool_decide_eq_true].
  destruct rich_view_shown as (view & Hr & Hv). unfold rich_payment in Hp. rewrite Hr in Hp. cbn [mbind option_bind] in Hp.
  destruct (prepare_transaction alice_row view bob_address 30 2 100000 sample_time) as [[tx' data']|e] eqn:Hpr; [|discriminate Hp].
  injection Hp as -> ->. exists tx, data. split; [reflexivity|].
  destruct (prepared_transaction_accepted sample_time rich_node alice_row view bob_address 30 2 100000 sample_time tx data
    next_blockchain_inv ltac:(vm_compute; discriminate) Hv Hpr) as (Hval & _ & _ & _ & _ & _ & _ & Hadd).
  split; [exact Hval|]. apply Hadd; [vm_compute; reflexivity|exact H1|exact H2|exact H3].
Defined.

(** Alice's request is interrupted by a stop of the process after its
    transaction was given to the node; its retry finds it. *)
Definition first_try : list SendAction :=
  [SendCalled 1 "key-1" bob_address 30 2 0; StateAnswered 1 (ServedBy rich_node); SlotTaken 1; WorkerDone 1 100000 sample_time;
   FindAnswered 1 (ServedBy rich_node); ProcessStopped].
Definition paid_node : Node :=
  match run_sends first_try (new_wallet_service sample_app) with
  | Some m => match submitted m with
              | (_, _, tx) :: _ => node_with (submit_transaction tx next_blockchain).2
              | [] => rich_node end
  | None => rich_node end.
Definition retried : list SendAction :=
  (first_try ++ [SendCalled 1 "key-1" bob_address 30 2 5; FindAnswered 1 (ServedBy paid_node)])%list.

Lemma send_exactly_once_witness : ∃ m tx t,
  run_sends retried (new_wallet_service sample_app) = Some m ∧ submitted m = [(1, "key-1", tx)] ∧
  (1, "key-1", Ok t) ∈ replies m ∧ t = Some (txid tx).
Proof.
  assert (match run_sends retried (new_wallet_service sample_app) with
          | Some m => match submitted m, replies m with
              | [(1, "key-1", _)], [(1, "key-1", Ok _)] => true | _, _ => false end
          | None => false end = true) as H by (vm_compute; reflexivity).
  destruct (run_sends retried (new_wallet_service sample_app)) as [m|] eqn:Hm; [|discriminate H].
  assert (∃ tx t, submitted m = [(1, "key-1", tx)] ∧ replies m = [(1, "key-1", Ok t)]) as (tx & t & Hs & Hr)
    by (clear Hm; repeat (case_match; try discriminate H); subst; eauto).
  destruct (send_exactly_once sample_app m eq_refl (run_sends_steps _ _ _ Hm)) as [_ Hrep].
  assert ((1, "key-1", Ok t) ∈ replies m) as Hin by (rewrite Hr; apply list_elem_of_here).
  exists m, tx, t. split_and!; [reflexivity|exact Hs|exact Hin|].
  destruct (Hrep 1 "key-1" t Hin) as (tx' & -> & _ & _ & Hone). f_equal. f_equal. symmetry. apply Hone.
  left. rewrite Hs. apply list_elem_of_here.
Defined.

(** The commit fails after its data reached the disk: the account is there. *)
Lemma account_with_wallet_witness :
  let d := MkAppDb empty_app_tables None [AppRuns; AppRuns; AppRuns; AppFails true] in
  let w := alice_row in
  (create_account "bob@example.org" "bob" "hash" w 7 d).1 = Raise StorageError ∧
  accounts_ok (tables (create_account "bob@example.org" "bob" "hash" w 7 d).2).
Proof.
  cbv zeta. set (d := MkAppDb empty_app_tables None [AppRuns; AppRuns; AppRuns; AppFails true]).
  split; [vm_compute; reflexivity|].
  destruct (account_with_wallet "bob@example.org" "bob" "hash" alice_row 7 d
    (create_account "bob@example.org" "bob" "hash" alice_row 7 d).1 (create_account "bob@example.org" "bob" "hash" alice_row 7 d).2)
    as (Hok & _ & _).
  - split; cbn; try constructor. intros u Hu. by apply elem_of_nil in Hu.
  - reflexivity.
  - apply surjective_pairing.
  - exact Hok.
Defined.
End witnesses.
