(* ===== verification/Auth.v ===== *)
(** * auth/ and api/routes/auth.py: accounts, sessions and forged requests

    [LoginGuard] bounds the attempts; passwords are hashed by the argon2 package
    ([PasswordLib]) and session tokens are signed by the jwt package ([JwtLib]).
    A session is a row of the application database that its token names; a
    request that changes something shows a signed value both in a header and in a
    cookie.  Readings of the clock and random tokens are arguments. *)

From Stdlib Require Import QArith Lqa Strings.Ascii Sorted DecimalString.
From Stdlib Require DecimalFacts DecimalPos.
From coqutil Require Import Datatypes.RecordSetters.
Import DoubleBraceUpdate.
From S2P Require Import Prelude Bytes Sha256 Json JsonParse JsonFacts Crypto NetConfig ConfigFacts Effects Services ApiConfig WsManager Database AppDb Limits.
#[local] Open Scope string_scope.
#[local] Open Scope Z_scope.

(** ** hmac *)

Definition xor_byte (k : N) (b : Byte.byte) : Byte.byte := byte_of_low (N.lxor k (Byte.to_N b)).

(** [hmac.new(key, message, hashlib.sha256)] *)
Definition hmac_sha256 (key message : bytes) : bytes :=
  let key := if (64 <? length key)%nat then sha256_digest key else key in
  let key := (key ++ repeat Byte.x00 (64 - length key))%list in
  sha256_digest (map (xor_byte 92) key ++ sha256_digest (map (xor_byte 54) key ++ message))%list.

Example hmac_rfc4231 :
  bytes_hex (hmac_sha256 (utf8_encode "Jefe") (utf8_encode "what do ya want for nothing?"))
  = "5bdcc146bf60754e6a042426089575c75a003f089d2739839dec58b964ec3843".
Proof. vm_compute. reflexivity. Qed.



(** [hmac.compare_digest] of two texts *)
Definition compare_digest (a b : string) : result bool :=
  if is_ascii a && is_ascii b then Ok (bool_decide (a = b)) else Raise TypeError.

(** ** service.py: the guard *)

Module LoginGuard.

Abbreviation Key := (string * string)%type.

Record LoginGuard := MkGuard {
  attempts : gmap Key (list Q);
  failures : gmap Key (list Q);
  cooldowns : gmap Key Q
}.

Definition new_guard : LoginGuard := MkGuard ∅ ∅ ∅.

Definition keys_of (ip identifier : string) : list Key := [("ip", ip); ("account", sha256_hex (utf8_encode identifier))].

(** The loop that forgets times of at least a minute ago. *)
Definition forget (now : Q) (h : gmap Key (list Q)) : gmap Key (list Q) :=
  omap (λ q, match purge (λ t, Qle_bool t (now - 60)) q with [] => None | q => Some q end) h.

Definition tidy (now : Q) (g : LoginGuard) : LoginGuard :=
  MkGuard (forget now (attempts g)) (forget now (failures g))
    (omap (λ expiry, if Qle_bool expiry now then None else Some expiry) (cooldowns g)).

Definition attempts_of (g : LoginGuard) (k : Key) : list Q := default [] (attempts g !! k).

Definition limited (g : LoginGuard) (p : Key * Z) : bool :=
  bool_decide (is_Some (cooldowns g !! p.1)) || (p.2 <=? Z.of_nat (length (attempts_of g p.1))).

Definition tracked (g : LoginGuard) : Z := Z.of_nat (size (attempts g) + size (failures g) + size (cooldowns g)).

Definition add_attempt (now : Q) (g : LoginGuard) (k : Key) : LoginGuard :=
  g {{ attempts := <[k := (attempts_of g k ++ [now])%list]> (attempts g) }}.

Definition check (ip identifier : string) (now : Q) : call LoginGuard (list Key) := λ g,
  let g := tidy now g in
  let keys := keys_of ip identifier in
  if existsb (limited g) (zip keys [20; 5]) then (Raise (APIError 429 "LOGIN_RATE_LIMITED"), g)
  else if 10000 <=? tracked g then (Raise (APIError 429 "LOGIN_RATE_LIMITED"), g)
  else (Ok keys, foldl (add_attempt now) g keys).

Definition fail_key (now : Q) (g : LoginGuard) (p : Key * Z) : LoginGuard :=
  let times := (default [] (failures g !! p.1) ++ [now])%list in
  let g := g {{ failures := <[p.1 := times]> (failures g) }} in
  if p.2 <=? Z.of_nat (length times) then g {{ cooldowns := <[p.1 := (now + 60)%Q]> (cooldowns g) }} else g.

Definition failed (keys : list Key) (now : Q) (g : LoginGuard) : LoginGuard := foldl (fail_key now) g (zip keys [10; 5]).

(** What requests do to the guard: an attempt, or the end of one. *)
Inductive GuardAction :=
  | Attempt (ip identifier : string) (now : Q)
  | Failed (keys : list Key) (now : Q).

Definition action_time (a : GuardAction) : Q := match a with Attempt _ _ t | Failed _ t => t end.

(** A run with the attempts that were let through. *)
Fixpoint guard_run (l : list GuardAction) (g : LoginGuard) : list (list Key * Q) * LoginGuard :=
  match l with
  | [] => ([], g)
  | Attempt ip i now :: l =>
      let (r, g) := check ip i now g in
      let (log, g) := guard_run l g in
      (match r with Ok keys => (keys, now) :: log | Raise _ => log end, g)
  | Failed keys now :: l => guard_run l (failed keys now g)
  end.
End LoginGuard.

(** ** service.py: accounts *)

Class PasswordLib := {
  password_hasher : string → string → string;
  password_verify : string → string → option bool
}.

(** [verify_password]: any error of the package counts as a mismatch. *)
Definition verify_password `{PasswordLib} (hash password : string) : bool := default false (password_verify hash password).

Section accounts.
Context {E : EcdsaLib} {F : FernetLib} {P : PasswordLib}.

(** [register], after the hash has been computed. *)
Definition register (mail name salt password : string) (key : SigningKey) (r now : Z) : call AppDb (option UserRow) :=
  let public := get_public_key key in
  let wallet := MkWalletRow (public_key_to_address public) (public_key_to_hex public) (encrypt_private_key r key) KEY_VERSION 0 0 in
  try_call (create_account mail name (password_hasher salt password) wallet now)
    (λ e, bool_decide (e = DuplicateAccountError)) (λ _, raise (APIError 409 "ACCOUNT_EXISTS")).

(** [login] after the guard, with the row found before the password was checked. *)
Definition login_answer (dummy_hash password : string) (user : option UserRow) : result UserRow :=
  let valid := verify_password (match user with None => dummy_hash | Some u => password_hash u end) password in
  match user with
  | Some u => if valid then Ok u else Raise (APIError 401 "INVALID_CREDENTIALS")
  | None => Raise (APIError 401 "INVALID_CREDENTIALS")
  end.
End accounts.

(** ** token.py *)

(** The claims that are required; the issuer and the audience are fixed. *)
Record RawClaims := MkRaw { raw_sub : json; raw_jti : json; raw_iat : json; raw_exp : json; raw_csrf : json }.
Record Claims := MkClaims { sub : string; jti : string; iat : Z; exp : Z; csrf : string }.

Definition raw (c : Claims) : RawClaims := MkRaw (JStr (sub c)) (JStr (jti c)) (JInt (iat c)) (JInt (exp c)) (JStr (csrf c)).

(** [jwt.encode] with a secret, and [jwt.decode] at a time: the claims of a
    valid token, or [InvalidTokenError]. *)
Class JwtLib := {
  jwt_encode : RawClaims → string → string;
  jwt_decode : string → string → Z → option RawClaims
}.

Class JwtLaws (J : JwtLib) := {
  jwt_valid c secret now : iat c <= now < exp c → jwt_decode (jwt_encode (raw c) secret) secret now = Some (raw c);
  jwt_expired c secret now : exp c <= now → jwt_decode (jwt_encode (raw c) secret) secret now = None
}.

Section tokens.
Context {J : JwtLib}.

Definition create_token (secret : string) (lifetime : Z) (user : Z) (csrf_token : string) (now : Z) (token_id : string) : string * Claims :=
  let claims := MkClaims (str_of_int user) token_id now (now + lifetime) csrf_token in
  (jwt_encode (raw claims) secret, claims).

(** [claims["sub"]] is a decimal number that fits in 63 bits. *)
Definition valid_subject (s : string) : bool :=
  digits s && negb (4300 <? str_len s)%nat && (0 <? int_of_decimal s) && (int_of_decimal s <=? 2 ^ 63 - 1).

Definition decode_token (secret token : string) (now : Z) : result Claims :=
  match jwt_decode token secret now with
  | None => Raise TokenError
  | Some c =>
      match raw_sub c, raw_jti c, raw_iat c, raw_exp c, raw_csrf c with
      | JStr s, JStr j, JInt i, JInt x, JStr v => if valid_subject s then Ok (MkClaims s j i x v) else Raise TokenError
      | _, _, _, _, _ => Raise TokenError
      end
  end.

(** ** dependencies.py *)

Definition new_csrf (secret nonce : string) : string := nonce +:+ "." +:+ bytes_hex (hmac_sha256 (utf8_encode secret) (utf8_encode nonce)).
Definition csrf_digest (token : string) : string := sha256_hex (utf8_encode token).

Definition unauthorized : exn := APIError 401 "UNAUTHORIZED".
Definition csrf_failed : exn := APIError 403 "CSRF_FAILED".

Definition read_session (secret : string) (now : Z) (cookie : string) : call AppDb (UserRow * Claims) :=
  _ ← lift (raise_if (bool_decide (cookie = "") || (4096 <? str_len cookie)%nat) unauthorized);
  claims ← lift (reraise_as (decode_token secret cookie now) [TokenError] unauthorized);
  record ← session_by_id (jti claims);
  match record with
  | None => raise unauthorized
  | Some s =>
      if negb (session_user s =? int_of_decimal (sub claims)) || negb (expires_at s =? exp claims) then raise unauthorized
      else
        same ← lift (compare_digest (csrf_hash s) (csrf_digest (csrf claims)));
        if negb same then raise unauthorized
        else
          user ← user_by_id (session_user s);
          match user with None => raise unauthorized | Some u => mret (u, claims) end
  end.

(** The parts of a request that [verify_csrf] reads; an absent cookie or header
    is empty, except the origin. *)
Record CsrfRequest := MkCsrf {
  origin : option string;
  base_url : string;
  csrf_header : string;
  csrf_cookie : string;
  session_cookie : string
}.

(** An origin with the other name of the local host. *)
Definition with_alias (item : string) : list string :=
  item ::
    (if str_contains "localhost" item then [str_replace (str_len item) "localhost" "127.0.0.1" item]
     else if str_contains "127.0.0.1" item then [str_replace (str_len item) "127.0.0.1" "localhost" item]
     else []).

Definition origin_ok (frontend : string) (r : CsrfRequest) : bool :=
  match origin r with
  | None => true
  | Some o => bool_decide (rstrip_char "/" o ∈ (with_alias (rstrip_char "/" frontend) ++ with_alias (rstrip_char "/" (base_url r)))%list)
  end.

Definition verify_csrf (secret frontend : string) (now : Z) (r : CsrfRequest) : call AppDb unit :=
  _ ← lift (raise_if (negb (origin_ok frontend r)) csrf_failed);
  let header := csrf_header r in
  _ ← lift (raise_if (bool_decide (header = "") || (256 <? str_len header)%nat || negb (is_ascii header) || negb (is_ascii (csrf_cookie r))) csrf_failed);
  same ← lift (compare_digest header (csrf_cookie r));
  _ ← lift (raise_if (negb same) csrf_failed);
  match str_split "." header with
  | [nonce; mac] =>
      _ ← lift (raise_if (negb (str_len nonce =? 64)%nat || negb (str_len mac =? 64)%nat) csrf_failed);
      same ← lift (compare_digest (bytes_hex (hmac_sha256 (utf8_encode secret) (utf8_encode nonce))) mac);
      _ ← lift (raise_if (negb same) csrf_failed);
      if bool_decide (session_cookie r = "") then mret tt
      else
        p ← read_session secret now (session_cookie r);
        same ← lift (compare_digest header (csrf (snd p)));
        lift (raise_if (negb same) csrf_failed)
  | _ => raise csrf_failed
  end.

(** [require_csrf] *)
Definition require_csrf (secret frontend : string) (now : Z) (r : CsrfRequest) : call AppDb UserRow :=
  p ← read_session secret now (session_cookie r);
  _ ← verify_csrf secret frontend now r;
  mret (fst p).

(** ** routes/auth.py *)

Definition delete_session (token_id : string) : AppTables → result AppTables := λ t,
  Ok (t {{ sessions := delete token_id (sessions t) }}).
Definition delete_expired (now : Z) : AppTables → result AppTables := λ t,
  Ok (t {{ sessions := filter (λ p : string * SessionRow, now < expires_at p.2) (sessions t) }}).

(** The session that the login came with ends. *)
Definition drop_previous (secret previous : string) (now : Z) : call AppDb unit :=
  if bool_decide (previous = "") then mret tt
  else p ← read_session secret now previous; app_execute (app_update (delete_session (jti (snd p)))).

(** [login] after the password: the new session replaces the one the request
    came with; it gets the token, its claims and the value against forgery. *)
Definition open_session (secret : string) (lifetime user : Z) (previous nonce token_id : string) (created now : Z) :
    call AppDb (string * Claims * string) :=
  let value := new_csrf secret nonce in
  let (token, claims) := create_token secret lifetime user value created token_id in
  _ ← app_transaction (
        _ ← app_execute (app_update (delete_expired now));
        _ ← drop_previous secret previous now;
        app_execute (app_update (insert_session (jti claims) (MkSessionRow user (csrf_digest value) (exp claims)))));
  mret (token, claims, value).

(** [csrf]: a stale session is dropped for a new value; the answer says whether
    the session cookie is deleted. *)
Definition csrf_route (secret nonce : string) (now : Z) (session : string) : call AppDb (string * bool) :=
  if bool_decide (session = "") then mret (new_csrf secret nonce, false)
  else
    try_call (p ← read_session secret now session; mret (csrf (snd p), false))
      (λ e, match e with APIError 401 _ => true | _ => false end)
      (λ _, mret (new_csrf secret nonce, true)).

(** [logout] *)
Definition logout (secret frontend : string) (now : Z) (r : CsrfRequest) : call AppDb unit :=
  _ ← require_csrf secret frontend now r;
  p ← read_session secret now (session_cookie r);
  app_execute (app_update (delete_session (jti (snd p)))).
End tokens.

(** * Facts about accounts and sessions *)

(** ** The guard *)

Section guard.
Import LoginGuard.

Abbreviation Log := (list (list Key * Q)).

(** The attempts of a key that were let through after [c]. *)
Definition let_through (k : Key) (c : Q) (log : Log) : Log :=
  List.filter (λ a, bool_decide (k ∈ a.1) && negb (Qle_bool a.2 c)) log.

Record guard_ok (g : LoginGuard) (log : Log) (now : Q) : Prop := {
  guard_past : ∀ a, a ∈ log → (a.2 <= now)%Q;
  guard_sorted : sorted_times (map snd log);
  guard_times : ∀ k, ∃ c, (c <= now - 60)%Q ∧ attempts_of g k = map snd (let_through k c log)
}.

Lemma let_through_later k c c' log :
  (c <= c')%Q → sorted_times (map snd log) →
  purge (λ t, Qle_bool t c') (map snd (let_through k c log)) = map snd (let_through k c' log).
Proof.
  intros Hc Hs. rewrite purge_sorted.
  - rewrite filter_map. f_equal. unfold let_through. rewrite filter_filter. apply filter_ext. intros a.
    destruct (bool_decide _); [|done]. cbn [andb]. destruct (Qle_bool a.2 c') eqn:H; [by rewrite andb_false_r|].
    rewrite andb_true_r, negb_true_iff, <- not_true_iff_false, Qle_bool_iff in *. lra.
  - intros t u Htu. rewrite !Qle_bool_iff. lra.
  - by apply (sorted_map_filter (λ a : list Key * Q, bool_decide (k ∈ a.1) && negb (Qle_bool a.2 c))).
Qed.

Lemma tidy_attempts g now k : attempts_of (tidy now g) k = purge (λ t, Qle_bool t (now - 60)) (attempts_of g k).
Proof.
  unfold attempts_of, tidy, forget. cbn [attempts]. rewrite lookup_omap. destruct (attempts g !! k) as [q|]; [|done]. cbn.
  by destruct (purge _ q).
Qed.

Lemma tidy_ok g log now t : guard_ok g log now → (now <= t)%Q →
  guard_ok (tidy t g) log t ∧ ∀ k, attempts_of (tidy t g) k = map snd (let_through k (t - 60) log).
Proof.
  intros [Hp Hs Ht] Hle.
  assert (∀ k, attempts_of (tidy t g) k = map snd (let_through k (t - 60) log)) as Hk.
  { intros k. rewrite tidy_attempts. destruct (Ht k) as (c & Hc & ->). apply let_through_later; [lra|done]. }
  split; [|done]. split; [intros a Ha; eapply Qle_trans; [by apply Hp|done]|done|]. intros k. exists (t - 60)%Q. split; [apply Qle_refl|done].
Qed.

Lemma add_attempts keys : ∀ g t k, NoDup keys →
  attempts_of (foldl (add_attempt t) g keys) k = (attempts_of g k ++ if bool_decide (k ∈ keys) then [t] else [])%list.
Proof.
  induction keys as [|x keys IH]; intros g t k; cbn [foldl].
  { intros _. rewrite bool_decide_eq_false_2 by apply not_elem_of_nil. by rewrite app_nil_r. }
  intros [Hx Hnd]%NoDup_cons. rewrite IH by done.
  assert (attempts_of (add_attempt t g x) k = if decide (x = k) then (attempts_of g k ++ [t])%list else attempts_of g k) as ->.
  { unfold attempts_of at 1 2 3. change (attempts (add_attempt t g x)) with (<[x := (attempts_of g x ++ [t])%list]> (attempts g)).
    rewrite lookup_insert. case_decide; [by subst|done]. }
  case_decide as Hxk.
  - subst x. rewrite (bool_decide_eq_false_2 (k ∈ keys)), bool_decide_eq_true_2 by (done || apply list_elem_of_here). by rewrite app_nil_r.
  - f_equal. assert (bool_decide (k ∈ keys) = bool_decide (k ∈ x :: keys)) as ->; [|done]. apply bool_decide_ext.
    rewrite elem_of_cons. naive_solver.
Qed.

Lemma keys_distinct ip i : NoDup (keys_of ip i).
Proof. unfold keys_of. apply NoDup_cons. split; [|apply NoDup_singleton]. by intros ?%list_elem_of_singleton. Qed.

(** What lets an attempt through. *)
Definition admitted (ip identifier : string) (now : Q) (g : LoginGuard) (log : Log) : Prop :=
  (∀ k limit, (k, limit) ∈ zip (keys_of ip identifier) [20; 5] →
     Z.of_nat (length (let_through k (now - 60) log)) < limit ∧ ∀ expiry, cooldowns g !! k = Some expiry → (expiry <= now)%Q) ∧
  tracked (tidy now g) < 10000.

Lemma limited_spec g log now t k limit :
  guard_ok g log now → (now <= t)%Q →
  limited (tidy t g) (k, limit) = false ↔
    Z.of_nat (length (let_through k (t - 60) log)) < limit ∧ ∀ expiry, cooldowns g !! k = Some expiry → (expiry <= t)%Q.
Proof.
  intros Hok Hle. destruct (tidy_ok g log now t Hok Hle) as [_ Hk]. unfold limited. cbn [fst snd].
  rewrite orb_false_iff, bool_decide_eq_false, Z.leb_gt, Hk, length_map. unfold tidy. cbn [cooldowns]. rewrite lookup_omap.
  destruct (cooldowns g !! k) as [x|]; cbn.
  - destruct (Qle_bool x t) eqn:Hx.
    + apply Qle_bool_iff in Hx. split; [intros [_ ?]; split; [done|by intros ? [= <-]]|intros [? _]; split; [by intros []|done]].
    + split; [intros [[] _]; by eexists|]. intros [_ H]. specialize (H x eq_refl). apply Qle_bool_iff in H. congruence.
  - split; [by intros [_ ?]|intros [? _]; split; [by intros []|done]].
Qed.

Lemma check_ok g log now ip i t r g' :
  guard_ok g log now → (now <= t)%Q → check ip i t g = (r, g') →
  guard_ok g' (log ++ match r with Ok keys => [(keys, t)] | Raise _ => [] end)%list t ∧
  (r = Ok (keys_of ip i) ∧ admitted ip i t g log ∨ r = Raise (APIError 429 "LOGIN_RATE_LIMITED") ∧ ¬ admitted ip i t g log).
Proof.
  intros Hok Hle. destruct (tidy_ok g log now t Hok Hle) as [Hok' Hk]. unfold check, admitted.
  destruct (existsb (limited (tidy t g)) _) eqn:Hl.
  { intros [= <- <-]. rewrite app_nil_r. split; [done|]. right. split; [done|]. intros [Ha _].
    apply existsb_exists in Hl as ([k limit] & Hin%list_elem_of_In & Hlim). specialize (Ha k limit Hin).
    apply (limited_spec g log now t k limit Hok Hle) in Ha. congruence. }
  destruct (10000 <=? _) eqn:Ht; to_prop; intros Heq; apply pair_equal_spec in Heq as [<- <-].
  { rewrite app_nil_r. split; [done|]. right. split; [done|]. intros [_ ?]. lia. }
  split.
  - destruct Hok' as [Hp Hs Htimes]. split.
    + intros a [Ha| ->%list_elem_of_singleton]%elem_of_app; [by apply Hp|apply Qle_refl].
    + rewrite map_app. apply StronglySorted_app_2; [|done|repeat constructor].
      intros x y (a & -> & Ha)%list_elem_of_fmap ->%list_elem_of_singleton. by apply Hp.
    + intros k. exists (t - 60)%Q. split; [apply Qle_refl|]. rewrite add_attempts, Hk by apply keys_distinct.
      unfold let_through. rewrite List.filter_app, map_app. f_equal. cbn. destruct (bool_decide (k ∈ keys_of ip i)); [|done]. cbn.
      assert (Qle_bool t (t - 60) = false) as ->; [|done]. rewrite <- not_true_iff_false, Qle_bool_iff. lra.
  - left. split; [done|]. split; [|done]. intros k limit Hin. apply (limited_spec g log now t k limit Hok Hle).
    destruct (limited _ _) eqn:Hlim; [|done]. rewrite <- Hl. symmetry. apply existsb_exists. exists (k, limit).
    split; [by apply list_elem_of_In|done].
Qed.

Lemma failed_attempts keys now : ∀ g k, attempts_of (foldl (fail_key now) g keys) k = attempts_of g k.
Proof.
  induction keys as [|p keys IH]; intros g k; [done|]. cbn [foldl]. rewrite IH. unfold fail_key, attempts_of. by destruct (_ <=? _).
Qed.

Fixpoint timely_actions (now : Q) (l : list GuardAction) : Prop :=
  match l with [] => True | a :: l => (now <= action_time a)%Q ∧ timely_actions (action_time a) l end.

Lemma guard_run_ok l : ∀ g log now log' g',
  guard_ok g log now → timely_actions now l → guard_run l g = (log', g') →
  ∃ last, guard_ok g' (log ++ log')%list last ∧ ∀ a, timely_actions now (l ++ [a])%list → (last <= action_time a)%Q.
Proof.
  induction l as [|a l IH]; intros g log now log' g' Hok Ht; cbn [guard_run].
  { intros [= <- <-]. exists now. rewrite app_nil_r. split; [done|]. intros a [Ha _]. exact Ha. }
  destruct Ht as [Hle Ht]. destruct a as [ip i t|keys t]; cbn [action_time] in *.
  - destruct (check ip i t g) as [r g1] eqn:Hc. destruct (check_ok _ _ _ _ _ _ _ _ Hok Hle Hc) as [Hok1 _].
    destruct (guard_run l g1) as [log1 g2] eqn:Hr. intros [= <- <-].
    destruct (IH _ _ _ _ _ Hok1 Ht Hr) as (last & Hok2 & Hlast). exists last. split; [|intros a [_ Ha]; by apply Hlast].
    rewrite <- app_assoc in Hok2. by destruct r.
  - intros Hr. assert (guard_ok (failed keys t g) log t) as Hok1.
    { destruct Hok as [Hp Hs Htimes]. split; [intros a Ha; eapply Qle_trans; [by apply Hp|done]|done|].
      intros k. destruct (Htimes k) as (c & Hc & Hk). exists c. split; [lra|]. unfold failed. by rewrite failed_attempts. }
    destruct (IH _ _ _ _ _ Hok1 Ht Hr) as (last & Hok2 & Hlast). exists last. split; [done|]. intros a [_ Ha]. by apply Hlast.
Qed.

(** C38: passwords cannot be guessed quickly. After any attempts and failures
    whose times do not go back, an attempt is let through exactly when fewer than
    20 attempts from its address and fewer than 5 on its account were let through
    in the last minute, neither is in a cooldown, and fewer than 10000 keys are
    tracked; otherwise it is refused with status 429 before its password is
    looked at. *)
Theorem login_attempts_bounded t0 l ip identifier t :
  timely_actions t0 (l ++ [Attempt ip identifier t])%list →
  let (log, g) := guard_run l new_guard in
  ((check ip identifier t g).1 = Ok (keys_of ip identifier) ↔ admitted ip identifier t g log) ∧
  ((check ip identifier t g).1 = Raise (APIError 429 "LOGIN_RATE_LIMITED") ↔ ¬ admitted ip identifier t g log).
Proof.
  intros Ht. destruct (guard_run l new_guard) as [log g] eqn:Hr.
  assert (timely_actions t0 l) as Htl by (clear Hr; revert t0 Ht; induction l as [|x l IH]; intros t0; cbn; [done|]; intros [? ?]; split; auto).
  assert (guard_ok new_guard [] t0) as H0.
  { split; [by intros a ?%elem_of_nil|constructor|]. intros k. exists (t0 - 60)%Q. split; [apply Qle_refl|done]. }
  destruct (guard_run_ok l _ _ _ _ _ H0 Htl Hr) as (last & Hok & Hlast). cbn [app] in Hok.
  destruct (check ip identifier t g) as [r g'] eqn:Hc. cbn [fst].
  destruct (check_ok _ _ _ _ _ _ _ _ Hok (Hlast (Attempt ip identifier t) Ht) Hc) as [_ [[-> Ha]|[-> Ha]]]; split; split; done.
Qed.
End guard.

(** ** Forged requests *)

Lemma str_forall_weaken (p q : ascii → bool) s : (∀ c, p c = true → q c = true) → str_forall p s = true → str_forall q s = true.
Proof. intros Hpq. induction s as [|c s IH]; [done|]. cbn. intros [Hc Hs]%andb_true_iff. by rewrite (Hpq c Hc), IH. Qed.

Lemma ascii_lower_hex s : str_forall is_lower_hex s = true → is_ascii s = true.
Proof.
  apply str_forall_weaken. intros c Hc.
  destruct c as [[] [] [] [] [] [] [] []]; vm_compute in Hc |- *; try discriminate Hc; reflexivity.
Qed.

Lemma ascii_hex b : is_ascii (bytes_hex b) = true.
Proof. apply ascii_lower_hex, bytes_hex_lower. Qed.

Lemma free_hex b : free_of "." (bytes_hex b) = true.
Proof.
  eapply str_forall_weaken, bytes_hex_lower. intros c Hc.
  destruct c as [[] [] [] [] [] [] [] []]; vm_compute in Hc |- *; try discriminate Hc; reflexivity.
Qed.

Lemma compare_digest_Ok a b : compare_digest a b = Ok true ↔ is_ascii a = true ∧ is_ascii b = true ∧ a = b.
Proof.
  unfold compare_digest. destruct (is_ascii a), (is_ascii b); cbn; try (split; [done|by intros (?&?&?)]).
  split; [|intros (_ & _ & ->); by rewrite bool_decide_eq_true_2].
  intros H. split_and!; [done..|]. injection H as H. by apply bool_decide_eq_true in H.
Qed.

Lemma csrf_mac_len secret nonce : str_len (bytes_hex (hmac_sha256 secret nonce)) = 64%nat.
Proof. rewrite str_len_bytes_hex. unfold hmac_sha256. by rewrite length_sha256_digest. Qed.

Lemma str_split_pair c s a b : str_split c s = [a; b] → free_of c a = true ∧ s = a +:+ String c b.
Proof.
  revert a. induction s as [|d s IH]; intros a; cbn [str_split]; [done|]. case_bool_decide as Hd.
  - subst d. intros [= <- Hs]. split; [done|]. cbn. f_equal. pose proof (str_join_split c s) as Hj. rewrite Hs in Hj. cbn in Hj. by subst.
  - destruct (str_split c s) as [|x l] eqn:Hs; [done|]. intros [= <- ->]. destruct (IH x eq_refl) as [Hf ->]. split; [|done].
    unfold free_of in *. cbn [str_forall]. by rewrite bool_decide_eq_false_2.
Qed.

Section sessions.
Context {J : JwtLib}.

(** A value that the server has signed for these requests. *)
Definition signed_value (secret value : string) : Prop :=
  ∃ nonce, str_len nonce = 64%nat ∧ free_of "." nonce = true ∧ is_ascii nonce = true ∧ value = new_csrf secret nonce.

Lemma signed_split secret nonce : free_of "." nonce = true →
  str_split "." (new_csrf secret nonce) = [nonce; bytes_hex (hmac_sha256 (utf8_encode secret) (utf8_encode nonce))].
Proof.
  intros Hf. unfold new_csrf. set (mac := bytes_hex _). change (nonce +:+ "." +:+ mac) with (nonce +:+ String "." mac).
  rewrite str_split_app by done. by rewrite str_split_free by apply free_hex.
Qed.

Lemma signed_text secret value : signed_value secret value → is_ascii value = true ∧ str_len value = 129%nat ∧ value ≠ "".
Proof.
  intros (nonce & Hlen & _ & Ha & ->). unfold new_csrf. set (mac := bytes_hex _). assert (str_len mac = 64%nat) as Hm by apply csrf_mac_len.
  assert (str_len (nonce +:+ "." +:+ mac) = 129%nat) as Hl by (rewrite !str_len_app, Hlen, Hm; reflexivity).
  split_and!; [|done|intros He; by rewrite He in Hl]. unfold is_ascii in *. rewrite !str_forall_app, Ha. apply ascii_hex.
Qed.

(** The session that a request shows, if it shows one, carries the value. *)
Definition session_agrees (secret : string) (now : Z) (r : CsrfRequest) (d d' : AppDb) : Prop :=
  session_cookie r = "" ∧ d' = d ∨
  session_cookie r ≠ "" ∧ ∃ u c, read_session secret now (session_cookie r) d = (Ok (u, c), d') ∧ csrf c = csrf_header r.

(** C39: a request that changes something cannot be forged. [verify_csrf] lets a
    request through exactly when its origin, if it names one, is the frontend's or
    the server's own, the header repeats the cookie, both are a value that was
    signed with the secret, and the session it shows is valid and was opened with
    that very value. *)
Theorem csrf_accepted_iff secret frontend now r d d' :
  verify_csrf secret frontend now r d = (Ok tt, d') ↔
    origin_ok frontend r = true ∧ csrf_header r = csrf_cookie r ∧ signed_value secret (csrf_header r) ∧ session_agrees secret now r d d'.
Proof.
  unfold verify_csrf, lift. split.
  - rewrite call_run. destruct (origin_ok frontend r); [|done]. cbn [negb raise_if]. rewrite call_run.
    destruct (_ || _) eqn:Hh; [done|]. cbn [raise_if]. rewrite call_run.
    apply orb_false_iff in Hh as [[[_ _]%orb_false_iff Ha%negb_false_iff]%orb_false_iff _].
    destruct (compare_digest (csrf_header r) (csrf_cookie r)) as [[]|e] eqn:Hc; [|done..].
    apply compare_digest_Ok in Hc as (_ & _ & Heq). cbn [negb]. rewrite call_run. cbn [raise_if].
    destruct (str_split "." (csrf_header r)) as [|nonce [|mac [|]]] eqn:Hs; [done..| |done].
    apply str_split_pair in Hs as [Hf Hs]. rewrite call_run. destruct (_ || _) eqn:Hlen; [done|]. cbn [raise_if].
    apply orb_false_iff in Hlen as [Hn%negb_false_iff%Nat.eqb_eq _]. rewrite call_run.
    destruct (compare_digest _ mac) as [[]|e] eqn:Hm; [|done..]. apply compare_digest_Ok in Hm as (_ & _ & Hm). cbn [negb]. rewrite call_run. cbn [raise_if].
    intros Hr. split_and!; [done|done| |].
    + exists nonce. split_and!; [done|done| |].
      * unfold is_ascii in *. rewrite Hs, str_forall_app in Ha. by apply andb_true_iff in Ha as [? _].
      * unfold new_csrf. rewrite Hm. exact Hs.
    + unfold session_agrees. case_bool_decide as Hsess; [left; by injection Hr as <-|]. right. split; [done|].
      rewrite call_run in Hr. destruct (read_session secret now (session_cookie r) d) as [[[u c]|e] d1]; [|done].
      rewrite call_run in Hr. cbn [snd] in Hr. destruct (compare_digest _ (csrf c)) as [[]|e] eqn:Hv; [|done..].
      apply compare_digest_Ok in Hv as (_ & _ & Hv). injection Hr as <-. by exists u, c.
  - intros (Ho & Heq & Hsig & Hsess). pose proof (signed_text _ _ Hsig) as (Ha & Hl & Hne).
    assert (is_ascii (csrf_cookie r) = true) as Hac by by rewrite <- Heq.
    rewrite call_run, Ho. cbn [negb raise_if]. rewrite call_run.
    rewrite (bool_decide_eq_false_2 (csrf_header r = "")), Hl, Ha, Hac by done. cbn [Nat.ltb Nat.leb orb negb raise_if]. rewrite call_run.
    rewrite (proj2 (compare_digest_Ok (csrf_header r) (csrf_cookie r))) by done. cbn [negb]. rewrite call_run. cbn [raise_if].
    destruct Hsig as (nonce & Hn & Hf & _ & Hv). pose proof (signed_split secret nonce Hf) as Hsp. rewrite <- Hv in Hsp. rewrite Hsp, call_run.
    rewrite Hn, csrf_mac_len. cbn [Nat.eqb negb orb raise_if]. rewrite call_run.
    rewrite (proj2 (compare_digest_Ok _ _)) by (split_and!; [apply ascii_hex|apply ascii_hex|done]). cbn [negb]. rewrite call_run. cbn [raise_if].
    destruct Hsess as [[Hs ->]|(Hs & u & c & Hread & Hc)]; [by rewrite bool_decide_eq_true_2|].
    rewrite bool_decide_eq_false_2 by done. rewrite call_run, Hread, call_run. cbn [snd].
    rewrite (proj2 (compare_digest_Ok (csrf_header r) (csrf c))) by (rewrite Hc; done). done.
Qed.
End sessions.

(** ** Sessions *)

(** The digits of a number are at most its bits. *)
Lemma double_digits d :
  (Decimal.nb_digits (Decimal.Little.double d) <= S (Decimal.nb_digits d))%nat ∧
  (Decimal.nb_digits (Decimal.Little.succ_double d) <= S (Decimal.nb_digits d))%nat.
Proof. induction d as [|d IH|d IH|d IH|d IH|d IH|d IH|d IH|d IH|d IH|d IH]; cbn; lia. Qed.

Lemma pos_digits p : (Decimal.nb_digits (Pos.to_uint p) <= Pos.size_nat p)%nat.
Proof.
  unfold Pos.to_uint. rewrite DecimalFacts.nb_digits_rev. induction p as [p IH|p IH|]; cbn; [| |lia];
    destruct (double_digits (Pos.to_little_uint p)); lia.
Qed.

Lemma uint_text_len d : str_len (NilEmpty.string_of_uint d) = Decimal.nb_digits d.
Proof. induction d; cbn; unfold str_len in *; congruence. Qed.

Lemma size_nat_bound p n : Z.pos p < 2 ^ Z.of_nat n → (Pos.size_nat p <= n)%nat.
Proof.
  revert n. induction p as [p IH|p IH|]; intros [|n] Hp; cbn in *; try lia;
    (apply le_n_S, IH; rewrite Nat2Z.inj_succ, Z.pow_succ_r in Hp by lia; lia).
Qed.

Lemma int_text_len z n : 0 < z < 2 ^ Z.of_nat n → (str_len (str_of_int z) <= n)%nat.
Proof.
  intros [Hpos Hlt]. destruct z as [|p|p]; [lia| |lia]. apply size_nat_bound in Hlt.
  etrans; [|exact Hlt]. etrans; [|apply pos_digits]. unfold str_of_int. cbn.
  destruct (Pos.to_uint p) eqn:He; [pose proof (DecimalPos.Unsigned.to_uint_nonnil p); congruence|rewrite <- uint_text_len; reflexivity..].
Qed.

Lemma valid_subject_int z : 0 < z < 2 ^ 63 → valid_subject (str_of_int z) = true ∧ int_of_decimal (str_of_int z) = z.
Proof.
  intros Hz. rewrite int_of_str_of_int. split; [|done]. unfold valid_subject. rewrite digits_str_of_int, int_of_str_of_int by lia.
  pose proof (int_text_len z 63 Hz) as Hl. rewrite (proj2 (Nat.ltb_ge _ _)), (proj2 (Z.ltb_lt _ _)), (proj2 (Z.leb_le _ _)) by lia. done.
Qed.

(** A query on a database without faults. *)
Lemma select_clean {A} (f : AppTables → A) d : faults d = [] → app_execute (app_select f) d = (Ok (f (tables d)), d).
Proof. intros Hf. destruct d as [t s fs]. cbn in Hf. subst fs. reflexivity. Qed.

Section lifecycle.
Context {J : JwtLib} {Laws : JwtLaws J}.

Lemma created_token secret lifetime user value created token_id token c t :
  0 < user < 2 ^ 63 → create_token secret lifetime user value created token_id = (token, c) →
  csrf c = value ∧ jti c = token_id ∧ exp c = created + lifetime ∧ int_of_decimal (sub c) = user ∧
  (created <= t < created + lifetime → decode_token secret token t = Ok c) ∧
  (created + lifetime <= t → decode_token secret token t = Raise TokenError).
Proof.
  intros Hu [= <- <-]. destruct (valid_subject_int user Hu) as [Hs Hi]. cbn [csrf jti exp sub]. split_and!; [done..| |].
  - intros Ht. unfold decode_token. rewrite jwt_valid by (cbn; lia). cbn. by rewrite Hs.
  - intros Ht. unfold decode_token. by rewrite jwt_expired by (cbn; lia).
Qed.

(** [read_session] on a database without faults. *)
Lemma read_session_clean secret now cookie d c :
  faults d = [] → cookie ≠ "" → (str_len cookie <= 4096)%nat → decode_token secret cookie now = Ok c →
  read_session secret now cookie d =
    (match sessions (tables d) !! jti c with
     | None => Raise unauthorized
     | Some s =>
         if negb (session_user s =? int_of_decimal (sub c)) || negb (expires_at s =? exp c) then Raise unauthorized
         else match compare_digest (csrf_hash s) (csrf_digest (csrf c)) with
              | Ok true => match snd <$> list_find (λ u, user_row_id u = session_user s) (users (tables d)) with
                           | Some u => Ok (u, c) | None => Raise unauthorized end
              | Ok false => Raise unauthorized
              | Raise e => Raise e
              end
     end, d).
Proof.
  intros Hf Hne Hlen Hdec. unfold read_session, lift. rewrite call_run.
  rewrite bool_decide_eq_false_2, (proj2 (Nat.ltb_ge _ _)) by done. cbn [orb raise_if]. rewrite call_run, Hdec. cbn [reraise_as].
  rewrite call_run. unfold session_by_id. rewrite select_clean by done.
  destruct (sessions (tables d) !! jti c) as [s|]; [|done]. destruct (_ || _); [done|]. rewrite call_run.
  destruct (compare_digest _ _) as [[]|]; cbn [negb]; [|done..]. rewrite call_run. unfold user_by_id. rewrite select_clean by done.
  by destruct (snd <$> _).
Qed.

Lemma digest_same value : compare_digest (csrf_digest value) (csrf_digest value) = Ok true.
Proof.
  assert (is_ascii (csrf_digest value) = true) as Ha; [|by apply compare_digest_Ok].
  pose proof (is_hash_sha256_hex (utf8_encode value)) as [_ Hh]%andb_true_iff. by apply ascii_lower_hex.
Qed.

Lemma app_update_saved (f : AppTables → result AppTables) d r d' : app_execute (app_update f) d = (r, d') → saved d' = saved d.
Proof.
  unfold app_execute, try_call. destruct (statement _ d) as [y d1] eqn:Hy. apply statement_run in Hy as [Hs _].
  destruct y as [y|e]; [by intros [= _ <-]|]. destruct (is_sqlite_error e); by intros [= _ <-].
Qed.

(** What [read_session] leaves of the database. *)
Lemma read_session_kept secret now cookie d r d' :
  read_session secret now cookie d = (r, d') → tables d' = tables d ∧ saved d' = saved d.
Proof.
  unfold read_session, lift. rewrite call_run. destruct (raise_if _ _); [|by intros [= <- <-]]. rewrite call_run.
  destruct (reraise_as _ _ _) as [c|e]; [|by intros [= <- <-]]. rewrite call_run.
  destruct (session_by_id (jti c) d) as [[[s|]|e] d1] eqn:Hs; pose proof (app_execute_saved _ _ _ _ Hs) as Hsv; apply app_execute_select in Hs as [Ht _];
    [|by intros [= <- <-]..]. destruct (_ || _); [by intros [= <- <-]|]. rewrite call_run.
  destruct (compare_digest _ _) as [[]|e]; cbn [negb]; [|by intros [= <- <-]..]. rewrite call_run.
  destruct (user_by_id (session_user s) d1) as [[[u|]|e] d2] eqn:Hu; pose proof (app_execute_saved _ _ _ _ Hu) as Hsv2; apply app_execute_select in Hu as [Ht2 _];
    intros [= <- <-]; by split; congruence.
Qed.
End lifecycle.

Section lifecycle.
Context {J : JwtLib} {Laws : JwtLaws J}.

Lemma read_session_decodes secret now cookie d u c d' :
  read_session secret now cookie d = (Ok (u, c), d') → decode_token secret cookie now = Ok c.
Proof.
  unfold read_session, lift. rewrite call_run. destruct (raise_if _ _); [|done]. rewrite call_run.
  destruct (decode_token secret cookie now) as [c'|e]; cbn [reraise_as]; [|by case_bool_decide]. rewrite call_run.
  destruct (session_by_id (jti c') d) as [[[s|]|e] d1]; [|done..]. destruct (_ || _); [done|]. rewrite call_run.
  destruct (compare_digest _ _) as [[]|e]; cbn [negb]; [|done..]. rewrite call_run.
  destruct (user_by_id _ d1) as [[[v|]|e] d2]; [|done..]. by intros [= _ <- _].
Qed.

Lemma drop_previous_saved secret previous now d r d' : drop_previous secret previous now d = (r, d') → saved d' = saved d.
Proof.
  unfold drop_previous. case_bool_decide; [by intros [= _ <-]|]. rewrite call_run.
  destruct (read_session secret now previous d) as [[p|e] d1] eqn:Hr; apply read_session_kept in Hr as [_ Hr]; [|by intros [= _ <-]].
  intros Hd%app_update_saved. congruence.
Qed.

Definition login_body (secret : string) (previous : string) (now : Z) (token_id : string) (row : SessionRow) : call AppDb unit :=
  _ ← app_execute (app_update (delete_expired now));
  _ ← drop_previous secret previous now;
  app_execute (app_update (insert_session token_id row)).

Lemma login_body_run secret previous now token_id row d r d' :
  login_body secret previous now token_id row d = (r, d') →
  saved d' = saved d ∧ (r = Ok tt → sessions (tables d') !! token_id = Some row).
Proof.
  unfold login_body. rewrite call_run. destruct (app_execute (app_update (delete_expired now)) d) as [[x|e] d1] eqn:H1;
    apply app_update_saved in H1; [|by intros [= <- <-]]. rewrite call_run.
  destruct (drop_previous secret previous now d1) as [y d2] eqn:H2. apply drop_previous_saved in H2.
  destruct y as [y|e]; [|intros [= <- <-]; by split; [congruence|]].
  intros H3. pose proof (app_update_saved _ _ _ _ H3) as Hs3. split; [congruence|]. intros ->.
  apply app_execute_update in H3. unfold insert_session in H3. apply bind_Ok in H3 as (? & _ & H3). apply bind_Ok in H3 as (? & _ & H3).
  injection H3 as <-. apply lookup_insert_eq.
Qed.

(** C40: a session lives from its login until it expires or ends. Once [login]
    has opened a session, its token shows the user and the claims of that login,
    with its value against forgery, as long as the row of the session stands and
    the token is not older than the lifetime; afterwards, or without the row, it
    is refused; and logging out with it removes the row. *)
Theorem session_lifecycle secret lifetime user previous nonce token_id created now d token claims value d1 :
  0 < user < 2 ^ 63 → saved d = None → token ≠ "" → (str_len token <= 4096)%nat →
  open_session secret lifetime user previous nonce token_id created now d = (Ok (token, claims, value), d1) →
  value = new_csrf secret nonce ∧ csrf claims = value ∧
  (∀ t u d2, created <= t < created + lifetime → faults d2 = [] →
     sessions (tables d2) !! token_id = sessions (tables d1) !! token_id →
     snd <$> list_find (λ v, user_row_id v = user) (users (tables d2)) = Some u →
     read_session secret t token d2 = (Ok (u, claims), d2)) ∧
  (∀ t d2, created + lifetime <= t → (read_session secret t token d2).1 = Raise unauthorized) ∧
  (∀ t d2, created <= t < created + lifetime → faults d2 = [] → sessions (tables d2) !! token_id = None →
     read_session secret t token d2 = (Raise unauthorized, d2)) ∧
  (∀ t frontend r d2 d3, created <= t → session_cookie r = token → logout secret frontend t r d2 = (Ok tt, d3) →
     sessions (tables d3) !! token_id = None).
Proof.
  intros Hu Hsaved Hne Hlen. unfold open_session. destruct (create_token _ _ _ _ _ _) as [token' c] eqn:Hc. rewrite call_run.
  destruct (app_transaction _ d) as [[[]|e] d1'] eqn:Ht; [|done]. intros Heq. injection Heq as -> -> <- ->.
  destruct (created_token _ _ _ _ _ _ _ _ 0 Hu Hc) as (Hv & Hj & He & Hsub & _).
  pose proof (λ t, proj1 (proj2 (proj2 (proj2 (proj2 (created_token _ _ _ _ _ _ _ _ t Hu Hc)))))) as Hlive.
  pose proof (λ t, proj2 (proj2 (proj2 (proj2 (proj2 (created_token _ _ _ _ _ _ _ _ t Hu Hc)))))) as Hdead.
  set (value := new_csrf secret nonce) in *.
  assert (sessions (tables d1) !! token_id = Some (MkSessionRow user (csrf_digest value) (exp claims))) as Hrow.
  { change (app_transaction (login_body secret previous now (jti claims) (MkSessionRow user (csrf_digest value) (exp claims))) d = (Ok tt, d1)) in Ht.
    apply app_transaction_atomic in Ht as [_ [(e & ? & _)|([] & da & db & Hb & _ & -> & _)]]; [done| |by intros ? ? ? Hb; apply login_body_run in Hb as [? _]|done].
    rewrite <- Hj. by apply login_body_run in Hb as [_ Hb]; apply Hb. }
  split_and!; [done|done| | | |].
  - intros t u d2 Ht2 Hf Hs Hfind. rewrite (read_session_clean secret t token d2 claims) by (done || by apply Hlive).
    rewrite Hj, Hs, Hrow. cbn [session_user expires_at csrf_hash]. rewrite Hsub, !Z.eqb_refl, Hv, digest_same. cbn [negb orb]. by rewrite Hfind.
  - intros t d2 Ht2. unfold read_session, lift. rewrite call_run.
    rewrite bool_decide_eq_false_2, (proj2 (Nat.ltb_ge _ _)) by done. cbn [orb raise_if]. rewrite call_run, Hdead by done. reflexivity.
  - intros t d2 Ht2 Hf Hs. rewrite (read_session_clean secret t token d2 claims) by (done || by apply Hlive). by rewrite Hj, Hs.
  - intros t frontend r d2 d3 Ht2 Hr. unfold logout. rewrite call_run. destruct (require_csrf secret frontend t r d2) as [[u|e] da]; [|done].
    rewrite call_run, Hr. destruct (read_session secret t token da) as [[[v c']|e] db] eqn:Hread; [|done].
    apply read_session_decodes in Hread. intros Hdel%app_execute_update. injection Hdel as <-. cbn [snd].
    assert (c' = claims) as ->.
    { destruct (Z.lt_ge_cases t (created + lifetime)); [|rewrite Hdead in Hread by done; done]. rewrite Hlive in Hread by done. congruence. }
    rewrite Hj. apply lookup_delete_eq.
Qed.
End lifecycle.

(** ** Witnesses *)

Section witnesses.

(** A readable token: the secret and the claims, each with its end marked. *)
Fixpoint mark (s : string) : string :=
  match s with String a r => String "x" (String a (mark r)) | EmptyString => "y" end.
Fixpoint unmark (s : string) : option (string * string) :=
  match s with
  | String "x" (String a r) => p ← unmark r; Some (String a p.1, p.2)
  | String "y" r => Some ("", r)
  | _ => None
  end.

Lemma unmark_mark s r : unmark (mark s +:+ r) = Some (s, r).
Proof. induction s as [|a s IH]; [done|]. cbn [mark]. rewrite !str_app_cons. cbn [unmark]. by rewrite IH. Qed.

Definition toy_encode (c : RawClaims) (secret : string) : string :=
  match raw_sub c, raw_jti c, raw_iat c, raw_exp c, raw_csrf c with
  | JStr s, JStr j, JInt i, JInt x, JStr v =>
      mark secret +:+ mark s +:+ mark j +:+ mark (str_of_int i) +:+ mark (str_of_int x) +:+ mark v
  | _, _, _, _, _ => ""
  end.
Definition toy_decode (token secret : string) (now : Z) : option RawClaims :=
  k ← unmark token; s ← unmark k.2; j ← unmark s.2; i ← unmark j.2; x ← unmark i.2; v ← unmark x.2;
  if bool_decide (k.1 = secret) && (int_of_decimal i.1 <=? now) && (now <? int_of_decimal x.1)
  then Some (MkRaw (JStr s.1) (JStr j.1) (JInt (int_of_decimal i.1)) (JInt (int_of_decimal x.1)) (JStr v.1)) else None.

#[local] Instance toy_jwt : JwtLib := {| jwt_encode := toy_encode; jwt_decode := toy_decode |}.

Lemma toy_reads c secret now :
  toy_decode (toy_encode (raw c) secret) secret now = if (iat c <=? now) && (now <? exp c) then Some (raw c) else None.
Proof.
  unfold toy_decode, toy_encode. cbn [raw raw_sub raw_jti raw_iat raw_exp raw_csrf].
  rewrite unmark_mark. cbn [mbind option_bind snd fst]. do 4 (rewrite unmark_mark; cbn [mbind option_bind snd fst]).
  rewrite <- (str_app_nil_r (mark (csrf c))), unmark_mark. cbn [mbind option_bind snd fst].
  by rewrite bool_decide_eq_true_2, !int_of_str_of_int.
Qed.

#[local] Instance toy_jwt_laws : JwtLaws toy_jwt.
Proof.
  constructor; intros c secret now Ht; change (jwt_decode _ _ _) with (toy_decode (toy_encode (raw c) secret) secret now); rewrite toy_reads.
  - by rewrite (proj2 (Z.leb_le _ _)), (proj2 (Z.ltb_lt _ _)) by lia.
  - by rewrite (proj2 (Z.ltb_ge now (exp c))), andb_false_r by lia.
Qed.

Definition auth_user : UserRow := MkUser 1 "alice@example.org" "alice" "hash" 0.
Definition auth_db : AppDb := MkAppDb (MkAppTables [auth_user] [] ∅ ∅ ∅ 1) None [].
Definition auth_nonce : string := sha256_hex [Byte.x01].
Definition auth_login : result (string * Claims * string) * AppDb := open_session "secret" 3600 1 "" auth_nonce "id-1" 1000 1000 auth_db.

(** A session read half an hour after its login. *)
Lemma session_lifecycle_witness : ∃ token claims value d1,
  auth_login = (Ok (token, claims, value), d1) ∧ read_session "secret" 2800 token d1 = (Ok (auth_user, claims), d1) ∧
  (read_session "secret" 4600 token d1).1 = Raise unauthorized.
Proof.
  assert (match auth_login with
          | (Ok (token, _, _), d1) => negb (bool_decide (token = "")) && (str_len token <=? 4096)%nat && bool_decide (faults d1 = [])
              && match users (tables d1) with [u] => (user_row_id u =? 1) && bool_decide (email u = "alice@example.org") | _ => false end
          | _ => false end = true) as H by (vm_compute; reflexivity).
  assert (users (tables auth_login.2) = [auth_user]) as Husers by (vm_compute; reflexivity).
  destruct auth_login as [[[[token claims] value]|e] d1] eqn:Hl; [|discriminate H].
  apply andb_true_iff in H as [[[H1 H2]%andb_true_iff H3]%andb_true_iff _]. cbn [snd] in Husers.
  apply negb_true_iff, bool_decide_eq_false in H1. apply Nat.leb_le in H2. apply bool_decide_eq_true in H3.
  destruct (session_lifecycle "secret" 3600 1 "" auth_nonce "id-1" 1000 1000 auth_db token claims value d1
    ltac:(lia) eq_refl H1 H2 Hl) as (_ & _ & Hlive & Hdead & _).
  exists token, claims, value, d1. split; [reflexivity|]. split.
  - apply Hlive; [lia|exact H3|reflexivity|]. rewrite Husers. reflexivity.
  - apply Hdead. lia.
Defined.

Import LoginGuard.

(** Five attempts on an account in a minute; the sixth is refused. *)
Definition guesses : list GuardAction := map (λ n, Attempt "10.0.0.7" "alice" (inject_Z n)) [1; 2; 3; 4; 5].

Lemma login_attempts_bounded_witness :
  (check "10.0.0.7" "alice" 6 (guard_run guesses new_guard).2).1 = Raise (APIError 429 "LOGIN_RATE_LIMITED").
Proof.
  pose proof (login_attempts_bounded 0 guesses "10.0.0.7" "alice" 6) as H.
  assert (length (let_through ("account", sha256_hex (utf8_encode "alice")) (6 - 60) (guard_run guesses new_guard).1) = 5%nat)
    as Hlen by (vm_compute; reflexivity).
  destruct (guard_run guesses new_guard) as [log g]. cbn [fst snd] in *. apply H.
  - cbn. repeat split; discriminate.
  - intros [Ha _]. destruct (Ha ("account", sha256_hex (utf8_encode "alice")) 5) as [Hlt _].
    + right. left.
    + rewrite Hlen in Hlt. discriminate Hlt.
Defined.
End witnesses.
