(* ===== verification/ApiTheorems.v ===== *)
(** * What the API guarantees around its services

    A configuration that is constructed satisfies the policy that its validators
    state, and its seeds are what the node's own configuration accepts.  The
    websocket manager accounts for every connection, and a broadcast reaches
    every client that can take it. *)

From Stdlib Require Import QArith Strings.Ascii.
From coqutil Require Import Datatypes.RecordSetters.
Import DoubleBraceUpdate.
From S2P Require Import Prelude Bytes Json JsonParse JsonFacts Crypto Transaction Utxo Sample Block Blockchain.
From S2P Require Import Database Storage NetConfig ConfigFacts Effects Peer PeerManager NodeState Node SampleNode.
From S2P Require Import Services ApiConfig WsManager WsManagerFacts.
#[local] Open Scope string_scope.
#[local] Open Scope Z_scope.

(** The check for a wildcard is made before the slashes are removed. *)
Lemma wildcard_origin : validate_origin "*/" = Ok "*" ∧ validate_origin "*" = Raise ValueError.
Proof. split; reflexivity. Qed.

(** C26: A configuration that [ApiConfig] constructs has its ports between 0 and
    65535, every quota and every duration positive, and the lifetime of a session
    between a minute and a day; its seeds are distinct, each the text of an
    endpoint that the node's policy accepts, and the lifespan reads exactly these
    endpoints back from the text; and the admin routes are enabled only in demo
    mode with an admin token that is not blank and is printable. *)
Theorem api_config_accepts (c : ApiConfig) (seeds : json) (c' : ApiConfig) :
  api_config c seeds = Ok c' →
  0 <= api_port c' <= 65535 ∧ 0 <= node_port c' <= 65535 ∧
  Forall (λ q, 0 < q) (quotas c') ∧ Forall (λ d, (0 < d)%Q) (api_durations c') ∧
  60 <= session_seconds c' <= 86400 ∧
  (∃ checker es, node_config default_config = Ok checker ∧ node_seeds c' = map endpoint_text es ∧ NoDup es ∧
     Forall (λ e, config_validate_endpoint checker e = Ok e) es ∧ seed_endpoints (node_seeds c') = Ok es) ∧
  (enable_admin_routes c' = true →
     demo_mode c' = true ∧ ∃ t, admin_token c' = Some t ∧ strip t ≠ "" ∧ str_forall is_printable t = true).
Proof.
  intros (checker & cleaned & Hch & Hseeds & Hc & Hses & (_ & Hp & Hn & Hq & Hd & Ha)%validate_overall_Ok & Ht)%api_config_Ok.
  unfold parse_seeds in Hseeds. apply bind_Ok in Hseeds as (items & _ & Hseeds).
  rewrite Hch in Hseeds. cbn [mbind result_bind] in Hseeds.
  destruct (clean_seeds_Ok checker items [] cleaned Hseeds) as (es & -> & Hnd & Hgood); [constructor..|].
  split_and!; try (done || lia).
  - exists checker, es. split_and!; try done.
    + by eapply NoDup_fmap_1.
    + rewrite Hc. by eapply seed_endpoints_Ok.
  - intros Hen. destruct (Ha Hen) as (Hdemo & t & Htok & Hblank). split; [done|].
    exists t. rewrite Htok in Ht. by destruct Ht.
Qed.

(** The defaults, with the admin routes and two seeds. *)
Definition sample_api : ApiConfig :=
  default_api {{ enable_admin_routes := true; admin_token := Some "s3cret!" }}.

Lemma api_config_accepts_witness :
  ∃ c', api_config sample_api (JStr "127.0.0.1:5001, 127.0.0.2:5001") = Ok c' ∧
    node_seeds c' = ["127.0.0.1:5001"; "127.0.0.2:5001"] ∧ demo_mode c' = true.
Proof.
  assert (match api_config sample_api (JStr "127.0.0.1:5001, 127.0.0.2:5001") with
          | Ok c' => bool_decide (node_seeds c' = ["127.0.0.1:5001"; "127.0.0.2:5001"]) && enable_admin_routes c'
          | Raise _ => false end = true) as H by (vm_compute; reflexivity).
  destruct (api_config sample_api (JStr "127.0.0.1:5001, 127.0.0.2:5001")) as [c'|e] eqn:Hc; [|discriminate H].
  apply andb_true_iff in H as [H1 H2]. exists c'. split_and!; [done|by apply bool_decide_eq_true in H1|].
  apply (api_config_accepts _ _ _ Hc). exact H2.
Defined.

(** ** Websockets *)

Section websockets.
Context {EL : EcdsaLib} {CS : ChainStore}.

(** C30: whatever connections, messages, failures and cancellations interleave,
    the reservations of the websocket manager are exactly those of the handlers
    that have not released theirs: the total and the count of every address are
    the numbers of such handlers, within their limits, every client belongs to
    one, and the queue of a client is bounded.  Once all handlers are gone,
    nothing is counted. *)
Theorem ws_reservations_exact (c : ApiConfig) m :
  Forall (λ q, 0 < q) (quotas c) → rtc (ws_step c) new_ws_manager m →
  total_reserved m = Z.of_nat (length (handlers m)) ∧ total_reserved m <= ws_max_clients c ∧
  (∀ ip, ip_count m ip = count_ip ip (ips (handlers m)) ∧ ip_count m ip <= ws_max_clients_per_ip c) ∧
  (∀ k s, dict_get (clients m) k = Some s → is_Some (dict_get (handlers m) k) ∧
     Z.of_nat (length (queue s)) <= ws_client_queue_size c) ∧
  (handlers m = [] → total_reserved m = 0 ∧ ip_counts m = ∅ ∧ clients m = []).
Proof.
  intros Hq Hm. unfold quotas in Hq. rewrite !Forall_cons in Hq. destruct Hq as (_ & _ & _ & _ & H1 & H2 & _ & H3 & _).
  pose proof (ws_steps_inv c _ _ H3 Hm (new_ws_inv c H1 H2)) as Hinv. pose proof Hinv as [Hk Ht Hc Hl Hli Hcl Ho Hr Hqs].
  split_and!; try done.
  - intros ip. rewrite (ip_count_spec c m ip Hinv). done.
  - intros k s Hg%dict_get_elem. split.
    + destruct (Ho k) as (ip & a & Ha & _); [|by eexists]. apply list_elem_of_fmap. by exists (k, s).
    + rewrite Forall_forall in Hqs. exact (Hqs _ Hg).
  - intros Hnil. rewrite Hnil in *. split_and!; [done| |].
    + apply map_eq. intros ip. by rewrite Hc, lookup_empty.
    + destruct (clients m) as [|[k s] l]; [done|]. destruct (Ho k) as (ip & a & Ha & _); [by left|done].
Qed.

(** C31: a broadcast that returns has reached every client: an open client has
    the message at the end of its queue if the queue had room, or if a frequent
    message at the head of the full queue could be dropped for it; a frequent
    message is dropped at a full queue; otherwise the client is disconnected as
    too slow; closed clients are left alone.  The only error is an
    [AttributeError], which a critical message raises exactly when the full
    queue of some open client starts with the text of a pong; the clients after
    the first such client then do not get the message. *)
Theorem broadcast_exact (c : ApiConfig) m type payload e m' :
  Forall (λ q, 0 < q) (quotas c) → rtc (ws_step c) new_ws_manager m → broadcast_message c type payload m = (e, m') →
  match e with
  | None => Forall2 (λ p p', p.1 = p'.1 ∧ delivered c type (WsMessage type payload) p.2 p'.2) (clients m) (clients m')
  | Some e => e = AttributeError ∧ droppable type = false ∧ ∃ before k s s' after before',
      clients m = (before ++ (k, s) :: after)%list ∧ clients m' = (before' ++ (k, s') :: after)%list ∧ blocked c s ∧
      Forall2 (λ p p', p.1 = p'.1 ∧ delivered c type (WsMessage type payload) p.2 p'.2) before before'
  end.
Proof.
  intros Hq Hm. unfold quotas in Hq. rewrite !Forall_cons in Hq. destruct Hq as (_ & _ & _ & _ & H1 & H2 & _ & H3 & _).
  pose proof (ws_steps_inv c _ _ H3 Hm (new_ws_inv c H1 H2)) as Hinv. unfold broadcast_message.
  pose proof (deliver_all_spec c type (WsMessage type payload) (clients m) H3 (ws_queues _ _ _ _ _ Hinv)) as Hd.
  destruct (deliver_all _ _ _ _) as [e1 l]. intros [= <- <-]. change (clients (m {{ clients := l }})) with l. by destruct e1, Hd as (_ & _ & ?).
Qed.
End websockets.

#[local] Existing Instance sqlite_store.

(** Two clients, with queues of one message; the first has only a pong. *)
Definition ws_api : ApiConfig := default_api {{ ws_client_queue_size := 1 }}.
Definition ws_actions : list WsAction :=
  [WsStarted; WsConnected 0 None None; WsConnected 1 None None; WsGreeted 0 (ServedBy running_node) 0;
   WsGreeted 1 (ServedBy running_node) 0; WsTakes 0; WsTakes 1; WsRead 0 (GotText "ping") 1].

Definition ws_run (l : list WsAction) : option WsManager := foldl (λ m a, m ≫= ws_act ws_api a) (Some new_ws_manager) l.

Lemma ws_run_steps l m : ws_run l = Some m → rtc (ws_step ws_api) new_ws_manager m.
Proof.
  unfold ws_run. generalize new_ws_manager. induction l as [|a l IH]; intros m0; cbn [foldl]; [by intros [= ->]|].
  destruct (ws_act ws_api a m0) as [m1|] eqn:Ha; cbn [mbind option_bind].
  - rewrite Ha. intros Hm. eapply rtc_l; [by exists a|by apply IH].
  - rewrite Ha. intros Hm. exfalso. clear -Hm. induction l as [|b l IH]; [discriminate Hm|]. by apply IH.
Qed.

Lemma ws_api_quotas : Forall (λ q, 0 < q) (quotas ws_api).
Proof. repeat constructor. Qed.

(** Two handlers hold two slots of the same address. *)
Lemma ws_reservations_exact_witness :
  ∃ m, ws_run ws_actions = Some m ∧ total_reserved m = 2 ∧ ip_count m "127.0.0.1" <= ws_max_clients_per_ip ws_api.
Proof.
  assert (match ws_run ws_actions with Some m => total_reserved m =? 2 | None => false end = true) as H by (vm_compute; reflexivity).
  destruct (ws_run ws_actions) as [m|] eqn:Hm; [|discriminate H]. apply Z.eqb_eq in H.
  destruct (ws_reservations_exact ws_api m ws_api_quotas (ws_run_steps _ _ Hm)) as (_ & _ & Hip & _).
  exists m. split_and!; [reflexivity|exact H|]. apply Hip.
Defined.

(** The pong of the first client keeps the message from both. *)
Lemma broadcast_exact_witness :
  ∃ m m', ws_run ws_actions = Some m ∧ broadcast_message ws_api "block_found" [] m = (Some AttributeError, m') ∧
    ∃ before k s after, clients m = (before ++ (k, s) :: after)%list ∧ blocked ws_api s.
Proof.
  assert (match ws_run ws_actions with
          | Some m => bool_decide ((broadcast_message ws_api "block_found" [] m).1 = Some AttributeError)
          | None => false end = true) as H by (vm_compute; reflexivity).
  destruct (ws_run ws_actions) as [m|] eqn:Hm; [|discriminate H]. apply bool_decide_eq_true in H.
  destruct (broadcast_message ws_api "block_found" [] m) as [e m'] eqn:Hb. cbn in H. subst e.
  destruct (broadcast_exact ws_api m "block_found" [] _ m' ws_api_quotas (ws_run_steps _ _ Hm) Hb)
    as (_ & _ & before & k & s & s' & after & before' & Hc & _ & Hbl & _).
  exists m, m'. split_and!; [reflexivity|exact Hb|]. by exists before, k, s, after.
Defined.
